(* ===== verification/_CoqProject ===== *)
-Q . S2P
Prelude.v
GoStrings.v
GoTime.v
Lifecycle.v
ExitTracker.v
ProcessState.v
GuestTask.v
GuestExitOrder.v
CpuHotplug.v
MemHotplug.v
QmpHotplug.v
VsockAlloc.v
VmManager.v
Resources.v
QemuCmd.v
QemuInstance.v
HostConns.v
MountUtil.v
Config.v
DiskMounts.v
ShimTask.v
ShimRun.v
ShimService.v
ShimIO.v
ShimManager.v
Network.v
NetworkSetup.v
NetworkFlight.v
Bundle.v
GuestSupervisor.v
GuestDevices.v
GuestSystem.v
GuestClients.v
GuestInit.v
VMInit.v
Streams.v
GuestCopy.v
GuestIO.v
GuestRuntime.v
