(* ===== verification/Prelude.v ===== *)
(** * Verification of the spinbox VM runtime (shim, VM backend, guest init)

    spinbox runs every container in a QEMU/KVM virtual machine of its own.
    On the host, a containerd shim (internal/shim) drives the life of one
    container: a state machine decides which requests are allowed, a VM
    manager creates and dials the VM, a connection manager owns the client
    connection into the VM, two controllers plug and unplug vCPUs and memory,
    and a cleanup orchestrator takes everything down in a fixed order.  The VM
    backend (internal/host/vm/qemu) starts QEMU; vsock addresses of the VMs
    come from an allocator shared by all shims of the host
    (internal/vsock).  Inside the VM, vminitd (internal/guest/vminit) runs the
    container's processes and reports their exits.

    ** Files

    - Prelude.v (this file): Go errors and results, panics as values
      ([outcome]), a state monad with panics [M], 64-bit wrap-around, IEEE
      doubles, times and durations, tactics and hint databases, list lemmas.
    - GoStrings.v: the functions of Go's strings, strconv, fmt and
      path/filepath packages that the code uses, with their lemmas.
    - Lifecycle.v: [StateMachine] is internal/shim/lifecycle/state.go (each
      operation one atomic step), [Cleanup] is cleanup.go and errors.go.
    - ExitTracker.v: internal/guest/vminit/task/exit_tracker.go (early-exit
      detector, exit coordinator, process registry).
    - ProcessState.v: internal/guest/vminit/process/state.go and the
      operations of init.go, exec.go and utils.go that drive it.
    - GuestTask.v: the handlers of internal/guest/vminit/task (service.go,
      lifecycle.go, exec.go, events.go), the containers of
      internal/guest/vminit/runc, and the creation of the init process; it
      uses ExitTracker.v and ProcessState.v.
    - GuestExitOrder.v: what the guest's service as a whole promises about the
      order of exit events, on top of GuestTask.v.
    - CpuHotplug.v, MemHotplug.v: internal/shim/cpuhotplug/controller.go and
      internal/shim/memhotplug/controller.go.
    - VsockAlloc.v: internal/vsock/allocator.go.
    - VmManager.v: internal/shim/lifecycle/vm.go with [NewInstance] of
      internal/host/vm/qemu/instance.go, and, as [ConnManager],
      internal/shim/task/connmanager.go.
    - Resources.v: internal/shim/resources/config.go and
      [validateResourceConfig] of internal/host/vm/qemu/instance.go.
    - QmpHotplug.v: the QMP client, internal/host/vm/qemu/qmp_client.go,
      qmp_cpu.go and qmp_memory.go, as an implementation of the interfaces of
      the two controllers.
    - QemuCmd.v: the command lines of QEMU and of the guest kernel
      (qemu_command.go, kernel_cmdline.go, parts of start.go and utils.go) and
      the data of an instance.
    - QemuInstance.v: construction, start with its roll-back and shutdown of
      an instance (instance.go, start.go, shutdown.go, devices.go, client.go,
      streaming.go), which uses VsockAlloc.v, Resources.v and QemuCmd.v.
    - ShimTask.v: the shim's task service, internal/shim/task/service.go and
      create.go, with the start of the hotplug controllers
      (shim/resources/hotplug.go), the files of a bundle (shim/bundle) and, as
      [Supervisor], shim/supervisor/supervisor.go; it uses Lifecycle.v,
      VmManager.v, the two controllers, Resources.v and QemuCmd.v.  A
      handler is one step; the guest, the forwarders, mounts and network are
      an interface ([TaskOps]).
    - ShimRun.v: which resources the service holds ([held], [owned]), the
      invariant [Inv] that ties the two, and the lemmas on clean-up, shutdown
      and deletion.  ShimService.v: the handlers keep the invariant, and what
      follows for creation, deletion and shutdown.
    - ShimIO.v: internal/shim/task/io.go, with the goroutines that copy as
      lists of steps that are run in any order.
    - MountUtil.v: internal/host/mountutil/mount.go, which the guest runs to
      mount the components of a root file system.
    - DiskMounts.v: internal/shim/platform/mounts/linux.go, which turns the
      mounts of a snapshot into disks of the VM and mounts for the guest, and
      internal/host/erofs/vmdk.go; it uses QemuInstance.v and MountUtil.v.
    - Network.v: internal/host/network with its package cni, and
      internal/shim/platform/network/linux.go; [NetworkManager] is the
      interface between the two.  NetworkSetup.v: what its operations leave
      behind, for one caller; NetworkFlight.v: the manager's in-flight tables
      under any number of concurrent callers.
    - GoTime.v: time.ParseDuration.  Config.v: internal/config,
      internal/paths and the part of shim/resources/hotplug.go that configures
      the controllers.
    - Bundle.v: internal/shim/bundle and internal/shim/transform ([Bundle]),
      internal/guest/services/bundle.go ([GuestBundle]) and the file system of
      the guest with its failures ([GuestFS]).
    - GuestSupervisor.v: internal/guest/vminit/supervisor and the goroutine of
      cmd/vminitd that starts the supervisor; it reads the command line of
      QemuCmd.v and looks into the file system of Bundle.v.
    - GuestDevices.v: internal/guest/vminit/devices/blockdev.go over the
      interface to the kernel [GuestOS]; GuestSystem.v: the handlers of
      internal/guest/services/system.go over the same interface.
    - GuestClients.v: internal/shim/resources/vmclient.go, the calls of the
      controllers to the handlers of GuestSystem.v.
    - GuestInit.v: the flags of vminitd (internal/guest/vminit/config) and the
      set-up of the guest (internal/guest/vminit/system), over the interface of
      GuestDevices.v and a record of every call that changes the system.
      VMInit.v: cmd/vminitd and internal/guest/vminit/service, from the flags to
      the power-off, and the events service of internal/guest/vminit/events.
    - HostConns.v: [DialClient] of internal/host/vm/qemu/client.go with its
      goroutine, and the life of the QMP client (qmp_client.go, qmp_events.go)
      with its event loop and concurrent calls of [Close].
    - GuestRuntime.v: the choice of the OCI runtime and the options file
      (internal/guest/vminit/runc/container.go), the last error in its log
      (process/utils.go) and the list of processes (task/exec.go).
    - ShimManager.v: internal/shim/manager, which starts and stops shims.
    - Streams.v: [StartStream] of internal/host/vm/qemu/streaming.go and
      internal/guest/vminit/streaming as one system of goroutines.
    - GuestCopy.v: [copyPipes] of internal/guest/vminit/process/io.go with the
      process, its goroutines and the bytes they copy, as steps in any order.
      GuestIO.v: the rest of io.go ([createIO], the logging binary) and the
      consoles of internal/guest/vminit/runc/platform.go, by the files and
      processes they hold when system calls fail.

    ** Correspondence

    A struct is a record with the source's fields, an operation a function on
    the record with the source's name, in the order of the source's statements
    and with its guards and early returns.  What is outside the repository
    (QEMU, the OCI runtime, the guest's kernel, the file system, the clock)
    is an environment: a record or a class of operations on an arbitrary world
    type [W], with the laws the code relies on in a second class
    ([CPULaws], [MemLaws], [QemuCPU], [QemuMem], [ResLaws],
    [ClockLaws], [QClock], [Laws], [SysfsLaws]) wherever a theorem needs
    any; the witnesses instantiate worlds and laws with concrete functions
    (the [Demo] modules at the end of the files).  A method that holds a
    mutex from start to end is one step; where a method takes a lock more than
    once the steps are separate and theorems quantify over what happens
    between them ([NotifyExit] and [HandleStart] of the exit tracker, the
    waiting goroutines of [handleInitExit]).  Objects that are shared by
    pointer (processes, containers, subscriptions, channels) live in heaps and
    are referred to by their addresses.  Machine integers are [Z] with
    [wrap64], [wrapu32] and so on where the source can overflow; percentages
    are binary64 floats ([SpecFloat]).  Go maps are [gmap]s.  Logging, metrics
    and contexts that are only passed on are left out.

    ** What the theorems show

    - Guest: the exit of a container's init process is published last on every
      run in which execs start cleanly, and the ways in which this order is lost
      (an exec that exits before it is registered, an exec that is started
      twice, an exit between the critical sections of [HandleStart]); what the
      early-exit detector guarantees on every interleaving; the process state
      machines never panic, move forward only and record one exit, except for
      a restarted exec; creating a container leaks nothing on any failure.
    - Shim: the state machine is monotone and creation is exclusive on every
      interleaving; cleanup runs every pending phase exactly once, in order,
      whatever fails; one VM per manager, dialing terminates, every client
      connection is closed or handed over once.
    - Hotplug: on any number of ticks with any behaviour of QEMU and of the
      guest that the laws allow, the VM stays between its boot and maximum size,
      and one tick changes at most one vCPU or DIMM.
    - vsock: leases are exclusive among all processes of a host under
      file-system failures, allocation finds the first available CID and
      respects the cool-down.
    - Resources: the configuration computed from any OCI spec and host is
      consistent, alignment is the least multiple, cpuset parsing inverts
      printing.
    - VM backend: starting is all or nothing and shutting down releases
      everything, with the CID lease released only after QEMU's exit; the
      NICs of the command line name the descriptors of their own TAP files;
      the guest's init gets its arguments back.  The QMP client keeps the
      laws that the controllers are proved against ([CPULaws], [MemLaws]) if
      QEMU answers its commands truthfully and an accepted [device_del] has
      taken place when it is answered (QEMU may complete it later).
    - Task service: on every run what is held is what the state names; shutdown
      and deletion leave nothing behind; creation is all or nothing but for the
      VM; where creation, deletion and exec leave something behind or wedge the
      shim.  Forwarded I/O ends and closes everything in every interleaving,
      but for a file as stdout without a stderr.
    - Root file system: the template substitution equals a reference
      semantics; mounting is all or nothing; the mounts the host sends name the
      disks it gave to QEMU, and mounting them in the guest gives the overlay of
      the layers in order.
    - Network: set-up for a VM is all or nothing, teardown takes every step and
      reports exactly what failed; on every interleaving one goroutine at a time
      sets a container up and the others get its outcome; a stale look at the
      cache lets a second set-up take down a running container's network.
    - Configuration: what is loaded is well formed and starts both controllers in
      their invariants; an interval of zero is accepted and panics.
    - Bundles: a bundle arrives in the guest with exactly the files and the
      adapted spec the host made; creating it is all or nothing under file system
      failures and touches nothing else.
    - Guest services: waits for devices and sysfs files end and tell the truth;
      the hotplug handlers change exactly what they report, but are asked for the
      wrong memory blocks; the parser of inotify events inverts the kernel's
      layout.  The supervisor's configuration is read back from the kernel
      command line; its binary is never found.
    - Boot: the network configuration and the addresses of the VM come out of the
      kernel command line as the shim put them in, so that the guest listens where
      the host connects; booting ends and fails exactly for what it cannot do
      without.
    - Shim manager: starting a shim takes all or nothing, but for a thread that
      cannot leave its mount namespace; stopping kills the process that was
      started.
    - Host connections: a dialed connection is handed out or closed, unless the
      caller stopped waiting; the QMP monitor is disconnected once however many
      callers close it, events are handled in order, and the loop ends.
    - Streams: what [StartStream] returns is what the guest finds under the
      identifier, in every interleaving; shutting the service down while a stream
      is open deadlocks.
    - Process I/O: no output of a process is lost when its streams are different,
      in every interleaving, and everything opened is closed; one stream for both
      outputs is closed under the second.  Creating I/O is all or nothing; what
      [Close] does not reach is stated.

    Theorems of kind "error" state behaviour that contradicts a comment or the
    intention of the code, under the exact conditions where it appears.

    ** Bounds and fuel

    Loops over data are structural.  [alloc_loop] of VsockAlloc.v takes one
    unit of fuel per CID, and [maxCID - minCID + 3] is enough unless [maxCID]
    is 2^32 - 1, where the source's loop does not end
    ([Allocate_diverges_at_max]).  [dial_loop] of VmManager.v has as many
    rounds as 20 ms fit into the waiting time plus three, which
    [DialClientWithRetry_terminates] proves sufficient; [rpc_loop] of
    QemuInstance.v has [start_fuel] rounds, one per initial back-off in the ten
    seconds it tries, plus three.  [add_loop] of
    CpuHotplug.v and the slot loops of MemHotplug.v run over the identifiers
    below the maximum, as in the source.  The monitor loops take the number of
    ticks as an argument and the theorems hold for all of them.  The extents of
    a VMDK device need [extent_fuel] rounds ([extent_fuel_enough]); a call of
    the network manager on its own takes at most nine sections ([call_fuel]).
    Parsing a duration takes a round per byte ([parse_parts_fuel]), parsing
    inotify events likewise.  The waits of the guest ([m_loop]) take a number of
    rounds; more rounds than nanoseconds are left until the deadline are always
    enough ([loop_goes]), and the theorems hold for every such number.

    ** Not modelled

    The bytes that the shim copies and those of consoles, the plug-in registration and start-up of the
    binaries, generated protocol code, and the code that only issues system
    calls (mounts, network namespaces, device nodes).
    Of the task service, the waits before the
    process exits and the goroutine that hands events to containerd are left
    out.  In Network.v the set-up and the teardown of a container are one step
    each between the manager's critical sections.  What else is left is the
    registration of plug-ins with constant arguments, accessors that only return
    a field under its mutex, the encoding of messages by generated and library
    code, the QMP event handlers, which only log, the dump of debugging
    information, and the ioctls that open a TAP device: none of them decides
    anything that a theorem could be about without a model of the library or the
    kernel behind it. *)

From stdpp Require Export base tactics numbers list strings gmap pretty relations.
From Stdlib Require Export ZArith Lia.
From Stdlib Require Import SpecFloat.

#[global] Open Scope Z_scope.

(** ** Go errors

    A Go [error] is either made by [errors.New]/[fmt.Errorf] without [%w]
    ([ErrNew]), a wrapped error ([ErrWrap], [fmt.Errorf] with [%w]), a
    sentinel of the [errdefs], [syscall] and [cni] packages ([ErrSentinel]), or
    an error whose [Is] method accepts a sentinel ([ErrIs]).
    A fallible operation returns [option error] ([None] is Go's [nil]) or
    [result A]. *)

Inductive sentinel :=
  | ErrNotFound | ErrAlreadyExists | ErrFailedPrecondition | ErrUnavailable
  | ErrNotImplemented | ErrInvalidArgument | ErrInternal | ErrCanceled
  | ECONNREFUSED | ECONNRESET | ENODEV | EPIPE
  | ErrNotExist | ErrResourceConflict | ErrIPAMExhausted | ErrNetNSNotFound | ErrIPAMLeak.

Inductive error :=
  | ErrNew (msg : string)
  | ErrSentinel (s : sentinel)
  | ErrWrap (msg : string) (cause : error)
  | ErrIs (s : sentinel) (e : error).

#[global] Instance sentinel_eq_dec : EqDecision sentinel.
Proof. solve_decision. Defined.

#[global] Instance error_eq_dec : EqDecision error.
Proof. solve_decision. Defined.

(** [errors.Is(err, target)] for a sentinel target. *)
Fixpoint errors_Is (e : error) (s : sentinel) : bool :=
  match e with
  | ErrNew _ => false
  | ErrSentinel s' => bool_decide (s' = s)
  | ErrWrap _ e' => errors_Is e' s
  | ErrIs s' e' => bool_decide (s' = s) || errors_Is e' s
  end.

(** The text of an error, [err.Error()]. *)
Definition sentinel_text (s : sentinel) : string :=
  match s with
  | ErrNotFound => "not found"
  | ErrAlreadyExists => "already exists"
  | ErrFailedPrecondition => "failed precondition"
  | ErrUnavailable => "unavailable"
  | ErrNotImplemented => "not implemented"
  | ErrInvalidArgument => "invalid argument"
  | ErrInternal => "internal"
  | ErrCanceled => "context canceled"
  | ECONNREFUSED => "connection refused"
  | ECONNRESET => "connection reset by peer"
  | ENODEV => "no such device"
  | EPIPE => "broken pipe"
  | ErrNotExist => "file does not exist"
  | ErrResourceConflict => "CNI resource conflict"
  | ErrIPAMExhausted => "IPAM pool exhausted"
  | ErrNetNSNotFound => "network namespace not found"
  | ErrIPAMLeak => "IPAM leak detected"
  end.

Fixpoint error_text (e : error) : string :=
  match e with
  | ErrNew m => m
  | ErrSentinel s => sentinel_text s
  | ErrWrap m e' => m +:+ ": " +:+ error_text e'
  | ErrIs _ e' => error_text e'
  end.

(** [strings.Join]. *)
Fixpoint strings_Join (l : list string) (sep : string) : string :=
  match l with
  | [] => ""
  | [s] => s
  | s :: l' => s +:+ sep +:+ strings_Join l' sep
  end.

Inductive result (A : Type) :=
  | Ok (a : A)
  | Err (e : error).
Arguments Ok {A} a.
Arguments Err {A} e.

Definition is_ok {A} (r : result A) : bool :=
  match r with Ok _ => true | Err _ => false end.

(** An operation that may panic. *)
Inductive outcome (A : Type) :=
  | Return (a : A)
  | Panic (msg : string).
Arguments Return {A} a.
Arguments Panic {A} msg.

Definition outcome_bind {A B} (x : outcome A) (f : A → outcome B) : outcome B :=
  match x with Return a => f a | Panic m => Panic m end.
Definition outcome_map {A B} (f : A → B) (x : outcome A) : outcome B :=
  outcome_bind x (λ a, Return (f a)).

(** ** A state monad with panics

    A handler that reads and writes a state [S], returns a value and may
    panic.  [x ← m; k] is sequencing. *)
Definition M (S A : Type) : Type := S → outcome (A * S).
Definition m_ret {S A} (a : A) : M S A := λ s, Return (a, s).
Definition m_bind {S A B} (m : M S A) (f : A → M S B) : M S B :=
  λ s, match m s with Return (a, s') => f a s' | Panic msg => Panic msg end.
Declare Scope m_scope.
Delimit Scope m_scope with m.
Notation "x ← y ; z" := (m_bind y (λ x, z))
  (at level 20, y at level 100, z at level 200, only parsing) : m_scope.
Notation "m ≫= f" := (m_bind m f) (at level 60, right associativity) : m_scope.
Definition m_get {S A} (f : S → A) : M S A := λ s, Return (f s, s).
Definition m_modify {S} (f : S → S) : M S () := λ s, Return (tt, f s).
Definition m_state {S A} (f : S → A * S) : M S A := λ s, Return (f s).
Definition m_panic {S A} (msg : string) : M S A := λ _, Panic msg.

(** [for _, x := range l { f(x) }]. *)
Fixpoint m_for {S A} (f : A → M S ()) (l : list A) : M S () :=
  match l with
  | [] => m_ret tt
  | x :: l' => m_bind (f x) (λ _, m_for f l')
  end.

Lemma m_bind_Return {S A B} (m : M S A) (f : A → M S B) (s s2 : S) (b : B) :
  m_bind m f s = Return (b, s2) ↔ ∃ a s1, m s = Return (a, s1) ∧ f a s1 = Return (b, s2).
Proof.
  unfold m_bind. destruct (m s) as [[a s1]|msg]; naive_solver.
Qed.

(** Weakest preconditions: [wp m Q s] says that [m] started in [s] does not
    panic and that its result and final state satisfy [Q]. *)
Definition wp {S A} (m : M S A) (Q : A → S → Prop) (s : S) : Prop :=
  match m s with Return (a, s') => Q a s' | Panic _ => False end.

Lemma wp_bind {S A B} (m : M S A) (f : A → M S B) Q s :
  wp m (λ a, wp (f a) Q) s → wp (m_bind m f) Q s.
Proof. unfold wp, m_bind. by destruct (m s) as [[a s1]|]. Qed.
Lemma wp_ret {S A} (a : A) (Q : A → S → Prop) s : Q a s → wp (m_ret a) Q s.
Proof. done. Qed.
Lemma wp_get {S A} (f : S → A) (Q : A → S → Prop) s : Q (f s) s → wp (m_get f) Q s.
Proof. done. Qed.
Lemma wp_modify {S} (f : S → S) (Q : () → S → Prop) s : Q tt (f s) → wp (m_modify f) Q s.
Proof. done. Qed.
Lemma wp_mono {S A} (m : M S A) (Q Q' : A → S → Prop) s :
  wp m Q s → (∀ a s', Q a s' → Q' a s') → wp m Q' s.
Proof. unfold wp. destruct (m s) as [[a s1]|]; auto. Qed.
Lemma wp_Return {S A} (m : M S A) (Q : A → S → Prop) s :
  wp m Q s ↔ ∃ a s', m s = Return (a, s') ∧ Q a s'.
Proof. unfold wp. destruct (m s) as [[a s1]|]; naive_solver. Qed.

(** The same with [P] to be shown when [m] panics: [wpp False] is [wp], and
    [wpp True] only speaks of the runs that return. *)
Definition wpp {S A} (P : Prop) (m : M S A) (Q : A → S → Prop) (s : S) : Prop :=
  match m s with Return (a, s') => Q a s' | Panic _ => P end.

Lemma wpp_bind {S A B} P (m : M S A) (f : A → M S B) Q s :
  wpp P m (λ a, wpp P (f a) Q) s → wpp P (m_bind m f) Q s.
Proof. unfold wpp, m_bind. by destruct (m s) as [[a s1]|]. Qed.
Lemma wpp_assoc {S A B C} P (m : M S A) (f : A → M S B) (g : B → M S C) Q s :
  wpp P (m_bind (m_bind m f) g) Q s → wpp P (m_bind m (λ a, m_bind (f a) g)) Q s.
Proof. unfold wpp, m_bind. by destruct (m s) as [[a s1]|]. Qed.
Lemma wpp_ret {S A} P (a : A) (Q : A → S → Prop) s : Q a s → wpp P (m_ret a) Q s.
Proof. done. Qed.
Lemma wpp_panic {S A} (P : Prop) msg (Q : A → S → Prop) s : P → wpp P (m_panic msg) Q s.
Proof. done. Qed.
Lemma wpp_get {S A} P (f : S → A) (Q : A → S → Prop) s : Q (f s) s → wpp P (m_get f) Q s.
Proof. done. Qed.
Lemma wpp_modify {S} P (f : S → S) (Q : () → S → Prop) s :
  Q tt (f s) → wpp P (m_modify f) Q s.
Proof. done. Qed.
Lemma wpp_mono {S A} P (m : M S A) (Q Q' : A → S → Prop) s :
  wpp P m Q s → (∀ a s', Q a s' → Q' a s') → wpp P m Q' s.
Proof. unfold wpp. destruct (m s) as [[a s1]|]; auto. Qed.
Lemma wpp_False {S A} (m : M S A) (Q : A → S → Prop) s :
  wpp False m Q s ↔ ∃ a s', m s = Return (a, s') ∧ Q a s'.
Proof. unfold wpp. destruct (m s) as [[a s1]|]; naive_solver. Qed.
Lemma wpp_True {S A} (m : M S A) (Q : A → S → Prop) s :
  wpp True m Q s ↔ ∀ a s', m s = Return (a, s') → Q a s'.
Proof. unfold wpp. destruct (m s) as [[a s1]|]; naive_solver. Qed.

(** A channel of type [chan struct{}] used as a signal. *)
Inductive chan := NilChan | OpenChan | ClosedChan.

(** The builtin [close]. *)
Definition close (c : chan) : outcome chan :=
  match c with
  | NilChan => Panic "close of nil channel"
  | OpenChan => Return ClosedChan
  | ClosedChan => Panic "close of closed channel"
  end.

#[global] Instance chan_eq_dec : EqDecision chan.
Proof. solve_decision. Defined.

(** ** Machine integers

    Go's [int] is 64 bits wide on the only platform the runtime supports
    (linux/amd64).  Signed arithmetic wraps around. *)

Definition min_int64 : Z := - 2 ^ 63.
Definition max_int64 : Z := 2 ^ 63 - 1.

Definition wrap64 (z : Z) : Z := (z + 2 ^ 63) mod 2 ^ 64 - 2 ^ 63.
Definition wrapu64 (z : Z) : Z := z mod 2 ^ 64.
Definition wrapu32 (z : Z) : Z := z mod 2 ^ 32.

Definition in_int64 (z : Z) : Prop := min_int64 ≤ z ≤ max_int64.

Declare Scope go_scope.
Delimit Scope go_scope with go.
Notation "a +i b" := (wrap64 (a + b)) (at level 50, left associativity) : go_scope.
Notation "a -i b" := (wrap64 (a - b)) (at level 50, left associativity) : go_scope.
Notation "a *i b" := (wrap64 (a * b)) (at level 40, left associativity) : go_scope.
#[global] Open Scope go_scope.

(** [Z.quot]/[Z.rem] are Go's [/] and [%] on signed integers (truncation
    towards zero). *)

(** ** time.Time and time.Duration

    A [time.Time] is a number of nanoseconds from the zero instant of Go
    (1 January of year 1), so [IsZero] is [=? 0].  [Time.Sub] saturates at
    the limits of [time.Duration], an int64. *)

Definition Time := Z.
Definition Duration := Z.

Definition IsZero (t : Time) : bool := t =? 0.
Definition time_Sub (t u : Time) : Duration :=
  Z.max min_int64 (Z.min max_int64 (t - u)).
Definition Nanosecond : Duration := 1.
Definition Microsecond : Duration := 1000.
Definition Millisecond : Duration := 1000000.
Definition Second : Duration := 1000000000.

(** ** float64

    IEEE-754 binary64 as specified by the Standard Library's [SpecFloat]
    (53 bits of precision, maximal exponent 1024), with rounding to nearest
    even as Go prescribes. *)

Definition float64 := spec_float.
Definition f64_of_Z (z : Z) : float64 := binary_normalize 53 1024 z 0 false.
Definition f64_mul : float64 → float64 → float64 := SFmul 53 1024.
Definition f64_div : float64 → float64 → float64 := SFdiv 53 1024.
Definition f64_le : float64 → float64 → bool := SFleb.
Definition f64_lt : float64 → float64 → bool := SFltb.

(** Conversion [int64(f)]: truncation towards zero; a value that does not
    fit gives the "integer indefinite" value of amd64's CVTTSD2SQ. *)
Definition f64_to_int64 (f : float64) : Z :=
  match f with
  | S754_zero _ => 0
  | S754_infinity _ | S754_nan => min_int64
  | S754_finite s m e =>
      let a := if 0 <=? e then Zpos m * 2 ^ e else Zpos m / 2 ^ (- e) in
      let z := if s then - a else a in
      if (min_int64 <=? z) && (z <=? max_int64) then z else min_int64
  end.

(** ** Tactics and hint databases of the development *)

Create HintDb go.
Create HintDb go_rw.

(** Split every [match] and [if] of the goal and the context, and close the
    contradictory branches. *)
Ltac go_cases :=
  repeat (simplify_eq/=; first [case_match | progress simplify_eq/=]); try done.

(** Turn the boolean comparisons of the code into propositions. *)
Ltac bool_to_prop :=
  repeat match goal with
  | H : andb _ _ = true |- _ => apply andb_prop in H as [? ?]
  | H : andb _ _ = false |- _ => apply andb_false_iff in H
  | H : orb _ _ = true |- _ => apply orb_true_iff in H
  | H : orb _ _ = false |- _ => apply orb_false_iff in H as [? ?]
  | H : negb _ = true |- _ => apply negb_true_iff in H
  | H : negb _ = false |- _ => apply negb_false_iff in H
  | H : (_ <=? _) = true |- _ => apply Z.leb_le in H
  | H : (_ <=? _) = false |- _ => apply Z.leb_gt in H
  | H : (_ <? _) = true |- _ => apply Z.ltb_lt in H
  | H : (_ <? _) = false |- _ => apply Z.ltb_ge in H
  | H : (_ =? _) = true |- _ => apply Z.eqb_eq in H
  | H : (_ =? _) = false |- _ => apply Z.eqb_neq in H
  | H : bool_decide _ = true |- _ => apply bool_decide_eq_true in H
  | H : bool_decide _ = false |- _ => apply bool_decide_eq_false in H
  end.

Ltac go_arith := bool_to_prop; lia.

(** ** Lemmas on machine integers *)

Lemma wrap64_id z : in_int64 z → wrap64 z = z.
Proof.
  unfold in_int64, wrap64, min_int64, max_int64. intros H.
  rewrite Z.mod_small; lia.
Qed.

Lemma wrap64_range z : in_int64 (wrap64 z).
Proof.
  unfold in_int64, wrap64, min_int64, max_int64.
  pose proof (Z.mod_pos_bound (z + 2 ^ 63) (2 ^ 64)). lia.
Qed.

Lemma wrapu32_id z : 0 ≤ z < 2 ^ 32 → wrapu32 z = z.
Proof. intros. unfold wrapu32. by rewrite Z.mod_small. Qed.

Lemma wrapu64_id z : 0 ≤ z < 2 ^ 64 → wrapu64 z = z.
Proof. intros. unfold wrapu64. by rewrite Z.mod_small. Qed.

#[export] Hint Resolve wrap64_range : go.

Lemma in_int64_alt z : in_int64 z ↔ - 2 ^ 63 ≤ z < 2 ^ 63.
Proof. unfold in_int64, min_int64, max_int64. lia. Qed.

(** Remove the wrap-arounds whose argument is in range by [lia]. *)
Ltac unwrap64 :=
  repeat match goal with
  | |- context [wrap64 ?z] =>
      rewrite (wrap64_id z) by (unfold in_int64, min_int64, max_int64 in *; lia)
  | H : context [wrap64 ?z] |- _ =>
      rewrite (wrap64_id z) in H by (unfold in_int64, min_int64, max_int64 in *; lia)
  end.

Lemma time_Sub_small t u :
  in_int64 (t - u) → time_Sub t u = t - u.
Proof. unfold in_int64, time_Sub. lia. Qed.

(** ** Lemmas on lists shared by the components *)

Lemma filter_all {A} (P : A → Prop) `{!∀ x, Decision (P x)} (l : list A) :
  Forall P l → filter P l = l.
Proof. induction 1; [done|]. rewrite filter_cons_True; congruence. Qed.

Lemma filter_none {A} (P : A → Prop) `{!∀ x, Decision (P x)} (l : list A) :
  Forall (λ x, ¬ P x) l → filter P l = [].
Proof. induction 1; [done|]. by rewrite filter_cons_False. Qed.

(** ** Iteration over a map with string keys and values

    Go goes through a map in an order of its own, here any permutation. *)

Class MapOrder := {
  map_order : list (string * string) → list (string * string);
  map_order_perm : ∀ l, map_order l ≡ₚ l }.

Lemma map_order_elem `{MapOrder} l (x : string * string) : x ∈ map_order l ↔ x ∈ l.
Proof. by rewrite map_order_perm. Qed.
