(* ===== verification/GoStrings.v ===== *)
(** * The parts of Go's strings, strconv and fmt packages the code uses

    A Go string is a sequence of bytes ([string] of the Standard Library).
    White space and letter case are those of ASCII: the inputs of the modelled
    code (mount options, cpusets, /proc files, error texts) are ASCII. *)

From S2P Require Import Prelude.
From Stdlib Require Import Ascii.

(** ** strings *)

Fixpoint HasPrefix (s prefix : string) : bool :=
  match prefix, s with
  | EmptyString, _ => true
  | String a p', String b s' => Ascii.eqb a b && HasPrefix s' p'
  | String _ _, EmptyString => false
  end.

Fixpoint Contains (s sub : string) : bool :=
  HasPrefix s sub || match s with EmptyString => false | String _ s' => Contains s' sub end.

(** The first [n] bytes and the rest: [s[:n]] and [s[n:]]. *)
Fixpoint str_take (n : nat) (s : string) : string :=
  match n, s with
  | S n', String a s' => String a (str_take n' s')
  | _, _ => EmptyString
  end.

Fixpoint str_drop (n : nat) (s : string) : string :=
  match n, s with
  | S n', String _ s' => str_drop n' s'
  | _, _ => s
  end.

Definition HasSuffix (s suffix : string) : bool :=
  let n := String.length s in let k := String.length suffix in
  (k <=? n)%nat && String.eqb (str_drop (n - k) s) suffix.

Definition CutPrefix (s prefix : string) : option string :=
  if HasPrefix s prefix then Some (str_drop (String.length prefix) s) else None.

Definition TrimPrefix (s prefix : string) : string := default s (CutPrefix s prefix).

Definition TrimSuffix (s suffix : string) : string :=
  if HasSuffix s suffix then str_take (String.length s - String.length suffix) s else s.

Definition is_space (a : ascii) : bool :=
  let n := N_of_ascii a in ((9 <=? n) && (n <=? 13) || (n =? 32))%N.

Fixpoint TrimLeftSpace (s : string) : string :=
  match s with
  | EmptyString => EmptyString
  | String a s' => if is_space a then TrimLeftSpace s' else s
  end.

Fixpoint TrimRightSpace (s : string) : string :=
  match s with
  | EmptyString => EmptyString
  | String a s' =>
      match TrimRightSpace s' with
      | EmptyString => if is_space a then EmptyString else String a EmptyString
      | t => String a t
      end
  end.

Definition TrimSpace (s : string) : string := TrimRightSpace (TrimLeftSpace s).

(** [strings.Split] on a one-byte separator. *)
Fixpoint Split (s : string) (sep : ascii) : list string :=
  match s with
  | EmptyString => [EmptyString]
  | String a s' =>
      if Ascii.eqb a sep then EmptyString :: Split s' sep
      else match Split s' sep with
           | [] => [String a EmptyString]
           | x :: xs => String a x :: xs
           end
  end.

(** [strings.SplitN(s, sep, n)] with [n > 0]. *)
Fixpoint SplitN (s : string) (sep : ascii) (n : nat) : list string :=
  match s, n with
  | _, (0 | 1)%nat => [s]
  | EmptyString, _ => [EmptyString]
  | String a s', S n' =>
      if Ascii.eqb a sep then EmptyString :: SplitN s' sep n'
      else match SplitN s' sep n with
           | [] => [String a EmptyString]
           | x :: xs => String a x :: xs
           end
  end.

(** [strings.Fields]: the maximal runs of non-space bytes. *)
Fixpoint Fields (s : string) : list string :=
  match s with
  | EmptyString => []
  | String a s' =>
      if is_space a then Fields s'
      else match s' with
           | EmptyString => [String a EmptyString]
           | String b _ =>
               if is_space b then String a EmptyString :: Fields s'
               else match Fields s' with
                    | [] => [String a EmptyString]
                    | x :: xs => String a x :: xs
                    end
           end
  end.

Definition ascii_lower (a : ascii) : ascii :=
  let n := N_of_ascii a in
  if ((65 <=? n) && (n <=? 90))%N then ascii_of_N (n + 32) else a.

Fixpoint ToLower (s : string) : string :=
  match s with
  | EmptyString => EmptyString
  | String a s' => String (ascii_lower a) (ToLower s')
  end.

Fixpoint string_elem (a : ascii) (s : string) : bool :=
  match s with EmptyString => false | String b s' => Ascii.eqb a b || string_elem a s' end.

(** [strings.ContainsAny(s, chars)]. *)
Fixpoint ContainsAny (s chars : string) : bool :=
  match s with
  | EmptyString => false
  | String a s' => string_elem a chars || ContainsAny s' chars
  end.

(** ** strconv *)

Definition digit_of (base : Z) (a : ascii) : option Z :=
  let n := Z.of_N (N_of_ascii a) in
  if (48 <=? n) && (n <? 48 + Z.min base 10) then Some (n - 48) else None.

Fixpoint digits_value (base : Z) (acc : Z) (s : string) : option Z :=
  match s with
  | EmptyString => Some acc
  | String a s' =>
      match digit_of base a with
      | Some d => digits_value base (acc * base + d) s'
      | None => None
      end
  end.

(** [strconv.ParseUint(s, base, bits)] for bases up to 10. *)
Definition ParseUint (s : string) (base bits : Z) : option Z :=
  match s with
  | EmptyString => None
  | _ => match digits_value base 0 s with
         | Some v => if v <? 2 ^ bits then Some v else None
         | None => None
         end
  end.

(** [strconv.Atoi] and [strconv.ParseInt(s, 10, 64)]: an optional sign, then
    at least one digit, and a value in the range of int64. *)
Definition ParseInt64 (s : string) : option Z :=
  let signed (neg : bool) (r : string) :=
    match r with
    | EmptyString => None
    | _ => match digits_value 10 0 r with
           | Some v => let z := if neg then - v else v in
                       if (min_int64 <=? z) && (z <=? max_int64) then Some z else None
           | None => None
           end
    end in
  match s with
  | String "-" r => signed true r
  | String "+" r => signed false r
  | _ => signed false s
  end.
Definition Atoi := ParseInt64.

(** ** fmt: the verb [%d] *)
Definition fmt_d (z : Z) : string := pretty z.

(** ** path/filepath *)

(** [Clean] on the elements of a path, the last one first on [acc]. *)
Fixpoint clean_elems (rooted : bool) (acc elems : list string) : list string :=
  match elems with
  | [] => reverse acc
  | e :: es =>
      if String.eqb e "" || String.eqb e "." then clean_elems rooted acc es
      else if String.eqb e ".." then
        match acc with
        | [] => clean_elems rooted (if rooted then [] else [".."]) es
        | x :: acc' =>
            if String.eqb x ".." then clean_elems rooted (".." :: acc) es
            else clean_elems rooted acc' es
        end
      else clean_elems rooted (e :: acc) es
  end.

Definition IsAbs (path : string) : bool := HasPrefix path "/".

Definition Clean (path : string) : string :=
  let rooted := IsAbs path in
  let s := strings_Join (clean_elems rooted [] (Split path "/")) "/" in
  if rooted then "/" +:+ s else if String.eqb s "" then "." else s.

(** [filepath.Join]. *)
Definition filepath_Join (elems : list string) : string :=
  match filter (λ e, e ≠ "") elems with
  | [] => ""
  | es => Clean (strings_Join es "/")
  end.

(** [filepath.Base]. *)
Definition filepath_Base (path : string) : string :=
  if String.eqb path "" then "."
  else match last (filter (λ e, e ≠ "") (Split path "/")) with
       | Some e => e
       | None => "/"
       end.

(** [filepath.Dir]: what precedes the last separator, cleaned. *)
Definition filepath_Dir (path : string) : string :=
  Clean (match removelast (Split path "/") with
         | [] => ""
         | pre => strings_Join pre "/" +:+ "/"
         end).

(** ** Lemmas *)

Lemma HasPrefix_app p s : HasPrefix (p +:+ s) p = true.
Proof. induction p as [|a p IH]; [by destruct s|]. simpl. by rewrite Ascii.eqb_refl. Qed.

Lemma HasPrefix_spec s p : HasPrefix s p = true ↔ ∃ r, s = p +:+ r.
Proof.
  split.
  - revert s. induction p as [|a p IH]; intros s H; [by exists s|].
    destruct s as [|b s]; [done|]. simpl in H. apply andb_prop in H as [Ha H].
    apply Ascii.eqb_eq in Ha as ->. destruct (IH _ H) as [r ->]. by exists r.
  - intros [r ->]. apply HasPrefix_app.
Qed.

Lemma str_drop_app p s : str_drop (String.length p) (p +:+ s) = s.
Proof. by induction p. Qed.

Lemma CutPrefix_app p s : CutPrefix (p +:+ s) p = Some s.
Proof. unfold CutPrefix. by rewrite HasPrefix_app, str_drop_app. Qed.

Lemma CutPrefix_Some s p r : CutPrefix s p = Some r ↔ s = p +:+ r.
Proof.
  split; [|intros ->; apply CutPrefix_app].
  unfold CutPrefix. destruct (HasPrefix s p) eqn:E; [|done]. intros [= <-].
  apply HasPrefix_spec in E as [r ->]. by rewrite str_drop_app.
Qed.

Lemma append_assoc (a b c : string) : (a +:+ b) +:+ c = a +:+ (b +:+ c).
Proof. induction a as [|x a IH]; [done|]. change (String x ((a +:+ b) +:+ c) = String x (a +:+ (b +:+ c))). by rewrite IH. Qed.

Lemma append_length (a b : string) :
  String.length (a +:+ b) = (String.length a + String.length b)%nat.
Proof. induction a as [|x a IH]; [done|]. change (S (String.length (a +:+ b)) = S (String.length a + String.length b)%nat). by rewrite IH. Qed.

Lemma append_nil_r (a : string) : a +:+ "" = a.
Proof. induction a as [|x a IH]; [done|]. change (String x (a +:+ "") = String x a). by rewrite IH. Qed.

Lemma append_inj_l (a b c : string) : a +:+ b = a +:+ c → b = c.
Proof. induction a as [|x a IH]; [done|]. intros H. apply IH. by injection H. Qed.

Lemma str_drop_all s : str_drop (String.length s) s = EmptyString.
Proof. by induction s. Qed.

Lemma HasSuffix_app s p : HasSuffix (s +:+ p) p = true.
Proof.
  unfold HasSuffix. rewrite append_length.
  replace (String.length s + String.length p - String.length p)%nat
    with (String.length s) by lia.
  rewrite str_drop_app, String.eqb_refl, andb_true_r. apply Nat.leb_le. lia.
Qed.

Lemma str_take_length n s : (String.length (str_take n s) ≤ n)%nat.
Proof. revert s. induction n as [|n IH]; intros [|a s]; simpl; try lia. specialize (IH s). lia. Qed.

Lemma Contains_app a b c : Contains (a +:+ b +:+ c) b = true.
Proof.
  induction a as [|x a IH].
  - change (Contains (b +:+ c) b = true). pose proof (HasPrefix_app b c) as H.
    destruct (b +:+ c); cbn [Contains]; by rewrite H.
  - change (HasPrefix (String x (a +:+ b +:+ c)) b || Contains (a +:+ b +:+ c) b = true).
    rewrite IH. apply orb_true_r.
Qed.

Lemma fmt_d_inj z1 z2 : fmt_d z1 = fmt_d z2 → z1 = z2.
Proof. apply (inj pretty). Qed.

(** ** Numbers and their decimal text *)

(** All characters satisfy [P]. *)
Fixpoint str_all (P : ascii → bool) (s : string) : bool :=
  match s with EmptyString => true | String a s' => P a && str_all P s' end.

Definition is_digit (a : ascii) : bool := bool_decide (is_Some (digit_of 10 a)).

Lemma digit_char n : (n < 10)%N → digit_of 10 (pretty_N_char n) = Some (Z.of_N n).
Proof.
  intros H. assert (n = 0 ∨ n = 1 ∨ n = 2 ∨ n = 3 ∨ n = 4 ∨ n = 5 ∨ n = 6 ∨ n = 7 ∨ n = 8 ∨ n = 9)%N
    as E by lia. by repeat destruct E as [->|E]; [..|subst].
Qed.

Lemma digits_value_go x s :
  digits_value 10 0 (pretty_N_go x s) = digits_value 10 (Z.of_N x) s.
Proof.
  revert s. induction (N.lt_wf_0 x) as [x _ IH]; intros s.
  destruct (decide (0 < x)%N) as [Hx|Hx].
  - rewrite pretty_N_go_step by done. rewrite IH by (apply N.div_lt; lia).
    cbn [digits_value]. rewrite digit_char by (apply N.mod_lt; lia).
    f_equal. rewrite N2Z.inj_div, N2Z.inj_mod. pose proof (Z.div_mod (Z.of_N x) 10 ltac:(lia)). lia.
  - assert (x = 0%N) as -> by lia. by rewrite pretty_N_go_0.
Qed.

Lemma str_all_go x s : str_all is_digit s = true → str_all is_digit (pretty_N_go x s) = true.
Proof.
  revert s. induction (N.lt_wf_0 x) as [x _ IH]; intros s Hs.
  destruct (decide (0 < x)%N) as [Hx|Hx].
  - rewrite pretty_N_go_step by done. apply IH; [apply N.div_lt; lia|]. cbn [str_all].
    unfold is_digit at 1. rewrite digit_char by (apply N.mod_lt; lia). done.
  - assert (x = 0%N) as -> by lia. by rewrite pretty_N_go_0.
Qed.

Lemma pretty_N_digits (x : N) :
  str_all is_digit (pretty x) = true ∧ digits_value 10 0 (pretty x) = Some (Z.of_N x) ∧
  (pretty x : string) ≠ "".
Proof.
  unfold pretty, pretty_N. destruct (decide (x = 0%N)) as [->|Hx]; [done|].
  split; [by apply str_all_go|]. split; [by rewrite digits_value_go|].
  intros E. pose proof (digits_value_go x "") as H. rewrite E in H. simpl in H.
  injection H as H. lia.
Qed.

Lemma fmt_d_nonneg z : 0 ≤ z → fmt_d z = pretty (Z.to_N z).
Proof. intros H. unfold fmt_d. by destruct z. Qed.

Lemma fmt_d_digits z :
  0 ≤ z → str_all is_digit (fmt_d z) = true ∧ digits_value 10 0 (fmt_d z) = Some z ∧ fmt_d z ≠ "".
Proof.
  intros H. rewrite fmt_d_nonneg by done. destruct (pretty_N_digits (Z.to_N z)) as (? & ? & ?).
  rewrite Z2N.id in * by done. done.
Qed.

(** Parsing the decimal text of a number gives the number back. *)
Lemma Atoi_fmt_d z : 0 ≤ z ≤ max_int64 → Atoi (fmt_d z) = Some z.
Proof.
  intros H. destruct (fmt_d_digits z) as (Hd & Hv & Hne); [lia|].
  destruct (fmt_d z) as [|a s] eqn:E; [done|]. cbn [str_all] in Hd.
  apply andb_prop in Hd as [Ha _]. unfold is_digit in Ha. bool_to_prop.
  assert (Hr : (if (min_int64 <=? z) && (z <=? max_int64) then Some z else None) = Some z).
  { destruct (_ && _) eqn:Er; [done|]. bool_to_prop. unfold min_int64 in *.
    destruct Er as [Er|Er]; bool_to_prop; lia. }
  unfold Atoi, ParseInt64.
  destruct a as [[] [] [] [] [] [] [] []];
    first [by vm_compute in Ha; destruct Ha | rewrite Hv; exact Hr].
Qed.

(** ** Strings of digits in a larger text *)

Definition not_char (c a : ascii) : bool := negb (Ascii.eqb a c).

Lemma str_all_impl (P Q : ascii → bool) s :
  (∀ a, P a = true → Q a = true) → str_all P s = true → str_all Q s = true.
Proof.
  intros H. induction s as [|a s IH]; [done|]. cbn [str_all]. intros [? ?]%andb_prop.
  apply andb_true_intro. auto.
Qed.

Lemma digit_not_space a : is_digit a = true → negb (is_space a) = true.
Proof. destruct a as [[] [] [] [] [] [] [] []]; vm_compute; done. Qed.
Lemma digit_not_comma a : is_digit a = true → not_char "," a = true.
Proof. destruct a as [[] [] [] [] [] [] [] []]; vm_compute; done. Qed.
Lemma digit_not_dash a : is_digit a = true → not_char "-" a = true.
Proof. destruct a as [[] [] [] [] [] [] [] []]; vm_compute; done. Qed.

Lemma TrimLeft_id s : str_all (λ a, negb (is_space a)) s = true → TrimLeftSpace s = s.
Proof. destruct s as [|a s]; [done|]. cbn [str_all TrimLeftSpace]. by destruct (is_space a). Qed.

Lemma TrimRight_id s : str_all (λ a, negb (is_space a)) s = true → TrimRightSpace s = s.
Proof.
  induction s as [|a s IH]; [done|]. cbn [str_all TrimRightSpace]. intros [Ha Hs]%andb_prop.
  rewrite (IH Hs). destruct s; [|done]. by destruct (is_space a).
Qed.

(** [TrimSpace] does nothing on a text without white space. *)
Lemma TrimSpace_id s : str_all (λ a, negb (is_space a)) s = true → TrimSpace s = s.
Proof. intros H. unfold TrimSpace. rewrite TrimLeft_id by done. by apply TrimRight_id. Qed.

Lemma Split_app c s r :
  str_all (not_char c) s = true → Split (s +:+ String c r) c = s :: Split r c.
Proof.
  induction s as [|a s IH]; intros H.
  - change ("" +:+ String c r) with (String c r). simpl. by rewrite Ascii.eqb_refl.
  - change (String a s +:+ String c r) with (String a (s +:+ String c r)). cbn [str_all] in H.
    apply andb_prop in H as [Ha Hs]. cbn [Split]. unfold not_char in Ha.
    destruct (Ascii.eqb a c); [done|]. by rewrite IH.
Qed.

Lemma Split_single c s : str_all (not_char c) s = true → Split s c = [s].
Proof.
  induction s as [|a s IH]; intros H; [done|]. cbn [str_all] in H.
  apply andb_prop in H as [Ha Hs]. cbn [Split]. unfold not_char in Ha.
  destruct (Ascii.eqb a c); [done|]. by rewrite IH.
Qed.

Lemma SplitN2_app c s r :
  str_all (not_char c) s = true → SplitN (s +:+ String c r) c 2 = [s; r].
Proof.
  induction s as [|a s IH]; intros H.
  - change ("" +:+ String c r) with (String c r). cbn [SplitN]. rewrite Ascii.eqb_refl. by destruct r.
  - change (String a s +:+ String c r) with (String a (s +:+ String c r)). cbn [str_all] in H.
    apply andb_prop in H as [Ha Hs]. cbn [SplitN]. unfold not_char in Ha.
    destruct (Ascii.eqb a c); [done|]. by rewrite IH.
Qed.

Lemma Contains_char_none c s :
  str_all (not_char c) s = true → Contains s (String c "") = false.
Proof.
  induction s as [|a s IH]; intros H; [done|]. cbn [str_all] in H.
  apply andb_prop in H as [Ha Hs]. cbn [Contains HasPrefix]. unfold not_char in Ha.
  rewrite IH by done. rewrite Ascii.eqb_sym. by destruct (Ascii.eqb a c).
Qed.

Lemma str_all_app P s r : str_all P (s +:+ r) = str_all P s && str_all P r.
Proof.
  induction s as [|a s IH]; [done|].
  change (P a && str_all P (s +:+ r) = (P a && str_all P s) && str_all P r).
  by rewrite IH, andb_assoc.
Qed.

(** ** Clean paths *)

Lemma strings_Join_cons x y l sep :
  strings_Join (x :: y :: l) sep = x +:+ sep +:+ strings_Join (y :: l) sep.
Proof. done. Qed.
Lemma strings_Join_snoc l x sep :
  l ≠ [] → strings_Join (l ++ [x]) sep = strings_Join l sep +:+ sep +:+ x.
Proof.
  induction l as [|y [|z l] IH]; intros Hl; [done|done|].
  change ((y :: z :: l) ++ [x]) with (y :: z :: (l ++ [x])). rewrite !strings_Join_cons.
  change (z :: (l ++ [x])) with ((z :: l) ++ [x]). rewrite IH by done. by rewrite !append_assoc.
Qed.

(** Splitting what was joined. *)
Lemma Split_Join c l :
  l ≠ [] → Forall (λ s, str_all (not_char c) s = true) l → Split (strings_Join l (String c "")) c = l.
Proof.
  induction l as [|x [|y l] IH]; intros Hl Hc; [done| |]; apply Forall_cons in Hc as [Hx Hc].
  - by apply Split_single.
  - rewrite strings_Join_cons. change (String c "" +:+ ?r) with (String c r). rewrite Split_app by done.
    by rewrite IH by done.
Qed.

(** An element of a clean path. *)
Definition normal_elem (e : string) : Prop :=
  e ≠ "" ∧ e ≠ "." ∧ e ≠ ".." ∧ str_all (not_char "/") e = true.

Lemma clean_elems_normal r acc l : Forall normal_elem l → clean_elems r acc l = reverse acc ++ l.
Proof.
  revert acc. induction l as [|e l IH]; intros acc Hl; simpl; [by rewrite app_nil_r|].
  apply Forall_cons in Hl as [(H1 & H2 & H3 & _) Hl].
  apply String.eqb_neq in H1 as ->, H2 as ->, H3 as ->. simpl.
  rewrite IH, reverse_cons, <-app_assoc by done. done.
Qed.

(** An absolute clean path other than the root. *)
Definition abs_clean (p : string) : Prop :=
  ∃ elems, elems ≠ [] ∧ Forall normal_elem elems ∧ p = "/" +:+ strings_Join elems "/".

Lemma filepath_Join_clean p e :
  abs_clean p → normal_elem e → filepath_Join [p; e] = p +:+ "/" +:+ e.
Proof.
  intros (elems & Hne & Hel & ->) He. unfold filepath_Join.
  rewrite !filter_cons_True by (done || by destruct He). rewrite filter_nil.
  assert (Eq : strings_Join ["/" +:+ strings_Join elems "/"; e] "/" =
               strings_Join ("" :: elems ++ [e]) "/").
  { destruct elems as [|x elems]; [done|]. change ((x :: elems) ++ [e]) with (x :: (elems ++ [e])).
    rewrite (strings_Join_cons ""). change (x :: (elems ++ [e])) with ((x :: elems) ++ [e]).
    rewrite strings_Join_snoc by done. done. }
  rewrite Eq. unfold Clean. rewrite Split_Join; [|done|].
  - assert (IsAbs (strings_Join ("" :: elems ++ [e]) "/") = true) as ->.
    { destruct elems as [|x elems]; [done|]. apply (HasPrefix_app "/"). }
    cbn [clean_elems]. change (String.eqb "" "") with true. cbn [orb].
    rewrite clean_elems_normal by (apply Forall_app; split; [done|by constructor]).
    rewrite (app_nil_l (elems ++ [e]) : reverse [] ++ (elems ++ [e]) = _).
    rewrite strings_Join_snoc by done. by rewrite <-append_assoc.
  - constructor; [done|]. apply Forall_app. split; [|by constructor; [apply He|]].
    eapply Forall_impl; [exact Hel|]. by intros x (_ & _ & _ & ?).
Qed.

Lemma normal_fmt_d k : 0 ≤ k → normal_elem (fmt_d k).
Proof.
  intros Hk. destruct (fmt_d_digits k Hk) as (Hd & _ & Hne).
  split_and!; [done|intros E; by rewrite E in Hd|intros E; by rewrite E in Hd|].
  eapply str_all_impl; [|exact Hd]. intros a. by destruct a as [[] [] [] [] [] [] [] []].
Qed.

(** ** Base and directory of a path *)

Lemma Split_no_sep c s : Forall (λ e, str_all (not_char c) e = true) (Split s c).
Proof.
  induction s as [|a s IH]; simpl; [by repeat constructor|]. 
  destruct (Ascii.eqb a c) eqn:Ea; [by constructor|].
  destruct (Split s c) as [|x xs].
  { constructor; [|constructor]. cbn [str_all]. unfold not_char. by rewrite Ea. }
  apply Forall_cons in IH as [Hx Hxs]. constructor; [|done].
  cbn [str_all]. unfold not_char at 1. by rewrite Ea, Hx.
Qed.

Lemma Base_elem path : filepath_Base path = "/" ∨ str_all (not_char "/") (filepath_Base path) = true.
Proof.
  unfold filepath_Base. destruct (String.eqb path ""); [by right|].
  destruct (last _) as [e|] eqn:E; [|by left]. right.
  apply last_Some_elem_of, list_elem_of_filter in E as [_ E].
  pose proof (Split_no_sep "/" path) as HF. rewrite Forall_forall in HF. by apply HF.
Qed.

Lemma Base_normal e : normal_elem e → filepath_Base e = e.
Proof.
  intros (H1 & _ & _ & H2). unfold filepath_Base. rewrite (proj2 (String.eqb_neq e "") H1), Split_single by done.
  by rewrite filter_cons_True.
Qed.

Lemma Clean_normal e : normal_elem e → Clean e = e.
Proof.
  intros He. pose proof He as (H1 & H2 & H3 & H4). unfold Clean. rewrite Split_single by done.
  assert (IsAbs e = false) as ->.
  { destruct e as [|a e]; [done|]. cbn [str_all] in H4. apply andb_prop in H4 as [Ha _].
    unfold not_char in Ha. unfold IsAbs. cbn [HasPrefix]. by rewrite Ascii.eqb_sym, (proj1 (negb_true_iff _) Ha). }
  rewrite clean_elems_normal by (by repeat constructor). simpl. by apply String.eqb_neq in H1 as ->.
Qed.

Lemma Clean_abs elems :
  elems ≠ [] → Forall normal_elem elems →
  ∀ tail, tail = "" ∨ tail = "/" → Clean ("/" +:+ strings_Join elems "/" +:+ tail) = "/" +:+ strings_Join elems "/".
Proof.
  intros Hne Hel tail Ht.
  assert (Forall (λ s, str_all (not_char "/") s = true) elems) as Hs
    by (eapply Forall_impl; [exact Hel|]; by intros x (_ & _ & _ & ?)).
  set (last := match tail with EmptyString => [] | _ => [""] end).
  assert (Eq : "/" +:+ strings_Join elems "/" +:+ tail = strings_Join ("" :: elems ++ last) "/").
  { destruct Ht as [-> | ->]; subst last; cbv iota.
    - rewrite append_nil_r, app_nil_r. by destruct elems.
    - destruct elems as [|x elems]; [done|]. change ((x :: elems) ++ [""]) with (x :: (elems ++ [""])).
      rewrite (strings_Join_cons ""). change (x :: (elems ++ [""])) with ((x :: elems) ++ [""]).
      rewrite (strings_Join_snoc (x :: elems)) by done. by rewrite append_nil_r. }
  rewrite Eq. unfold Clean.
  assert (IsAbs (strings_Join ("" :: elems ++ last) "/") = true) as -> by (rewrite <-Eq; apply (HasPrefix_app "/")).
  rewrite Split_Join; [|done|].
  - cbn [clean_elems]. change (String.eqb "" "") with true. cbn [orb].
    assert (∀ acc, clean_elems true acc (elems ++ last) = clean_elems true acc elems) as ->.
    { clear -Ht. intros acc. subst last. destruct Ht as [-> | ->]; simpl; [by rewrite app_nil_r|].
      revert acc. induction elems as [|e elems IH]; intros acc; simpl; [done|]. by repeat case_match. }
    by rewrite clean_elems_normal.
  - constructor; [done|]. apply Forall_app. split; [done|]. subst last. destruct tail; by repeat constructor.
Qed.

Lemma Dir_child p e : abs_clean p → str_all (not_char "/") e = true → filepath_Dir (p +:+ "/" +:+ e) = p.
Proof.
  intros (elems & Hne & Hel & ->) He. unfold filepath_Dir.
  assert (Forall (λ s, str_all (not_char "/") s = true) elems) as Hs
    by (eapply Forall_impl; [exact Hel|]; by intros x (_ & _ & _ & ?)).
  assert (Eq : ("/" +:+ strings_Join elems "/") +:+ "/" +:+ e = strings_Join ("" :: elems ++ [e]) "/").
  { destruct elems as [|x elems]; [done|]. change ((x :: elems) ++ [e]) with (x :: (elems ++ [e])).
    rewrite (strings_Join_cons ""). change (x :: (elems ++ [e])) with ((x :: elems) ++ [e]).
    rewrite strings_Join_snoc by done. done. }
  rewrite Eq, Split_Join; [|done|by constructor; [|apply Forall_app; split; [|repeat constructor]]].
  change ("" :: elems ++ [e]) with (("" :: elems) ++ [e]). rewrite removelast_last.
  rewrite <-(Clean_abs elems Hne Hel "/") by auto. f_equal.
  destruct elems as [|x elems]; [done|]. by rewrite strings_Join_cons, !append_assoc.
Qed.

Lemma Base_child p e : abs_clean p → normal_elem e → filepath_Base (p +:+ "/" +:+ e) = e.
Proof.
  intros (elems & Hne & Hel & ->) (He & _ & _ & Hs). unfold filepath_Base.
  assert (Forall (λ s, str_all (not_char "/") s = true) elems) as Hall
    by (eapply Forall_impl; [exact Hel|]; by intros x (_ & _ & _ & ?)).
  assert (Eq : ("/" +:+ strings_Join elems "/") +:+ "/" +:+ e = strings_Join ("" :: elems ++ [e]) "/").
  { destruct elems as [|x elems]; [done|]. change ((x :: elems) ++ [e]) with (x :: (elems ++ [e])).
    rewrite (strings_Join_cons ""). change (x :: (elems ++ [e])) with ((x :: elems) ++ [e]).
    rewrite strings_Join_snoc by done. done. }
  rewrite Eq, Split_Join; [|done|by constructor; [|apply Forall_app; split; [|repeat constructor]]].
  destruct (String.eqb_spec (strings_Join ("" :: elems ++ [e]) "/") "") as [E|_]; [by destruct elems|].
  rewrite filter_cons_False by (by intros []). rewrite filter_app, last_app. by rewrite filter_cons_True.
Qed.

Lemma abs_clean_child p e : abs_clean p → normal_elem e → abs_clean (p +:+ "/" +:+ e).
Proof.
  intros (elems & Hne & Hel & ->) He. exists (elems ++ [e]).
  split; [by destruct elems|]. split; [apply Forall_app; split; [done|by constructor]|].
  rewrite strings_Join_snoc by done. by rewrite !append_assoc.
Qed.

Lemma filepath_Join_dot p : abs_clean p → filepath_Join [p; "."] = p.
Proof.
  intros (elems & Hne & Hel & ->). unfold filepath_Join. rewrite !filter_cons_True by done. rewrite filter_nil.
  assert (Eq : strings_Join ["/" +:+ strings_Join elems "/"; "."] "/" = strings_Join ("" :: elems ++ ["."]) "/").
  { destruct elems as [|x elems]; [done|]. change ((x :: elems) ++ ["."]) with (x :: (elems ++ ["."])).
    rewrite (strings_Join_cons ""). change (x :: (elems ++ ["."])) with ((x :: elems) ++ ["."]).
    rewrite (strings_Join_snoc (x :: elems)) by done. done. }
  rewrite Eq. unfold Clean.
  assert (IsAbs (strings_Join ("" :: elems ++ ["."]) "/") = true) as -> by (rewrite <-Eq; apply (HasPrefix_app "/")).
  rewrite Split_Join; [|done|].
  - cbn [clean_elems]. change (String.eqb "" "") with true. cbn [orb].
    assert (∀ acc, clean_elems true acc (elems ++ ["."]) = clean_elems true acc elems) as ->.
    { clear. induction elems as [|e elems IH]; intros acc; simpl; [done|]. by repeat case_match. }
    by rewrite clean_elems_normal.
  - constructor; [done|]. apply Forall_app. split; [|by repeat constructor].
    eapply Forall_impl; [exact Hel|]. by intros x (_ & _ & _ & ?).
Qed.

(** ** Fields *)

Definition no_space (s : string) : bool := str_all (λ a, negb (is_space a)) s.

Lemma Fields_nonspace a s : is_space a = false → ∃ x xs, Fields (String a s) = x :: xs.
Proof.
  intros Ha. cbn [Fields]. rewrite Ha. destruct s as [|b s]; [eauto|]. destruct (is_space b); [eauto|].
  destruct (Fields (String b s)); eauto.
Qed.

Lemma Fields_app a sp b : is_space sp = true → Fields (a +:+ String sp b) = Fields a ++ Fields b.
Proof.
  intros Hsp. induction a as [|c a IH].
  - change ("" +:+ String sp b) with (String sp b). cbn [Fields]. by rewrite Hsp.
  - change (String c a +:+ String sp b) with (String c (a +:+ String sp b)). cbn [Fields].
    destruct (is_space c); [done|]. rewrite IH. destruct a as [|d a].
    + simpl. by rewrite Hsp.
    + change (String d a +:+ String sp b) with (String d (a +:+ String sp b)). cbv iota.
      destruct (is_space d) eqn:Ed; [done|]. by destruct (Fields_nonspace d a Ed) as (x & xs & ->).
Qed.

Lemma Fields_word w : w ≠ "" → no_space w = true → Fields w = [w].
Proof.
  unfold no_space. induction w as [|a w IH]; [done|]. cbn [str_all Fields]. intros _ [Ha%negb_true_iff Hw]%andb_true_iff.
  rewrite Ha. destruct w as [|b w]; [done|]. pose proof Hw as Hw'. cbn [str_all] in Hw'.
  apply andb_true_iff in Hw' as [Hb%negb_true_iff _]. rewrite Hb. by rewrite IH.
Qed.

Lemma Fields_Join l : Fields (strings_Join l " ") = l ≫= Fields.
Proof.
  induction l as [|x [|y l] IH]; [done|simpl; by rewrite app_nil_r|].
  rewrite strings_Join_cons. change (" " +:+ ?r) with (String " " r). rewrite Fields_app by done.
  rewrite IH. done.
Qed.

Lemma Fields_words l : Forall (λ w, w ≠ "" ∧ no_space w = true) l → l ≫= Fields = l.
Proof. induction 1 as [|w l [H1 H2] _ IH]; [done|]. rewrite bind_cons, IH, Fields_word by done. done. Qed.
