(* ===== verification/GoTime.v ===== *)
(** * Durations as text

    [time.ParseDuration] of Go's standard library: an optional sign and a
    sequence of decimal numbers, each with an optional fraction and a unit. *)

From S2P Require Import Prelude GoStrings.
From Stdlib Require Import Ascii.

Module GoTime.

Definition two63 : Z := 2 ^ 63.

Definition digit (a : ascii) : option Z := digit_of 10 a.

(** [leadingInt]: the number at the front of the text and what is left, [None]
    when it is above [2^63]. *)
Fixpoint leadingInt (x : Z) (s : string) : option (Z * string) :=
  match s with
  | EmptyString => Some (x, s)
  | String a s' =>
      match digit a with
      | None => Some (x, s)
      | Some d =>
          if two63 / 10 <? x then None
          else let y := x * 10 + d in
               if two63 <? y then None else leadingInt y s'
      end
  end.

(** [leadingFraction]: digits beyond the precision of the machine are dropped.
    The scale is the power of ten. *)
Fixpoint leadingFraction (x : Z) (scale : float64) (overflow : bool) (s : string) :
    Z * float64 * string :=
  match s with
  | EmptyString => (x, scale, s)
  | String a s' =>
      match digit a with
      | None => (x, scale, s)
      | Some d =>
          if overflow then leadingFraction x scale true s'
          else if (two63 - 1) / 10 <? x then leadingFraction x scale true s'
          else let y := x * 10 + d in
               if two63 <? y then leadingFraction x scale true s'
               else leadingFraction y (f64_mul scale (f64_of_Z 10)) false s'
      end
  end.

Definition Minute : Duration := 60 * Second.
Definition Hour : Duration := 60 * Minute.

(** The two spellings of the micro sign, in UTF-8. *)
Definition micro1 : string := String (ascii_of_N 194) (String (ascii_of_N 181) "s").
Definition micro2 : string := String (ascii_of_N 206) (String (ascii_of_N 188) "s").

Definition unitMap (u : string) : option Z :=
  if String.eqb u "ns" then Some Nanosecond
  else if String.eqb u "us" || String.eqb u micro1 || String.eqb u micro2 then Some Microsecond
  else if String.eqb u "ms" then Some Millisecond
  else if String.eqb u "s" then Some Second
  else if String.eqb u "m" then Some Minute
  else if String.eqb u "h" then Some Hour
  else None.

Definition is_dot (a : ascii) : bool := Ascii.eqb a ".".
Definition number_char (a : ascii) : bool := is_dot a || bool_decide (is_Some (digit a)).

(** The unit: everything up to the next number. *)
Fixpoint take_unit (s : string) : string * string :=
  match s with
  | EmptyString => (EmptyString, EmptyString)
  | String a s' =>
      if number_char a then (EmptyString, s)
      else let '(u, r) := take_unit s' in (String a u, r)
  end.

(** One number with its unit: the nanoseconds and what is left. *)
Definition parse_part (s : string) : option (Z * string) :=
  match s with
  | EmptyString => None
  | String a _ =>
      if negb (number_char a) then None
      else
        match leadingInt 0 s with
        | None => None
        | Some (v, s1) =>
            let pre := negb (String.length s =? String.length s1)%nat in
            let '(f, scale, s2, post) :=
              match s1 with
              | String b s1' =>
                  if is_dot b then
                    let '(f, scale, s2) := leadingFraction 0 (f64_of_Z 1) false s1' in
                    (f, scale, s2, negb (String.length s1' =? String.length s2)%nat)
                  else (0, f64_of_Z 1, s1, false)
              | EmptyString => (0, f64_of_Z 1, s1, false)
              end in
            if negb pre && negb post then None
            else
              let '(u, s3) := take_unit s2 in
              if String.eqb u "" then None
              else match unitMap u with
                   | None => None
                   | Some unit =>
                       if two63 / unit <? v then None
                       else
                         let v1 := v * unit in
                         if 0 <? f then
                           let v2 := v1 + f64_to_int64 (f64_mul (f64_of_Z f) (f64_div (f64_of_Z unit) scale)) in
                           if two63 <? v2 then None else Some (v2, s3)
                         else Some (v1, s3)
                   end
        end
  end.

(** The loop; every round takes at least one character off the text. *)
Fixpoint parse_parts (fuel : nat) (d : Z) (s : string) : option Z :=
  match fuel with
  | O => None
  | S fuel' =>
      if String.eqb s "" then Some d
      else match parse_part s with
           | None => None
           | Some (v, s') =>
               let d' := d + v in
               if two63 <? d' then None else parse_parts fuel' d' s'
           end
  end.

Definition ParseDuration (s : string) : option Duration :=
  let '(neg, s1) := match s with
                    | String a s' => if Ascii.eqb a "-" then (true, s')
                                     else if Ascii.eqb a "+" then (false, s') else (false, s)
                    | EmptyString => (false, s)
                    end in
  if String.eqb s1 "0" then Some 0
  else if String.eqb s1 "" then None
  else match parse_parts (S (String.length s1)) 0 s1 with
       | None => None
       | Some d => if neg then Some (wrap64 (- d))
                   else if two63 - 1 <? d then None else Some d
       end.

Example parse_simple : ParseDuration "10s" = Some (10 * Second).
Proof. reflexivity. Qed.
Example parse_compound : ParseDuration "1h15m30.918273645s" = Some 4530918273645.
Proof. vm_compute. reflexivity. Qed.
Example parse_fraction : ParseDuration "-1.5h" = Some (-5400000000000).
Proof. vm_compute. reflexivity. Qed.
Example parse_no_unit : ParseDuration "5" = None.
Proof. reflexivity. Qed.
Example parse_too_large : ParseDuration "9223372036854775808ns" = None.
Proof. vm_compute. reflexivity. Qed.
Example parse_least : ParseDuration "-9223372036854775808ns" = Some min_int64.
Proof. vm_compute. reflexivity. Qed.

End GoTime.

Import GoTime.

(** ** Whole numbers of a unit *)

Lemma digits_value_mono s x v : 0 ≤ x → digits_value 10 x s = Some v → x ≤ v.
Proof.
  revert x. induction s as [|a s IH]; intros x Hx Hv; simpl in Hv; [by simplify_eq|].
  destruct (digit_of 10 a) as [d|] eqn:Ed; [|done].
  assert (0 ≤ d) by (unfold digit_of in Ed; case_match; simplify_eq; go_arith).
  apply IH in Hv; lia.
Qed.

Lemma leadingInt_digits s r x v :
  0 ≤ x → v ≤ two63 → digits_value 10 x s = Some v → leadingInt x (s +:+ r) = leadingInt v r.
Proof.
  revert x. induction s as [|a s IH]; intros x Hx Hm Hv; simpl in *; [by simplify_eq|].
  unfold digit. destruct (digit_of 10 a) as [d|] eqn:Ed; [|done].
  assert (0 ≤ d) by (unfold digit_of in Ed; case_match; simplify_eq; go_arith).
  assert (Hle : x * 10 + d ≤ v) by (eapply digits_value_mono; [lia|done]).
  destruct (Z.ltb_spec (two63 / 10) x); [|destruct (Z.ltb_spec two63 (x * 10 + d)); [lia|by apply IH; [lia|..]]].
  exfalso. pose proof (Z.mul_succ_div_gt two63 10 ltac:(lia)). lia.
Qed.

(** A unit is letters only. *)
Lemma unit_text u unit :
  unitMap u = Some unit →
  0 < unit ≤ Hour ∧ leadingInt 0 u = Some (0, u) ∧ take_unit u = (u, "") ∧
  ∃ a u', u = String a u' ∧ number_char a = false.
Proof.
  unfold unitMap. intros Hu.
  repeat match type of Hu with
  | (if ?b then _ else _) = _ => destruct b eqn:?
  end; simplify_eq;
  repeat match goal with
  | H : (_ || _) = true |- _ => apply orb_true_iff in H as [H|H]
  | H : String.eqb _ _ = true |- _ => apply String.eqb_eq in H as ->
  end; (split; [by vm_compute|]; split; [done|]; split; [done|]; by eexists _, _).
Qed.

Lemma leadingInt_stop a u v : number_char a = false → leadingInt v (String a u) = Some (v, String a u).
Proof.
  unfold number_char. intros [_ Hd]%orb_false_iff. apply bool_decide_eq_false in Hd. simpl.
  destruct (digit a); [by destruct Hd|done].
Qed.

Lemma parse_part_unit n u unit :
  unitMap u = Some unit → 0 ≤ n → n * unit ≤ max_int64 → parse_part (fmt_d n +:+ u) = Some (n * unit, "").
Proof.
  intros Hu Hn Hm. destruct (unit_text _ _ Hu) as (Hr & _ & Ht & a & u' & -> & Ha).
  destruct (fmt_d_digits n Hn) as (Hall & Hv & Hne).
  assert (n ≤ two63) by (unfold two63, max_int64 in *; nia).
  assert (Hl : leadingInt 0 (fmt_d n +:+ String a u') = Some (n, String a u'))
    by (by rewrite (leadingInt_digits _ _ 0 n), leadingInt_stop).
  destruct (fmt_d n) as [|b s] eqn:Ef; [done|]. simpl in Hall. apply andb_prop in Hall as [Hb _].
  change (String b s +:+ String a u') with (String b (s +:+ String a u')) in *.
  unfold parse_part. rewrite Hl.
  assert (Hnb : number_char b = true) by (unfold number_char, digit; apply orb_true_iff; right; exact Hb).
  rewrite Hnb. cbn [negb].
  assert (Hlen : (String.length (String b (s +:+ String a u')) =? String.length (String a u'))%nat = false).
  { apply Nat.eqb_neq. simpl. rewrite append_length. simpl. lia. }
  rewrite Hlen. unfold number_char in Ha. apply orb_false_iff in Ha as [Hd _]. rewrite Hd. cbn [negb andb].
  rewrite Ht. cbn [String.eqb]. rewrite Hu.
  destruct (Z.ltb_spec (two63 / unit) n) as [Hlt|_]; [|done].
  exfalso. pose proof (Z.mul_succ_div_gt two63 unit ltac:(lia)). unfold two63, max_int64 in *. nia.
Qed.

(** The text of a whole number of a unit. *)
Lemma ParseDuration_unit n u unit :
  unitMap u = Some unit → 0 ≤ n → n * unit ≤ max_int64 → ParseDuration (fmt_d n +:+ u) = Some (n * unit).
Proof.
  intros Hu Hn Hm. pose proof (parse_part_unit n u unit Hu Hn Hm) as Hp.
  destruct (fmt_d_digits n Hn) as (Hall & _ & Hne). destruct (unit_text _ _ Hu) as (Hr & _ & _ & a & u' & -> & Ha).
  destruct (fmt_d n) as [|b s] eqn:Ef; [done|]. simpl in Hall. apply andb_prop in Hall as [Hb _].
  change (String b s +:+ String a u') with (String b (s +:+ String a u')) in *. unfold ParseDuration.
  replace (Ascii.eqb b "-") with false by (symmetry; apply Ascii.eqb_neq; by intros ->).
  replace (Ascii.eqb b "+") with false by (symmetry; apply Ascii.eqb_neq; by intros ->). cbn iota.
  replace (String.eqb (String b (s +:+ String a u')) "0") with false.
  2: { symmetry. apply String.eqb_neq. intros [= _ E]. by destruct s. }
  cbn [String.eqb]. cbn iota. cbn [parse_parts]. cbn [String.eqb].
  rewrite Hp. rewrite Z.add_0_l. unfold two63, max_int64 in *.
  destruct (Z.ltb_spec (2 ^ 63) (n * unit)); [lia|]. cbn [String.length].
  destruct (String.length (s +:+ String a u')) eqn:El; [rewrite append_length in El; simpl in El; lia|].
  cbn [parse_parts String.eqb]. destruct (Z.ltb_spec (2 ^ 63 - 1) (n * unit)); [lia|done].
Qed.

(** ** The fuel of [parse_parts] is enough *)

Lemma leadingInt_length x s v r : leadingInt x s = Some (v, r) → (String.length r ≤ String.length s)%nat.
Proof.
  revert x. induction s as [|a s IH]; intros x Hl; simpl in Hl; [by simplify_eq|].
  destruct (digit a); [|by simplify_eq]. do 2 (case_match; [done|]). apply IH in Hl. simpl. lia.
Qed.
Lemma leadingFraction_length x sc o s : (String.length (leadingFraction x sc o s).2 ≤ String.length s)%nat.
Proof.
  revert x sc o. induction s as [|a s IH]; intros x sc o; simpl; [done|].
  repeat case_match; simpl; first [done|specialize (IH x sc true); lia|apply le_S, IH].
Qed.
Lemma take_unit_length s : (String.length (take_unit s).1 + String.length (take_unit s).2 = String.length s)%nat.
Proof.
  induction s as [|a s IH]; simpl; [done|]. destruct (number_char a); [done|].
  destruct (take_unit s) as [u r]. simpl in *. lia.
Qed.

Lemma parse_part_shorter s v r : parse_part s = Some (v, r) → (String.length r < String.length s)%nat.
Proof.
  unfold parse_part. intros Hp. destruct s as [|a s]; [done|]. destruct (negb (number_char a)); [done|].
  destruct (leadingInt 0 (String a s)) as [[n s1]|] eqn:El; [|done]. apply leadingInt_length in El.
  match type of Hp with match ?x with _ => _ end = _ =>
    assert (Hs2 : (String.length (x.1.2) ≤ String.length s1)%nat); [|destruct x as [[[f sc] s2] post]] end.
  { destruct s1 as [|b s1]; [done|]. destruct (is_dot b); [|done].
    pose proof (leadingFraction_length 0 (f64_of_Z 1) false s1) as Hf.
    destruct (leadingFraction 0 (f64_of_Z 1) false s1) as [[f sc] s2]. simpl in *. lia. }
  simpl in Hs2. case_match; [done|]. pose proof (take_unit_length s2) as Ht.
  destruct (take_unit s2) as [u s3]. simpl in Ht. destruct (String.eqb_spec u "") as [|Hu]; [done|].
  assert (0 < String.length u)%nat by (destruct u; [done|simpl; lia]).
  destruct (unitMap u); [|done]. case_match; [done|]. repeat case_match; simplify_eq; lia.
Qed.

Lemma parse_parts_fuel k k' d s :
  (String.length s < k)%nat → (String.length s < k')%nat → parse_parts k d s = parse_parts k' d s.
Proof.
  revert k' d s. induction k as [|k IH]; intros [|k'] d s Hk Hk'; [lia..|]. simpl.
  destruct (String.eqb s ""); [done|]. destruct (parse_part s) as [[v r]|] eqn:Ep; [|done].
  apply parse_part_shorter in Ep. case_match; [done|]. apply IH; lia.
Qed.
