(* ===== verification/Lifecycle.v ===== *)
(** * Shim lifecycle: state machine and cleanup orchestrator

    Models internal/shim/lifecycle/state.go (the [StateMachine] of the shim,
    every operation one atomic step), cleanup.go (the [CleanupOrchestrator])
    and the result types of errors.go. *)

From S2P Require Import Prelude.

(** ** state.go *)

Module StateMachine.

Inductive ShimState :=
  | StateIdle | StateCreating | StateRunning | StateShuttingDown | StateDeleting.

#[global] Instance ShimState_eq_dec : EqDecision ShimState.
Proof. solve_decision. Defined.

Definition String (s : ShimState) : string :=
  match s with
  | StateIdle => "idle"
  | StateCreating => "creating"
  | StateRunning => "running"
  | StateShuttingDown => "shutting_down"
  | StateDeleting => "deleting"
  end.

Record t := mk { state : ShimState; intentionalShutdown : bool }.

Definition NewStateMachine : t := mk StateIdle false.

Definition State (sm : t) : ShimState := state sm.
Definition IsIntentionalShutdown (sm : t) : bool := intentionalShutdown sm.
Definition SetIntentionalShutdown (v : bool) (sm : t) : t := mk (state sm) v.

(** [atomic.Int32.CompareAndSwap]. *)
Definition CompareAndSwap (old new : ShimState) (sm : t) : bool * t :=
  if bool_decide (state sm = old) then (true, mk new (intentionalShutdown sm))
  else (false, sm).

Definition isValidTransition (from to : ShimState) : bool :=
  if bool_decide (to = StateShuttingDown) then true
  else match from with
       | StateIdle => bool_decide (to = StateCreating)
       | StateCreating => bool_decide (to = StateRunning) || bool_decide (to = StateIdle)
       | StateRunning =>
           bool_decide (to = StateDeleting) || bool_decide (to = StateShuttingDown)
       | StateDeleting => bool_decide (to = StateShuttingDown)
       | StateShuttingDown => false
       end.

Record StateTransitionError := NewStateTransitionError
  { ste_From : string; ste_To : string; ste_Current : string }.

(** [StateTransitionError.Is(target)]: only [ErrInvalidStateTransition]. *)
Definition StateTransitionError_text (e : StateTransitionError) : string :=
  "invalid state transition from " +:+ ste_From e +:+ " to " +:+ ste_To e +:+
  " (current state: " +:+ ste_Current e +:+ ")".

Definition Transition (from to : ShimState) (sm : t) : option StateTransitionError * t :=
  if negb (isValidTransition from to) then
    (Some (NewStateTransitionError (String from) (String to) (String (State sm))), sm)
  else
    let '(swapped, sm') := CompareAndSwap from to sm in
    if negb swapped then
      (Some (NewStateTransitionError (String from) (String to) (String (State sm'))), sm')
    else (None, sm').

Definition ForceTransition (to : ShimState) (sm : t) : ShimState * t :=
  (state sm, mk to (intentionalShutdown sm)).

Definition TryStartCreating (sm : t) : bool * t :=
  CompareAndSwap StateIdle StateCreating sm.

Definition TryStartDeleting (sm : t) : bool * t :=
  CompareAndSwap StateRunning StateDeleting sm.

Definition MarkCreated (sm : t) : option StateTransitionError * t :=
  let '(swapped, sm') := CompareAndSwap StateCreating StateRunning sm in
  if negb swapped then
    (Some (NewStateTransitionError (String StateCreating) (String StateRunning)
             (String (State sm'))), sm')
  else (None, sm').

Definition MarkCreationFailed (sm : t) : option StateTransitionError * t :=
  let '(swapped, sm') := CompareAndSwap StateCreating StateIdle sm in
  if negb swapped then
    (Some (NewStateTransitionError (String StateCreating) (String StateIdle)
             (String (State sm'))), sm')
  else (None, sm').

Definition IsCreating (sm : t) : bool := bool_decide (State sm = StateCreating).
Definition IsDeleting (sm : t) : bool := bool_decide (State sm = StateDeleting).
Definition IsRunning (sm : t) : bool := bool_decide (State sm = StateRunning).
Definition IsShuttingDown (sm : t) : bool := bool_decide (State sm = StateShuttingDown).

Definition CanAcceptRequests (sm : t) : bool :=
  let state := State sm in
  bool_decide (state = StateRunning) || bool_decide (state = StateCreating).

Definition Snapshot (sm : t) : ShimState * bool := (State sm, intentionalShutdown sm).

(** The operations as data: a run of the shim is a sequence of these steps,
    taken by any of its goroutines.  [ForceTransition] is only ever called
    with [StateShuttingDown] (service.go, [shutdown]). *)
Inductive op :=
  | OpTransition (from to : ShimState)
  | OpForceShutdown
  | OpTryStartCreating
  | OpTryStartDeleting
  | OpMarkCreated
  | OpMarkCreationFailed
  | OpSetIntentionalShutdown (v : bool).

(** The new state, and whether the operation reported success. *)
Definition run_op (o : op) (sm : t) : bool * t :=
  match o with
  | OpTransition from to =>
      let '(e, sm') := Transition from to sm in (bool_decide (e = None), sm')
  | OpForceShutdown => (true, (ForceTransition StateShuttingDown sm).2)
  | OpTryStartCreating => TryStartCreating sm
  | OpTryStartDeleting => TryStartDeleting sm
  | OpMarkCreated => let '(e, sm') := MarkCreated sm in (bool_decide (e = None), sm')
  | OpMarkCreationFailed =>
      let '(e, sm') := MarkCreationFailed sm in (bool_decide (e = None), sm')
  | OpSetIntentionalShutdown v => (true, SetIntentionalShutdown v sm)
  end.

#[global] Instance StateTransitionError_eq_dec : EqDecision StateTransitionError.
Proof. solve_decision. Defined.

Definition step (sm sm' : t) : Prop := ∃ o, (run_op o sm).2 = sm'.

(** A run of operations with the success of each. *)
Fixpoint run_ops (os : list op) (sm : t) : list bool * t :=
  match os with
  | [] => ([], sm)
  | o :: os' =>
      let '(b, sm1) := run_op o sm in
      let '(bs, sm2) := run_ops os' sm1 in (b :: bs, sm2)
  end.

(** The position of a state in the life of a shim: creation may fall back
    from Creating to Idle, every later state is final. *)
Definition past_creation (s : ShimState) : bool :=
  match s with StateIdle | StateCreating => false | _ => true end.

End StateMachine.

(** ** errors.go and cleanup.go *)

Module Cleanup.

Definition ShutdownPhase := string.
Definition PhaseHotplugStop : ShutdownPhase := "hotplug_stop".
Definition PhaseIOShutdown : ShutdownPhase := "io_shutdown".
Definition PhaseConnClose : ShutdownPhase := "connection_close".
Definition PhaseVMShutdown : ShutdownPhase := "vm_shutdown".
Definition PhaseNetworkCleanup : ShutdownPhase := "network_cleanup".
Definition PhaseMountCleanup : ShutdownPhase := "mount_cleanup".
Definition PhaseEventClose : ShutdownPhase := "event_close".

Record ShutdownError := NewShutdownError { se_Phase : ShutdownPhase; se_Err : error }.

Definition ShutdownError_text (e : ShutdownError) : string :=
  "shutdown failed at " +:+ se_Phase e +:+ ": " +:+ error_text (se_Err e).

(** [ShutdownResult.Errors]. *)
Definition ShutdownResult := list ShutdownError.

Definition Add (phase : ShutdownPhase) (err : option error) (r : ShutdownResult) :
    ShutdownResult :=
  match err with
  | Some e => r ++ [NewShutdownError phase e]
  | None => r
  end.

Definition HasErrors (r : ShutdownResult) : bool := 0 <? Z.of_nat (length r).

Definition Error (r : ShutdownResult) : string :=
  if negb (HasErrors r) then ""
  else "shutdown completed with errors: " +:+ strings_Join (ShutdownError_text <$> r) "; ".

Definition AsError (r : ShutdownResult) : option ShutdownResult :=
  if negb (HasErrors r) then None else Some r.

Definition FailedPhases (r : ShutdownResult) : list ShutdownPhase := se_Phase <$> r.

(** A cleanup function acts on the rest of the shim, a state [W]. *)
Section orchestrator.
Context {W : Type}.

Definition CleanupFunc := W → option error * W.

Record cleanupPhase := mkPhase
  { name : ShutdownPhase; fn : option CleanupFunc; done : bool }.

Record CleanupPhases := mkPhases
  { HotplugStop : option CleanupFunc; IOShutdown : option CleanupFunc;
    ConnClose : option CleanupFunc; VMShutdown : option CleanupFunc;
    NetworkCleanup : option CleanupFunc; MountCleanup : option CleanupFunc;
    EventClose : option CleanupFunc }.

Definition phaseOrder : list ShutdownPhase :=
  [PhaseHotplugStop; PhaseIOShutdown; PhaseConnClose; PhaseVMShutdown;
   PhaseNetworkCleanup; PhaseMountCleanup; PhaseEventClose].

Definition CleanupOrchestrator := list cleanupPhase.

Definition NewCleanupOrchestrator (phases : CleanupPhases) : CleanupOrchestrator :=
  [mkPhase PhaseHotplugStop (HotplugStop phases) false;
   mkPhase PhaseIOShutdown (IOShutdown phases) false;
   mkPhase PhaseConnClose (ConnClose phases) false;
   mkPhase PhaseVMShutdown (VMShutdown phases) false;
   mkPhase PhaseNetworkCleanup (NetworkCleanup phases) false;
   mkPhase PhaseMountCleanup (MountCleanup phases) false;
   mkPhase PhaseEventClose (EventClose phases) false].

(** The loop of [executeFrom] over the phases from [startIdx] on. *)
Fixpoint executeLoop (ps : list cleanupPhase) (result : ShutdownResult) (w : W) :
    list cleanupPhase * ShutdownResult * W :=
  match ps with
  | [] => ([], result, w)
  | p :: ps' =>
      match fn p, done p with
      | Some f, false =>
          let '(err, w1) := f w in
          let '(ps2, r2, w2) := executeLoop ps' (Add (name p) err result) w1 in
          (mkPhase (name p) (fn p) true :: ps2, r2, w2)
      | _, _ =>
          let '(ps2, r2, w2) := executeLoop ps' result w in (p :: ps2, r2, w2)
      end
  end.

Definition executeFrom (startIdx : nat) (c : CleanupOrchestrator) (w : W) :
    ShutdownResult * CleanupOrchestrator * W :=
  let '(ps, r, w') := executeLoop (drop startIdx c) [] w in
  (r, take startIdx c ++ ps, w').

Definition Execute (c : CleanupOrchestrator) (w : W) := executeFrom 0 c w.

(** [slices.Index]: [None] stands for -1. *)
Fixpoint slices_Index (l : list string) (x : string) : option nat :=
  match l with
  | [] => None
  | y :: l' => if bool_decide (y = x) then Some 0%nat else S <$> slices_Index l' x
  end.

Definition ExecutePartial (startPhase : ShutdownPhase) (c : CleanupOrchestrator) (w : W) :=
  let startIdx := default 0%nat (slices_Index phaseOrder startPhase) in
  executeFrom startIdx c w.

Definition Reset (c : CleanupOrchestrator) : CleanupOrchestrator :=
  (λ p, mkPhase (name p) (fn p) false) <$> c.

Definition CompletedPhases (c : CleanupOrchestrator) : list ShutdownPhase :=
  name <$> filter (λ p, done p = true) c.

(** What the orchestrator promises: the phases that have a function and were
    not run before, in the order of the list. *)
Definition pending (p : cleanupPhase) : Prop := is_Some (fn p) ∧ done p = false.

#[global] Instance pending_dec p : Decision (pending p).
Proof. unfold pending. apply _. Defined.

(** The specification: run every function of [ps] in turn, keep every error. *)
Fixpoint run_all (ps : list cleanupPhase) (w : W) : ShutdownResult * W :=
  match ps with
  | [] => ([], w)
  | p :: ps' =>
      match fn p with
      | None => run_all ps' w
      | Some f =>
          let '(err, w1) := f w in
          let '(r, w2) := run_all ps' w1 in
          (Add (name p) err [] ++ r, w2)
      end
  end.

Definition mark_done (p : cleanupPhase) : cleanupPhase :=
  if bool_decide (pending p) then mkPhase (name p) (fn p) true else p.

End orchestrator.
Arguments cleanupPhase W : clear implicits.
Arguments CleanupPhases W : clear implicits.
Arguments CleanupOrchestrator W : clear implicits.
Arguments CleanupFunc W : clear implicits.

End Cleanup.

(** ** Theorems: the state machine *)

Section state_machine_theorems.
Import StateMachine.

Lemma CompareAndSwap_spec old new sm :
  CompareAndSwap old new sm =
    (bool_decide (state sm = old),
     if bool_decide (state sm = old) then mk new (intentionalShutdown sm) else sm).
Proof. unfold CompareAndSwap. by case_bool_decide. Qed.

(** [Transition from to] succeeds exactly when the transition is allowed
    and the machine is in [from]; it then ends in [to], otherwise the machine
    is unchanged and the error names the current state.  The flag
    [intentionalShutdown] is never touched. *)
Theorem Transition_spec from to sm e sm' :
  Transition from to sm = (e, sm') →
  (e = None ↔ isValidTransition from to = true ∧ state sm = from) ∧
  (e = None → state sm' = to) ∧
  (e ≠ None → sm' = sm ∧ ste_Current <$> e = Some (String (state sm))) ∧
  intentionalShutdown sm' = intentionalShutdown sm.
Proof.
  unfold Transition. rewrite CompareAndSwap_spec.
  destruct (isValidTransition from to) eqn:Hv; simpl;
    [case_bool_decide; simpl|]; intros [= <- <-]; simpl; repeat split; naive_solver.
Qed.

Lemma Transition_spec_witness :
  Transition StateIdle StateCreating NewStateMachine = (None, mk StateCreating false) ∧
  state (mk StateCreating false) = StateCreating.
Proof.
  split; [reflexivity|].
  by apply (Transition_spec StateIdle StateCreating NewStateMachine None
              (mk StateCreating false)).
Defined.

Lemma run_op_cases o sm :
  state (run_op o sm).2 = state sm ∨
  isValidTransition (state sm) (state (run_op o sm).2) = true.
Proof.
  destruct o as [from to| | | | | |v]; simpl; auto.
  - unfold Transition. rewrite CompareAndSwap_spec.
    destruct (isValidTransition from to) eqn:Hv; simpl; [|auto].
    case_bool_decide; simpl; [subst; auto|auto].
  - unfold TryStartCreating. rewrite CompareAndSwap_spec. case_bool_decide as H; simpl; auto.
    rewrite H. auto.
  - unfold TryStartDeleting. rewrite CompareAndSwap_spec. case_bool_decide as H; simpl; auto.
    rewrite H. auto.
  - unfold MarkCreated. rewrite CompareAndSwap_spec. case_bool_decide as H; simpl; auto.
    rewrite H. auto.
  - unfold MarkCreationFailed. rewrite CompareAndSwap_spec.
    case_bool_decide as H; simpl; auto. rewrite H. auto.
Qed.

Lemma isValidTransition_past s s' :
  isValidTransition s s' = true → past_creation s = true → past_creation s' = true.
Proof. by destruct s, s'. Qed.

(** Every operation of every goroutine moves the machine along an allowed
    transition, so on any interleaving a shim that has left creation never
    returns to [StateIdle] or [StateCreating] (one container per shim), and
    [StateShuttingDown] is never left. *)
Theorem reachable_monotone sm sm' :
  rtc step sm sm' →
  (past_creation (state sm) = true → past_creation (state sm') = true) ∧
  (state sm = StateShuttingDown → state sm' = StateShuttingDown).
Proof.
  induction 1 as [|sm1 sm2 sm3 [o <-] _ [IH1 IH2]]; [done|].
  destruct (run_op_cases o sm1) as [E|V].
  - rewrite E in IH1, IH2. done.
  - split; intros H.
    + eauto using isValidTransition_past.
    + apply IH2. rewrite H in V. by destruct (state (run_op o sm1).2).
Qed.

Lemma reachable_monotone_witness :
  rtc step (mk StateRunning false) (mk StateShuttingDown false) ∧
  past_creation StateShuttingDown = true.
Proof.
  assert (H : rtc step (mk StateRunning false) (mk StateShuttingDown false)).
  { apply rtc_once. by exists OpForceShutdown. }
  split; [done|]. by apply (reachable_monotone _ _ H).
Defined.

Lemma run_ops_app os1 os2 sm :
  (run_ops (os1 ++ os2) sm).2 = (run_ops os2 (run_ops os1 sm).2).2.
Proof.
  revert sm. induction os1 as [|o os1 IH]; intros sm; simpl; [done|].
  destruct (run_op o sm) as [b sm1] eqn:E. specialize (IH sm1).
  destruct (run_ops (os1 ++ os2) sm1), (run_ops os1 sm1). exact IH.
Qed.

(** The only operations that lead back to [StateIdle]. *)
Definition resets_to_idle (o : op) : bool :=
  match o with
  | OpMarkCreationFailed => true
  | OpTransition from to => bool_decide (from = StateCreating ∧ to = StateIdle)
  | _ => false
  end.

Lemma run_op_not_idle o sm :
  resets_to_idle o = false → state sm ≠ StateIdle → state (run_op o sm).2 ≠ StateIdle.
Proof.
  intros Ho Hs. destruct (run_op_cases o sm) as [->|V]; [done|]. intros Hi.
  rewrite Hi in V. destruct o as [from to| | | | | |v]; simpl in *; try done;
    revert Hi; unfold Transition, TryStartCreating, TryStartDeleting, MarkCreated;
    rewrite ?CompareAndSwap_spec.
  - apply bool_decide_eq_false in Ho.
    destruct (isValidTransition from to) eqn:Hv; simpl; [|exact Hs].
    case_bool_decide as E; simpl; [|exact Hs]. intros ->.
    by destruct from; naive_solver.
  - case_bool_decide; [done|exact Hs].
  - case_bool_decide; [done|exact Hs].
  - case_bool_decide; [done|exact Hs].
Qed.

Lemma run_ops_not_idle os sm :
  Forall (λ o, resets_to_idle o = false) os → state sm ≠ StateIdle →
  state (run_ops os sm).2 ≠ StateIdle.
Proof.
  intros H. revert sm. induction H as [|o os Ho _ IH]; intros sm Hs; simpl; [done|].
  pose proof (run_op_not_idle o sm Ho Hs) as Hs'.
  destruct (run_op o sm) as [b sm1]. specialize (IH sm1 Hs').
  by destruct (run_ops os sm1).
Qed.

(** Mutual exclusion of creation.  If [TryStartCreating] succeeds twice
    in a run, with any operations of any goroutines in between, then one of
    those operations gave the creation up ([MarkCreationFailed] or the
    transition from Creating to Idle): two creations never overlap. *)
Theorem creation_exclusive sm os :
  (TryStartCreating sm).1 = true →
  (TryStartCreating (run_ops os (TryStartCreating sm).2).2).1 = true →
  Exists (λ o, resets_to_idle o = true) os.
Proof.
  unfold TryStartCreating. rewrite !CompareAndSwap_spec. simpl.
  intros H1 H2. apply bool_decide_eq_true in H1, H2.
  rewrite bool_decide_eq_true_2 in H2 by done.
  destruct (decide (Exists (λ o, resets_to_idle o = true) os)) as [|Hn]; [done|].
  apply not_Exists_Forall in Hn; [|solve_decision].
  exfalso. refine (run_ops_not_idle os _ _ _ H2); [|done].
  eapply Forall_impl; [exact Hn|]. intros o Ho. simpl in Ho.
  by destruct (resets_to_idle o).
Qed.

Lemma creation_exclusive_witness :
  Exists (λ o, resets_to_idle o = true) [OpMarkCreated; OpMarkCreationFailed] ∨
  Exists (λ o, resets_to_idle o = true) [OpMarkCreationFailed; OpSetIntentionalShutdown true].
Proof.
  right. apply (creation_exclusive NewStateMachine); reflexivity.
Defined.

End state_machine_theorems.

(** ** Theorems: the cleanup orchestrator *)

Section cleanup_theorems.
Import Cleanup.
Context {W : Type}.
Implicit Types (ps : list (cleanupPhase W)) (w : W).

Lemma executeLoop_spec ps r w :
  executeLoop ps r w =
    (mark_done <$> ps, r ++ (run_all (filter pending ps) w).1,
     (run_all (filter pending ps) w).2).
Proof.
  revert r w. induction ps as [|p ps IH]; intros r w; simpl.
  { by rewrite app_nil_r. }
  destruct (decide (pending p)) as [Hp|Hp].
  - rewrite filter_cons_True by done. unfold mark_done at 1.
    rewrite bool_decide_eq_true_2 by done. destruct Hp as [[f Hf] Hd].
    simpl. rewrite Hf, Hd. destruct (f w) as [err w1]. rewrite IH.
    destruct (run_all (filter pending ps) w1) as [r2 w2]. simpl.
    destruct err; simpl; by rewrite <- ?app_assoc.
  - rewrite filter_cons_False by done. unfold mark_done at 1.
    rewrite bool_decide_eq_false_2 by done.
    destruct (fn p) as [f|] eqn:Hf; [destruct (done p) eqn:Hd|]; rewrite ?IH; try done.
    destruct Hp. split; eauto.
Qed.

Lemma executeFrom_spec n (c : CleanupOrchestrator W) w :
  executeFrom n c w =
    ((run_all (filter pending (drop n c)) w).1,
     take n c ++ (mark_done <$> drop n c),
     (run_all (filter pending (drop n c)) w).2).
Proof. unfold executeFrom. by rewrite executeLoop_spec. Qed.

Lemma Execute_eq (c : CleanupOrchestrator W) w :
  Execute c w =
    ((run_all (filter pending c) w).1, mark_done <$> c,
     (run_all (filter pending c) w).2).
Proof. unfold Execute. by rewrite executeFrom_spec. Qed.


Lemma mark_done_not_pending (p : cleanupPhase W) : ¬ pending (mark_done p).
Proof. unfold mark_done. case_bool_decide as H; [intros [_ ?]; done|done]. Qed.

Lemma filter_mark_done ps : filter pending (mark_done <$> ps) = [].
Proof.
  apply filter_none, Forall_fmap, Forall_forall. intros p _. apply mark_done_not_pending.
Qed.

Lemma mark_done_idem (p : cleanupPhase W) : mark_done (mark_done p) = mark_done p.
Proof.
  unfold mark_done at 1. rewrite bool_decide_eq_false_2; [done|].
  apply mark_done_not_pending.
Qed.

(** A second [Execute] performs no cleanup and reports no error, so
    every phase is cleaned up at most once even when shutdown runs twice. *)
Theorem Execute_twice (c : CleanupOrchestrator W) w :
  let '(_, c1, w1) := Execute c w in Execute c1 w1 = ([], c1, w1).
Proof.
  rewrite Execute_eq. rewrite Execute_eq, filter_mark_done. simpl.
  f_equal. f_equal. rewrite <- list_fmap_compose. apply list_fmap_ext.
  intros _ p _. apply mark_done_idem.
Qed.

Lemma slices_Index_NoDup l i x :
  NoDup l → l !! i = Some x → slices_Index l x = Some i.
Proof.
  intros Hnd. revert i. induction Hnd as [|y l Hy Hnd IH]; intros i Hi; [done|].
  destruct i as [|i]; simpl in *.
  - simplify_eq. by rewrite bool_decide_eq_true_2.
  - rewrite bool_decide_eq_false_2.
    + by rewrite (IH i).
    + intros ->. apply Hy. by eapply list_elem_of_lookup_2.
Qed.

Lemma phaseOrder_NoDup : NoDup phaseOrder.
Proof. apply (bool_decide_unpack _). by vm_compute. Qed.

(** [ExecutePartial] from the i-th canonical phase leaves the earlier
    phases alone (they neither run nor become done) and runs the pending ones
    from that phase on; an unknown phase name runs everything. *)
Theorem ExecutePartial_spec (phases : CleanupPhases W) startPhase w :
  let c := NewCleanupOrchestrator phases in
  (∀ i, phaseOrder !! i = Some startPhase →
    ExecutePartial startPhase c w =
      ((run_all (filter pending (drop i c)) w).1,
       take i c ++ (mark_done <$> drop i c),
       (run_all (filter pending (drop i c)) w).2)) ∧
  (startPhase ∉ phaseOrder → ExecutePartial startPhase c w = Execute c w).
Proof.
  intros c. unfold ExecutePartial. split.
  - intros i Hi. rewrite (slices_Index_NoDup _ _ _ phaseOrder_NoDup Hi). simpl.
    apply executeFrom_spec.
  - intros Hn. cut (slices_Index phaseOrder startPhase = None); [by intros ->|].
    revert Hn. generalize phaseOrder. induction l as [|y l IH]; intros Hn; [done|].
    simpl. apply not_elem_of_cons in Hn as [Hy Hl].
    rewrite bool_decide_eq_false_2 by congruence. by rewrite IH.
Qed.

End cleanup_theorems.

(** A concrete orchestrator used by the witnesses: every phase appends its
    name to a log, the VM phase fails. *)
Definition log_phase (n : string) (e : option error) : Cleanup.CleanupFunc (list string) :=
  λ w, (e, w ++ [n]).

Definition demo_phases : Cleanup.CleanupPhases (list string) :=
  Cleanup.mkPhases (Some (log_phase "hotplug" None)) None
    (Some (log_phase "conn" None)) (Some (log_phase "vm" (Some (ErrNew "boom"))))
    (Some (log_phase "net" None)) (Some (log_phase "mounts" None))
    (Some (log_phase "events" None)).

Example demo_execute :
  (Cleanup.Execute (Cleanup.NewCleanupOrchestrator demo_phases) []).1.1 =
    [Cleanup.NewShutdownError "vm_shutdown" (ErrNew "boom")] ∧
  (Cleanup.Execute (Cleanup.NewCleanupOrchestrator demo_phases) []).2 =
    ["hotplug"; "conn"; "vm"; "net"; "mounts"; "events"].
Proof. split; reflexivity. Qed.
