(* ===== verification/ExitTracker.v ===== *)
(** * Guest exit tracker

    Models internal/guest/vminit/task/exit_tracker.go: the early-exit
    detector, the exit coordinator and the process registry.  Each method
    that takes a mutex once is one atomic step of the model; the methods that
    take several ([NotifyExit], [HandleStart], [Subscribe]) are compositions of
    such steps, and [HandleStart] is also given step by step so that other
    goroutines can run between its steps.

    A [*runc.Container] is its address, a subscription is its identifier (its
    [exits] map is shared through the pointer, so it outlives the entry of the
    detector's map), a channel is a number with the set of closed channels. *)

From S2P Require Import Prelude.

Module ExitTracker.

Notation Container := Z (only parsing).

Record Process := mkProcess { proc_ptr : Z; proc_isInit : bool; proc_ID : string }.
Definition IsInit (p : Process) : bool := proc_isInit p.

(** [runcC.Exit] of go-runc. *)
Record Exit := mkExit { Pid : Z; Status : Z }.

Record containerProcess := mkCP { cp_Container : Container; cp_Process : Process }.

#[global] Instance Process_eq_dec : EqDecision Process.
Proof. solve_decision. Defined.
#[global] Instance Exit_eq_dec : EqDecision Exit.
Proof. solve_decision. Defined.
#[global] Instance containerProcess_eq_dec : EqDecision containerProcess.
Proof. solve_decision. Defined.

Record containerExitState := mkCES
  { runningExecs : Z; execWaiter : option nat; initExit : option Exit }.

(** The detector ([exits] holds the subscription objects, [subscriptions] the
    identifiers in the detector's map), the coordinator, the registry, and
    the channels made so far. *)
Record t := mk
  { nextSubID : Z;
    subscriptions : gset Z;
    exits : gmap Z (gmap Z (list Exit));
    containers : gmap Container containerExitState;
    running : gmap Z (list containerProcess);
    nextChan : nat;
    closedChans : gset nat }.

Definition newExitTracker : t := mk 0 ∅ ∅ ∅ ∅ 0%nat ∅.

(** ** earlyExitDetector *)

Definition detector_subscribe (s : t) : Z * t :=
  let subID := wrapu64 (nextSubID s + 1) in
  (subID, mk subID ({[subID]} ∪ subscriptions s) (<[subID := ∅]> (exits s))
            (containers s) (running s) (nextChan s) (closedChans s)).

Definition add_exit (e : Exit) (m : gmap Z (list Exit)) : gmap Z (list Exit) :=
  <[Pid e := default [] (m !! Pid e) ++ [e]]> m.

Definition detector_notifyExit (e : Exit) (s : t) : t :=
  mk (nextSubID s) (subscriptions s)
     (map_imap (λ i m, Some (if bool_decide (i ∈ subscriptions s) then add_exit e m else m))
        (exits s))
     (containers s) (running s) (nextChan s) (closedChans s).

Definition detector_remove (id : Z) (s : t) : t :=
  mk (nextSubID s) (subscriptions s ∖ {[id]}) (exits s)
     (containers s) (running s) (nextChan s) (closedChans s).

(** [earlyExitSubscription.complete] and [cancel]. *)
Definition sub_complete (id pid : Z) (s : t) : list Exit * t :=
  let s' := detector_remove id s in
  (default [] ((default ∅ (exits s' !! id)) !! pid), s').

Definition sub_cancel (id : Z) (s : t) : t := detector_remove id s.

(** ** exitCoordinator *)

Definition set_containers (m : gmap Container containerExitState) (s : t) : t :=
  mk (nextSubID s) (subscriptions s) (exits s) m (running s) (nextChan s) (closedChans s).

Definition getOrCreateState (c : Container) (s : t) : containerExitState :=
  default (mkCES 0 None None) (containers s !! c).

Definition incrementExecCount (c : Container) (s : t) : t :=
  let state := getOrCreateState c s in
  set_containers (<[c := mkCES (runningExecs state +i 1) (execWaiter state) (initExit state)]>
                    (containers s)) s.

Definition stashInitExit (c : Container) (e : Exit) (s : t) : t :=
  let state := getOrCreateState c s in
  set_containers (<[c := mkCES (runningExecs state) (execWaiter state) (Some e)]>
                    (containers s)) s.

Definition shouldDelayInitExit (c : Container) (s : t) : option nat * t :=
  match containers s !! c with
  | None => (None, s)
  | Some state =>
      if runningExecs state =? 0 then (None, s)
      else
        let waitChan := nextChan s in
        (Some waitChan,
         mk (nextSubID s) (subscriptions s) (exits s)
            (<[c := mkCES (runningExecs state) (Some waitChan) (initExit state)]>
               (containers s))
            (running s) (S waitChan) (closedChans s))
  end.

Definition notifyExecExit (c : Container) (s : t) : t :=
  match containers s !! c with
  | None => s
  | Some state =>
      let n := runningExecs state -i 1 in
      if 0 <? n then
        set_containers (<[c := mkCES n (execWaiter state) (initExit state)]> (containers s)) s
      else
        match execWaiter state with
        | None =>
            set_containers (<[c := mkCES n None (initExit state)]> (containers s)) s
        | Some ch =>
            mk (nextSubID s) (subscriptions s) (exits s)
               (<[c := mkCES n None (initExit state)]> (containers s))
               (running s) (nextChan s) ({[ch]} ∪ closedChans s)
        end
  end.

Definition getInitExit (c : Container) (s : t) : option Exit * t :=
  match containers s !! c with
  | None => (None, s)
  | Some state =>
      match initExit state with
      | None => (None, s)
      | Some exit =>
          (Some exit,
           set_containers (<[c := mkCES (runningExecs state) (execWaiter state) None]>
                             (containers s)) s)
      end
  end.

Definition initHasExited (c : Container) (s : t) : bool :=
  match containers s !! c with
  | None => false
  | Some state => bool_decide (is_Some (initExit state))
  end.

Definition coordinator_cleanup (c : Container) (s : t) : t :=
  set_containers (delete c (containers s)) s.

(** ** processRegistry *)

Definition set_running (m : gmap Z (list containerProcess)) (s : t) : t :=
  mk (nextSubID s) (subscriptions s) (exits s) (containers s) m (nextChan s) (closedChans s).

Definition registry_add (pid : Z) (cp : containerProcess) (s : t) : t :=
  set_running (<[pid := default [] (running s !! pid) ++ [cp]]> (running s)) s.

Definition removeByPID (pid : Z) (s : t) : list containerProcess * t :=
  (default [] (running s !! pid), set_running (delete pid (running s)) s).

(** The filter loop shared by [removeByContainer] and [cleanupContainer]. *)
Definition other_container (c : Container) (cp : containerProcess) : Prop :=
  cp_Container cp ≠ c.

Definition removeByContainer (pid : Z) (c : Container) (s : t) : t :=
  match running s !! pid with
  | None | Some [] => s
  | Some cps =>
      let remaining := filter (other_container c) cps in
      match remaining with
      | [] => set_running (delete pid (running s)) s
      | _ => set_running (<[pid := remaining]> (running s)) s
      end
  end.

Definition cleanupContainer (c : Container) (s : t) : t :=
  set_running
    (map_imap (λ _ cps, match filter (other_container c) cps with
                        | [] => None
                        | remaining => Some remaining
                        end) (running s)) s.

(** ** exitTracker and subscription *)

Definition Subscribe (c : option (Container * Z)) (s : t) : Z * t :=
  let '(sub, s1) := detector_subscribe s in
  match c with
  | None => (sub, s1)
  | Some (c, cpid) => (sub, removeByContainer cpid c s1)
  end.

Fixpoint stash_inits (cps : list containerProcess) (e : Exit) (s : t) : t :=
  match cps with
  | [] => s
  | cp :: cps' =>
      stash_inits cps' e
        (if IsInit (cp_Process cp) then stashInitExit (cp_Container cp) e s else s)
  end.

Definition NotifyExit (e : Exit) (s : t) : list containerProcess * t :=
  let s1 := detector_notifyExit e s in
  let '(cps, s2) := removeByPID (Pid e) s1 in
  (cps, stash_inits cps e s2).

Definition ShouldDelayInitExit := shouldDelayInitExit.
Definition NotifyExecExit := notifyExecExit.
Definition GetInitExit := getInitExit.
Definition InitHasExited := initHasExited.
Definition DecrementExecCount := notifyExecExit.

Definition Cleanup (c : Container) (s : t) : t :=
  cleanupContainer c (coordinator_cleanup c s).

Definition HandleStart (sub : Z) (c : Container) (p : Process) (pid : Z) (s : t) :
    list Exit * t :=
  let '(earlyExits, s1) := sub_complete sub pid s in
  if (pid =? 0) || (0 <? Z.of_nat (length earlyExits)) then (earlyExits, s1)
  else
    let s2 := registry_add pid (mkCP c p) s1 in
    ([], if negb (IsInit p) then incrementExecCount c s2 else s2).

Definition Cancel (sub : Z) (s : t) : t := sub_cancel sub s.

(** ** The steps of the goroutines

    A starting goroutine runs [HandleStart] as three steps with a local list
    of early exits; the reaper goroutine runs [NotifyExit].  A schedule is a
    list of such steps. *)
Inductive step :=
  | StSubscribe
  | StComplete (sub pid : Z)
  | StRegister (c : Container) (p : Process) (pid : Z)
  | StIncrement (c : Container)
  | StNotifyExit (e : Exit).

(** What a step delivers: exits handed to the start handler or processes
    handed to the exit handler. *)
Definition run_step (st : step) (s : t) : (list Exit * list containerProcess) * t :=
  match st with
  | StSubscribe => (([], []), (detector_subscribe s).2)
  | StComplete sub pid =>
      let '(es, s') := sub_complete sub pid s in ((es, []), s')
  | StRegister c p pid => (([], []), registry_add pid (mkCP c p) s)
  | StIncrement c => (([], []), incrementExecCount c s)
  | StNotifyExit e => let '(cps, s') := NotifyExit e s in (([], cps), s')
  end.

Fixpoint run_steps (sts : list step) (s : t) : (list Exit * list containerProcess) * t :=
  match sts with
  | [] => (([], []), s)
  | st :: sts' =>
      let '((es1, cps1), s1) := run_step st s in
      let '((es2, cps2), s2) := run_steps sts' s1 in ((es1 ++ es2, cps1 ++ cps2), s2)
  end.

(** ** Well-formedness

    No channel is handed out twice or closed while stored, subscriptions have
    an [exits] object, no registry entry is empty. *)
Record wf (s : t) : Prop := mk_wf
  { wf_chan : ∀ c st ch, containers s !! c = Some st → execWaiter st = Some ch →
      (ch < nextChan s)%nat ∧ ch ∉ closedChans s;
    wf_closed : ∀ ch, ch ∈ closedChans s → (ch < nextChan s)%nat;
    wf_waiter_inj : ∀ c1 c2 st1 st2 ch, containers s !! c1 = Some st1 →
      containers s !! c2 = Some st2 → execWaiter st1 = Some ch →
      execWaiter st2 = Some ch → c1 = c2;
    wf_running : ∀ pid cps, running s !! pid = Some cps → cps ≠ [] }.

End ExitTracker.

(** ** Theorems *)

Section tracker_theorems.
Import ExitTracker.
Implicit Types (s : t) (c : Container) (e : Exit) (p : Process).

(** Every operation of the tracker as a transition. *)
Inductive op_step : t → t → Prop :=
  | op_subscribe s : op_step s (detector_subscribe s).2
  | op_notify s e : op_step s (detector_notifyExit e s)
  | op_remove s id : op_step s (detector_remove id s)
  | op_increment s c : op_step s (incrementExecCount c s)
  | op_stash s c e : op_step s (stashInitExit c e s)
  | op_delay s c : op_step s (shouldDelayInitExit c s).2
  | op_exec_exit s c : op_step s (notifyExecExit c s)
  | op_get_init s c : op_step s (getInitExit c s).2
  | op_cleanup s c : op_step s (coordinator_cleanup c s)
  | op_add s pid cp : op_step s (registry_add pid cp s)
  | op_remove_pid s pid : op_step s (removeByPID pid s).2
  | op_remove_container s pid c : op_step s (removeByContainer pid c s)
  | op_cleanup_container s c : op_step s (cleanupContainer c s).

(** Updating one container's state keeps the channel invariant when its
    waiter is dropped or kept. *)
Lemma wf_set_state s c (st : containerExitState) :
  wf s →
  (∀ ch, execWaiter st = Some ch →
     ∃ st0, containers s !! c = Some st0 ∧ execWaiter st0 = Some ch) →
  wf (set_containers (<[c := st]> (containers s)) s).
Proof.
  intros [Hc Hcl Hinj Hr] Hst. split; simpl; [| done | | done].
  - intros c' st' ch Hl Hw. destruct (decide (c = c')) as [->|Hne].
    + rewrite lookup_insert_eq in Hl. simplify_eq. destruct (Hst _ Hw) as (st0 & ? & ?). eauto.
    + rewrite lookup_insert_ne in Hl by done. eauto.
  - intros c1 c2 st1 st2 ch H1 H2 Hw1 Hw2.
    apply lookup_insert_Some in H1 as [[<- <-]|[Hn1 H1]];
      apply lookup_insert_Some in H2 as [[<- <-]|[Hn2 H2]]; try done.
    + destruct (Hst _ Hw1) as (st0 & ? & ?). exfalso. apply Hn2. eauto.
    + destruct (Hst _ Hw2) as (st0 & ? & ?). exfalso. apply Hn1. eauto.
    + eauto.
Qed.

Lemma wf_set_running s m :
  wf s → (∀ pid cps, m !! pid = Some cps → cps ≠ []) → wf (set_running m s).
Proof. intros [??? _] H. by split. Qed.

Lemma getOrCreateState_waiter c s ch :
  execWaiter (getOrCreateState c s) = Some ch →
  ∃ st0, containers s !! c = Some st0 ∧ execWaiter st0 = Some ch.
Proof. unfold getOrCreateState. destruct (containers s !! c); simpl; naive_solver. Qed.

Lemma wf_notifyExecExit s c : wf s → wf (notifyExecExit c s).
Proof.
  intros Hwf. unfold notifyExecExit.
  destruct (containers s !! c) as [st|] eqn:Hl; [|done].
  case_match; [apply wf_set_state; naive_solver|].
  destruct (execWaiter st) as [ch|] eqn:Hw; [|apply wf_set_state; naive_solver].
  destruct (wf_set_state s c (mkCES (runningExecs st -i 1) None (initExit st)) Hwf)
    as [Hc Hcl Hinj Hr]; [done|].
  destruct Hwf as [Hc0 Hcl0 Hinj0 Hr0].
  split; simpl in *; [| |done|done].
  - intros c' st' ch' Hl' Hw'. destruct (Hc _ _ _ Hl' Hw') as [? ?]. split; [done|].
    apply lookup_insert_Some in Hl' as [[<- <-]|[Hne Hl']]; [done|].
    assert (ch' ≠ ch); [|set_solver]. intros ->. eauto.
  - intros ch'. rewrite elem_of_union, elem_of_singleton. intros [->|?]; [|eauto].
    by destruct (Hc0 _ _ _ Hl Hw).
Qed.

Lemma wf_shouldDelayInitExit s c : wf s → wf (shouldDelayInitExit c s).2.
Proof.
  intros [Hc Hcl Hinj Hr]. unfold shouldDelayInitExit.
  destruct (containers s !! c) as [st|] eqn:Hl; [|done].
  case_match; simpl; [done|]. split; simpl; [| | |done].
  - intros c' st' ch. rewrite lookup_insert_Some. intros [[<- <-]|[Hne Hl']] Hw.
    + simplify_eq/=. split; [lia|]. intros Hin. apply Hcl in Hin. lia.
    + destruct (Hc _ _ _ Hl' Hw). split; [lia|done].
  - intros ch Hch. apply Hcl in Hch. lia.
  - intros c1 c2 st1 st2 ch. rewrite !lookup_insert_Some.
    intros [[<- <-]|[? H1]] [[<- <-]|[? H2]] Hw1 Hw2; simplify_eq/=; try done.
    + destruct (Hc _ _ _ H2 Hw2). lia.
    + destruct (Hc _ _ _ H1 Hw1). lia.
    + eauto.
Qed.

Lemma wf_step s s' : op_step s s' → wf s → wf s'.
Proof.
  intros Hs Hwf. destruct Hs.
  - by destruct Hwf; split.
  - by destruct Hwf; split.
  - by destruct Hwf; split.
  - apply wf_set_state; [done|]. simpl. apply getOrCreateState_waiter.
  - apply wf_set_state; [done|]. simpl. apply getOrCreateState_waiter.
  - by apply wf_shouldDelayInitExit.
  - by apply wf_notifyExecExit.
  - unfold getInitExit. case_match eqn:Hl; [|done]. case_match; [|done].
    apply wf_set_state; [done|]. simpl. eauto.
  - destruct Hwf as [Hc Hcl Hinj Hr]. split; simpl; try done.
    + intros c' st ch Hl. apply lookup_delete_Some in Hl as [_ Hl]. eauto.
    + intros c1 c2 st1 st2 ch H1 H2. apply lookup_delete_Some in H1 as [_ H1].
      apply lookup_delete_Some in H2 as [_ H2]. eauto.
  - apply wf_set_running; [done|]. intros pid' cps.
    rewrite lookup_insert_Some. intros [[_ <-]|[_ H]]; [by destruct (default _ _)|].
    by eapply wf_running.
  - apply wf_set_running; [done|]. intros pid' cps H.
    apply lookup_delete_Some in H as [_ H]. by eapply wf_running.
  - unfold removeByContainer. case_match eqn:Hl; [|done]. case_match; [done|].
    case_match; apply wf_set_running; try done; intros pid' cps.
    + rewrite lookup_delete_Some. intros [_ H']. by eapply wf_running.
    + rewrite lookup_insert_Some. intros [[_ <-]|[_ H']]; [done|by eapply wf_running].
  - apply wf_set_running; [done|]. intros pid cps. rewrite map_lookup_imap.
    intros (cps0 & _ & H)%bind_Some. case_match; by simplify_eq.
Qed.

Lemma wf_init : wf newExitTracker.
Proof. split; simpl; intros *; rewrite ?lookup_empty; set_solver. Qed.

(** On every interleaving of the tracker's operations, a channel stored
    as a container's waiter was made by the tracker, is still open, and
    belongs to one container only; so [notifyExecExit] never closes a channel
    twice (which would panic), and no empty slice stays in the registry. *)
Theorem tracker_invariant s : rtc op_step newExitTracker s → wf s.
Proof.
  intros H. generalize wf_init. revert H. generalize newExitTracker.
  induction 1; eauto using wf_step.
Qed.

Lemma tracker_invariant_witness :
  rtc op_step newExitTracker (incrementExecCount 7 newExitTracker) ∧
  wf (incrementExecCount 7 newExitTracker).
Proof.
  assert (H : rtc op_step newExitTracker (incrementExecCount 7 newExitTracker))
    by apply rtc_once, op_increment.
  split; [exact H|]. apply tracker_invariant, H.
Defined.

(** *** Delivery of early exits *)

(** The steps other goroutines may take while a subscription is open. *)
Definition window_step (sub : Z) (st : step) : bool :=
  match st with StComplete sub' _ => negb (sub' =? sub) | _ => true end.

Definition notified (pid : Z) (st : step) : list Exit :=
  match st with
  | StNotifyExit e => if Pid e =? pid then [e] else []
  | _ => []
  end.

Definition subscribes (st : step) : Z :=
  match st with StSubscribe => 1 | _ => 0 end.

Fixpoint count_subscribes (sts : list step) : Z :=
  match sts with [] => 0 | st :: sts' => subscribes st + count_subscribes sts' end.

Lemma count_subscribes_nonneg sts : 0 ≤ count_subscribes sts.
Proof. induction sts as [|[] sts IH]; simpl; lia. Qed.

(** What subscription [sub] holds for [pid]. *)
Definition collected (s : t) (sub pid : Z) : option (list Exit) :=
  (λ m, default [] (m !! pid)) <$> (exits s !! sub).

Lemma exits_stash_inits cps e s :
  exits (stash_inits cps e s) = exits s ∧
  subscriptions (stash_inits cps e s) = subscriptions s ∧
  nextSubID (stash_inits cps e s) = nextSubID s ∧
  running (stash_inits cps e s) = running s.
Proof.
  revert s. induction cps as [|cp cps IH]; intros s; simpl; [done|].
  destruct (IsInit (cp_Process cp)); [|apply IH].
  destruct (IH (stashInitExit (cp_Container cp) e s)) as (?&?&?&?). by repeat split.
Qed.

Lemma collected_notify s e sub pid l :
  sub ∈ subscriptions s → collected s sub pid = Some l →
  collected (detector_notifyExit e s) sub pid =
    Some (l ++ if Pid e =? pid then [e] else []).
Proof.
  unfold collected. simpl. intros Hin Hl. rewrite map_lookup_imap.
  destruct (exits s !! sub) as [m|]; simplify_eq/=.
  rewrite bool_decide_eq_true_2 by done. simpl. unfold add_exit.
  destruct (Z.eqb_spec (Pid e) pid) as [->|Hne].
  - by rewrite lookup_insert_eq.
  - by rewrite lookup_insert_ne, app_nil_r.
Qed.

Lemma window_step_collects sub pid st s l :
  window_step sub st = true →
  sub ∈ subscriptions s → collected s sub pid = Some l →
  1 ≤ sub ≤ nextSubID s → nextSubID s + subscribes st < 2 ^ 64 →
  let s' := (run_step st s).2 in
  sub ∈ subscriptions s' ∧ collected s' sub pid = Some (l ++ notified pid st) ∧
  nextSubID s' = nextSubID s + subscribes st.
Proof.
  intros Hw Hin Hcol Hsub Hn. destruct st as [|sub' pid'|c p pid'|c|e]; simpl in *;
    rewrite ?app_nil_r, ?Z.add_0_r; try done.
  - rewrite wrapu64_id by lia. split; [set_solver|]. split; [|done].
    unfold collected in *. simpl. rewrite lookup_insert_ne by lia. done.
  - split; [|done]. apply negb_true_iff, Z.eqb_neq in Hw. set_solver.
  - destruct (exits_stash_inits (default [] (running s !! Pid e)) e
      (set_running (delete (Pid e) (running s)) (detector_notifyExit e s))) as (H1&H2&H3&_).
    rewrite H2, H3. split; [done|]. split; [|done]. unfold collected. rewrite H1.
    by apply collected_notify.
Qed.

Lemma window_collects sub pid sts s l :
  forallb (window_step sub) sts = true →
  sub ∈ subscriptions s → collected s sub pid = Some l →
  1 ≤ sub ≤ nextSubID s → nextSubID s + count_subscribes sts < 2 ^ 64 →
  collected (run_steps sts s).2 sub pid = Some (l ++ concat (notified pid <$> sts)).
Proof.
  revert s l. induction sts as [|st sts IH]; intros s l Hw Hin Hcol Hsub Hn; simpl in *.
  { by rewrite app_nil_r. }
  apply andb_prop in Hw as [Hw1 Hw2]. pose proof (count_subscribes_nonneg sts).
  destruct (window_step_collects sub pid st s l) as (H1&H2&H3); try done; [lia|].
  destruct (run_step st s) as [[es cps] s1]. simpl in *.
  assert (0 ≤ subscribes st) by (destruct st; simpl; lia).
  pose proof (IH s1 _ Hw2 H1 H2 ltac:(lia) ltac:(lia)) as IH'.
  destruct (run_steps sts s1) as [[es2 cps2] s2]. simpl in *.
  by rewrite IH', <- app_assoc.
Qed.



(** The registration race.  [HandleStart] releases the detector's lock
    before it takes the registry's: an exit of [pid] that arrives between the
    two steps (after [complete], before [add]) is delivered to nobody, neither
    as an early exit nor to the exit handler, and the dead process stays
    registered as running. *)
Theorem exit_lost_in_window s sub c p e :
  collected s sub (Pid e) = Some [] → running s !! Pid e = None →
  let '((es, cps), s') :=
    run_steps [StComplete sub (Pid e); StNotifyExit e; StRegister c p (Pid e)] s in
  es = [] ∧ cps = [] ∧ running s' !! Pid e = Some [mkCP c p].
Proof.
  intros Hcol Hrun. simpl. unfold collected in Hcol.
  rewrite Hrun. simpl. rewrite lookup_delete_eq. simpl.
  destruct (exits s !! sub) as [m|]; [|done]. injection Hcol as Hm. simpl.
  rewrite Hm, lookup_insert_eq. done.
Qed.

Lemma exit_lost_in_window_witness :
  let e := mkExit 42 0 in let p := mkProcess 1 true "c" in
  let s := (Subscribe None newExitTracker).2 in
  (run_steps [StComplete 1 42; StNotifyExit e; StRegister 7 p 42] s).1 = ([], []).
Proof.
  pose proof (exit_lost_in_window (Subscribe None newExitTracker).2 1 7
    (mkProcess 1 true "c") (mkExit 42 0) eq_refl eq_refl) as H.
  exact (f_equal2 pair (proj1 H) (proj1 (proj2 H))).
Defined.

(** *** Init exits wait for the execs *)

Lemma notifyExecExit_counts c s st :
  containers s !! c = Some st → in_int64 (runningExecs st - 1) →
  0 < runningExecs st - 1 →
  containers (notifyExecExit c s) !! c =
    Some (mkCES (runningExecs st - 1) (execWaiter st) (initExit st)) ∧
  closedChans (notifyExecExit c s) = closedChans s.
Proof.
  intros Hl Hr Hpos. unfold notifyExecExit. rewrite Hl, wrap64_id by done.
  destruct (Z.ltb_spec 0 (runningExecs st - 1)); [|lia]. simpl.
  by rewrite lookup_insert_eq.
Qed.

Lemma notifyExecExit_last c s st ch :
  containers s !! c = Some st → execWaiter st = Some ch → runningExecs st = 1 →
  ch ∈ closedChans (notifyExecExit c s).
Proof.
  intros Hl Hw H1. unfold notifyExecExit. rewrite Hl, H1, Hw. simpl. set_solver.
Qed.

(** With [n > 0] execs running, an init exit is delayed on a fresh open
    channel; that channel stays open for the first [n - 1] exec exits and is
    closed by the n-th. *)
Theorem init_exit_waits_for_execs c s st (n : nat) :
  wf s → containers s !! c = Some st → runningExecs st = Z.of_nat (S n) →
  in_int64 (runningExecs st) →
  ∃ ch s1, shouldDelayInitExit c s = (Some ch, s1) ∧ ch ∉ closedChans s1 ∧
    (∀ k, (k ≤ n)%nat → ch ∉ closedChans (Nat.iter k (notifyExecExit c) s1)) ∧
    ch ∈ closedChans (Nat.iter (S n) (notifyExecExit c) s1).
Proof.
  intros Hwf Hl Hn Hr. unfold shouldDelayInitExit. rewrite Hl.
  destruct (Z.eqb_spec (runningExecs st) 0) as [E|_]; [lia|].
  eexists _, _. split; [done|].
  set (s1 := mk _ _ _ _ _ _ _).
  assert (Hiter : ∀ k, (k ≤ n)%nat →
    containers (Nat.iter k (notifyExecExit c) s1) !! c =
      Some (mkCES (Z.of_nat (S n) - Z.of_nat k) (Some (nextChan s)) (initExit st)) ∧
    closedChans (Nat.iter k (notifyExecExit c) s1) = closedChans s).
  { induction k as [|k IH]; intros Hk.
    - split; [|done]. subst s1. cbn [Nat.iter nat_rect containers].
      rewrite lookup_insert_eq, Hn. by rewrite Z.sub_0_r.
    - destruct IH as [IH1 IH2]; [lia|]. rewrite Nat.iter_succ.
      apply in_int64_alt in Hr.
      destruct (notifyExecExit_counts c _ _ IH1) as [-> ->]; simpl;
        [apply in_int64_alt; lia|lia|]. split; [|done]. do 2 f_equal. lia. }
  assert (nextChan s ∉ closedChans s) as Hfresh.
  { intros Hin. apply (wf_closed _ Hwf) in Hin. lia. }
  split; [done|]. split.
  - intros k Hk. destruct (Hiter k Hk) as [_ ->]. done.
  - rewrite Nat.iter_succ. destruct (Hiter n) as [H1 _]; [done|].
    eapply notifyExecExit_last; [exact H1|done|simpl; lia].
Qed.

Lemma init_exit_waits_for_execs_witness :
  let s := incrementExecCount 7 (incrementExecCount 7 newExitTracker) in
  ∃ ch s1, shouldDelayInitExit 7 s = (Some ch, s1) ∧ ch ∉ closedChans s1 ∧
    (∀ k, (k ≤ 1)%nat → ch ∉ closedChans (Nat.iter k (notifyExecExit 7) s1)) ∧
    ch ∈ closedChans (Nat.iter 2 (notifyExecExit 7) s1).
Proof.
  apply (init_exit_waits_for_execs 7 _ (mkCES 2 None None) 1); [|done|done|].
  - apply (wf_step (incrementExecCount 7 newExitTracker)); [constructor|].
    apply (wf_step newExitTracker); [constructor|apply wf_init].
  - unfold in_int64, min_int64, max_int64. simpl. lia.
Defined.

(** *** Cleanup *)

(** After [Cleanup c] neither the coordinator nor the registry mentions
    [c], and every other container keeps its state and its processes. *)
Theorem Cleanup_spec c s :
  containers (Cleanup c s) !! c = None ∧
  (∀ c', c' ≠ c → containers (Cleanup c s) !! c' = containers s !! c') ∧
  (∀ pid cp, cp ∈ default [] (running (Cleanup c s) !! pid) ↔
     cp ∈ default [] (running s !! pid) ∧ cp_Container cp ≠ c).
Proof.
  unfold Cleanup. simpl. rewrite lookup_delete_eq. split; [done|]. split.
  { intros c' Hc. by rewrite lookup_delete_ne. }
  intros pid cp. rewrite map_lookup_imap.
  destruct (running s !! pid) as [cps|]; simpl; [|set_solver].
  assert (Hf : cp ∈ filter (other_container c) cps ↔ cp ∈ cps ∧ cp_Container cp ≠ c).
  { rewrite list_elem_of_filter. unfold other_container. tauto. }
  destruct (filter (other_container c) cps) eqn:E; simpl; rewrite <- Hf; set_solver.
Qed.

End tracker_theorems.
