(* ===== verification/ProcessState.v ===== *)
(** * Guest processes: the init and exec state machines

    Models internal/guest/vminit/process/state.go, the operations of init.go
    and exec.go that drive it, and the helpers of utils.go.  The OCI runtime
    (go-runc), consoles, pipes, mounts and the clock are not part of the
    repository: they are the fields of an environment [Env] acting on a world
    [W]. *)

From S2P Require Import Prelude GoStrings.

Module Proc.

Inductive State := StateCreated | StateRunning | StateStopped | StateDeleted.

#[global] Instance State_eq_dec : EqDecision State.
Proof. solve_decision. Defined.

Definition State_String (s : State) : string :=
  match s with
  | StateCreated => "created"
  | StateRunning => "running"
  | StateStopped => "stopped"
  | StateDeleted => "deleted"
  end.

Definition validTransitions (s : State) : list State :=
  match s with
  | StateCreated => [StateRunning; StateStopped; StateDeleted]
  | StateRunning => [StateStopped]
  | StateStopped => [StateDeleted]
  | StateDeleted => []
  end.

Definition canTransition (from to : State) : bool :=
  existsb (λ valid, bool_decide (valid = to)) (validTransitions from).

Definition checkKillError (err : option error) : option error :=
  match err with
  | None => None
  | Some e =>
      let msg := error_text e in
      if Contains msg "os: process already finished" ||
         Contains msg "container not running" ||
         Contains (ToLower msg) "no such process"
      then Some (ErrWrap "process already finished" (ErrSentinel ErrNotFound))
      else if Contains msg "does not exist" then
        Some (ErrWrap "no such container" (ErrSentinel ErrNotFound))
      else Some (ErrWrap "unknown error after kill" e)
  end.

(** The calls that leave the repository. *)
Record Env (W : Type) := mkEnv
  { rt_Start : string → W → option error * W;
    rt_Delete : string → W → option error * W;
    rt_Kill : string → Z → bool → W → option error * W;
    rt_Exec : string → string → W → option error * W;
    rt_Update : string → W → option error * W;
    lastRuntimeError : W → result string;
    waitIO : W → W;
    closeIO : W → W;
    unmountRecursive : string → W → option error * W;
    shutdownConsole : W → W;
    resizeConsole : W → option error * W;
    unixKill : Z → Z → W → option error * W;
    newConsoleSocket : W → option error * W;
    closeSocket : W → W;
    createIO : W → option error * W;
    receiveMaster : W → option error * W;
    copyConsole : W → option error * W;
    pioCopy : W → option error * W;
    readPidFile : W → result Z * W;
    now : W → Time * W }.
Arguments rt_Start {W}. Arguments rt_Delete {W}. Arguments rt_Kill {W}.
Arguments rt_Exec {W}. Arguments rt_Update {W}. Arguments lastRuntimeError {W}.
Arguments waitIO {W}. Arguments closeIO {W}. Arguments unmountRecursive {W}.
Arguments shutdownConsole {W}. Arguments resizeConsole {W}. Arguments unixKill {W}.
Arguments newConsoleSocket {W}. Arguments closeSocket {W}. Arguments createIO {W}.
Arguments receiveMaster {W}. Arguments copyConsole {W}. Arguments pioCopy {W}.
Arguments readPidFile {W}. Arguments now {W}.

Section process.
Context {W : Type} (env : Env W).

(** [Init.runtimeError]. *)
Definition runtimeError (rErr : option error) (msg : string) (w : W) : option error :=
  match rErr with
  | None => None
  | Some e =>
      match lastRuntimeError env w with
      | Err e2 =>
          Some (ErrWrap (msg +:+ ": unable to retrieve OCI runtime error (" +:+
                           error_text e2 +:+ ")") e)
      | Ok rMsg =>
          if String.eqb rMsg "" then Some (ErrWrap msg e)
          else Some (ErrNew (msg +:+ ": " +:+ rMsg))
      end
  end.

(** ** Init *)

Record Init := mkInit
  { i_id : string; i_currentState : State; i_status : Z; i_exited : Time;
    i_pid : Z; i_waitBlock : chan; i_hasRuntime : bool; i_hasPlatform : bool;
    i_hasIO : bool; i_Rootfs : string }.

Definition New (id : string) : Init :=
  mkInit id StateCreated 0 0 0 OpenChan true false false "".

Definition i_setState (s : State) (p : Init) : Init :=
  mkInit (i_id p) s (i_status p) (i_exited p) (i_pid p) (i_waitBlock p)
    (i_hasRuntime p) (i_hasPlatform p) (i_hasIO p) (i_Rootfs p).

Definition init_transition (to : State) (p : Init) : option error * Init :=
  if negb (canTransition (i_currentState p) to) then
    (Some (ErrNew ("invalid state transition " +:+ State_String (i_currentState p) +:+
                   " to " +:+ State_String to)), p)
  else (None, i_setState to p).

Definition init_start (p : Init) (w : W) : option error * W :=
  if negb (i_hasRuntime p) then (Some (ErrNew "runtime not initialized"), w)
  else
    let '(err, w1) := rt_Start env (i_id p) w in
    (runtimeError err "OCI runtime start failed" w1, w1).

Definition init_delete (p : Init) (w : W) : option error * W :=
  let w1 := waitIO env w in
  if negb (i_hasRuntime p) then (Some (ErrNew "runtime not initialized"), w1)
  else
    let '(err0, w2) := rt_Delete env (i_id p) w1 in
    let err := match err0 with
               | None => None
               | Some e => if Contains (error_text e) "does not exist" then None
                           else runtimeError err0 "failed to delete task" w2
               end in
    let w3 := if i_hasIO p then closeIO env w2 else w2 in
    let '(err2, w4) := unmountRecursive env (i_Rootfs p) w3 in
    (match err2, err with
     | Some e2, None => Some (ErrWrap "failed rootfs umount" e2)
     | _, _ => err
     end, w4).

Definition init_kill (signal : Z) (all : bool) (p : Init) (w : W) : option error * W :=
  if negb (i_hasRuntime p) then (Some (ErrNew "runtime not initialized"), w)
  else
    let '(err, w1) := rt_Kill env (i_id p) signal all w in (checkKillError err, w1).

Definition SIGKILL : Z := 9.

Definition KillAll (p : Init) (w : W) : option error * W :=
  if negb (i_hasRuntime p) then (Some (ErrNew "runtime not initialized"), w)
  else
    let '(err, w1) := rt_Kill env (i_id p) SIGKILL true w in
    (runtimeError err "OCI runtime killall failed" w1, w1).

Definition init_setExited (status : Z) (p : Init) (w : W) : outcome (Init * W) :=
  let '(exited, w1) := now env w in
  let w2 := if i_hasPlatform p then shutdownConsole env w1 else w1 in
  let done (ch : chan) :=
    (mkInit (i_id p) (i_currentState p) status exited (i_pid p) ch
       (i_hasRuntime p) (i_hasPlatform p) (i_hasIO p) (i_Rootfs p), w2) in
  match i_waitBlock p with
  | NilChan => Return (done NilChan)
  | ch => outcome_map done (close ch)
  end.

(** The methods of [initStateMachine], called through [Init] under its lock. *)
Definition init_Start (p : Init) (w : W) : option error * Init * W :=
  match i_currentState p with
  | StateCreated =>
      let '(err, w1) := init_start p w in
      match err with
      | Some _ => (err, p, w1)
      | None => let '(err2, p2) := init_transition StateRunning p in (err2, p2, w1)
      end
  | StateRunning => (Some (ErrNew "cannot start a running process"), p, w)
  | StateStopped => (Some (ErrNew "cannot start a stopped process"), p, w)
  | StateDeleted => (Some (ErrNew "cannot start a deleted process"), p, w)
  end.

Definition init_Delete (p : Init) (w : W) : option error * Init * W :=
  match i_currentState p with
  | StateCreated | StateStopped =>
      let '(err, w1) := init_delete p w in
      match err with
      | Some _ => (err, p, w1)
      | None => let '(err2, p2) := init_transition StateDeleted p in (err2, p2, w1)
      end
  | StateRunning => (Some (ErrNew "cannot delete a running process"), p, w)
  | StateDeleted =>
      (Some (ErrWrap "cannot delete a deleted process" (ErrSentinel ErrNotFound)), p, w)
  end.

Definition init_Kill (sig : Z) (all : bool) (p : Init) (w : W) : option error * W :=
  match i_currentState p with
  | StateCreated | StateRunning | StateStopped => init_kill sig all p w
  | StateDeleted =>
      (Some (ErrWrap "cannot kill a deleted process" (ErrSentinel ErrNotFound)), w)
  end.

Definition init_SetExited (status : Z) (p : Init) (w : W) : outcome (Init * W) :=
  match i_currentState p with
  | StateCreated | StateRunning =>
      outcome_map (λ '(p1, w1),
        match init_transition StateStopped p1 with
        | (None, p2) => (p2, w1)
        | (Some _, p2) => (i_setState StateStopped p2, w1)
        end) (init_setExited status p w)
  | StateStopped | StateDeleted => Return (p, w)
  end.

(** Only whether an exec may be made; the new process is [newExec]. *)
Definition init_Exec_allowed (p : Init) : option error :=
  match i_currentState p with
  | StateCreated | StateRunning => None
  | StateStopped => Some (ErrNew "cannot exec in a stopped state")
  | StateDeleted => Some (ErrNew "cannot exec in a deleted state")
  end.

Definition init_Update (p : Init) (w : W) : option error * W :=
  match i_currentState p with
  | StateCreated | StateRunning => rt_Update env (i_id p) w
  | StateStopped => (Some (ErrNew "cannot update a stopped container"), w)
  | StateDeleted => (Some (ErrNew "cannot update a deleted process"), w)
  end.

Definition init_Status (p : Init) : string := State_String (i_currentState p).

(** ** execProcess *)

Record execProcess := mkExec
  { e_id : string; e_currentState : State; e_status : Z; e_exited : Time;
    e_pid : Z; e_waitBlock : chan; e_terminal : bool; e_hasIO : bool;
    e_hasConsole : bool; e_parent : Init }.

Definition newExec (id : string) (terminal : bool) (parent : Init) : execProcess :=
  mkExec id StateCreated 0 0 0 OpenChan terminal false false parent.

Definition e_setState (s : State) (e : execProcess) : execProcess :=
  mkExec (e_id e) s (e_status e) (e_exited e) (e_pid e) (e_waitBlock e)
    (e_terminal e) (e_hasIO e) (e_hasConsole e) (e_parent e).

Definition exec_transition (to : State) (e : execProcess) : option error * execProcess :=
  if negb (canTransition (e_currentState e) to) then
    (Some (ErrNew ("invalid state transition " +:+ State_String (e_currentState e) +:+
                   " to " +:+ State_String to)), e)
  else (None, e_setState to e).

Definition e_with (pid : Z) (ch : chan) (hasIO hasConsole : bool) (e : execProcess) :
    execProcess :=
  mkExec (e_id e) (e_currentState e) (e_status e) (e_exited e) pid ch
    (e_terminal e) hasIO hasConsole (e_parent e).

(** The part of [start] after the runtime created the process: connect the
    console or the pipes, then read the pid. *)
Definition exec_attach (e : execProcess) (w : W) : option error * execProcess * W :=
  let read_pid (e : execProcess) (w : W) :=
    match readPidFile env w with
    | (Err er, w') => (Some (ErrWrap "failed to retrieve OCI runtime exec pid" er), e, w')
    | (Ok pid, w') => (None, e_with pid (e_waitBlock e) (e_hasIO e) (e_hasConsole e) e, w')
    end in
  if e_terminal e then
    match receiveMaster env w with
    | (Some er, w1) => (Some (ErrWrap "failed to retrieve console master" er), e, w1)
    | (None, w1) =>
        match copyConsole env w1 with
        | (Some er, w2) => (Some (ErrWrap "failed to start console copy" er), e, w2)
        | (None, w2) =>
            read_pid (e_with (e_pid e) (e_waitBlock e) (e_hasIO e) true e) w2
        end
    end
  else
    match pioCopy env w with
    | (Some er, w1) => (Some (ErrWrap "failed to start io pipe copy" er), e, w1)
    | (None, w1) => read_pid e w1
    end.

(** The deferred functions of [start]: the socket is closed on every path,
    the pipes only when [err] is set. *)
Definition exec_deferred (terminal : bool) (err : option error) (w : W) : W :=
  if terminal then closeSocket env w
  else match err with Some _ => closeIO env w | None => w end.

Definition exec_start (e : execProcess) (w : W) : outcome (option error * execProcess * W) :=
  if negb (i_hasRuntime (e_parent e)) then
    Return (Some (ErrNew "parent process or runtime not initialized"), e, w)
  else
    let '(openErr, w1) :=
      if e_terminal e then newConsoleSocket env w else createIO env w in
    match openErr with
    | Some er =>
        Return (Some (ErrWrap (if e_terminal e then "failed to create runc console socket"
                               else "failed to create init process I/O") er), e, w1)
    | None =>
        let e1 := e_with (e_pid e) (e_waitBlock e) (negb (e_terminal e)) (e_hasConsole e) e in
        let '(execErr, w2) := rt_Exec env (i_id (e_parent e)) (e_id e) w1 in
        match execErr with
        | Some er =>
            outcome_map (λ ch,
              let err := runtimeError (Some er) "OCI runtime exec failed" w2 in
              (err, e_with (e_pid e1) ch (e_hasIO e1) (e_hasConsole e1) e1,
               exec_deferred (e_terminal e) err w2)) (close (e_waitBlock e1))
        | None =>
            let '(err, e2, w3) := exec_attach e1 w2 in
            Return (err, e2, exec_deferred (e_terminal e) err w3)
        end
    end.

Definition exec_delete (e : execProcess) (w : W) : option error * W :=
  let w1 := waitIO env w in
  (None, if e_hasIO e then closeIO env w1 else w1).

Definition exec_kill (sig : Z) (e : execProcess) (w : W) : option error * W :=
  if e_pid e =? 0 then
    (Some (ErrWrap "process not created" (ErrSentinel ErrFailedPrecondition)), w)
  else if negb (IsZero (e_exited e)) then
    (Some (ErrWrap "process already finished" (ErrSentinel ErrNotFound)), w)
  else
    let '(err, w1) := unixKill env (e_pid e) sig w in
    (match err with
     | None => None
     | Some _ => option_map (ErrWrap "exec kill error") (checkKillError err)
     end, w1).

Definition exec_setExited (status : Z) (e : execProcess) (w : W) :
    outcome (execProcess * W) :=
  let '(exited, w1) := now env w in
  let w2 := if i_hasPlatform (e_parent e) then shutdownConsole env w1 else w1 in
  let done (ch : chan) :=
    (mkExec (e_id e) (e_currentState e) status exited (e_pid e) ch
       (e_terminal e) (e_hasIO e) (e_hasConsole e) (e_parent e), w2) in
  match e_waitBlock e with
  | NilChan => Return (done NilChan)
  | ch => outcome_map done (close ch)
  end.

Definition exec_resize (e : execProcess) (w : W) : option error * W :=
  if negb (e_hasConsole e) then (None, w) else resizeConsole env w.

(** The methods of [execStateMachine]. *)
Definition exec_Start (e : execProcess) (w : W) : outcome (option error * execProcess * W) :=
  match e_currentState e with
  | StateCreated =>
      outcome_map (λ '(err, e1, w1),
        match err with
        | Some _ => (err, e1, w1)
        | None => let '(err2, e2) := exec_transition StateRunning e1 in (err2, e2, w1)
        end) (exec_start e w)
  | StateRunning => Return (Some (ErrNew "cannot start a running process"), e, w)
  | StateStopped => Return (Some (ErrNew "cannot start a stopped process"), e, w)
  | StateDeleted => Return (Some (ErrNew "cannot start a deleted process"), e, w)
  end.

Definition exec_Delete (e : execProcess) (w : W) : option error * execProcess * W :=
  match e_currentState e with
  | StateCreated | StateStopped =>
      let '(err, w1) := exec_delete e w in
      match err with
      | Some _ => (err, e, w1)
      | None => let '(err2, e2) := exec_transition StateDeleted e in (err2, e2, w1)
      end
  | StateRunning => (Some (ErrNew "cannot delete a running process"), e, w)
  | StateDeleted =>
      (Some (ErrWrap "cannot delete a deleted process" (ErrSentinel ErrNotFound)), e, w)
  end.

Definition exec_Kill (sig : Z) (e : execProcess) (w : W) : option error * W :=
  match e_currentState e with
  | StateCreated | StateRunning | StateStopped => exec_kill sig e w
  | StateDeleted =>
      (Some (ErrWrap "cannot kill a deleted process" (ErrSentinel ErrNotFound)), w)
  end.

Definition exec_SetExited (status : Z) (e : execProcess) (w : W) :
    outcome (execProcess * W) :=
  match e_currentState e with
  | StateCreated | StateRunning =>
      outcome_map (λ '(e1, w1),
        match exec_transition StateStopped e1 with
        | (None, e2) => (e2, w1)
        | (Some _, e2) => (e_setState StateStopped e2, w1)
        end) (exec_setExited status e w)
  | StateStopped | StateDeleted => Return (e, w)
  end.

Definition exec_Resize (e : execProcess) (w : W) : option error * W :=
  match e_currentState e with
  | StateCreated | StateRunning => exec_resize e w
  | StateStopped => (Some (ErrNew "cannot resize a stopped container"), w)
  | StateDeleted => (Some (ErrNew "cannot resize a deleted process"), w)
  end.

Definition exec_Status (e : execProcess) : string := State_String (e_currentState e).

(** ** Runs: sequences of calls on one process *)

Inductive call := CStart | CDelete | CKill (sig : Z) (all : bool) | CSetExited (status : Z).

Definition init_call (k : call) (p : Init) (w : W) : outcome (Init * W) :=
  match k with
  | CStart => let '(_, p', w') := init_Start p w in Return (p', w')
  | CDelete => let '(_, p', w') := init_Delete p w in Return (p', w')
  | CKill sig all => let '(_, w') := init_Kill sig all p w in Return (p, w')
  | CSetExited st => init_SetExited st p w
  end.

Definition exec_call (k : call) (e : execProcess) (w : W) : outcome (execProcess * W) :=
  match k with
  | CStart => outcome_map (λ '(_, e', w'), (e', w')) (exec_Start e w)
  | CDelete => let '(_, e', w') := exec_Delete e w in Return (e', w')
  | CKill sig _ => let '(_, w') := exec_Kill sig e w in Return (e, w')
  | CSetExited st => exec_SetExited st e w
  end.

Fixpoint init_run (ks : list call) (p : Init) (w : W) : outcome (Init * W) :=
  match ks with
  | [] => Return (p, w)
  | k :: ks' => outcome_bind (init_call k p w) (λ '(p', w'), init_run ks' p' w')
  end.

Fixpoint exec_run (ks : list call) (e : execProcess) (w : W) : outcome (execProcess * W) :=
  match ks with
  | [] => Return (e, w)
  | k :: ks' => outcome_bind (exec_call k e w) (λ '(e', w'), exec_run ks' e' w')
  end.

End process.
Arguments init_run {W} env ks p w.
Arguments exec_run {W} env ks e w.

(** The rank of a state: no operation lowers it. *)
Definition rank (s : State) : nat :=
  match s with
  | StateCreated => 0 | StateRunning => 1 | StateStopped => 2 | StateDeleted => 3
  end.

(** The wait channel is closed only once the process has exited, and then the
    process is Stopped or Deleted. *)
Definition init_inv (p : Init) : Prop :=
  i_waitBlock p ≠ NilChan ∧
  (i_waitBlock p = ClosedChan → i_currentState p = StateStopped ∨ i_currentState p = StateDeleted) ∧
  (i_currentState p = StateStopped → i_waitBlock p = ClosedChan).

Definition exec_inv (e : execProcess) : Prop :=
  e_waitBlock e ≠ NilChan ∧
  (e_waitBlock e = ClosedChan → e_currentState e = StateStopped ∨ e_currentState e = StateDeleted) ∧
  (e_currentState e = StateStopped → e_waitBlock e = ClosedChan).

End Proc.

(** ** Theorems *)

Section process_theorems.
Import Proc.
Context {W : Type} (env : Env W).

Lemma init_call_ok k p w :
  init_inv p →
  ∃ p' w', init_call env k p w = Return (p', w') ∧ init_inv p' ∧
    (rank (i_currentState p) ≤ rank (i_currentState p'))%nat.
Proof.
  intros (Hnil & Hcl & Hst). destruct k as [| |sig all|st]; simpl.
  - unfold init_Start. destruct (i_currentState p) eqn:E; try (eexists _, _; split; [done|]; split; [by repeat split; rewrite ?E|rewrite ?E; lia]).
    destruct (init_start env p w) as [[er|] w1];
      [by eexists _, _; repeat split; rewrite ?E; auto; lia|].
    unfold init_transition. rewrite E. simpl. eexists _, _. split; [done|].
    unfold init_inv; simpl. rewrite ?E. naive_solver lia.
  - unfold init_Delete. destruct (i_currentState p) eqn:E;
      try (destruct (init_delete env p w) as [[er|] w1]);
      try (eexists _, _; split; [done|]; split; [by repeat split; rewrite ?E|rewrite ?E; lia]);
      unfold init_transition; rewrite E; simpl; eexists _, _; (split; [done|]);
      unfold init_inv; simpl; rewrite ?E; naive_solver lia.
  - destruct (init_Kill env sig all p w) as [er w1]. eexists _, _. split; [done|].
    split; [done|lia].
  - unfold init_SetExited. destruct (i_currentState p) eqn:E;
      try (eexists _, _; split; [done|]; split; [by repeat split; rewrite ?E|rewrite ?E; lia]);
      unfold init_setExited; destruct (now env w) as [tm w1];
      destruct (i_waitBlock p) eqn:Ech; try done; try (destruct (Hcl eq_refl); done);
      simpl; unfold init_transition; simpl; rewrite E; simpl;
      eexists _, _; (split; [done|]); unfold init_inv; simpl; naive_solver lia.
Qed.

Lemma init_run_ok ks p w :
  init_inv p →
  ∃ p' w', init_run env ks p w = Return (p', w') ∧ init_inv p' ∧
    (rank (i_currentState p) ≤ rank (i_currentState p'))%nat.
Proof.
  revert p w. induction ks as [|k ks IH]; intros p w H; simpl; [eauto|].
  destruct (init_call_ok k p w H) as (p1 & w1 & -> & H1 & Hr). simpl.
  destruct (IH p1 w1 H1) as (p2 & w2 & -> & H2 & Hr2). eexists _, _. split; [done|].
  split; [done|lia].
Qed.

(** The init process of a container never panics and never goes
    backwards: whatever sequence of Start, Delete, Kill and exit
    notifications reaches it (and whatever the OCI runtime answers), the run
    returns; between any two points of it the state only moves in the order
    Created, Running, Stopped, Deleted; and at both points the wait channel is
    closed if the process is Stopped, and only if it is Stopped or Deleted. *)
Theorem init_run_safe ks1 ks2 id w :
  ∃ p1 w1 p2 w2,
    init_run env ks1 (New id) w = Return (p1, w1) ∧ init_run env ks2 p1 w1 = Return (p2, w2) ∧
    init_inv p1 ∧ init_inv p2 ∧
    (rank (i_currentState p1) ≤ rank (i_currentState p2))%nat.
Proof.
  assert (H : init_inv (New id)) by (repeat split; naive_solver).
  destruct (init_run_ok ks1 _ w H) as (p1 & w1 & E1 & H1 & _).
  destruct (init_run_ok ks2 _ w1 H1) as (p2 & w2 & E2 & H2 & Hr).
  by exists p1, w1, p2, w2.
Qed.

(** The exit status of the init process is recorded once: after the first
    exit notification, later calls of any kind leave status, exit time and the
    closed wait channel as they are. *)
Theorem init_exit_once p w ks p' w' :
  init_inv p → i_waitBlock p = ClosedChan →
  init_run env ks p w = Return (p', w') →
  i_status p' = i_status p ∧ i_exited p' = i_exited p ∧ i_waitBlock p' = ClosedChan.
Proof.
  intros Hinv Hcl. revert p w Hinv Hcl. induction ks as [|k ks IH]; intros p w Hinv Hcl Hrun.
  { simpl in Hrun. by simplify_eq. }
  simpl in Hrun. destruct (init_call_ok k p w Hinv) as (p1 & w1 & E & H1 & _).
  rewrite E in Hrun. simpl in Hrun.
  assert (Hk : i_status p1 = i_status p ∧ i_exited p1 = i_exited p ∧ i_waitBlock p1 = i_waitBlock p).
  { destruct Hinv as (_ & Hs & _). destruct (Hs Hcl) as [S|S];
      destruct k; simpl in E; unfold init_Start, init_Delete, init_SetExited, init_Kill in E;
      rewrite S in E; repeat (case_match; simplify_eq/=); try done;
      unfold init_transition in *; rewrite S in *; simplify_eq/=; done. }
  destruct Hk as (<- & <- & Hw). rewrite Hcl in Hw. eauto.
Qed.

(** A fresh exec process: the invariant holds and every call but a failing
    [Start] keeps it. *)
Lemma exec_start_keeps e w e' w' err :
  exec_start env e w = Return (err, e', w') →
  e_currentState e' = e_currentState e ∧
  (err = None → e_waitBlock e' = e_waitBlock e).
Proof.
  unfold exec_start, exec_attach, runtimeError. intros H.
  repeat (case_match; simplify_eq/=); try done;
  destruct (e_waitBlock e); simplify_eq/=; repeat case_match; by simplify_eq/=.
Qed.

(** A failing exec start breaks the wait channel.  If the OCI runtime
    fails the exec, [Start] closes the wait channel but the process stays
    Created, so it may be started again; when that second start succeeds, the
    exit of the process closes the channel a second time and the guest's init
    daemon panics. *)
Theorem exec_restart_panics e w err e1 w1 e2 w2 status :
  e_currentState e = StateCreated → e_waitBlock e = OpenChan →
  (∀ w', (newConsoleSocket env w').1 = None) → (∀ w', (createIO env w').1 = None) →
  i_hasRuntime (e_parent e) = true →
  is_Some (rt_Exec env (i_id (e_parent e)) (e_id e)
             (if e_terminal e then newConsoleSocket env w else createIO env w).2).1 →
  exec_Start env e w = Return (err, e1, w1) →
  exec_Start env e1 w1 = Return (None, e2, w2) →
  is_Some err ∧ exec_SetExited env status e2 w2 = Panic "close of closed channel".
Proof.
  intros HC HO Hsock Hio Hrt [er Her] H1 H2.
  unfold exec_Start in H1. rewrite HC in H1. unfold exec_start in H1. rewrite Hrt in H1.
  simpl in H1. specialize (Hsock w). specialize (Hio w).
  assert (E1 : is_Some err ∧ e_currentState e1 = StateCreated ∧ e_waitBlock e1 = ClosedChan).
  { destruct (e_terminal e); [destruct (newConsoleSocket env w) as [oe wa]|
                              destruct (createIO env w) as [oe wa]]; simpl in *; subst oe;
      destruct (rt_Exec env _ _ wa) as [? wb]; simpl in *; subst;
      rewrite HO in H1; simpl in H1; repeat (case_match; simplify_eq/=);
      rewrite ?HC; eauto. }
  destruct E1 as (He & Hs1 & Hw1). split; [done|].
  unfold exec_Start in H2. rewrite Hs1 in H2.
  destruct (exec_start env e1 w1) as [[[err1 e1'] w1']|] eqn:Hst; [|done].
  destruct (exec_start_keeps _ _ _ _ _ Hst) as [Hs Hw]. simpl in H2.
  destruct err1; [done|]. unfold exec_transition in H2. rewrite Hs, Hs1 in H2. simplify_eq/=.
  unfold exec_SetExited, exec_setExited. simpl. rewrite Hw, Hw1 by done.
  destruct (now env w2). done.
Qed.

(** Requests that the state forbids reach neither the runtime nor the
    process: [Start] outside Created, [Delete] of a Running or Deleted process
    and [Kill] of a Deleted one return an error and change nothing; the errors
    on a deleted process are NotFound. *)
Theorem init_forbidden_calls sig all p w :
  (i_currentState p ≠ StateCreated →
     ∃ er, init_Start env p w = (Some er, p, w)) ∧
  (i_currentState p = StateRunning ∨ i_currentState p = StateDeleted →
     ∃ er, init_Delete env p w = (Some er, p, w) ∧
       (i_currentState p = StateDeleted → errors_Is er ErrNotFound = true)) ∧
  (i_currentState p = StateDeleted →
     ∃ er, init_Kill env sig all p w = (Some er, w) ∧ errors_Is er ErrNotFound = true).
Proof.
  unfold init_Start, init_Delete, init_Kill.
  destruct (i_currentState p); naive_solver.
Qed.

End process_theorems.

(** ** Witnesses: an OCI runtime whose first exec fails *)

Definition demo_env : Proc.Env nat :=
  let ok := λ w : nat, (@None error, w) in
  Proc.mkEnv nat (λ _, ok) (λ _, ok) (λ _ _ _, ok)
    (λ _ _ w, match w with 0%nat => (Some (ErrNew "exec failed"), 1%nat) | _ => (None, w) end)
    (λ _, ok) (λ _, Ok "") id id (λ _, ok) id ok (λ _ _, ok) ok id ok ok ok ok
    (λ w, (Ok 77, w)) (λ w, (5, w)).

Lemma exec_restart_panics_witness :
  let e := Proc.newExec "e1" false (Proc.New "c1") in
  ∃ err e1 w1 e2 w2,
    Proc.exec_Start demo_env e 0%nat = Return (err, e1, w1) ∧
    Proc.exec_Start demo_env e1 w1 = Return (None, e2, w2) ∧
    is_Some err ∧ Proc.exec_SetExited demo_env 0 e2 w2 = Panic "close of closed channel".
Proof.
  simpl. eexists _, _, _, _, _.
  split; [vm_compute; reflexivity|]. split; [vm_compute; reflexivity|].
  eapply (exec_restart_panics demo_env (Proc.newExec "e1" false (Proc.New "c1")) 0%nat);
    [reflexivity|reflexivity|intros; reflexivity|intros; reflexivity|reflexivity
    |by eexists|vm_compute; reflexivity|vm_compute; reflexivity].
Defined.

Lemma init_exit_once_witness :
  ∃ p w, Proc.init_run demo_env [Proc.CStart; Proc.CSetExited 3] (Proc.New "c1") 0%nat
           = Return (p, w) ∧ Proc.i_status p = 3 ∧
  ∀ p' w', Proc.init_run demo_env [Proc.CSetExited 9; Proc.CDelete] p w = Return (p', w') →
           Proc.i_status p' = 3.
Proof.
  eexists _, _. split; [vm_compute; reflexivity|]. split; [reflexivity|].
  intros p' w' H.
  assert (Hinv : Proc.init_inv (Proc.mkInit "c1" Proc.StateStopped 3 5 0 ClosedChan true false false "")).
  { repeat split; simpl; auto. }
  by destruct (init_exit_once demo_env _ _ _ _ _ Hinv eq_refl H).
Defined.
