(* ===== verification/GuestTask.v ===== *)
(** * The guest's task service

    Models internal/guest/vminit/task (service.go, lifecycle.go, exec.go,
    events.go), the containers of internal/guest/vminit/runc (container.go,
    util.go) and [Init.Create] of internal/guest/vminit/process/init.go.
    Processes ([Proc]) and containers live in heaps indexed by addresses, so
    that the exit tracker, the container and a waiting goroutine share one
    object.  A request handler is a program of the state monad [M]; a
    goroutine that waits for a channel is an entry of [waiters].  The OCI
    runtime, the file system, the mounts and the JSON codecs are the fields of
    the environment [TEnv]. *)

From S2P Require Import Prelude GoStrings ExitTracker ProcessState.

Module GuestTask.
Local Open Scope m_scope.

(** ** The OCI spec, as far as the guest edits it *)

Record Namespace := mkNS { ns_Type : string; ns_Path : string }.
Record Mount := mkMount
  { Destination : string; mType : string; mSource : string; mOptions : list string }.
Record DeviceCgroup := mkDC { Allow : bool; Access : string }.
Record Linux := mkLinux
  { Namespaces : list Namespace; Devices : option (list DeviceCgroup);
    ReadonlyPaths : list string; MaskedPaths : list string; Seccomp : bool }.
Record Spec := mkSpec { spec_Linux : option Linux; spec_Mounts : list Mount }.

Definition ShouldKillAllOnExit (r : result Spec) : bool :=
  match r with
  | Err _ => true
  | Ok spec =>
      match spec_Linux spec with
      | None => true
      | Some l => negb (existsb (λ ns, String.eqb (ns_Type ns) "pid" && String.eqb (ns_Path ns) "")
                          (Namespaces l))
      end
  end.

Definition dev_bind : Mount := mkMount "/dev" "bind" "/dev" ["rbind"; "rw"].
Definition resolv_bind : Mount :=
  mkMount "/etc/resolv.conf" "bind" "/etc/resolv.conf" ["rbind"; "ro"].

(** The first loop of [RelaxOCISpec] over the mounts. *)
Fixpoint relax_mounts (ms : list Mount) : list Mount :=
  match ms with
  | [] => []
  | m :: ms' =>
      if String.eqb (Destination m) "/dev" then dev_bind :: relax_mounts ms'
      else if String.eqb (Destination m) "/dev/pts" || String.eqb (Destination m) "/dev/shm" ||
              String.eqb (Destination m) "/dev/mqueue" then relax_mounts ms'
      else m :: relax_mounts ms'
  end.

Definition relax_spec (spec : Spec) : Spec :=
  let l := default (mkLinux [] None [] [] false) (spec_Linux spec) in
  let newMounts := relax_mounts (spec_Mounts spec) in
  let hasResolv := existsb (λ m, String.eqb (Destination m) "/etc/resolv.conf") newMounts in
  mkSpec (Some (mkLinux (Namespaces l) (Some [mkDC true "rwm"]) [] [] false))
    (if hasResolv then newMounts else newMounts ++ [resolv_bind]).

(** ** The environment *)

Record TEnv (W : Type) := mkTEnv
  { pe : Proc.Env W;
    rt_Create : string → W → option error * W;
    rt_ForceDelete : string → W → option error * W;
    rt_Ps : string → W → result (list Z) * W;
    unmarshalOptions : W → option error;
    unmarshalExecSpec : W → option error;
    mkdirRootfs : string → W → option error * W;
    writeOptions : string → W → option error * W;
    mountAll : string → W → option error * W;
    mountCleanup : string → W → option error * W;
    readSpec : string → W → result Spec;
    writeSpec : string → Spec → W → option error * W;
    loadCgroup : Z → W → bool;
    enableControllers : W → W }.
Arguments pe {W}. Arguments rt_Create {W}. Arguments rt_ForceDelete {W}. Arguments rt_Ps {W}.
Arguments unmarshalOptions {W}. Arguments unmarshalExecSpec {W}. Arguments mkdirRootfs {W}.
Arguments writeOptions {W}. Arguments mountAll {W}. Arguments mountCleanup {W}.
Arguments readSpec {W}. Arguments writeSpec {W}. Arguments loadCgroup {W}.
Arguments enableControllers {W}.

(** ** The state of the service *)

(** The interface [process.Process] holds an [Init] or an [execProcess]. *)
Inductive pobj := PInit (p : Proc.Init) | PExec (e : Proc.execProcess).

Record Container := mkContainer
  { c_ID : string; c_Bundle : string; c_cgroup : bool; c_process : Z;
    c_processes : gmap string Z; c_reserved : gset string; c_mountCleanup : bool }.

Inductive event :=
  | TaskCreate (cid : string) (pid : Z)
  | TaskStart (cid : string) (pid : Z)
  | TaskExecAdded (cid eid : string)
  | TaskExecStarted (cid eid : string) (pid : Z)
  | TaskExit (cid id : string) (pid status : Z) (at_ : Time).

(** A goroutine of [handleInitExit] blocked on its channel. *)
Record waiter := mkWaiter
  { wt_chan : nat; wt_exit : ExitTracker.Exit; wt_container : Z; wt_process : Z }.

Record st (W : Type) := mkSt
  { tracker : ExitTracker.t;
    objs : gmap Z pobj;
    ctrs : gmap Z Container;
    containers : gmap string Z;
    events : list event;
    eventsClosed : bool;
    waiters : list waiter;
    isShutdown : bool;
    nextAddr : Z;
    world : W }.
Arguments mkSt {W}. Arguments tracker {W}. Arguments objs {W}. Arguments ctrs {W}.
Arguments containers {W}. Arguments events {W}. Arguments eventsClosed {W}.
Arguments waiters {W}. Arguments isShutdown {W}. Arguments nextAddr {W}. Arguments world {W}.

Section service.
Context {W : Type} (env : TEnv W).
Notation S := (st W).

Definition set_tracker (t : ExitTracker.t) (s : S) : S :=
  mkSt t (objs s) (ctrs s) (containers s) (events s) (eventsClosed s) (waiters s)
    (isShutdown s) (nextAddr s) (world s).
Definition set_objs (m : gmap Z pobj) (s : S) : S :=
  mkSt (tracker s) m (ctrs s) (containers s) (events s) (eventsClosed s) (waiters s)
    (isShutdown s) (nextAddr s) (world s).
Definition set_ctrs (m : gmap Z Container) (s : S) : S :=
  mkSt (tracker s) (objs s) m (containers s) (events s) (eventsClosed s) (waiters s)
    (isShutdown s) (nextAddr s) (world s).
Definition set_containers (m : gmap string Z) (s : S) : S :=
  mkSt (tracker s) (objs s) (ctrs s) m (events s) (eventsClosed s) (waiters s)
    (isShutdown s) (nextAddr s) (world s).
Definition set_events (l : list event) (s : S) : S :=
  mkSt (tracker s) (objs s) (ctrs s) (containers s) l (eventsClosed s) (waiters s)
    (isShutdown s) (nextAddr s) (world s).
Definition set_waiters (l : list waiter) (s : S) : S :=
  mkSt (tracker s) (objs s) (ctrs s) (containers s) (events s) (eventsClosed s) l
    (isShutdown s) (nextAddr s) (world s).
Definition set_world (w : W) (s : S) : S :=
  mkSt (tracker s) (objs s) (ctrs s) (containers s) (events s) (eventsClosed s) (waiters s)
    (isShutdown s) (nextAddr s) w.
Definition set_shutdown (b : bool) (s : S) : S :=
  mkSt (tracker s) (objs s) (ctrs s) (containers s) (events s) (eventsClosed s) (waiters s)
    b (nextAddr s) (world s).

(** A call of the environment. *)
Definition io {A} (f : W → A * W) : M S A :=
  λ s, let '(a, w') := f (world s) in Return (a, set_world w' s).
Definition track {A} (f : ExitTracker.t → A * ExitTracker.t) : M S A :=
  λ s, let '(a, t') := f (tracker s) in Return (a, set_tracker t' s).
Definition track_ (f : ExitTracker.t → ExitTracker.t) : M S () :=
  m_modify (λ s : S, set_tracker (f (tracker s)) s).

(** ** The methods of [process.Process] *)

Definition nil_deref : string := "invalid memory address or nil pointer dereference".

Definition load (a : Z) : M S pobj :=
  λ s, match objs s !! a with Some o => Return (o, s) | None => Panic nil_deref end.
Definition store (a : Z) (o : pobj) : M S () :=
  m_modify (λ s : S, set_objs (<[a := o]> (objs s)) s).

Definition p_ID (o : pobj) : string :=
  match o with PInit p => Proc.i_id p | PExec e => Proc.e_id e end.
Definition p_Pid (o : pobj) : Z :=
  match o with PInit p => Proc.i_pid p | PExec e => Proc.e_pid e end.
Definition p_ExitStatus (o : pobj) : Z :=
  match o with PInit p => Proc.i_status p | PExec e => Proc.e_status e end.
Definition p_ExitedAt (o : pobj) : Time :=
  match o with PInit p => Proc.i_exited p | PExec e => Proc.e_exited e end.
Definition p_IsInit (o : pobj) : bool :=
  match o with PInit _ => true | PExec _ => false end.
Definition p_Status (o : pobj) : string :=
  match o with PInit p => Proc.init_Status p | PExec e => Proc.exec_Status e end.
Definition p_waitBlock (o : pobj) : chan :=
  match o with PInit p => Proc.i_waitBlock p | PExec e => Proc.e_waitBlock e end.

Definition p_Start (a : Z) : M S (option error) :=
  o ← load a;
  match o with
  | PInit p => λ s, let '(err, p', w') := Proc.init_Start (pe env) p (world s) in
                    Return (err, set_world w' (set_objs (<[a := PInit p']> (objs s)) s))
  | PExec e => λ s, outcome_map (λ '(err, e', w'),
                      (err, set_world w' (set_objs (<[a := PExec e']> (objs s)) s)))
                      (Proc.exec_Start (pe env) e (world s))
  end.

Definition p_Delete (a : Z) : M S (option error) :=
  o ← load a;
  match o with
  | PInit p => λ s, let '(err, p', w') := Proc.init_Delete (pe env) p (world s) in
                    Return (err, set_world w' (set_objs (<[a := PInit p']> (objs s)) s))
  | PExec e => λ s, let '(err, e', w') := Proc.exec_Delete (pe env) e (world s) in
                    Return (err, set_world w' (set_objs (<[a := PExec e']> (objs s)) s))
  end.

Definition p_Kill (a sig : Z) (all : bool) : M S (option error) :=
  o ← load a;
  match o with
  | PInit p => io (Proc.init_Kill (pe env) sig all p)
  | PExec e => io (Proc.exec_Kill (pe env) sig e)
  end.

Definition p_SetExited (a status : Z) : M S () :=
  o ← load a;
  match o with
  | PInit p => λ s, outcome_map (λ '(p', w'),
                      (tt, set_world w' (set_objs (<[a := PInit p']> (objs s)) s)))
                      (Proc.init_SetExited (pe env) status p (world s))
  | PExec e => λ s, outcome_map (λ '(e', w'),
                      (tt, set_world w' (set_objs (<[a := PExec e']> (objs s)) s)))
                      (Proc.exec_SetExited (pe env) status e (world s))
  end.

(** ** runc.Container *)

Definition load_ctr (c : Z) : M S Container :=
  λ s, match ctrs s !! c with Some o => Return (o, s) | None => Panic nil_deref end.
Definition store_ctr (c : Z) (o : Container) : M S () :=
  m_modify (λ s : S, set_ctrs (<[c := o]> (ctrs s)) s).

Definition c_Process (id : string) (c : Container) : result Z :=
  if String.eqb id "" then Ok (c_process c)
  else match c_processes c !! id with
       | Some p => Ok p
       | None => Err (ErrWrap ("process does not exist " +:+ id) (ErrSentinel ErrNotFound))
       end.

Definition ReserveProcess (id : string) (c : Container) : option Container :=
  if bool_decide (is_Some (c_processes c !! id)) || bool_decide (id ∈ c_reserved c) then None
  else Some (mkContainer (c_ID c) (c_Bundle c) (c_cgroup c) (c_process c) (c_processes c)
               ({[id]} ∪ c_reserved c) (c_mountCleanup c)).

Definition cancel_reserve (id : string) (c : Container) : Container :=
  mkContainer (c_ID c) (c_Bundle c) (c_cgroup c) (c_process c) (c_processes c)
    (c_reserved c ∖ {[id]}) (c_mountCleanup c).

Definition ProcessAdd (id : string) (a : Z) (c : Container) : Container :=
  mkContainer (c_ID c) (c_Bundle c) (c_cgroup c) (c_process c) (<[id := a]> (c_processes c))
    (c_reserved c ∖ {[id]}) (c_mountCleanup c).

Definition ProcessRemove (id : string) (c : Container) : Container :=
  mkContainer (c_ID c) (c_Bundle c) (c_cgroup c) (c_process c) (delete id (c_processes c))
    (c_reserved c) (c_mountCleanup c).

Definition set_cgroup (c : Container) : Container :=
  mkContainer (c_ID c) (c_Bundle c) true (c_process c) (c_processes c)
    (c_reserved c) (c_mountCleanup c).

Definition clear_mountCleanup (c : Container) : Container :=
  mkContainer (c_ID c) (c_Bundle c) (c_cgroup c) (c_process c) (c_processes c)
    (c_reserved c) false.

(** [Container.Start] returns the process also with the error of its start. *)
Definition container_Start (c : Z) (execID : string) : M S (option Z * option error) :=
  ctr ← load_ctr c;
  match c_Process execID ctr with
  | Err e => m_ret (None, Some e)
  | Ok a =>
      err ← p_Start a;
      match err with
      | Some e => m_ret (Some a, Some e)
      | None =>
          o ← load a;
          w ← m_get world;
          (if negb (c_cgroup ctr) && (0 <? p_Pid o) && loadCgroup env (p_Pid o) w
           then store_ctr c (set_cgroup ctr) else m_ret tt) ≫= λ _,
          m_ret (Some a, None)
      end
  end.

Definition container_Delete (c : Z) (execID : string) : M S (result Z) :=
  ctr ← load_ctr c;
  match c_Process execID ctr with
  | Err e => m_ret (Err e)
  | Ok a =>
      err ← p_Delete a;
      match err with
      | Some e => m_ret (Err e)
      | None =>
          if negb (String.eqb execID "") then
            store_ctr c (ProcessRemove execID ctr) ≫= λ _, m_ret (Ok a)
          else
            store_ctr c (clear_mountCleanup ctr) ≫= λ _,
            (if c_mountCleanup ctr then io (mountCleanup env (c_Bundle ctr)) ≫= λ _, m_ret tt
             else m_ret tt) ≫= λ _,
            m_ret (Ok a)
      end
  end.

(** [Container.Exec]: the state machine's check, the decoding of the spec, the
    new process object, and its registration. *)
Definition container_Exec (c : Z) (execID : string) (terminal : bool) : M S (result Z) :=
  ctr ← load_ctr c;
  o ← load (c_process ctr);
  match o with
  | PExec _ => m_ret (Err (ErrNew "expected init process, got *process.execProcess"))
  | PInit p =>
      match Proc.init_Exec_allowed p with
      | Some e => m_ret (Err e)
      | None =>
          w ← m_get world;
          match unmarshalExecSpec env w with
          | Some e => m_ret (Err e)
          | None => λ s,
              let a := nextAddr s in
              let s1 := mkSt (tracker s) (<[a := PExec (Proc.newExec execID terminal p)]> (objs s))
                          (<[c := ProcessAdd execID a ctr]> (ctrs s)) (containers s) (events s)
                          (eventsClosed s) (waiters s) (isShutdown s) (a + 1) (world s) in
              Return (Ok a, s1)
          end
      end
  end.

Definition container_Kill (c : Z) (execID : string) (sig : Z) (all : bool) : M S (option error) :=
  ctr ← load_ctr c;
  match c_Process execID ctr with
  | Err e => m_ret (Some e)
  | Ok a => p_Kill a sig all
  end.

Definition container_Update (c : Z) : M S (option error) :=
  ctr ← load_ctr c;
  o ← load (c_process ctr);
  match o with
  | PExec _ => m_ret (Some (ErrNew "expected init process, got *process.execProcess"))
  | PInit p => io (Proc.init_Update (pe env) p)
  end.

(** ** Creation of the init process and its container *)

(** [Init.Create].  The deferred functions run in reverse order: the console
    socket is closed (or the pipes, on failure), then a container the runtime
    made is deleted if a later step failed. *)
Definition init_create_tail (terminal : bool) (p : Proc.Init) (w : W) :
    option error * Proc.Init * W :=
  let attached :=
    if terminal then
      match Proc.receiveMaster (pe env) w with
      | (Some er, w1) => (Some (ErrWrap "failed to retrieve console master" er), w1)
      | (None, w1) =>
          match Proc.copyConsole (pe env) w1 with
          | (Some er, w2) => (Some (ErrWrap "failed to start console copy" er), w2)
          | (None, w2) => (None, w2)
          end
      end
    else
      match Proc.pioCopy (pe env) w with
      | (Some er, w1) => (Some (ErrWrap "failed to start io pipe copy" er), w1)
      | (None, w1) => (None, w1)
      end in
  match attached with
  | (Some er, w1) => (Some er, p, w1)
  | (None, w1) =>
      match Proc.readPidFile (pe env) w1 with
      | (Err er, w2) => (Some (ErrWrap "failed to retrieve OCI runtime container pid" er), p, w2)
      | (Ok pid, w2) =>
          (None, Proc.mkInit (Proc.i_id p) (Proc.i_currentState p) (Proc.i_status p)
                   (Proc.i_exited p) pid (Proc.i_waitBlock p) (Proc.i_hasRuntime p)
                   (Proc.i_hasPlatform p) (Proc.i_hasIO p) (Proc.i_Rootfs p), w2)
      end
  end.

Definition init_Create (terminal : bool) (p : Proc.Init) (w : W) : option error * Proc.Init * W :=
  let '(openErr, w1) :=
    if terminal then Proc.newConsoleSocket (pe env) w else Proc.createIO (pe env) w in
  match openErr with
  | Some er =>
      (Some (ErrWrap (if terminal then "failed to create OCI runtime console socket"
                      else "failed to create init process I/O") er), p, w1)
  | None =>
      let p1 := Proc.mkInit (Proc.i_id p) (Proc.i_currentState p) (Proc.i_status p)
                  (Proc.i_exited p) (Proc.i_pid p) (Proc.i_waitBlock p) (Proc.i_hasRuntime p)
                  (Proc.i_hasPlatform p) (negb terminal) (Proc.i_Rootfs p) in
      let '(createErr, w2) := rt_Create env (Proc.i_id p) w1 in
      match createErr with
      | Some _ =>
          let err := Proc.runtimeError (pe env) createErr "OCI runtime create failed" w2 in
          (err, p1, Proc.exec_deferred (pe env) terminal err w2)
      | None =>
          let '(err, p2, w3) := init_create_tail terminal p1 w2 in
          let w4 := Proc.exec_deferred (pe env) terminal err w3 in
          (err, p2, match err with
                    | Some _ => (rt_ForceDelete env (Proc.i_id p) w4).2
                    | None => w4
                    end)
      end
  end.

Record RootfsMount := mkRootfs { r_Type : string; r_Source : string }.
Record CreateTaskRequest := mkCreate
  { r_ID : string; r_Bundle : string; r_Rootfs : list RootfsMount; r_Terminal : bool }.

Definition RelaxOCISpec (bundle : string) (w : W) : option error * W :=
  match readSpec env bundle w with
  | Err e => (Some e, w)
  | Ok spec => writeSpec env bundle (relax_spec spec) w
  end.

(** [len(r.Rootfs) != 0 && (len(r.Rootfs) != 1 || ... )]: whether the rootfs
    has to be mounted. *)
Definition needs_mount (r : CreateTaskRequest) (rootfs : string) : bool :=
  match r_Rootfs r with
  | [] => false
  | [m] => negb (String.eqb (r_Type m) "bind") || negb (String.eqb (r_Source m) rootfs)
  | _ => true
  end.

Definition NewContainer (r : CreateTaskRequest) (w : W) :
    result (Proc.Init * bool * bool) * W :=
  match unmarshalOptions env w with
  | Some e => (Err e, w)
  | None =>
      let hasRootfs := (0 <? length (r_Rootfs r))%nat in
      let rootfs := if hasRootfs then r_Bundle r +:+ "/rootfs" else "" in
      let '(mkErr, w1) := if hasRootfs then mkdirRootfs env rootfs w else (None, w) in
      match mkErr with
      | Some e => (Err e, w1)
      | None =>
          match writeOptions env (r_Bundle r) w1 with
          | (Some e, w2) => (Err e, w2)
          | (None, w2) =>
              let mounted := needs_mount r rootfs in
              let '(mErr, w3) := if mounted then mountAll env (r_Bundle r) w2 else (None, w2) in
              match mErr with
              | Some e => (Err e, w3)
              | None =>
                  let w4 := (RelaxOCISpec (r_Bundle r) w3).2 in
                  let p := Proc.mkInit (r_ID r) Proc.StateCreated 0 0 0 OpenChan true true false
                             rootfs in
                  match init_Create (r_Terminal r) p w4 with
                  | (Some e, _, w5) =>
                      (Err e, if mounted then (mountCleanup env (r_Bundle r) w5).2 else w5)
                  | (None, p', w5) =>
                      (Ok (p', mounted,
                           (0 <? Proc.i_pid p') && loadCgroup env (Proc.i_pid p') w5), w5)
                  end
              end
          end
      end
  end.

(** ** Events and exits *)

Definition send (e : event) : M S () :=
  λ s, if eventsClosed s then Panic "send on closed channel"
       else Return (tt, set_events (events s ++ [e]) s).

Definition handleProcessExit (e : ExitTracker.Exit) (c a : Z) : M S () :=
  p_SetExited a (ExitTracker.Status e) ≫= λ _,
  ctr ← load_ctr c;
  o ← load a;
  send (TaskExit (c_ID ctr) (p_ID o) (wrapu32 (ExitTracker.Pid e))
          (wrapu32 (ExitTracker.Status e)) (p_ExitedAt o)) ≫= λ _,
  if negb (p_IsInit o) then track_ (ExitTracker.NotifyExecExit c) else m_ret tt.

Definition handleInitExit (e : ExitTracker.Exit) (c a : Z) : M S () :=
  ctr ← load_ctr c;
  o ← load a;
  w ← m_get world;
  (if ShouldKillAllOnExit (readSpec env (c_Bundle ctr) w) then
     match o with
     | PInit p => io (Proc.KillAll (pe env) p) ≫= λ _, m_ret tt
     | PExec _ => m_panic "interface conversion: process.Process is *process.execProcess"
     end
   else m_ret tt) ≫= λ _,
  wait ← track (ExitTracker.ShouldDelayInitExit c);
  match wait with
  | None => handleProcessExit e c a
  | Some ch => m_modify (λ s : S, set_waiters (waiters s ++ [mkWaiter ch e c a]) s)
  end.

(** One iteration of the loop of [processExits]. *)
Definition handle_cp (e : ExitTracker.Exit) (cp : ExitTracker.containerProcess) : M S () :=
  let c := ExitTracker.cp_Container cp in
  let p := ExitTracker.cp_Process cp in
  if ExitTracker.IsInit p then handleInitExit e c (ExitTracker.proc_ptr p)
  else handleProcessExit e c (ExitTracker.proc_ptr p).

Definition processExits (e : ExitTracker.Exit) : M S () :=
  cps ← track (ExitTracker.NotifyExit e);
  m_for (handle_cp e) cps.

(** The [i]-th waiting goroutine resumes once its channel is closed; [None] if
    it is still blocked. *)
Definition resume (i : nat) (s : S) : option (outcome (() * S)) :=
  match waiters s !! i with
  | None => None
  | Some wt =>
      if bool_decide (wt_chan wt ∈ ExitTracker.closedChans (tracker s)) then
        Some (handleProcessExit (wt_exit wt) (wt_container wt) (wt_process wt)
                (set_waiters (delete i (waiters s)) s))
      else None
  end.

(** The closure [handleStarted] of [preStart]. *)
Definition handleStarted (sub c : Z) (a : option Z) : M S () :=
  match a with
  | None =>
      es ← track (ExitTracker.HandleStart sub c (ExitTracker.mkProcess 0 false "") 0);
      match es with [] => m_ret tt | _ => m_panic nil_deref end
  | Some a =>
      o ← load a;
      es ← track (ExitTracker.HandleStart sub c
                    (ExitTracker.mkProcess a (p_IsInit o) (p_ID o)) (p_Pid o));
      m_for (λ e, handleProcessExit e c a) es
  end.

Definition preStart (c : option Z) : M S Z :=
  match c with
  | None => track (ExitTracker.Subscribe None)
  | Some c => ctr ← load_ctr c;
              o ← load (c_process ctr);
              track (ExitTracker.Subscribe (Some (c, p_Pid o)))
  end.

(** ** The request handlers *)

Definition getContainer (id : string) : M S (result Z) :=
  m_get (λ s : S, match containers s !! id with
              | Some c => Ok c
              | None => Err (ErrWrap "container not created" (ErrSentinel ErrNotFound))
              end).

Definition already_exists (id : string) : error :=
  ErrWrap ("container " +:+ id +:+ " already exists") (ErrSentinel ErrAlreadyExists).

Definition cancel (sub : Z) : M S () := track_ (ExitTracker.Cancel sub).

Definition Create (r : CreateTaskRequest) : M S (result Z) :=
  ex ← m_get (λ s : S, bool_decide (is_Some (containers s !! r_ID r)));
  if ex then m_ret (Err (already_exists (r_ID r)))
  else
    sub ← preStart None;
    nc ← io (NewContainer r);
    match nc with
    | Err e => cancel sub ≫= λ _, m_ret (Err e)
    | Ok (p, mounted, cg) =>
        (* the process and container objects *)
        ca ← m_state (λ s : S,
          let a := nextAddr s in let c := a + 1 in
          ((a, c), mkSt (tracker s) (<[a := PInit p]> (objs s))
             (<[c := mkContainer (r_ID r) (r_Bundle r) cg a ∅ ∅ mounted]> (ctrs s))
             (containers s) (events s) (eventsClosed s) (waiters s) (isShutdown s)
             (a + 2) (world s)));
        let '(a, c) := ca in
        ex2 ← m_get (λ s : S, bool_decide (is_Some (containers s !! r_ID r)));
        if ex2 then
          container_Delete c "" ≫= λ _,
          cancel sub ≫= λ _, m_ret (Err (already_exists (r_ID r)))
        else
          m_modify (λ s : S, set_containers (<[r_ID r := c]> (containers s)) s) ≫= λ _,
          send (TaskCreate (r_ID r) (wrapu32 (Proc.i_pid p))) ≫= λ _,
          handleStarted sub c (Some a) ≫= λ _,
          cancel sub ≫= λ _,
          m_ret (Ok (wrapu32 (Proc.i_pid p)))
    end.

Definition Start (id execID : string) : M S (result Z) :=
  gc ← getContainer id;
  match gc with
  | Err e => m_ret (Err e)
  | Ok c =>
      t ← m_get tracker;
      ctr ← load_ctr c;
      if negb (String.eqb execID "") && ExitTracker.InitHasExited c t then
        m_ret (Err (ErrWrap ("container " +:+ c_ID ctr +:+ " init process is not running")
                     (ErrSentinel ErrFailedPrecondition)))
      else
        sub ← preStart (if String.eqb execID "" then Some c else None);
        pr ← container_Start c execID;
        match pr with
        | (p, Some e) =>
            (if negb (String.eqb execID "") then track_ (ExitTracker.DecrementExecCount c)
             else m_ret tt) ≫= λ _,
            handleStarted sub c p ≫= λ _,
            cancel sub ≫= λ _, m_ret (Err e)
        | (Some a, None) =>
            o ← load a;
            ctr1 ← load_ctr c;
            (if String.eqb execID "" then
               (if c_cgroup ctr1 then m_modify (λ s : S, set_world (enableControllers env (world s)) s)
                else m_ret tt) ≫= λ _,
               send (TaskStart (c_ID ctr1) (wrapu32 (p_Pid o)))
             else send (TaskExecStarted (c_ID ctr1) execID (wrapu32 (p_Pid o)))) ≫= λ _,
            handleStarted sub c (Some a) ≫= λ _,
            cancel sub ≫= λ _, m_ret (Ok (wrapu32 (p_Pid o)))
        | (None, None) => m_panic nil_deref
        end
  end.

Definition Delete (id execID : string) : M S (result (Z * Time * Z)) :=
  gc ← getContainer id;
  match gc with
  | Err e => m_ret (Err e)
  | Ok c =>
      r ← container_Delete c execID;
      match r with
      | Err e => m_ret (Err e)
      | Ok a =>
          (if String.eqb execID "" then
             m_modify (λ s : S, set_containers (delete id (containers s)) s) ≫= λ _,
             track_ (ExitTracker.Cleanup c)
           else m_ret tt) ≫= λ _,
          o ← load a;
          m_ret (Ok (wrapu32 (p_ExitStatus o), p_ExitedAt o, wrapu32 (p_Pid o)))
      end
  end.

Definition Exec (id execID : string) (terminal : bool) : M S (option error) :=
  gc ← getContainer id;
  match gc with
  | Err e => m_ret (Some e)
  | Ok c =>
      ctr ← load_ctr c;
      match ReserveProcess execID ctr with
      | None => m_ret (Some (ErrWrap ("id " +:+ execID) (ErrSentinel ErrAlreadyExists)))
      | Some ctr1 =>
          store_ctr c ctr1 ≫= λ _,
          r ← container_Exec c execID terminal;
          match r with
          | Err e =>
              ctr2 ← load_ctr c;
              store_ctr c (cancel_reserve execID ctr2) ≫= λ _, m_ret (Some e)
          | Ok a =>
              o ← load a;
              send (TaskExecAdded (c_ID ctr1) (p_ID o)) ≫= λ _, m_ret None
          end
      end
  end.

Definition Kill (id execID : string) (sig : Z) (all : bool) : M S (option error) :=
  gc ← getContainer id;
  match gc with Err e => m_ret (Some e) | Ok c => container_Kill c execID sig all end.

Definition Update (id : string) : M S (option error) :=
  gc ← getContainer id;
  match gc with Err e => m_ret (Some e) | Ok c => container_Update c end.

(** [Wait]: [None] while the process has not exited and the call blocks. *)
Definition Wait (id execID : string) : M S (option (result (Z * Time))) :=
  gc ← getContainer id;
  match gc with
  | Err e => m_ret (Some (Err e))
  | Ok c =>
      ctr ← load_ctr c;
      match c_Process execID ctr with
      | Err e => m_ret (Some (Err e))
      | Ok a =>
          o ← load a;
          match p_waitBlock o with
          | ClosedChan => m_ret (Some (Ok (wrapu32 (p_ExitStatus o), p_ExitedAt o)))
          | _ => m_ret None
          end
      end
  end.

Inductive Status :=
  | Status_UNKNOWN | Status_CREATED | Status_RUNNING | Status_STOPPED | Status_PAUSED
  | Status_PAUSING.

Definition status_of (s : string) : Status :=
  if String.eqb s "created" then Status_CREATED
  else if String.eqb s "running" then Status_RUNNING
  else if String.eqb s "stopped" then Status_STOPPED
  else if String.eqb s "paused" then Status_PAUSED
  else if String.eqb s "pausing" then Status_PAUSING
  else Status_UNKNOWN.

Record StateResponse := mkState
  { sr_ID : string; sr_Bundle : string; sr_Pid : Z; sr_Status : Status;
    sr_ExitStatus : Z; sr_ExitedAt : Time }.

Definition State (id execID : string) : M S (result StateResponse) :=
  gc ← getContainer id;
  match gc with
  | Err e => m_ret (Err e)
  | Ok c =>
      ctr ← load_ctr c;
      match c_Process execID ctr with
      | Err e => m_ret (Err e)
      | Ok a =>
          o ← load a;
          m_ret (Ok (mkState (p_ID o) (c_Bundle ctr) (wrapu32 (p_Pid o)) (status_of (p_Status o))
                      (wrapu32 (p_ExitStatus o)) (p_ExitedAt o)))
      end
  end.

Definition Connect (id : string) : M S Z :=
  gc ← getContainer id;
  match gc with
  | Err _ => m_ret 0
  | Ok c => ctr ← load_ctr c; o ← load (c_process ctr); m_ret (wrapu32 (p_Pid o))
  end.

Definition Shutdown : M S () :=
  n ← m_get (λ s : S, size (containers s));
  if (0 <? n)%nat then m_ret tt else m_modify (set_shutdown true).

(** The callback of [NewTaskService] that closes the event channel. *)
Definition closeEvents : M S () :=
  λ s, if eventsClosed s then Panic "close of closed channel"
       else Return (tt, mkSt (tracker s) (objs s) (ctrs s) (containers s) (events s) true
                          (waiters s) (isShutdown s) (nextAddr s) (world s)).

Definition newService (w : W) : S :=
  mkSt ExitTracker.newExitTracker ∅ ∅ ∅ [] false [] false 1 w.

End service.
End GuestTask.

(** ** Theorems *)

Section guest_theorems.
Import GuestTask.

(** The mounts [RelaxOCISpec] neither replaces nor drops nor looks for. *)
Definition plain_mount (m : Mount) : Prop :=
  Destination m ∉ ["/dev"; "/dev/pts"; "/dev/shm"; "/dev/mqueue"; "/etc/resolv.conf"].

(** Membership in a list of string literals. *)
Ltac str_in :=
  rewrite ?not_elem_of_cons, ?elem_of_cons, ?orb_true_iff, ?orb_false_iff, ?String.eqb_eq,
    ?String.eqb_neq in *;
  simpl in *;
  intuition (try congruence;
    try (match goal with H : _ ∈ [] |- _ => by apply not_elem_of_nil in H end)).

Lemma relax_mounts_in m ms :
  m ∈ relax_mounts ms →
  (Destination m = "/dev" → m = dev_bind) ∧
  Destination m ∉ ["/dev/pts"; "/dev/shm"; "/dev/mqueue"].
Proof.
  induction ms as [|m0 ms IH]; simpl; [by intros ?%elem_of_nil|].
  destruct (String.eqb (Destination m0) "/dev") eqn:E1; [|destruct (_ || _ || _) eqn:E2; [auto|]];
    (intros [->|?]%elem_of_cons; [|auto]); clear IH; [split; [done|]|split]; str_in.
Qed.

Lemma relax_mounts_fixed ms :
  (∀ m, m ∈ ms → (Destination m = "/dev" → m = dev_bind) ∧
     Destination m ∉ ["/dev/pts"; "/dev/shm"; "/dev/mqueue"]) →
  relax_mounts ms = ms.
Proof.
  induction ms as [|m ms IH]; intros H; [done|]. simpl.
  destruct (H m) as [H1 H2]; [by left|]. rewrite IH by (intros m' Hm; apply H; by right).
  destruct (String.eqb (Destination m) "/dev") eqn:E1.
  - apply String.eqb_eq in E1. by rewrite <- H1.
  - destruct (_ || _ || _) eqn:E2; [|done]. clear H IH. exfalso. str_in.
Qed.

Lemma relax_mounts_plain ms :
  filter plain_mount (relax_mounts ms) = filter plain_mount ms.
Proof.
  induction ms as [|m ms IH]; [done|]. simpl.
  destruct (String.eqb (Destination m) "/dev") eqn:E1; [|destruct (_ || _ || _) eqn:E2].
  - rewrite !filter_cons_False; [done|unfold plain_mount; clear IH; str_in..].
  - rewrite filter_cons_False; [done|unfold plain_mount; clear IH; str_in].
  - rewrite !filter_cons. by rewrite IH.
Qed.

(** The spec the guest runs a container with.  [RelaxOCISpec] binds the
    VM's /dev once for each /dev mount, drops its submounts, makes sure that
    /etc/resolv.conf is mounted, keeps every other mount in order, opens all
    devices and removes masked paths, read-only paths and seccomp; applying it
    to its own result changes nothing. *)
Theorem relax_spec_spec spec :
  let ms := spec_Mounts (relax_spec spec) in
  (∀ m, m ∈ ms → (Destination m = "/dev" → m = dev_bind) ∧
     Destination m ∉ ["/dev/pts"; "/dev/shm"; "/dev/mqueue"]) ∧
  (∃ m, m ∈ ms ∧ Destination m = "/etc/resolv.conf") ∧
  filter plain_mount ms = filter plain_mount (spec_Mounts spec) ∧
  (∃ ns, spec_Linux (relax_spec spec) = Some (mkLinux ns (Some [mkDC true "rwm"]) [] [] false)) ∧
  relax_spec (relax_spec spec) = relax_spec spec.
Proof.
  assert (Hin : ∀ m, m ∈ spec_Mounts (relax_spec spec) → (Destination m = "/dev" → m = dev_bind) ∧
     Destination m ∉ ["/dev/pts"; "/dev/shm"; "/dev/mqueue"]).
  { intros m. simpl. case_match; [apply relax_mounts_in|].
    intros [?%relax_mounts_in| ->%list_elem_of_singleton]%elem_of_app; [done|]. split; str_in. }
  assert (Hres : ∃ m, m ∈ spec_Mounts (relax_spec spec) ∧ Destination m = "/etc/resolv.conf").
  { simpl. destruct (existsb _ _) eqn:E; [|exists resolv_bind; split; [|done]; apply elem_of_app; right; by left].
    apply existsb_exists in E as (m & Hm & E%String.eqb_eq). exists m. by rewrite list_elem_of_In. }
  split; [done|]. split; [done|]. split; [|split; [by eexists|]].
  - simpl. case_match; [apply relax_mounts_plain|].
    rewrite filter_app, relax_mounts_plain, filter_cons_False, filter_nil, app_nil_r; [done|].
    unfold plain_mount. str_in.
  - destruct (relax_spec spec) as [l ms] eqn:E. unfold relax_spec in *. simplify_eq/=.
    rewrite (relax_mounts_fixed _ Hin). destruct Hres as (m & Hm & Hd).
    replace (existsb _ _) with true; [done|]. symmetry. apply existsb_exists. exists m.
    split; [by apply list_elem_of_In|]. by apply String.eqb_eq.
Qed.

(** ** Resources of a failed creation

    The mounts of a bundle and the OCI containers, as far as the environment
    changes them. *)
Inductive resource := RMount | ROci.
#[global] Instance resource_eq_dec : EqDecision resource.
Proof. solve_decision. Defined.
#[global] Program Instance resource_countable : Countable resource :=
  inj_countable' (λ r, match r with RMount => false | ROci => true end)
    (λ b, if b : bool then ROci else RMount) _.
Next Obligation. by intros []. Qed.

(** What creation relies on: a failed mount or runtime create leaves nothing
    behind, the cleanup calls remove what they are for, and the other calls
    touch neither. *)
Class ResLaws {W} (env : TEnv W) (res : W → gset resource) := {
  rl_mount : ∀ b w, res (mountAll env b w).2 =
    match (mountAll env b w).1 with None => {[RMount]} ∪ res w | Some _ => res w end;
  rl_unmount : ∀ b w, res (mountCleanup env b w).2 = res w ∖ {[RMount]};
  rl_create : ∀ i w, res (rt_Create env i w).2 =
    match (rt_Create env i w).1 with None => {[ROci]} ∪ res w | Some _ => res w end;
  rl_delete : ∀ i w, res (rt_ForceDelete env i w).2 = res w ∖ {[ROci]};
  rl_mkdir : ∀ p w, res (mkdirRootfs env p w).2 = res w;
  rl_options : ∀ b w, res (writeOptions env b w).2 = res w;
  rl_spec : ∀ b s w, res (writeSpec env b s w).2 = res w;
  rl_socket : ∀ w, res (Proc.newConsoleSocket (pe env) w).2 = res w;
  rl_io : ∀ w, res (Proc.createIO (pe env) w).2 = res w;
  rl_closeSocket : ∀ w, res (Proc.closeSocket (pe env) w) = res w;
  rl_closeIO : ∀ w, res (Proc.closeIO (pe env) w) = res w;
  rl_master : ∀ w, res (Proc.receiveMaster (pe env) w).2 = res w;
  rl_console : ∀ w, res (Proc.copyConsole (pe env) w).2 = res w;
  rl_copy : ∀ w, res (Proc.pioCopy (pe env) w).2 = res w;
  rl_pid : ∀ w, res (Proc.readPidFile (pe env) w).2 = res w }.

Context {W : Type} (env : TEnv W) (res : W → gset resource) `{!ResLaws env res}.

Lemma deferred_res t err w : res (Proc.exec_deferred (pe env) t err w) = res w.
Proof. unfold Proc.exec_deferred. repeat case_match; by rewrite ?rl_closeSocket, ?rl_closeIO. Qed.

Lemma create_tail_res t p w : res (init_create_tail env t p w).2 = res w.
Proof.
  unfold init_create_tail. pose proof (rl_master w). pose proof (rl_copy w).
  destruct t; repeat (case_match; simplify_eq/=);
    repeat match goal with
    | H : Proc.copyConsole _ ?w' = _ |- _ => pose proof (rl_console w'); rewrite H in *; clear H
    | H : Proc.readPidFile _ ?w' = _ |- _ => pose proof (rl_pid w'); rewrite H in *; clear H
    end; simpl in *; congruence.
Qed.

Lemma init_Create_res t p w err p' w' :
  init_Create env t p w = (err, p', w') → ROci ∉ res w →
  res w' = match err with Some _ => res w | None => {[ROci]} ∪ res w end.
Proof.
  unfold init_Create. intros H Hno.
  destruct (if t then _ else _) as [oe w1] eqn:Eo.
  assert (H1 : res w1 = res w).
  { destruct t; [pose proof (rl_socket w) as Hr|pose proof (rl_io w) as Hr]; by rewrite Eo in Hr. }
  destruct oe; [by simplify_eq|]. destruct (rt_Create env (Proc.i_id p) w1) as [ce w2] eqn:Ec.
  pose proof (rl_create (Proc.i_id p) w1) as H2. rewrite Ec in H2. simpl in H2.
  destruct ce as [e|].
  - simplify_eq. rewrite deferred_res. unfold Proc.runtimeError. repeat case_match; congruence.
  - set (p1 := Proc.mkInit _ _ _ _ _ _ _ _ _ _) in H.
    pose proof (create_tail_res t p1 w2) as Ht.
    destruct (init_create_tail env t p1 w2) as [[err' p2] w3]. simpl in Ht. simplify_eq.
    destruct err; rewrite ?rl_delete, deferred_res, Ht, H2, H1; [|done]. set_solver.
Qed.

(** Creating a container leaks nothing.  If no mount of the bundle and no
    OCI container exist before, then a creation that fails at any step leaves
    neither behind, and one that succeeds leaves the OCI container and exactly
    the mounts it reports for cleanup. *)
Theorem NewContainer_no_leak r w :
  res w = ∅ →
  let '(nc, w') := NewContainer env r w in
  match nc with
  | Err _ => res w' = ∅
  | Ok (_, mounted, _) => res w' = {[ROci]} ∪ (if mounted then {[RMount]} else ∅)
  end.
Proof.
  intros H0. unfold NewContainer. destruct (unmarshalOptions env w); [done|].
  destruct (if (0 <? length (r_Rootfs r))%nat then mkdirRootfs _ _ _ else _) as [me w1] eqn:Em.
  assert (H1 : res w1 = ∅).
  { destruct (0 <? length (r_Rootfs r))%nat; [|by simplify_eq].
    pose proof (rl_mkdir (r_Bundle r +:+ "/rootfs") w) as Hr. rewrite Em in Hr. simpl in Hr. congruence. }
  destruct me; [done|]. destruct (writeOptions env (r_Bundle r) w1) as [oe w2] eqn:Eo.
  assert (H2 : res w2 = ∅) by (pose proof (rl_options (r_Bundle r) w1) as Hr; rewrite Eo in Hr; simpl in Hr; congruence).
  destruct oe; [done|]. set (mounted := needs_mount _ _).
  destruct (if mounted then mountAll _ _ _ else _) as [mt w3] eqn:Emt.
  assert (H3 : res w3 = match mt with None => if mounted then {[RMount]} else ∅ | Some _ => ∅ end).
  { destruct mounted; [|by simplify_eq]. pose proof (rl_mount (r_Bundle r) w2) as Hm.
    rewrite Emt in Hm. simpl in Hm. destruct mt; rewrite Hm, H2; set_solver. }
  destruct mt; [done|].
  assert (H4 : res (RelaxOCISpec env (r_Bundle r) w3).2 = res w3).
  { unfold RelaxOCISpec. destruct (readSpec _ _ _); [apply rl_spec|done]. }
  set (w4 := (RelaxOCISpec env (r_Bundle r) w3).2) in *.
  destruct (init_Create _ _ _ _) as [[ce p'] w5] eqn:Ec.
  apply init_Create_res in Ec; [|rewrite H4, H3; destruct mounted; set_solver].
  rewrite H4, H3 in Ec. destruct ce; destruct mounted; rewrite ?rl_unmount, Ec; set_solver.
Qed.

End guest_theorems.

Section exec_theorems.
Import GuestTask.
Context {W : Type} (env : TEnv W).

Lemma cancel_after_reserve id ctr ctr1 :
  ReserveProcess id ctr = Some ctr1 → cancel_reserve id ctr1 = ctr.
Proof.
  unfold ReserveProcess, cancel_reserve. destruct (_ || _) eqn:E; [done|]. intros [= <-]. simpl.
  bool_to_prop. destruct ctr. f_equal. simpl in *. set_solver.
Qed.

(** A reservation succeeds for a free identifier, and adding the process
    consumes it. *)
Lemma ReserveProcess_spec id ctr ctr1 :
  ReserveProcess id ctr = Some ctr1 →
  c_processes ctr !! id = None ∧ id ∉ c_reserved ctr ∧ c_ID ctr1 = c_ID ctr ∧
  ∀ a, ProcessAdd id a ctr1 = ProcessAdd id a ctr.
Proof.
  unfold ReserveProcess. destruct (_ || _) eqn:E; [done|]. intros [= <-]. bool_to_prop.
  split; [by apply eq_None_not_Some|]. split; [done|]. split; [done|].
  intros a. unfold ProcessAdd. simpl. f_equal. set_solver.
Qed.

(** Creating an exec in a container changes nothing or adds one process. *)
Lemma container_Exec_spec c execID terminal ctr s r s' :
  ctrs s !! c = Some ctr → container_Exec env c execID terminal s = Return (r, s') →
  match r with
  | Err _ => s' = s
  | Ok a => ∃ p, a = nextAddr s ∧
      s' = mkSt (tracker s) (<[a := PExec (Proc.newExec execID terminal p)]> (objs s))
             (<[c := ProcessAdd execID a ctr]> (ctrs s)) (containers s) (events s)
             (eventsClosed s) (waiters s) (isShutdown s) (a + 1) (world s)
  end.
Proof.
  intros Hc H. apply m_bind_Return in H as (x & s1 & H1 & H). unfold load_ctr in H1.
  rewrite Hc in H1. simplify_eq. apply m_bind_Return in H as (o & s2 & H2 & H). unfold load in H2.
  destruct (objs _ !! _) as [oo|]; [|done]. simplify_eq.
  destruct o as [p|ex]; [|unfold m_ret in H; by simplify_eq].
  destruct (Proc.init_Exec_allowed p); [unfold m_ret in H; by simplify_eq|].
  apply m_bind_Return in H as (w & s3 & H3 & H). unfold m_get in H3. simplify_eq.
  destruct (unmarshalExecSpec env _).
  { unfold m_ret in H. by simplify_eq. }
  cbv zeta beta in H. simplify_eq. by exists p.
Qed.

(** Exec identifiers are unique and a failed exec leaves no trace.  An
    [Exec] whose identifier is already used or reserved in the container is
    refused with AlreadyExists and changes nothing; an [Exec] that fails for
    another reason also leaves every container as it was (the reservation is
    released); one that succeeds adds exactly that identifier, bound to a new
    process in state Created, and announces it. *)
Theorem Exec_spec id execID terminal c ctr r s s' :
  containers s !! id = Some c → ctrs s !! c = Some ctr →
  Exec env id execID terminal s = Return (r, s') →
  match r with
  | None =>
      ∃ a p, c_processes ctr !! execID = None ∧ execID ∉ c_reserved ctr ∧
        ctrs s' = <[c := ProcessAdd execID a ctr]> (ctrs s) ∧ a = nextAddr s ∧
        objs s' !! a = Some (PExec (Proc.newExec execID terminal p)) ∧
        events s' = events s ++ [TaskExecAdded (c_ID ctr) execID]
  | Some e =>
      ctrs s' = ctrs s ∧ objs s' = objs s ∧ events s' = events s ∧
      (is_Some (c_processes ctr !! execID) ∨ execID ∈ c_reserved ctr →
         errors_Is e ErrAlreadyExists = true)
  end.
Proof.
  intros Hid Hc H. unfold Exec in H.
  apply m_bind_Return in H as (gc & s1 & [= <- <-] & H). rewrite Hid in H.
  apply m_bind_Return in H as (x & s1 & H1 & H). unfold load_ctr in H1. rewrite Hc in H1. simplify_eq.
  destruct (ReserveProcess execID x) as [ctr1|] eqn:Er; cycle 1.
  { unfold m_ret in H. simplify_eq. split_and!; done. }
  pose proof (cancel_after_reserve _ _ _ Er) as Hcan.
  apply ReserveProcess_spec in Er as (Hn1 & Hn2 & HcID & Hadd).
  apply m_bind_Return in H as ([] & s2 & H2 & H). unfold store_ctr, m_modify in H2. simplify_eq.
  apply m_bind_Return in H as (re & s3 & H3 & H).
  apply (container_Exec_spec _ _ _ ctr1) in H3; [|simpl; apply lookup_insert_eq].
  destruct re as [a|e].
  - destruct H3 as (p & -> & ->). apply m_bind_Return in H as (o & s7 & H7 & H). unfold load in H7.
    simpl in H7. rewrite lookup_insert_eq in H7. simplify_eq.
    apply m_bind_Return in H as ([] & s8 & H8 & H). unfold send in H8. simpl in H8.
    destruct (eventsClosed s1); [done|]. unfold m_ret in H. simplify_eq. simpl.
    eexists _, p. split; [done|]. split; [done|]. split; [|split; [done|]].
    + by rewrite insert_insert_eq, Hadd.
    + by rewrite lookup_insert_eq, HcID.
  - subst s3. apply m_bind_Return in H as (z & s6 & H6 & H).
    unfold load_ctr in H6. simpl in H6. rewrite lookup_insert_eq in H6. simplify_eq.
    apply m_bind_Return in H as ([] & s7 & H7 & H). unfold store_ctr, m_modify in H7. simplify_eq.
    unfold m_ret in H. simplify_eq. simpl. rewrite insert_insert_eq, insert_id by done.
    split_and!; try done. simpl in *. intros [[? ?]|?]; congruence || done.
Qed.

End exec_theorems.

(** ** Witness: the world is the set of resources; reading the pid fails, so
    the creation fails after the rootfs was mounted and the OCI container was
    created. *)

Definition leak_penv : Proc.Env (gset resource) :=
  let ok := λ w : gset resource, (@None error, w) in
  Proc.mkEnv _ (λ _, ok) (λ _, ok) (λ _ _ _, ok) (λ _ _, ok) (λ _, ok) (λ _, Ok "") id id
    (λ _, ok) id ok (λ _ _, ok) ok id ok ok ok ok
    (λ w, (Err (ErrNew "no pid"), w)) (λ w, (5, w)).

Definition leak_env : GuestTask.TEnv (gset resource) :=
  let ok := λ w : gset resource, (@None error, w) in
  GuestTask.mkTEnv _ leak_penv (λ _ w, (None, {[ROci]} ∪ w)) (λ _ w, (None, w ∖ {[ROci]}))
    (λ _ w, (Ok [], w)) (λ _, None) (λ _, None) (λ _, ok) (λ _, ok)
    (λ _ w, (None, {[RMount]} ∪ w)) (λ _ w, (None, w ∖ {[RMount]}))
    (λ _ _, Err (ErrNew "no spec")) (λ _ _, ok) (λ _ _, false) id.

#[local] Instance leak_laws : ResLaws leak_env id.
Proof. split; done. Qed.

Definition leak_request : GuestTask.CreateTaskRequest :=
  GuestTask.mkCreate "c1" "/run/c1" [GuestTask.mkRootfs "erofs" "/dev/vda"] false.

Lemma NewContainer_no_leak_witness :
  is_ok (GuestTask.NewContainer leak_env leak_request ∅).1 = false ∧
  (GuestTask.NewContainer leak_env leak_request ∅).2 = ∅.
Proof.
  split; [vm_compute; reflexivity|].
  pose proof (NewContainer_no_leak leak_env id leak_request ∅ eq_refl) as H.
  vm_compute in H |- *. exact H.
Defined.
