(* ===== verification/GuestExitOrder.v ===== *)
(** * The order of exit events of a container

    The comment of [handleInitExit] (internal/guest/vminit/task/events.go)
    promises that, for a given container, the exit of the init process is the
    last exit published.  This file proves it for every run of the service in
    which each exec either starts cleanly or is not started, and shows what
    happens otherwise: an exec that exits before it is registered, or that is
    started twice, breaks the running-exec counter. *)

From S2P Require Import Prelude GoStrings ExitTracker ProcessState GuestTask.

Section exit_order.
Import GuestTask.
Context {W : Type} (env : TEnv W).
Implicit Types (s : st W) (cp : ExitTracker.containerProcess).

(** ** The processes the registry holds *)

Definition regs (m : gmap Z (list ExitTracker.containerProcess)) :
    list ExitTracker.containerProcess := concat (map_to_list m).*2.

Lemma regs_insert m pid l :
  m !! pid = None → regs (<[pid := l]> m) ≡ₚ l ++ regs m.
Proof.
  intros H. unfold regs. rewrite map_to_list_insert by done. done.
Qed.

Lemma regs_delete m pid :
  default [] (m !! pid) ++ regs (delete pid m) ≡ₚ regs m.
Proof.
  destruct (m !! pid) as [l|] eqn:E; simpl.
  - rewrite <- (regs_insert (delete pid m)) by apply lookup_delete_eq.
    by rewrite insert_delete_eq, insert_id.
  - by rewrite delete_id.
Qed.

Lemma regs_add m pid cp :
  regs (<[pid := default [] (m !! pid) ++ [cp]]> m) ≡ₚ cp :: regs m.
Proof.
  rewrite <- insert_delete_eq, regs_insert by apply lookup_delete_eq.
  trans (cp :: default [] (m !! pid) ++ regs (delete pid m)); [|by rewrite regs_delete].
  rewrite <- app_assoc. simpl. by rewrite Permutation_middle.
Qed.

(** Execs and init processes of container [c] in a list. *)
Definition is_exec (c : Z) cp : Prop :=
  ExitTracker.cp_Container cp = c ∧ ExitTracker.IsInit (ExitTracker.cp_Process cp) = false.
Definition is_init (c : Z) cp : Prop :=
  ExitTracker.cp_Container cp = c ∧ ExitTracker.IsInit (ExitTracker.cp_Process cp) = true.
#[local] Instance is_exec_dec c cp : Decision (is_exec c cp).
Proof. unfold is_exec. apply _. Defined.
#[local] Instance is_init_dec c cp : Decision (is_init c cp).
Proof. unfold is_init. apply _. Defined.
Definition n_exec (c : Z) (l : list ExitTracker.containerProcess) : Z :=
  Z.of_nat (length (filter (is_exec c) l)).
Definition n_init (c : Z) (l : list ExitTracker.containerProcess) : Z :=
  Z.of_nat (length (filter (is_init c) l)).

#[local] Instance n_exec_proper c : Proper ((≡ₚ) ==> eq) (n_exec c).
Proof. intros l1 l2 H. unfold n_exec. by rewrite H. Qed.
#[local] Instance n_init_proper c : Proper ((≡ₚ) ==> eq) (n_init c).
Proof. intros l1 l2 H. unfold n_init. by rewrite H. Qed.

Lemma n_exec_cons c cp l :
  n_exec c (cp :: l) = (if decide (is_exec c cp) then 1 else 0) + n_exec c l.
Proof. unfold n_exec. rewrite filter_cons. case_decide; simpl length; lia. Qed.
Lemma n_init_cons c cp l :
  n_init c (cp :: l) = (if decide (is_init c cp) then 1 else 0) + n_init c l.
Proof. unfold n_init. rewrite filter_cons. case_decide; simpl length; lia. Qed.
Lemma n_exec_nonneg c l : 0 ≤ n_exec c l.
Proof. unfold n_exec. lia. Qed.
Lemma n_init_nonneg c l : 0 ≤ n_init c l.
Proof. unfold n_init. lia. Qed.

(** The waiting goroutines of container [c]. *)
Definition n_wait (c : Z) (l : list waiter) : Z :=
  Z.of_nat (length (filter (λ wt, wt_container wt = c) l)).

(** ** The property and its invariant *)

Definition is_exit_of (cid : string) (e : event) : Prop :=
  match e with TaskExit cid' _ _ _ _ => cid' = cid | _ => False end.
Definition is_init_exit_of (cid : string) (e : event) : Prop :=
  match e with TaskExit cid' id _ _ _ => cid' = cid ∧ id = cid | _ => False end.

(** No exit of the container follows the exit of its init process. *)
Definition init_exit_last (cid : string) (l : list event) : Prop :=
  ∀ l1 e l2, l = l1 ++ e :: l2 → is_init_exit_of cid e → Forall (λ x, ¬ is_exit_of cid x) l2.

Definition published (cid : string) (l : list event) : Prop :=
  Exists (is_init_exit_of cid) l.

(** The objects behind the registry's entries and the waiters have the kind
    the registry says; only container [c] is called [cid], and only its init
    process is. *)
Record shape (c : Z) (cid : string) (s : st W) (L : list ExitTracker.containerProcess) : Prop :=
  mk_shape
  { sh_kind : ∀ cp, cp ∈ L → ∃ o, objs s !! ExitTracker.proc_ptr (ExitTracker.cp_Process cp) = Some o
      ∧ p_IsInit o = ExitTracker.IsInit (ExitTracker.cp_Process cp);
    sh_wait : ∀ wt, wt ∈ waiters s → ∃ p, objs s !! wt_process wt = Some (PInit p);
    sh_ctr : ∀ c' x, ctrs s !! c' = Some x → c_ID x = cid → c' = c;
    sh_exec : ∀ a e, objs s !! a = Some (PExec e) → Proc.e_id e ≠ cid;
    sh_procs : ∀ c' x id a, ctrs s !! c' = Some x → c_processes x !! id = Some a →
      ∃ e, objs s !! a = Some (PExec e) }.

Definition count_of (c : Z) (t : ExitTracker.t) : Z :=
  match ExitTracker.containers t !! c with
  | Some x => ExitTracker.runningExecs x | None => 0
  end.

(** The processes registered or being handled. *)
Definition live (pend : list ExitTracker.containerProcess) (s : st W) :=
  regs (ExitTracker.running (tracker s)) ++ pend.

Record inv (c : Z) (cid : string) (pend : list ExitTracker.containerProcess) (s : st W) : Prop :=
  mk_inv
  { inv_shape : shape c cid s (live pend s);
    inv_last : init_exit_last cid (events s);
    inv_count : count_of c (tracker s) = n_exec c (live pend s);
    inv_small : n_exec c (live pend s) ≤ max_int64;
    inv_pub : published cid (events s) →
      n_exec c (live pend s) = 0 ∧ n_init c (live pend s) = 0 ∧ n_wait c (waiters s) = 0;
    inv_one : n_init c (live pend s) + n_wait c (waiters s) ≤ 1;
    inv_stash : published cid (events s) ∨ 0 < n_wait c (waiters s) ∨ 0 < n_init c pend →
      ExitTracker.InitHasExited c (tracker s) = true;
    inv_chan : ∀ wt, wt ∈ waiters s → (wt_chan wt < ExitTracker.nextChan (tracker s))%nat ∧
      (wt_container wt = c → ∀ c' x, ExitTracker.containers (tracker s) !! c' = Some x →
         ExitTracker.execWaiter x = Some (wt_chan wt) → c' = c);
    inv_woken : ∀ wt, wt ∈ waiters s → wt_container wt = c →
      wt_chan wt ∈ ExitTracker.closedChans (tracker s) → n_exec c (live pend s) = 0;
    inv_wf : ExitTracker.wf (tracker s) }.

(** ** The clean runs *)

(** A step of the service: an exec is started without an early exit (the only
    event is its start), the reaper delivers an exit, a waiting goroutine
    resumes, a process is killed. *)
Inductive clean_step (c : Z) : st W → st W → Prop :=
  | cs_start s s' id execID pid :
      execID ≠ "" → Start env id execID s = Return (Ok pid, s') →
      n_exec c (regs (ExitTracker.running (tracker s))) < max_int64 →
      (∃ ctr, ∃ pid', events s' = events s ++ [TaskExecStarted ctr execID pid']) →
      clean_step c s s'
  | cs_exit s s' e : processExits env e s = Return (tt, s') → clean_step c s s'
  | cs_resume s s' i : resume env i s = Some (Return (tt, s')) → clean_step c s s'
  | cs_kill s s' id execID sig all r :
      Kill env id execID sig all s = Return (r, s') → clean_step c s s'.

(** ** Events *)

Lemma published_snoc cid l e :
  published cid (l ++ [e]) ↔ published cid l ∨ is_init_exit_of cid e.
Proof. unfold published. rewrite Exists_app, Exists_cons, Exists_nil. naive_solver. Qed.

Lemma init_exit_last_snoc cid l e :
  init_exit_last cid l → (published cid l → ¬ is_exit_of cid e) → init_exit_last cid (l ++ [e]).
Proof.
  intros H Hp l1 x l2 E Hx. destruct l2 as [|y l2 _] using rev_ind; [done|].
  rewrite app_comm_cons, app_assoc in E. apply app_inj_tail in E as [-> ->].
  apply Forall_app. split; [by eapply H|].
  apply Forall_singleton, Hp. apply Exists_app. right. by left.
Qed.

(** ** Objects *)

Definition same_objs (s s' : st W) : Prop :=
  ∀ a, match objs s !! a, objs s' !! a with
       | Some o, Some o' => p_IsInit o = p_IsInit o' ∧ p_ID o = p_ID o'
       | None, None => True
       | _, _ => False
       end.

Lemma same_objs_refl s : same_objs s s.
Proof. intros a. by destruct (objs s !! a). Qed.

Lemma same_objs_update s s' a o o' :
  objs s !! a = Some o → objs s' = <[a := o']> (objs s) →
  p_IsInit o = p_IsInit o' → p_ID o = p_ID o' → same_objs s s'.
Proof.
  intros Ho E Hk Hi b. rewrite E. destruct (decide (a = b)) as [->|Hne].
  - by rewrite lookup_insert_eq, Ho.
  - rewrite lookup_insert_ne by done. by destruct (objs s !! b).
Qed.

(** The containers keep their identifiers and processes. *)
Definition same_ctrs (s s' : st W) : Prop :=
  ∀ c x', ctrs s' !! c = Some x' →
  ∃ x, ctrs s !! c = Some x ∧ c_ID x = c_ID x' ∧ c_processes x = c_processes x'.

Lemma same_ctrs_refl s : same_ctrs s s.
Proof. intros c x. eauto. Qed.

Lemma shape_same c cid s s' L L' :
  shape c cid s L → same_objs s s' →
  same_ctrs s s' →
  (∀ wt, wt ∈ waiters s' → wt ∈ waiters s) →
  (∀ cp, cp ∈ L' → cp ∈ L) → shape c cid s' L'.
Proof.
  intros [Hk Hw Hc He Hpr] Hso Hctr Hwt Hin. split.
  - intros cp Hcp. destruct (Hk _ (Hin _ Hcp)) as (o & Ho & Hi).
    specialize (Hso (ExitTracker.proc_ptr (ExitTracker.cp_Process cp))). rewrite Ho in Hso.
    case_match; [|done]. destruct Hso. eexists. split; [done|congruence].
  - intros wt Hin'. destruct (Hw wt (Hwt _ Hin')) as (p & Hp). specialize (Hso (wt_process wt)).
    rewrite Hp in Hso. case_match; [|done]. destruct Hso as [Hso _]. destruct p0; [eauto|done].
  - intros c' x' Hx E. destruct (Hctr _ _ Hx) as (x & Hx0 & E' & _). eapply Hc; [done|congruence].
  - intros a e Ha. specialize (Hso a). rewrite Ha in Hso.
    destruct (objs s !! a) as [o|] eqn:Ho; [|done]. destruct Hso as [Hi Hid].
    destruct o as [|e']; [done|]. simpl in Hid. rewrite <- Hid. by eapply He.
  - intros c' x' id a Hx Ha. destruct (Hctr _ _ Hx) as (x & Hx0 & _ & E').
    rewrite <- E' in Ha. destruct (Hpr _ _ _ _ Hx0 Ha) as [e He']. specialize (Hso a).
    rewrite He' in Hso. case_match; [|done]. destruct Hso as [Hso _]. destruct p; [done|eauto].
Qed.

(** ** handleProcessExit *)

Lemma init_exited_id p status (w : W) p' w' :
  Proc.init_SetExited (pe env) status p w = Return (p', w') → Proc.i_id p' = Proc.i_id p.
Proof.
  unfold Proc.init_SetExited, Proc.init_setExited, Proc.init_transition. intros H.
  destruct (Proc.now (pe env) w). repeat (case_match; simplify_eq/=); try done;
    destruct (Proc.i_waitBlock p); simplify_eq/=; repeat case_match; simplify_eq/=; done.
Qed.

Lemma exec_exited_id e status (w : W) e' w' :
  Proc.exec_SetExited (pe env) status e w = Return (e', w') → Proc.e_id e' = Proc.e_id e.
Proof.
  unfold Proc.exec_SetExited, Proc.exec_setExited, Proc.exec_transition. intros H.
  destruct (Proc.now (pe env) w). repeat (case_match; simplify_eq/=); try done;
    destruct (Proc.e_waitBlock e); simplify_eq/=; repeat case_match; simplify_eq/=; done.
Qed.

(** What [handleProcessExit] does to the service. *)
Lemma handleProcessExit_spec e c a s s' :
  handleProcessExit env e c a s = Return (tt, s') →
  ∃ o ctr at_, objs s !! a = Some o ∧ ctrs s !! c = Some ctr ∧ same_objs s s' ∧
    ctrs s' = ctrs s ∧ waiters s' = waiters s ∧ containers s' = containers s ∧
    events s' = events s ++ [TaskExit (c_ID ctr) (p_ID o) (wrapu32 (ExitTracker.Pid e))
                               (wrapu32 (ExitTracker.Status e)) at_] ∧
    tracker s' = (if p_IsInit o then tracker s else ExitTracker.NotifyExecExit c (tracker s)).
Proof.
  unfold handleProcessExit. intros H.
  apply m_bind_Return in H as ([] & s1 & H1 & H).
  apply m_bind_Return in H as (ctr & s2 & H2 & H).
  apply m_bind_Return in H as (o & s3 & H3 & H).
  apply m_bind_Return in H as ([] & s4 & H4 & H).
  unfold load_ctr in H2. destruct (ctrs s1 !! c) as [x|] eqn:Ec; [|done]. simplify_eq.
  unfold load in H3. destruct (objs s2 !! a) as [x|] eqn:Eo; [|done]. simplify_eq.
  unfold send in H4. destruct (eventsClosed s3); [done|]. simplify_eq.
  unfold p_SetExited, load in H1. apply m_bind_Return in H1 as (o0 & s0 & H0 & H1).
  destruct (objs s !! a) as [x|] eqn:Eo0; [|done]. simplify_eq.
  assert (Hs : same_objs s0 s3 ∧ ctrs s3 = ctrs s0 ∧ waiters s3 = waiters s0 ∧
               containers s3 = containers s0 ∧ events s3 = events s0 ∧
               tracker s3 = tracker s0 ∧ p_IsInit o = p_IsInit o0 ∧ p_ID o = p_ID o0).
  { destruct o0 as [p|ex].
    - destruct (Proc.init_SetExited _ _ _ _) as [[p' w']|] eqn:E; simplify_eq/=.
      rewrite lookup_insert_eq in Eo. simplify_eq. apply init_exited_id in E.
      repeat split; try done. by eapply same_objs_update.
    - destruct (Proc.exec_SetExited _ _ _ _) as [[p' w']|] eqn:E; simplify_eq/=.
      rewrite lookup_insert_eq in Eo. simplify_eq. apply exec_exited_id in E.
      repeat split; try done. by eapply same_objs_update. }
  destruct Hs as (Hso & Hc & Hw & Hcs & He & Ht & Hi & Hid).
  exists o0, ctr. rewrite <- Hi, <- Hid.
  destruct (p_IsInit o); simpl in H; unfold m_ret, track_, m_modify in H; simplify_eq/=;
    (eexists; split; [done|]; split; [congruence|]; rewrite ?Hc, ?Hw, ?Hcs, ?He, ?Ht; done).
Qed.

(** ** The coordinator's counter *)

Lemma notify_spec c t :
  let t' := ExitTracker.NotifyExecExit c t in
  ExitTracker.running t' = ExitTracker.running t ∧
  ExitTracker.nextChan t' = ExitTracker.nextChan t ∧
  (∀ c', ExitTracker.InitHasExited c' t' = ExitTracker.InitHasExited c' t) ∧
  (∀ c' x' ch, ExitTracker.containers t' !! c' = Some x' → ExitTracker.execWaiter x' = Some ch →
     ∃ x, ExitTracker.containers t !! c' = Some x ∧ ExitTracker.execWaiter x = Some ch) ∧
  (∀ c', c' ≠ c → count_of c' t' = count_of c' t) ∧
  (0 < count_of c t ≤ max_int64 → count_of c t' = count_of c t - 1) ∧
  (∀ ch, ch ∈ ExitTracker.closedChans t' → ch ∈ ExitTracker.closedChans t ∨
     (count_of c t' ≤ 0 ∧ ∃ x, ExitTracker.containers t !! c = Some x ∧
        ExitTracker.execWaiter x = Some ch)).
Proof.
  unfold ExitTracker.NotifyExecExit, ExitTracker.notifyExecExit, ExitTracker.InitHasExited,
    ExitTracker.initHasExited, count_of. simpl.
  destruct (ExitTracker.containers t !! c) as [x|] eqn:E; [|split_and!; eauto; lia].
  assert (Hwr : ∀ n, 0 < n ≤ max_int64 → n -i 1 = n - 1).
  { intros n Hn. apply wrap64_id. unfold in_int64, min_int64, max_int64 in *. lia. }
  case_match eqn:Hn; [|destruct (ExitTracker.execWaiter x) as [ch|] eqn:Hw]; simpl;
    (split; [done|]; split; [done|]; split;
       [intros c'; destruct (decide (c = c')) as [->|];
          [by rewrite lookup_insert_eq, E|by rewrite lookup_insert_ne]|];
     split; [intros c' x' ch' Hx Hc; apply lookup_insert_Some in Hx as [[<- <-]|[? Hx]];
             simpl in *; naive_solver|];
     split; [intros; by rewrite lookup_insert_ne|];
     rewrite lookup_insert_eq; simpl; split; [auto|]);
    bool_to_prop; set_solver by lia.
Qed.

Lemma live_notify c t pend s :
  tracker s = ExitTracker.NotifyExecExit c t →
  live pend s = regs (ExitTracker.running t) ++ pend.
Proof. intros H. unfold live. rewrite H. by destruct (notify_spec c t) as [-> _]. Qed.

Lemma live_cons cp pend s : live (cp :: pend) s ≡ₚ cp :: live pend s.
Proof. unfold live. by rewrite Permutation_middle. Qed.

Lemma wf_notify c t : ExitTracker.wf t → ExitTracker.wf (ExitTracker.NotifyExecExit c t).
Proof. apply wf_notifyExecExit. Qed.

(** Handling the exit of an exec that was registered. *)
Lemma inv_exec_exit c cid e cp pend s s' :
  inv c cid (cp :: pend) s → ExitTracker.IsInit (ExitTracker.cp_Process cp) = false →
  handleProcessExit env e (ExitTracker.cp_Container cp)
    (ExitTracker.proc_ptr (ExitTracker.cp_Process cp)) s = Return (tt, s') →
  inv c cid pend s'.
Proof.
  intros [Hsh Hlast Hcnt Hsm Hpub Hone Hst Hch Hwk Hwf] Hk H.
  apply handleProcessExit_spec in H
    as (o & ctr & at_ & Ho & Hctr & Hso & Hc & Hw & _ & Hev & Ht).
  destruct (sh_kind _ _ _ _ Hsh cp) as (o' & Ho' & Hk');
    [unfold live; set_solver|]. simplify_eq.
  rewrite Hk in Hk'. rewrite Hk' in Ht.
  set (c' := ExitTracker.cp_Container cp) in *.
  destruct (notify_spec c' (tracker s)) as (Hrun & Hnext & Hihe & Hcts & Hcne & Hceq & Hclo).
  rewrite <- Ht in *.
  assert (Hl : live (cp :: pend) s ≡ₚ cp :: live pend s').
  { rewrite live_cons. unfold live. by rewrite Hrun. }
  assert (HnI : n_init c (live (cp :: pend) s) = n_init c (live pend s')).
  { rewrite Hl, n_init_cons, decide_False; [lia|]. intros [_ ?]. congruence. }
  assert (HnE : n_exec c (live (cp :: pend) s) =
                (if decide (c' = c) then 1 else 0) + n_exec c (live pend s')).
  { rewrite Hl, n_exec_cons. unfold is_exec. repeat case_decide; naive_solver. }
  pose proof (n_exec_nonneg c (live pend s')) as Hnn.
  assert (Hid : p_ID o ≠ cid).
  { destruct o as [|ex]; [done|]. by apply (sh_exec _ _ _ _ Hsh _ _ Ho). }
  assert (Hpub' : published cid (events s') → published cid (events s)).
  { rewrite Hev, published_snoc. intros [?|[_ ?]]; [done|]. by destruct Hid. }
  assert (Hcnt' : count_of c (tracker s') = n_exec c (live pend s')).
  { destruct (decide (c' = c)) as [->|]; [rewrite Hceq; lia|rewrite Hcne by done; lia]. }
  split.
  - apply (shape_same _ _ s s' (live (cp :: pend) s)); try done.
    + intros c1 x Hx. rewrite Hc in Hx. eauto.
    + by rewrite Hw.
    + intros cp1 H1. rewrite Hl. by right.
  - rewrite Hev. apply init_exit_last_snoc; [done|]. intros Hp. destruct (Hpub Hp) as (H0 & _).
    simpl. intros Hcid. pose proof (sh_ctr _ _ _ _ Hsh _ _ Hctr Hcid).
    rewrite decide_True in HnE by done. lia.
  - done.
  - case_decide; lia.
  - intros Hp. destruct (Hpub (Hpub' Hp)) as (? & ? & ?). rewrite Hw. case_decide; lia.
  - rewrite Hw. lia.
  - rewrite Hihe, Hw. intros Hp. apply Hst.
    destruct Hp as [?|[?|Hp]]; [by left; auto|by right; left|].
    right; right. rewrite n_init_cons. destruct (decide (is_init c cp)); lia.
  - intros wt Hin. rewrite Hw in Hin. rewrite Hnext. destruct (Hch _ Hin) as [Hlt Hu].
    split; [done|]. intros Hwc c1 x Hx Hex. destruct (Hcts _ _ _ Hx Hex) as (x0 & ? & ?).
    by eapply Hu.
  - intros wt Hin Hwc Hcl. rewrite Hw in Hin. destruct (Hclo _ Hcl) as [Hold|(Hle & x & Hx & Hex)].
    + specialize (Hwk _ Hin Hwc Hold). case_decide; lia.
    + destruct (Hch _ Hin) as [_ Hu]. pose proof (Hu Hwc _ _ Hx Hex). subst c'.
      rewrite <- Hcnt'. rewrite H in Hle. lia.
  - rewrite Ht. by apply wf_notify.
Qed.

(** Publishing the exit of an init process whose container has no exec left. *)
Lemma inv_emit c cid e c' a p pend s s' :
  inv c cid pend s → objs s !! a = Some (PInit p) →
  handleProcessExit env e c' a s = Return (tt, s') →
  (c' = c → ¬ published cid (events s) ∧ n_exec c (live pend s) = 0 ∧
     n_init c (live pend s) = 0 ∧ n_wait c (waiters s) = 0 ∧
     ExitTracker.InitHasExited c (tracker s) = true) →
  inv c cid pend s'.
Proof.
  intros [Hsh Hlast Hcnt Hsm Hpub Hone Hst Hch Hwk Hwf] Ho H Hc'.
  apply handleProcessExit_spec in H
    as (o' & ctr & at_ & Ho' & Hctr & Hso & Hc & Hw & _ & Hev & Ht).
  rewrite Ho in Ho'. simplify_eq/=.
  assert (Hl : live pend s' = live pend s) by (unfold live; by rewrite Ht).
  assert (Hpub' : published cid (events s') → published cid (events s) ∨ c' = c).
  { rewrite Hev, published_snoc. intros [?|[Hx ?]]; [by left|right].
    by eapply (sh_ctr _ _ _ _ Hsh). }
  split; rewrite ?Hl, ?Ht, ?Hw; try done.
  - apply (shape_same _ _ s s' (live pend s)); try done.
    + intros c1 x Hx. rewrite Hc in Hx. eauto.
    + by rewrite Hw.
  - rewrite Hev. apply init_exit_last_snoc; [done|]. intros Hp Hcid.
    assert (c' = c) as E by (eapply (sh_ctr _ _ _ _ Hsh); [exact Hctr|exact Hcid]).
    by destruct (Hc' E) as [? _].
  - intros Hp. destruct (Hpub' Hp) as [Hp'|E]; [auto|]. destruct (Hc' E) as (_ & ? & ? & ? & _). done.
  - intros [Hp|Hp]; [|auto]. destruct (Hpub' Hp) as [Hp'|E]; [auto|]. by destruct (Hc' E) as (_ & _ & _ & _ & ?).
Qed.

(** Taking an init process off the list of those being handled. *)
Lemma inv_drop_init c cid cp pend s :
  inv c cid (cp :: pend) s → ExitTracker.IsInit (ExitTracker.cp_Process cp) = true →
  inv c cid pend s ∧
  (ExitTracker.cp_Container cp = c → ¬ published cid (events s) ∧
     n_init c (live pend s) = 0 ∧ n_wait c (waiters s) = 0 ∧
     ExitTracker.InitHasExited c (tracker s) = true).
Proof.
  intros [Hsh Hlast Hcnt Hsm Hpub Hone Hst Hch Hwk Hwf] Hk.
  assert (HnE : n_exec c (live (cp :: pend) s) = n_exec c (live pend s)).
  { rewrite live_cons, n_exec_cons, decide_False; [lia|]. intros [_ ?]. congruence. }
  assert (HnI : n_init c (live (cp :: pend) s) =
                (if decide (ExitTracker.cp_Container cp = c) then 1 else 0) + n_init c (live pend s)).
  { rewrite live_cons, n_init_cons. unfold is_init. repeat case_decide; naive_solver. }
  rewrite HnE in *. rewrite HnI in *.
  pose proof (n_init_nonneg c (live pend s)). pose proof (n_init_nonneg c pend).
  assert (0 ≤ n_wait c (waiters s)) by (unfold n_wait; lia).
  split.
  - split; try done.
    + eapply shape_same; [exact Hsh|exact (same_objs_refl s)|exact (same_ctrs_refl s)|done|].
      intros cp' Hin. rewrite live_cons. by right.
    + intros Hp. destruct (Hpub Hp) as (? & ? & ?). case_decide; split_and!; try done; lia.
    + case_decide; lia.
    + intros Hp. apply Hst. destruct Hp as [?|[?|Hp]]; [by left|by right; left|].
      right; right. rewrite n_init_cons. destruct (decide (is_init c cp)); lia.
  - intros E. rewrite decide_True in * by done. split_and!; try lia.
    + intros Hp. destruct (Hpub Hp) as (_ & ? & _). lia.
    + apply Hst. right; right. rewrite n_init_cons, decide_True by done. lia.
Qed.

Lemma n_wait_snoc c l wt :
  n_wait c (l ++ [wt]) = n_wait c l + (if decide (wt_container wt = c) then 1 else 0).
Proof.
  unfold n_wait. rewrite filter_app, length_app, filter_cons, filter_nil.
  case_decide; simpl length; lia.
Qed.

(** The effect of [ShouldDelayInitExit]. *)
Lemma delay_spec c t r t' :
  ExitTracker.ShouldDelayInitExit c t = (r, t') →
  match r with
  | None => t' = t ∧ count_of c t = 0
  | Some ch => ch = ExitTracker.nextChan t ∧ ExitTracker.nextChan t' = Datatypes.S ch ∧
      ExitTracker.running t' = ExitTracker.running t ∧
      ExitTracker.closedChans t' = ExitTracker.closedChans t ∧
      (∀ c', count_of c' t' = count_of c' t) ∧
      (∀ c', ExitTracker.InitHasExited c' t' = ExitTracker.InitHasExited c' t) ∧
      (∀ c' x' ch', ExitTracker.containers t' !! c' = Some x' →
         ExitTracker.execWaiter x' = Some ch' →
         (c' = c ∧ ch' = ch) ∨
         ∃ x, ExitTracker.containers t !! c' = Some x ∧ ExitTracker.execWaiter x = Some ch')
  end.
Proof.
  unfold ExitTracker.ShouldDelayInitExit, ExitTracker.shouldDelayInitExit,
    ExitTracker.InitHasExited, ExitTracker.initHasExited, count_of.
  destruct (ExitTracker.containers t !! c) as [x|] eqn:E; [|by intros [= <- <-]].
  case_match eqn:Hz; intros [= <- <-]; [split; [done|go_arith]|]. simpl.
  split_and!; try done; intros c'.
  - destruct (decide (c = c')) as [->|]; [by rewrite lookup_insert_eq, E|by rewrite lookup_insert_ne].
  - destruct (decide (c = c')) as [->|]; [by rewrite lookup_insert_eq, E|by rewrite lookup_insert_ne].
  - intros x' ch' Hx Hc. apply lookup_insert_Some in Hx as [[<- <-]|[? Hx]]; simpl in *; naive_solver.
Qed.

(** A goroutine starts waiting for the execs of its container. *)
Lemma inv_wait c cid cp e pend ch s t' :
  inv c cid (cp :: pend) s → ExitTracker.IsInit (ExitTracker.cp_Process cp) = true →
  ExitTracker.ShouldDelayInitExit (ExitTracker.cp_Container cp) (tracker s) = (Some ch, t') →
  inv c cid pend (set_waiters (waiters s ++ [mkWaiter ch e (ExitTracker.cp_Container cp)
                    (ExitTracker.proc_ptr (ExitTracker.cp_Process cp))]) (set_tracker t' s)).
Proof.
  intros Hinv Hk Hd.
  assert (Hwf' : ExitTracker.wf t').
  { pose proof (wf_shouldDelayInitExit _ (ExitTracker.cp_Container cp) (inv_wf _ _ _ _ Hinv)) as Hwf.
    change ExitTracker.shouldDelayInitExit with ExitTracker.ShouldDelayInitExit in Hwf.
    by rewrite Hd in Hwf. }
  assert (Hobj : ∃ p, objs s !! ExitTracker.proc_ptr (ExitTracker.cp_Process cp) = Some (PInit p)).
  { destruct (sh_kind _ _ _ _ (inv_shape _ _ _ _ Hinv) cp) as ([p|ex] & Ho & Hko);
      [unfold live; set_solver|eauto|]. by rewrite Hk in Hko. }
  destruct (inv_drop_init _ _ _ _ _ Hinv Hk) as [Hinv' Hc].
  apply delay_spec in Hd as (-> & Hn & Hrun & Hclo & Hcnt & Hihe & Hcts).
  destruct Hinv' as [Hsh Hlast Hcnt0 Hsm Hpub Hone Hst Hch Hwk Hwf].
  assert (Hlv : ∀ l, live pend (set_waiters l (set_tracker t' s)) = live pend s).
  { intros l. unfold live. simpl. by rewrite Hrun. }
  split; rewrite ?Hlv; simpl; rewrite ?Hcnt, ?Hihe, ?n_wait_snoc; try done.
  - destruct Hsh as [H1 H2 H3 H4 H5]. split; try done. simpl. intros wt Hin.
    apply elem_of_app in Hin as [Hin| ->%list_elem_of_singleton]; [by apply H2|done].
  - intros Hp. destruct (Hpub Hp) as (? & ? & ?). case_decide; [|split_and!; try done; lia].
    by destruct Hc.
  - simpl. case_decide; [|lia]. destruct Hc as (_ & ? & ? & _); [done|lia].
  - simpl. intros Hp. case_decide; [by destruct Hc as (_ & _ & _ & ?)|]. apply Hst.
    destruct Hp as [?|[?|?]]; [by left|right; left; lia|by right; right].
  - intros wt Hin. rewrite Hn. apply elem_of_app in Hin as [Hin| ->%list_elem_of_singleton].
    + destruct (Hch _ Hin) as [Hlt Hu]. split; [lia|]. intros Hwc c' x Hx Hex.
      destruct (Hcts _ _ _ Hx Hex) as [[_ Heq]|(x0 & ? & ?)]; [lia|]. by eapply Hu.
    + simpl. split; [lia|]. intros Hwc c' x Hx Hex.
      destruct (Hcts _ _ _ Hx Hex) as [[-> _]|(x0 & Hx0 & Hex0)]; [done|].
      destruct (ExitTracker.wf_chan _ Hwf _ _ _ Hx0 Hex0). lia.
  - rewrite Hclo. intros wt Hin Hwc Hin'. apply elem_of_app in Hin as [Hin| ->%list_elem_of_singleton].
    + by eapply Hwk.
    + simpl in Hin'. apply (ExitTracker.wf_closed _ Hwf) in Hin'. lia.
Qed.

(** The invariant does not see the world. *)
Lemma inv_world c cid pend s w : inv c cid pend s ↔ inv c cid pend (set_world w s).
Proof.
  split; intros [[?????] Hlast Hcnt Hsm Hpub Hone Hst Hch Hwk Hwf]; by (split; [split|..]).
Qed.

Lemma inv_handleInitExit c cid e cp pend s s' :
  inv c cid (cp :: pend) s → ExitTracker.IsInit (ExitTracker.cp_Process cp) = true →
  handleInitExit env e (ExitTracker.cp_Container cp)
    (ExitTracker.proc_ptr (ExitTracker.cp_Process cp)) s = Return (tt, s') →
  inv c cid pend s'.
Proof.
  intros Hinv Hk H. unfold handleInitExit in H.
  apply m_bind_Return in H as (ctr & s1 & H1 & H).
  unfold load_ctr in H1. destruct (ctrs s !! _) eqn:Hctr; [|done]. simplify_eq.
  apply m_bind_Return in H as (o & s2 & H2 & H).
  unfold load in H2. destruct (objs s1 !! _) as [o'|] eqn:Ho; [|done]. simplify_eq.
  apply m_bind_Return in H as (w & s3 & [= <- <-] & H).
  apply m_bind_Return in H as ([] & s4 & H4 & H).
  assert (∃ w', s4 = set_world w' s2) as [w' ->].
  { destruct (ShouldKillAllOnExit _); [|exists (world s2); unfold m_ret in H4; destruct s2; simplify_eq/=; done].
    destruct o; [|done]. apply m_bind_Return in H4 as (r & s5 & H5 & [= <-]).
    unfold io in H5. case_match. simplify_eq. eauto. }
  apply m_bind_Return in H as (wait & s5 & H5 & H). unfold track in H5.
  destruct (ExitTracker.ShouldDelayInitExit _ _) as [wt t'] eqn:Hd. simplify_eq.
  rewrite (inv_world _ _ _ _ w') in Hinv.
  destruct wait as [ch|].
  - unfold m_modify in H. simplify_eq.
    exact (inv_wait _ _ _ e _ _ (set_world w' s2) _ Hinv Hk Hd).
  - apply delay_spec in Hd as [-> Hcnt].
    destruct (inv_drop_init _ _ _ _ _ Hinv Hk) as [Hinv' Hc].
    assert (Hobj : ∃ p, o = PInit p).
    { destruct (sh_kind _ _ _ _ (inv_shape _ _ _ _ Hinv) cp) as ([p|ex] & Ho' & Hko);
        [unfold live; set_solver|simpl in *; naive_solver|]. by rewrite Hk in Hko. }
    destruct Hobj as [p ->].
    eapply (inv_emit _ _ _ _ _ p _ (set_world w' s2)); [exact Hinv' | exact Ho | exact H |].
    + intros E. destruct (Hc E) as (? & ? & ? & ?). split_and!; try done.
      rewrite <- (inv_count _ _ _ _ Hinv'). rewrite <- E. done.
Qed.

Lemma inv_handle_cps c cid e cps s s' :
  inv c cid cps s → m_for (handle_cp env e) cps s = Return (tt, s') → inv c cid [] s'.
Proof.
  revert s. induction cps as [|cp cps IH]; intros s Hinv H; simpl in H.
  { unfold m_ret in H. by simplify_eq. }
  apply m_bind_Return in H as ([] & s1 & H1 & H). apply (IH s1); [|done].
  unfold handle_cp in H1. destruct (ExitTracker.IsInit _) eqn:Hk.
  - by eapply inv_handleInitExit.
  - by eapply inv_exec_exit.
Qed.

(** ** The reaper *)

Lemma stash_inits_spec c cps e t :
  let t' := ExitTracker.stash_inits cps e t in
  ExitTracker.running t' = ExitTracker.running t ∧
  ExitTracker.nextChan t' = ExitTracker.nextChan t ∧
  ExitTracker.closedChans t' = ExitTracker.closedChans t ∧
  count_of c t' = count_of c t ∧
  (∀ c' x' ch, ExitTracker.containers t' !! c' = Some x' → ExitTracker.execWaiter x' = Some ch →
     ∃ x, ExitTracker.containers t !! c' = Some x ∧ ExitTracker.execWaiter x = Some ch) ∧
  (ExitTracker.InitHasExited c t = true ∨ 0 < n_init c cps →
     ExitTracker.InitHasExited c t' = true) ∧
  (ExitTracker.wf t → ExitTracker.wf t').
Proof.
  revert t. induction cps as [|cp cps IH]; intros t; simpl.
  { split_and!; eauto. intros [?|H]; [done|]. unfold n_init in H. simpl in H. lia. }
  rewrite n_init_cons. remember (if decide (is_init c cp) then 1 else 0) as k eqn:Ek.
  destruct (ExitTracker.IsInit (ExitTracker.cp_Process cp)) eqn:Hk; cycle 1.
  { rewrite decide_False in Ek by (intros [_ ?]; congruence). subst k. apply IH. }
  set (c1 := ExitTracker.cp_Container cp). set (t1 := ExitTracker.stashInitExit c1 e t).
  destruct (IH t1) as (Hr & Hn & Hcl & Hcnt & Hw & Hi & Hwf).
  rewrite Hr, Hn, Hcl, Hcnt. split_and!; try done.
  - unfold count_of, t1, ExitTracker.stashInitExit, ExitTracker.getOrCreateState. simpl.
    destruct (decide (c1 = c)) as [->|]; [rewrite lookup_insert_eq|by rewrite lookup_insert_ne].
    by destruct (ExitTracker.containers t !! c).
  - intros c' x' ch Hx Hch. destruct (Hw _ _ _ Hx Hch) as (x & Hx1 & Hch1).
    unfold t1, ExitTracker.stashInitExit in Hx1. simpl in Hx1.
    apply lookup_insert_Some in Hx1 as [[<- <-]|[_ Hx1]]; [|eauto].
    by apply getOrCreateState_waiter.
  - intros H. apply Hi. subst k. destruct (decide (is_init c cp)) as [[Hc _]|]; cycle 1.
    { destruct H as [H|H]; [left|right; lia]. revert H.
      unfold ExitTracker.InitHasExited, ExitTracker.initHasExited, t1, ExitTracker.stashInitExit. simpl.
      destruct (decide (c1 = c)) as [->|]; [by rewrite lookup_insert_eq|by rewrite lookup_insert_ne]. }
    left. unfold ExitTracker.InitHasExited, ExitTracker.initHasExited, t1, ExitTracker.stashInitExit.
    unfold c1. rewrite Hc. simpl. by rewrite lookup_insert_eq.
  - intros H. apply Hwf. by eapply wf_step; [apply op_stash|].
Qed.

Lemma inv_processExits c cid e s s' :
  inv c cid [] s → processExits env e s = Return (tt, s') → inv c cid [] s'.
Proof.
  intros Hinv H. unfold processExits in H.
  apply m_bind_Return in H as (cps & s1 & H1 & H).
  eapply inv_handle_cps; [|exact H]. clear H s'.
  unfold track in H1. destruct (ExitTracker.NotifyExit e (tracker s)) as [l t'] eqn:E. simplify_eq.
  unfold ExitTracker.NotifyExit, ExitTracker.removeByPID in E. simplify_eq.
  set (pid := ExitTracker.Pid e).
  set (t0 := ExitTracker.set_running (delete pid (ExitTracker.running (tracker s)))
               (ExitTracker.detector_notifyExit e (tracker s))).
  set (cps := default [] (ExitTracker.running (tracker s) !! pid)).
  change (inv c cid cps (set_tracker (ExitTracker.stash_inits cps e t0) s)).
  destruct (stash_inits_spec c cps e t0) as (Hr & Hn & Hcl & Hcnt & Hw & Hi & Hwf).
  destruct Hinv as [Hsh Hlast Hcnt0 Hsm Hpub Hone Hst Hch Hwk Hwf0].
  assert (Hl : live cps (set_tracker (ExitTracker.stash_inits cps e t0) s) ≡ₚ live [] s).
  { unfold live. simpl. rewrite Hr, app_nil_r. simpl. rewrite Permutation_app_comm.
    apply regs_delete. }
  split; rewrite ?Hl; simpl; rewrite ?Hcnt; try done.
  - eapply shape_same; [exact Hsh|exact (same_objs_refl s)|exact (same_ctrs_refl s)|done|].
    intros cp Hin. by rewrite <- Hl.
  - intros Hp. apply Hi. destruct Hp as [?|[?|?]]; [left|left|by right]; apply Hst; tauto.
  - intros wt Hin. rewrite Hn. destruct (Hch _ Hin) as [Hlt Hu]. split; [done|].
    intros Hwc c' x Hx Hex. destruct (Hw _ _ _ Hx Hex) as (x0 & ? & ?). by eapply Hu.
  - rewrite Hcl. intros wt Hin Hwc Hin'. rewrite Hl. by eapply Hwk.
  - apply Hwf.
    apply (wf_step _ _ (op_remove_pid (ExitTracker.detector_notifyExit e (tracker s)) pid)).
    by apply (wf_step _ _ (op_notify (tracker s) e)).
Qed.

Lemma inv_resume c cid i s s' :
  inv c cid [] s → resume env i s = Some (Return (tt, s')) → inv c cid [] s'.
Proof.
  intros Hinv H. unfold resume in H. destruct (waiters s !! i) as [wt|] eqn:Hi; [|done].
  case_bool_decide as Hcl; [|done]. injection H as H.
  assert (Hin : wt ∈ waiters s) by (by eapply list_elem_of_lookup_2).
  assert (Hperm : waiters s ≡ₚ wt :: delete i (waiters s)) by (by apply delete_Permutation).
  assert (Hnw : n_wait c (waiters s) = (if decide (wt_container wt = c) then 1 else 0) +
                                       n_wait c (delete i (waiters s))).
  { unfold n_wait. rewrite Hperm at 1. rewrite filter_cons. case_decide; simpl length; lia. }
  destruct (sh_wait _ _ _ _ (inv_shape _ _ _ _ Hinv) _ Hin) as [p Hp].
  pose proof (n_init_nonneg c (live [] s)).
  assert (0 ≤ n_wait c (delete i (waiters s))) by (unfold n_wait; lia).
  eapply (inv_emit _ _ _ _ _ p _ (set_waiters (delete i (waiters s)) s));
    [| exact Hp | exact H |].
  - destruct Hinv as [Hsh Hlast Hcnt0 Hsm Hpub Hone Hst Hch Hwk Hwf0].
    split; simpl; try done.
    + eapply shape_same; [exact Hsh|exact (same_objs_refl s)|exact (same_ctrs_refl s)| |done].
      simpl. intros wt' Hin'. rewrite Hperm. by right.
    + intros Hpb. destruct (Hpub Hpb) as (? & ? & ?). split_and!; try done. case_decide; lia.
    + change (live [] _) with (live [] s). case_decide; lia.
    + intros Hpb. apply Hst. destruct Hpb as [?|[?|?]]; [by left| |by right; right].
      right; left. case_decide; lia.
    + intros wt' Hin'. apply Hch. rewrite Hperm. by right.
    + intros wt' Hin'. apply Hwk. rewrite Hperm. by right.
  - intros E. rewrite decide_True in Hnw by done. simpl.
    destruct Hinv as [Hsh Hlast Hcnt0 Hsm Hpub Hone Hst Hch Hwk Hwf0].
    change (live [] _) with (live [] s). split_and!; try lia.
    + intros Hpb. destruct (Hpub Hpb) as (? & ? & ?). lia.
    + by eapply Hwk.
    + apply Hst. lia.
Qed.

Lemma inv_Kill c cid id execID sig all r s s' :
  inv c cid [] s → Kill env id execID sig all s = Return (r, s') → inv c cid [] s'.
Proof.
  intros Hinv H. unfold Kill, getContainer in H.
  apply m_bind_Return in H as (gc & s1 & [= <- <-] & H).
  destruct (containers s !! id) as [c'|]; [|unfold m_ret in H; by simplify_eq].
  unfold container_Kill in H. apply m_bind_Return in H as (ctr & s1 & H1 & H).
  unfold load_ctr in H1. destruct (ctrs s !! c'); simplify_eq.
  destruct (c_Process execID ctr); [|unfold m_ret in H; by simplify_eq].
  unfold p_Kill in H. apply m_bind_Return in H as (o & s2 & H2 & H).
  unfold load in H2. destruct (objs s1 !! a); simplify_eq.
  destruct o; unfold io in H; case_match; simplify_eq; by apply inv_world.
Qed.

(** ** Starting an exec *)

Lemma init_started_id p (w : W) : Proc.i_id (Proc.init_Start (pe env) p w).1.2 = Proc.i_id p.
Proof.
  unfold Proc.init_Start, Proc.init_transition. repeat (case_match; simplify_eq/=); done.
Qed.

Lemma exec_started_id e (w : W) r e' w' :
  Proc.exec_Start (pe env) e w = Return (r, e', w') → Proc.e_id e' = Proc.e_id e.
Proof.
  unfold Proc.exec_Start, Proc.exec_start, Proc.exec_transition, Proc.exec_attach. intros H.
  repeat (case_match; simplify_eq/=); try done;
    destruct (Proc.e_waitBlock e); simplify_eq/=; repeat (case_match; simplify_eq/=); done.
Qed.

Lemma p_Start_spec a r s s' :
  p_Start env a s = Return (r, s') →
  same_objs s s' ∧ ctrs s' = ctrs s ∧ tracker s' = tracker s ∧ events s' = events s ∧
  waiters s' = waiters s ∧ containers s' = containers s.
Proof.
  unfold p_Start. intros H. apply m_bind_Return in H as (o & s1 & H1 & H).
  unfold load in H1. destruct (objs s !! a) as [x|] eqn:Ho; [|done]. simplify_eq.
  destruct o as [p|e].
  - pose proof (init_started_id p (world s1)) as Hid.
    destruct (Proc.init_Start _ _ _) as [[r' p'] w'] eqn:E. simplify_eq/=.
    split_and!; try done. by eapply same_objs_update.
  - destruct (Proc.exec_Start _ _ _) as [[[r' e'] w']|] eqn:E; simplify_eq/=.
    apply exec_started_id in E. split_and!; try done. by eapply same_objs_update.
Qed.

Lemma container_Start_spec c execID r s s' :
  container_Start env c execID s = Return (r, s') →
  same_objs s s' ∧ same_ctrs s s' ∧ tracker s' = tracker s ∧ events s' = events s ∧
  waiters s' = waiters s ∧
  (∀ a, r.1 = Some a → ∃ x, ctrs s !! c = Some x ∧ c_Process execID x = Ok a).
Proof.
  unfold container_Start. intros H. apply m_bind_Return in H as (ctr & s1 & H1 & H).
  unfold load_ctr in H1. destruct (ctrs s !! c) as [x|] eqn:Hc; [|done]. simplify_eq.
  destruct (c_Process execID ctr) as [a|] eqn:Hpr; cycle 1.
  { unfold m_ret in H. simplify_eq. split_and!; try done; [apply same_objs_refl|by intros ?; eauto]. }
  apply m_bind_Return in H as (err & s2 & H2 & H).
  destruct (p_Start_spec _ _ _ _ H2) as (Hso & Hcs & Ht & He & Hw & _).
  assert (Hcc : same_ctrs s1 s2) by (intros c' x'; rewrite Hcs; eauto).
  destruct err; [unfold m_ret in H; simplify_eq; split_and!; try done; naive_solver|].
  apply m_bind_Return in H as (o & s3 & H3 & H).
  unfold load in H3. destruct (objs s2 !! a); [|done]. simplify_eq.
  apply m_bind_Return in H as (w & s4 & [= <- <-] & H).
  apply m_bind_Return in H as ([] & s5 & H5 & H). unfold m_ret in H. simplify_eq.
  case_match; unfold store_ctr, m_modify, m_ret in H5; simplify_eq;
    [|split_and!; try done; naive_solver].
  split_and!; try done; [|naive_solver]. intros c' x' Hx. simpl in Hx.
  apply lookup_insert_Some in Hx as [[<- <-]|[_ Hx]]; [|eauto]. by exists ctr.
Qed.

Lemma exits_published es c a s s' :
  m_for (λ e, handleProcessExit env e c a) es s = Return (tt, s') →
  length (events s') = (length (events s) + length es)%nat.
Proof.
  revert s. induction es as [|e es IH]; intros s H; simpl in *.
  { unfold m_ret in H. simplify_eq. lia. }
  apply m_bind_Return in H as ([] & s1 & H1 & H). rewrite (IH _ H).
  apply handleProcessExit_spec in H1 as (o & ctr & at_ & _ & _ & _ & _ & _ & _ & -> & _).
  rewrite length_app. simpl. lia.
Qed.

(** [HandleStart] of a process without early exits adds at most the process,
    and counts it if it is an exec. *)
Lemma handle_start_spec sub c p pid t t' :
  ExitTracker.IsInit p = false →
  ExitTracker.HandleStart sub c p pid t = ([], t') →
  ExitTracker.nextChan t' = ExitTracker.nextChan t ∧
  ExitTracker.closedChans t' = ExitTracker.closedChans t ∧
  (∀ c', ExitTracker.InitHasExited c' t' = ExitTracker.InitHasExited c' t) ∧
  (∀ c' x' ch, ExitTracker.containers t' !! c' = Some x' → ExitTracker.execWaiter x' = Some ch →
     ∃ x, ExitTracker.containers t !! c' = Some x ∧ ExitTracker.execWaiter x = Some ch) ∧
  (ExitTracker.wf t → ExitTracker.wf t') ∧
  ((ExitTracker.running t' = ExitTracker.running t ∧ ∀ c', count_of c' t' = count_of c' t) ∨
   (regs (ExitTracker.running t') ≡ₚ ExitTracker.mkCP c p :: regs (ExitTracker.running t) ∧
    ∀ c', count_of c' t' = (if decide (c = c') then count_of c t +i 1 else count_of c' t))).
Proof.
  intros Hk H. unfold ExitTracker.HandleStart in H.
  destruct (ExitTracker.sub_complete sub pid t) as [es t1] eqn:E.
  unfold ExitTracker.sub_complete in E. injection E as _ E1.
  assert (Hwf1 : ExitTracker.wf t → ExitTracker.wf t1).
  { rewrite <- E1. apply (wf_step _ _ (op_remove t sub)). }
  case_match eqn:Hb; simplify_eq; [split_and!; try done; [eauto|by left]|].
  rewrite Hk. simpl. split_and!; try done.
  - intros c'. unfold ExitTracker.InitHasExited, ExitTracker.initHasExited,
      ExitTracker.incrementExecCount, ExitTracker.getOrCreateState. simpl.
    destruct (decide (c = c')) as [->|]; [rewrite lookup_insert_eq|by rewrite lookup_insert_ne].
    by destruct (ExitTracker.containers t !! c').
  - intros c' x' ch Hx Hex. unfold ExitTracker.incrementExecCount in Hx. simpl in Hx.
    apply lookup_insert_Some in Hx as [[<- <-]|[_ Hx]]; [|eauto].
    by apply (getOrCreateState_waiter _ t).
  - intros Hwf. apply (wf_step _ _ (op_increment _ c)).
    apply (wf_step _ _ (op_add _ pid (ExitTracker.mkCP c p))). by apply Hwf1.
  - right. split; [apply regs_add|]. intros c'.
    unfold count_of, ExitTracker.incrementExecCount, ExitTracker.getOrCreateState. simpl.
    case_decide as Hc; [subst; rewrite lookup_insert_eq|by rewrite lookup_insert_ne].
    by destruct (ExitTracker.containers t !! c').
Qed.

(** An exec of container [c0] joins the registry. *)
Lemma inv_started c cid c0 p ev s s' :
  inv c cid [] s → ExitTracker.InitHasExited c0 (tracker s) = false →
  ExitTracker.IsInit p = false → ¬ is_exit_of cid ev →
  n_exec c (live [] s) < max_int64 →
  (∃ o, objs s !! ExitTracker.proc_ptr p = Some o ∧ p_IsInit o = false) →
  same_objs s s' → same_ctrs s s' → waiters s' = waiters s → events s' = events s ++ [ev] →
  ExitTracker.nextChan (tracker s') = ExitTracker.nextChan (tracker s) →
  ExitTracker.closedChans (tracker s') = ExitTracker.closedChans (tracker s) →
  (∀ c', ExitTracker.InitHasExited c' (tracker s') = ExitTracker.InitHasExited c' (tracker s)) →
  (∀ c' x' ch, ExitTracker.containers (tracker s') !! c' = Some x' →
     ExitTracker.execWaiter x' = Some ch →
     ∃ x, ExitTracker.containers (tracker s) !! c' = Some x ∧ ExitTracker.execWaiter x = Some ch) →
  ExitTracker.wf (tracker s') →
  regs (ExitTracker.running (tracker s')) ≡ₚ
    ExitTracker.mkCP c0 p :: regs (ExitTracker.running (tracker s)) →
  (∀ c', count_of c' (tracker s') =
     (if decide (c0 = c') then count_of c0 (tracker s) +i 1 else count_of c' (tracker s))) →
  inv c cid [] s'.
Proof.
  intros [Hsh Hlast Hcnt Hsm Hpub Hone Hst Hch Hwk Hwf] Hie Hk Hev Hlt Hobj Hso Hsc Hw He
    Hn Hcl Hihe Hcts Hwf' Hr Hct.
  assert (Hl : live [] s' ≡ₚ ExitTracker.mkCP c0 p :: live [] s).
  { unfold live. rewrite !app_nil_r. done. }
  assert (HnE : n_exec c (live [] s') = (if decide (c0 = c) then 1 else 0) + n_exec c (live [] s)).
  { rewrite Hl, n_exec_cons. destruct (decide (is_exec c _)) as [[? _]|Hnx], (decide (c0 = c)) as [|];
      simpl in *; try done. by destruct Hnx. }
  assert (HnI : n_init c (live [] s') = n_init c (live [] s)).
  { rewrite Hl, n_init_cons, decide_False; [lia|]. intros [_ ?]. simpl in *. congruence. }
  pose proof (n_exec_nonneg c (live [] s)).
  assert (Hpb : published cid (events s') ↔ published cid (events s)).
  { rewrite He, published_snoc. split; [|tauto]. intros [?|Hx]; [done|]. destruct Hev.
    destruct ev; try done. by destruct Hx. }
  assert (Hnc : c0 = c → ¬ published cid (events s) ∧ n_wait c (waiters s) ≤ 0).
  { intros ->. split; [|assert (¬ 0 < n_wait c (waiters s)); [|lia]]; intros Hp;
      rewrite Hst in Hie; try done; tauto. }
  split; rewrite ?HnI, ?Hw, ?Hihe, ?Hpb; try done.
  - assert (Hin0 : ∀ cp, cp ∈ live [] s' → cp = ExitTracker.mkCP c0 p ∨ cp ∈ live [] s).
    { intros cp. rewrite Hl. set_solver. }
    destruct (shape_same c cid s s' (live [] s) (live [] s) Hsh Hso Hsc) as [S1 S2 S3 S4 S5];
      [by rewrite Hw|done|]. split; try done.
    intros cp Hin. destruct (Hin0 cp Hin) as [->|Hin']; [|auto]. simpl.
    destruct Hobj as (o & Ho & Hko). specialize (Hso (ExitTracker.proc_ptr p)). rewrite Ho in Hso.
    destruct (objs s' !! ExitTracker.proc_ptr p) as [o'|]; [|done]. destruct Hso.
    eexists. split; [done|]. congruence.
  - rewrite He. by apply init_exit_last_snoc.
  - rewrite Hct, HnE. case_decide as E; [|lia]. rewrite <- E in *. rewrite Hcnt.
    rewrite wrap64_id; [lia|]. unfold in_int64, min_int64, max_int64 in *. lia.
  - rewrite HnE. case_decide; lia.
  - intros Hp. destruct (Hpub Hp) as (? & ? & ?). rewrite HnE. case_decide as E; [|split_and!; lia].
    by destruct (Hnc E).
  - intros wt Hin. rewrite Hn. destruct (Hch _ Hin) as [Hlt' Hu]. split; [done|].
    intros Hwc c' x Hx Hex. destruct (Hcts _ _ _ Hx Hex) as (y & ? & ?). by eapply Hu.
  - rewrite Hcl. intros wt Hin Hwc Hin'. rewrite HnE. case_decide as E; [|by eapply Hwk].
    destruct (Hnc E) as [_ Hz]. assert (0 < n_wait c (waiters s)); [|lia].
    unfold n_wait. assert (wt ∈ filter (λ wt, wt_container wt = c) (waiters s)) as Hf
      by (by apply list_elem_of_filter). destruct (filter _ _); [set_solver|]. simpl. lia.
Qed.

(** A start that registers nothing (a process without a pid). *)
Lemma inv_quiet c cid ev s s' :
  inv c cid [] s → ¬ is_exit_of cid ev →
  same_objs s s' → same_ctrs s s' → waiters s' = waiters s → events s' = events s ++ [ev] →
  ExitTracker.nextChan (tracker s') = ExitTracker.nextChan (tracker s) →
  ExitTracker.closedChans (tracker s') = ExitTracker.closedChans (tracker s) →
  (∀ c', ExitTracker.InitHasExited c' (tracker s') = ExitTracker.InitHasExited c' (tracker s)) →
  (∀ c' x' ch, ExitTracker.containers (tracker s') !! c' = Some x' →
     ExitTracker.execWaiter x' = Some ch →
     ∃ x, ExitTracker.containers (tracker s) !! c' = Some x ∧ ExitTracker.execWaiter x = Some ch) →
  ExitTracker.wf (tracker s') →
  ExitTracker.running (tracker s') = ExitTracker.running (tracker s) →
  (∀ c', count_of c' (tracker s') = count_of c' (tracker s)) → inv c cid [] s'.
Proof.
  intros [Hsh Hlast Hcnt Hsm Hpub Hone Hst Hch Hwk Hwf] Hev Hso Hsc Hw He Hn Hcl Hihe Hcts Hwf' Hr Hct.
  assert (Hl : live [] s' = live [] s) by (unfold live; by rewrite Hr).
  assert (Hpb : published cid (events s') ↔ published cid (events s)).
  { rewrite He, published_snoc. split; [|tauto]. intros [?|Hx]; [done|]. destruct Hev.
    destruct ev; try done. by destruct Hx. }
  split; rewrite ?Hl, ?Hw, ?Hihe, ?Hpb, ?Hct, ?Hcl; try done.
  - eapply shape_same; [exact Hsh|done|done|by rewrite Hw|done].
  - rewrite He. by apply init_exit_last_snoc.
  - intros wt Hin. rewrite Hn. destruct (Hch _ Hin) as [Hlt' Hu]. split; [done|].
    intros Hwc c' x Hx Hex. destruct (Hcts _ _ _ Hx Hex) as (y & ? & ?). by eapply Hu.
Qed.

(** The steps of a successful start of an exec. *)
Lemma Start_exec_steps id execID pid s s' :
  execID ≠ "" → Start env id execID s = Return (Ok pid, s') →
  let sub := wrapu64 (ExitTracker.nextSubID (tracker s) + 1) in
  ∃ c0 s2 s3 a o ctr1 s7,
    ExitTracker.InitHasExited c0 (tracker s) = false ∧
    s2 = set_tracker (ExitTracker.detector_subscribe (tracker s)).2 s ∧
    container_Start env c0 execID s2 = Return ((Some a, None), s3) ∧
    objs s3 !! a = Some o ∧
    handleStarted env sub c0 (Some a)
      (set_events (events s3 ++ [TaskExecStarted (c_ID ctr1) execID (wrapu32 (p_Pid o))]) s3) =
      Return (tt, s7) ∧
    s' = set_tracker (ExitTracker.Cancel sub (tracker s7)) s7.
Proof.
  intros Hne H sub0. unfold Start in H.
  apply m_bind_Return in H as (gc & s1 & [= <- <-] & H).
  destruct (containers s !! id) as [c0|]; [|done].
  apply m_bind_Return in H as (t & s1 & [= <- <-] & H).
  apply m_bind_Return in H as (ctr & s1 & H1 & H).
  unfold load_ctr in H1. destruct (ctrs s !! c0) as [x|] eqn:Hc0; [|done]. simplify_eq.
  apply String.eqb_neq in Hne as Hb. rewrite Hb in H. simpl in H.
  destruct (ExitTracker.InitHasExited c0 (tracker s1)) eqn:Hie; [done|].
  apply m_bind_Return in H as (sub' & s2 & H2 & H).
  unfold preStart, track, ExitTracker.Subscribe, ExitTracker.detector_subscribe in H2. simplify_eq.
  set (s2 := set_tracker _ s1) in H.
  apply m_bind_Return in H as (pr & s3 & H3 & H).
  pose proof (container_Start_spec _ _ _ _ _ H3) as (Hso & Hsc & Ht & He & Hw & Hpr).
  destruct pr as [[a|] [e|]]; try done.
  1, 3: do 3 (apply m_bind_Return in H as ([] & ? & _ & H)); unfold m_ret in H; by simplify_eq.
  apply m_bind_Return in H as (o & s4 & H4 & H).
  unfold load in H4. destruct (objs s3 !! a) as [x|] eqn:Ha; [|done]. simplify_eq.
  apply m_bind_Return in H as (ctr1 & s5 & H5 & H).
  unfold load_ctr in H5. destruct (ctrs s4 !! c0) as [x|]; [|done]. simplify_eq.
  apply m_bind_Return in H as ([] & s6 & H6 & H). unfold send in H6.
  destruct (eventsClosed s5); [done|]. simplify_eq.
  apply m_bind_Return in H as ([] & s7 & H7 & H).
  apply m_bind_Return in H as ([] & s8 & H8 & H). unfold m_ret in H. simplify_eq.
  unfold cancel, track_, m_modify in H8. simplify_eq.
  exists c0, s2. eexists _, a, _, _, _. by split_and!.
Qed.

Lemma inv_Start c cid id execID pid s s' :
  inv c cid [] s → execID ≠ "" → Start env id execID s = Return (Ok pid, s') →
  n_exec c (regs (ExitTracker.running (tracker s))) < max_int64 →
  (∃ n pid', events s' = events s ++ [TaskExecStarted n execID pid']) →
  inv c cid [] s'.
Proof.
  intros Hinv Hne H Hlt (cn & pn & Hev). apply String.eqb_neq in Hne as Hb.
  apply Start_exec_steps in H as (c0 & s2 & s3 & a & o & ctr1 & s7 & Hie & -> & H3 & Ha & H7 & ->); [|done].
  set (s2 := set_tracker _ s) in H3.
  pose proof (container_Start_spec _ _ _ _ _ H3) as (Hso & Hsc & Ht & He & Hw & Hpr).
  (* the process is an exec *)
  destruct (Hpr a eq_refl) as (x0 & Hx0 & Hpa). unfold c_Process in Hpa. rewrite Hb in Hpa.
  destruct (c_processes x0 !! execID) as [a'|] eqn:Hpx; simplify_eq.
  destruct (sh_procs _ _ _ _ (inv_shape _ _ _ _ Hinv) _ _ _ _ Hx0 Hpx) as [ex Hex].
  assert (Hk : p_IsInit o = false).
  { specialize (Hso a). change (objs s2) with (objs s) in Hso. rewrite Hex, Ha in Hso. by destruct Hso. }
  unfold handleStarted in H7. apply m_bind_Return in H7 as (o' & s8 & H8 & H7).
  unfold load in H8. simpl in H8. rewrite Ha in H8. simplify_eq.
  apply m_bind_Return in H7 as (es & s9 & H9 & H7). unfold track in H9.
  destruct (ExitTracker.HandleStart _ _ _ _ _) as [es' t'] eqn:Hhs. simplify_eq.
  apply exits_published in H7 as Hlen.
  assert (es = []) as ->.
  { apply (f_equal length) in Hev. simpl in Hev. simpl in Hlen. rewrite Hlen in Hev.
    rewrite He in Hev. simpl in Hev. rewrite !length_app in Hev. simpl in Hev.
    destruct es; [done|]. simpl in Hev. lia. }
  simpl in H7. unfold m_ret in H7. simplify_eq.
  simpl in Hhs. rewrite Ht in Hhs. simpl in Hhs.
  assert (Hwf2 : ExitTracker.wf (tracker s2))
    by exact (wf_step _ _ (op_subscribe (tracker s)) (inv_wf _ _ _ _ Hinv)).
  apply handle_start_spec in Hhs as (Hn & Hcl & Hih & Hct & Hwf & Hcase); [|done].
  assert (Hwf' : ExitTracker.wf (ExitTracker.Cancel (wrapu64 (ExitTracker.nextSubID (tracker s) + 1)) t')).
  { exact (wf_step _ _ (op_remove t' _) (Hwf Hwf2)). }
  destruct Hcase as [[Hr Hc]|[Hr Hc]].
  - eapply (inv_quiet _ _ (TaskExecStarted cn execID pn) s); try done. intros [].
  - eapply (inv_started _ _ c0 _ (TaskExecStarted cn execID pn) s); try done.
    + exact Hk.
    + intros [].
    + unfold live. by rewrite app_nil_r.
    + simpl. eauto.
Qed.


(** An exec that exits before it is registered hides the exit of the
    container.  Let the container have a counter (an earlier exec ran and
    exited, so it is 0).  If the next exec exits before [HandleStart] registers
    it, its exit decrements a counter that was never incremented: the counter
    becomes -1, so when the init process exits, its exit is not published; a
    goroutine waits on a channel that is not closed. *)
Theorem early_exec_exit_hides_init_exit c x a ex sub ee e i s s1 s2 :
  ExitTracker.wf (tracker s) →
  ExitTracker.containers (tracker s) !! c = Some x → ExitTracker.runningExecs x = 0 →
  objs s !! a = Some (PExec ex) →
  (ExitTracker.sub_complete sub (Proc.e_pid ex) (tracker s)).1 = [ee] →
  handleStarted env sub c (Some a) s = Return (tt, s1) →
  handleInitExit env e c i s1 = Return (tt, s2) →
  count_of c (tracker s1) = -1 ∧ events s2 = events s1 ∧
  ∃ wt, waiters s2 = waiters s1 ++ [wt] ∧ wt_container wt = c ∧
    wt_chan wt ∉ ExitTracker.closedChans (tracker s2).
Proof.
  intros Hwf Hx H0 Ha Hee H1 H2. unfold handleStarted in H1.
  apply m_bind_Return in H1 as (o & s' & Hl & H1). unfold load in Hl. rewrite Ha in Hl. simplify_eq.
  apply m_bind_Return in H1 as (es & s3 & Ht & H1). unfold track, ExitTracker.HandleStart in Ht.
  cbn [p_Pid] in Ht. destruct (ExitTracker.sub_complete sub (Proc.e_pid ex) (tracker s')) as [es' t'] eqn:Esub.
  simpl in Hee. subst es'.
  assert (Hor : ∀ b, (b || (0 <? Z.of_nat (length [ee])))%bool = true) by (by intros []).
  rewrite Hor in Ht. simplify_eq. simpl in H1.
  apply m_bind_Return in H1 as ([] & s4 & H1 & H4). unfold m_ret in H4. simplify_eq.
  apply handleProcessExit_spec in H1 as (o & ctr & at_ & Ho & _ & _ & _ & _ & _ & _ & Htr).
  simpl in Ho, Htr. rewrite Ha in Ho. simplify_eq. simpl in Htr.
  unfold ExitTracker.sub_complete in Esub. injection Esub as _ Et.
  assert (Hx' : ExitTracker.containers t' !! c = Some x) by (by rewrite <- Et).
  assert (Hwf1 : ExitTracker.wf (tracker s1)).
  { rewrite Htr. apply wf_notify. rewrite <- Et. exact (wf_step _ _ (op_remove _ sub) Hwf). }
  assert (Hc : count_of c (tracker s1) = -1).
  { rewrite Htr. unfold count_of, ExitTracker.NotifyExecExit, ExitTracker.notifyExecExit.
    rewrite Hx', H0. change (0 <? 0 -i 1) with false. cbv beta iota zeta.
    destruct (ExitTracker.execWaiter x); simpl; by rewrite lookup_insert_eq. }
  split; [done|]. unfold handleInitExit in H2.
  apply m_bind_Return in H2 as (ctr2 & s5 & H5 & H2).
  unfold load_ctr in H5. destruct (ctrs s1 !! c); [|done]. simplify_eq.
  apply m_bind_Return in H2 as (o2 & s6 & H6 & H2).
  unfold load in H6. destruct (objs s5 !! i); [|done]. simplify_eq.
  apply m_bind_Return in H2 as (w & s7 & [= <- <-] & H2).
  apply m_bind_Return in H2 as ([] & s8 & H8 & H2).
  assert (∃ w', s8 = set_world w' s6) as [w' ->].
  { destruct (ShouldKillAllOnExit _); [|exists (world s6); unfold m_ret in H8; destruct s6; simplify_eq/=; done].
    destruct o2; [|done]. apply m_bind_Return in H8 as (r & s9 & H9 & [= <-]).
    unfold io in H9. case_match. simplify_eq. eauto. }
  apply m_bind_Return in H2 as (wait & s9 & H9 & H2). unfold track in H9.
  destruct (ExitTracker.ShouldDelayInitExit _ _) as [wt t2] eqn:Hd. simplify_eq.
  apply delay_spec in Hd. destruct wait as [ch|]; [|destruct Hd as [_ Hd]; simpl in Hd; lia].
  unfold m_modify in H2. simplify_eq/=. split; [done|]. eexists. split; [done|]. split; [done|].
  simpl. destruct Hd as (-> & _ & _ & -> & _). intros Hin.
  apply (ExitTracker.wf_closed _ Hwf1) in Hin. lia.
Qed.

End exit_order.

(** ** Witnesses

    One container [c1] whose init process has pid 10; its exec gets the pid
    77 from the runtime of [demo_env]. *)

Definition demo_tenv : GuestTask.TEnv nat :=
  let ok := λ w : nat, (@None error, w) in
  GuestTask.mkTEnv nat demo_env (λ _, ok) (λ _, ok) (λ _ w, (Ok [], w)) (λ _, None) (λ _, None)
    (λ _, ok) (λ _, ok) (λ _, ok) (λ _, ok) (λ _ _, Err (ErrNew "no spec")) (λ _ _, ok)
    (λ _ _, false) id.

Definition demo_init : Proc.Init :=
  Proc.mkInit "c1" Proc.StateRunning 0 0 10 OpenChan true true false "".
Definition demo_reg : ExitTracker.containerProcess :=
  ExitTracker.mkCP 2 (ExitTracker.mkProcess 1 true "c1").
Definition demo_tracker : ExitTracker.t :=
  ExitTracker.mk 0 ∅ ∅ ∅ {[10 := [demo_reg]]} 0%nat ∅.
Definition demo_container : GuestTask.Container :=
  GuestTask.mkContainer "c1" "/run/c1" false 1 {["e1" := 3]} ∅ false.

(** The world [1] makes the runtime of [demo_env] succeed. *)
Definition demo_state : GuestTask.st nat :=
  GuestTask.mkSt demo_tracker
    (<[1 := GuestTask.PInit demo_init]>
       {[3 := GuestTask.PExec (Proc.newExec "e1" false demo_init)]})
    {[2 := demo_container]} {["c1" := 2]} [] false [] false 4 1%nat.

Lemma demo_inv : inv 2 "c1" [] demo_state.
Proof.
  assert (Hl : live [] demo_state = [demo_reg]) by reflexivity.
  split; rewrite ?Hl; try done; try (vm_compute; discriminate).
  - split; simpl.
    + intros cp ->%list_elem_of_singleton. eexists. by split.
    + intros wt H. by apply elem_of_nil in H.
    + intros c' x [<- <-]%lookup_singleton_Some _. done.
    + intros a e [[<- [=]]|[_ [<- [= <-]]%lookup_singleton_Some]]%lookup_insert_Some. done.
    + intros c' x id a [<- <-]%lookup_singleton_Some. simpl.
      intros [<- <-]%lookup_singleton_Some. eexists. reflexivity.
  - intros l1 e l2 E. by destruct l1.
  - intros H. by apply Exists_nil in H.
  - intros [H|H]; [by apply Exists_nil in H|]. vm_compute in H. by destruct H.
  - intros wt H. by apply elem_of_nil in H.
  - split; simpl; try done. intros pid cps [_ <-]%lookup_singleton_Some. done.
Qed.

(** The state after a step of the service. *)
Definition after {A} (r : outcome (A * GuestTask.st nat)) : GuestTask.st nat :=
  match r with Return (_, s) => s | Panic _ => demo_state end.

(** Exec [e1] is started, the init process exits first, then the exec; the
    goroutine that waited publishes the init's exit last. *)
Definition demo_s1 := after (GuestTask.Start demo_tenv "c1" "e1" demo_state).
Definition demo_s2 := after (GuestTask.processExits demo_tenv (ExitTracker.mkExit 10 137) demo_s1).
Definition demo_s3 := after (GuestTask.processExits demo_tenv (ExitTracker.mkExit 77 0) demo_s2).
Definition demo_s4 := after (default (Panic "") (GuestTask.resume demo_tenv 0 demo_s3)).


(** The state in which a second exec [e1] exited (pid 77) before it is
    registered: subscription 1 has collected its exit, the counter is 0. *)
Definition early_state : GuestTask.st nat :=
  GuestTask.set_tracker
    (ExitTracker.mk 1 {[1]} {[1 := {[77 := [ExitTracker.mkExit 77 0]]}]}
       {[2 := ExitTracker.mkCES 0 None None]} {[10 := [demo_reg]]} 0%nat ∅)
    (after (GuestTask.p_Start demo_tenv 3 demo_state)).

Lemma early_exec_exit_hides_init_exit_witness :
  ∃ s1 s2,
    GuestTask.handleStarted demo_tenv 1 2 (Some 3) early_state = Return (tt, s1) ∧
    GuestTask.handleInitExit demo_tenv (ExitTracker.mkExit 10 137) 2 1 s1 = Return (tt, s2) ∧
    GuestTask.events s2 = GuestTask.events s1.
Proof.
  eexists _, _. split; [vm_compute; reflexivity|]. split; [vm_compute; reflexivity|].
  assert (Hwf : ExitTracker.wf (GuestTask.tracker early_state)).
  { split; simpl; try done.
    - intros c st ch [<- <-]%lookup_singleton_Some. done.
    - intros c1 c2 st1 st2 ch [<- <-]%lookup_singleton_Some [<- <-]%lookup_singleton_Some. done.
    - intros pid cps [_ <-]%lookup_singleton_Some. done. }
  eapply (early_exec_exit_hides_init_exit demo_tenv 2 (ExitTracker.mkCES 0 None None) 3 _ 1
    (ExitTracker.mkExit 77 0) (ExitTracker.mkExit 10 137) 1 early_state _ _ Hwf);
    vm_compute; reflexivity.
Defined.

(** An exec that is started twice exits twice.  The second [Start] is
    refused, but its error path registers the process again, so when the
    process exits its exit event is published twice and the counter of running
    execs ends below zero. *)
Theorem exec_started_twice_exits_twice :
  let s1 := after (GuestTask.Start demo_tenv "c1" "e1" demo_state) in
  let r2 := GuestTask.Start demo_tenv "c1" "e1" s1 in
  let s3 := after (GuestTask.processExits demo_tenv (ExitTracker.mkExit 77 0) (after r2)) in
  (∃ e s2, r2 = Return (Err e, s2)) ∧
  GuestTask.events s3 =
    [GuestTask.TaskExecStarted "c1" "e1" 77; GuestTask.TaskExit "c1" "e1" 77 0 5;
     GuestTask.TaskExit "c1" "e1" 77 0 5] ∧
  count_of 2 (GuestTask.tracker s3) = -1.
Proof.
  split; [eexists _, _; vm_compute; reflexivity|]. vm_compute. done.
Qed.

Lemma Exec_spec_witness :
  ∃ e s', GuestTask.Exec demo_tenv "c1" "e1" false demo_state = Return (Some e, s') ∧
    GuestTask.ctrs s' = GuestTask.ctrs demo_state ∧ errors_Is e ErrAlreadyExists = true.
Proof.
  eexists _, _. split; [vm_compute; reflexivity|].
  destruct (Exec_spec demo_tenv "c1" "e1" false 2 demo_container (Some _) demo_state _
              eq_refl eq_refl eq_refl) as (H1 & _ & _ & H2).
  split; [exact H1|]. apply H2. left. by eexists.
Defined.
