(* ===== verification/CpuHotplug.v ===== *)
(** * CPU hotplug controller

    Models internal/shim/cpuhotplug/controller.go: sampling of the guest's
    CPU usage, the scaling decision, hysteresis and cooldown, and the plugging
    and unplugging of vCPUs.  The VM ([vm.CPUHotplugger]), the callbacks into
    the guest, the statistics provider and the clock are the operations of the
    class [CPUOps] on a world [W]; [CPULaws] states what the controller relies
    on, in terms of the set of vCPUs the VM has.  Percentages are IEEE
    binary64 numbers. *)

From S2P Require Import Prelude.

Module CpuHotplug.

(** [vm.CPUHotplugger], [StatsProvider], [CPUOffliner], [CPUOnliner] and
    [time.Now]. *)
Class CPUOps (W : Type) := {
  QueryCPUs : W → result (list Z) * W;
  HotplugCPU : Z → W → option error * W;
  UnplugCPU : Z → W → option error * W;
  statsCPU : option (W → result (Z * Z) * W);
  offlineCPU : option (Z → W → option error * W);
  onlineCPU : option (Z → W → option error * W);
  now : W → Time * W }.

Record Config := mkConfig
  { MonitorInterval : Duration; ScaleUpCooldown : Duration; ScaleDownCooldown : Duration;
    ScaleUpThreshold : float64; ScaleDownThreshold : float64; ScaleUpThrottleLimit : float64;
    ScaleUpStability : Z; ScaleDownStability : Z; EnableScaleDown : bool }.

Definition DefaultConfig : Config :=
  mkConfig (5 * Second) (10 * Second) (30 * Second) (f64_of_Z 80) (f64_of_Z 50) (f64_of_Z 5)
    2 6 true.

Record Controller := mkController
  { bootCPUs : Z; maxCPUs : Z; currentCPUs : Z; config : Config;
    lastScaleUp : Time; lastScaleDown : Time;
    consecutiveHighUsage : Z; consecutiveLowUsage : Z;
    lastSampleTime : Time; lastUsageUsec : Z; lastThrottledUsec : Z;
    stopCh : chan; stoppedCh : chan }.

(** [NewController]: [None] is the no-op controller. *)
Definition NewController (boot max : Z) (cfg : Config) : option Controller :=
  if max <=? boot then None
  else Some (mkController boot max boot cfg 0 0 0 0 0 0 0 NilChan NilChan).

(** ** Start and Stop *)

Definition set_chans (stop stopped : chan) (c : Controller) : Controller :=
  mkController (bootCPUs c) (maxCPUs c) (currentCPUs c) (config c) (lastScaleUp c)
    (lastScaleDown c) (consecutiveHighUsage c) (consecutiveLowUsage c) (lastSampleTime c)
    (lastUsageUsec c) (lastThrottledUsec c) stop stopped.

Definition Start (c : Controller) : Controller :=
  match stopCh c with
  | NilChan => set_chans OpenChan OpenChan c
  | _ => c
  end.

(** [Stop] up to the wait for the monitor loop, which closes [stoppedCh] when
    it sees [stopCh] closed. *)
Definition Stop (c : Controller) : outcome Controller :=
  match stopCh c with
  | NilChan => Return c
  | ch => outcome_map (λ ch', set_chans ch' ClosedChan c) (close ch)
  end.

Section controller.
Context {W : Type} `{!CPUOps W}.

(** ** Sampling *)

Definition set_sample (t : Time) (usage throttled : Z) (c : Controller) : Controller :=
  mkController (bootCPUs c) (maxCPUs c) (currentCPUs c) (config c) (lastScaleUp c)
    (lastScaleDown c) (consecutiveHighUsage c) (consecutiveLowUsage c) t usage throttled
    (stopCh c) (stoppedCh c).

Definition f64_zero : float64 := f64_of_Z 0.

(** [if x < 0 { x = 0 }] on floats. *)
Definition f64_clamp (x : float64) : float64 := if f64_lt x f64_zero then f64_zero else x.

(** The result is an error, or [None] ("not ok"), or the two percentages. *)
Definition sampleCPU (c : Controller) (w : W) :
    result (option (float64 * float64)) * Controller * W :=
  match statsCPU with
  | None => (Ok None, c, w)
  | Some stats =>
      match stats w with
      | (Err e, w1) => (Err e, c, w1)
      | (Ok (usageUsec, throttledUsec), w1) =>
          let '(t, w2) := now w1 in
          let c' := set_sample t usageUsec throttledUsec c in
          if IsZero (lastSampleTime c) then (Ok None, c', w2)
          else
            let elapsed := time_Sub t (lastSampleTime c) in
            if elapsed <=? 0 then (Ok None, c', w2)
            else if (usageUsec <? lastUsageUsec c) || (throttledUsec <? lastThrottledUsec c)
            then (Ok None, c', w2)
            else
              let deltaUsage := wrapu64 (usageUsec - lastUsageUsec c) in
              let deltaThrottled := wrapu64 (throttledUsec - lastThrottledUsec c) in
              let elapsedUsec := f64_of_Z (Z.quot elapsed Microsecond) in
              if f64_le elapsedUsec f64_zero || (currentCPUs c <=? 0) then (Ok None, c', w2)
              else
                let usagePct :=
                  f64_mul (f64_div (f64_of_Z deltaUsage)
                             (f64_mul elapsedUsec (f64_of_Z (currentCPUs c)))) (f64_of_Z 100) in
                let throttledPct :=
                  f64_mul (f64_div (f64_of_Z deltaThrottled) elapsedUsec) (f64_of_Z 100) in
                (Ok (Some (f64_clamp usagePct, f64_clamp throttledPct)), c', w2)
      end
  end.

(** ** The decision *)

(** The decision on a sample. *)
Definition targetCPUs (usagePct throttledPct : float64) (c : Controller) : Z :=
  if f64_le (ScaleUpThrottleLimit (config c)) throttledPct then currentCPUs c
  else if f64_le (ScaleUpThreshold (config c)) usagePct && (currentCPUs c <? maxCPUs c)
  then currentCPUs c +i 1
  else if EnableScaleDown (config c) && (bootCPUs c <? currentCPUs c) && (1 <? currentCPUs c)
  then
    let projectedUsage :=
      f64_div (f64_mul usagePct (f64_of_Z (currentCPUs c))) (f64_of_Z (currentCPUs c -i 1)) in
    if f64_le projectedUsage (ScaleDownThreshold (config c)) then currentCPUs c -i 1
    else currentCPUs c
  else currentCPUs c.

Definition calculateTargetCPUs (c : Controller) (w : W) : Z * Controller * W :=
  let '(r, c1, w1) := sampleCPU c w in
  match r with
  | Err _ | Ok None => (currentCPUs c1, c1, w1)
  | Ok (Some (usagePct, throttledPct)) => (targetCPUs usagePct throttledPct c1, c1, w1)
  end.

Definition canScaleUp (c : Controller) (w : W) : bool * W :=
  if IsZero (lastScaleUp c) then (true, w)
  else let '(t, w1) := now w in (ScaleUpCooldown (config c) <=? time_Sub t (lastScaleUp c), w1).

Definition canScaleDown (c : Controller) (w : W) : bool * W :=
  if IsZero (lastScaleDown c) then (true, w)
  else let '(t, w1) := now w in (ScaleDownCooldown (config c) <=? time_Sub t (lastScaleDown c), w1).

(** ** Scaling *)

Definition set_counts (cur : Z) (up down : Time) (high low : Z) (c : Controller) : Controller :=
  mkController (bootCPUs c) (maxCPUs c) cur (config c) up down high low (lastSampleTime c)
    (lastUsageUsec c) (lastThrottledUsec c) (stopCh c) (stoppedCh c).

Definition call_opt (f : option (Z → W → option error * W)) (id : Z) (w : W) : W :=
  match f with None => w | Some g => (g id w).2 end.

(** The loop [for nextID := 0; added < cpusToAdd && nextID < maxCPUs; nextID++];
    the fuel is the number of identifiers left below [maxCPUs]. *)
Fixpoint add_loop (fuel : nat) (nextID cpusToAdd added : Z) (existing : gset Z) (w : W) :
    result Z * W :=
  match fuel with
  | O => (Ok added, w)
  | S fuel' =>
      if negb (added <? cpusToAdd) then (Ok added, w)
      else if bool_decide (nextID ∈ existing) then
        add_loop fuel' (nextID + 1) cpusToAdd added existing w
      else
        match HotplugCPU nextID w with
        | (Some e, w1) => (Err (ErrWrap "hotplug CPU" e), w1)
        | (None, w1) =>
            add_loop fuel' (nextID + 1) cpusToAdd (added + 1) ({[nextID]} ∪ existing)
              (call_opt onlineCPU nextID w1)
        end
  end.

Definition scaleUp (target : Z) (c : Controller) (w : W) : option error * Controller * W :=
  match QueryCPUs w with
  | (Err e, w1) => (Some (ErrWrap "query CPUs for scale-up" e), c, w1)
  | (Ok cpus, w1) =>
      match add_loop (Z.to_nat (maxCPUs c)) 0 (target -i currentCPUs c) 0 (list_to_set cpus) w1 with
      | (Err e, w2) => (Some e, c, w2)
      | (Ok added, w2) =>
          let '(t, w3) := now w2 in
          (None, set_counts (currentCPUs c +i added) t (lastScaleDown c) 0
                   (consecutiveLowUsage c) c, w3)
      end
  end.

Fixpoint remove_loop (ids : list Z) (cpusToRemove removed : Z) (w : W) : Z * W :=
  match ids with
  | [] => (removed, w)
  | cpuID :: ids' =>
      if cpusToRemove <=? removed then (removed, w)
      else
        match UnplugCPU cpuID (call_opt offlineCPU cpuID w) with
        | (Some _, w1) => remove_loop ids' cpusToRemove removed w1
        | (None, w1) => remove_loop ids' cpusToRemove (removed + 1) w1
        end
  end.

Definition scaleDown (target : Z) (c : Controller) (w : W) : option error * Controller * W :=
  match QueryCPUs w with
  | (Err e, w1) => (Some (ErrWrap "query CPUs for scale-down" e), c, w1)
  | (Ok cpus, w1) =>
      let removable := reverse (filter (λ id, 0 < id) cpus) in
      let '(removed, w2) := remove_loop removable (currentCPUs c -i target) 0 w1 in
      let '(t, w3) := now w2 in
      (None, set_counts (currentCPUs c -i removed) (lastScaleUp c) t
               (consecutiveHighUsage c) 0 c, w3)
  end.

(** ** One tick of the monitor loop *)

Definition checkAndAdjust (c : Controller) (w : W) : option error * Controller * W :=
  match QueryCPUs w with
  | (Err e, w1) => (Some (ErrWrap "query vCPUs" e), c, w1)
  | (Ok cpus, w1) =>
      let c0 := set_counts (Z.of_nat (length cpus)) (lastScaleUp c) (lastScaleDown c)
                  (consecutiveHighUsage c) (consecutiveLowUsage c) c in
      let '(target, c1, w2) := calculateTargetCPUs c0 w1 in
      if currentCPUs c1 <? target then
        let '(ok, w3) := canScaleUp c1 w2 in
        if negb ok then (None, c1, w3)
        else
          let c2 := set_counts (currentCPUs c1) (lastScaleUp c1) (lastScaleDown c1)
                      (consecutiveHighUsage c1 +i 1) 0 c1 in
          if consecutiveHighUsage c2 <? ScaleUpStability (config c2) then (None, c2, w3)
          else scaleUp target c2 w3
      else if (target <? currentCPUs c1) && EnableScaleDown (config c1) then
        let '(ok, w3) := canScaleDown c1 w2 in
        if negb ok then (None, c1, w3)
        else
          let c2 := set_counts (currentCPUs c1) (lastScaleUp c1) (lastScaleDown c1)
                      0 (consecutiveLowUsage c1 +i 1) c1 in
          if consecutiveLowUsage c2 <? ScaleDownStability (config c2) then (None, c2, w3)
          else
            let '(err, c3, w4) := scaleDown target c2 w3 in
            (option_map (ErrWrap "failed to scale down CPUs") err, c3, w4)
      else
        (None, set_counts (currentCPUs c1) (lastScaleUp c1) (lastScaleDown c1) 0 0 c1, w2)
  end.

(** The monitor loop: one [checkAndAdjust] per tick until it is stopped. *)
Fixpoint monitorLoop (ticks : nat) (c : Controller) (w : W) : Controller * W :=
  match ticks with
  | O => (c, w)
  | S n => let '(_, c', w') := checkAndAdjust c w in monitorLoop n c' w'
  end.

End controller.

(** ** What the controller relies on

    [cpus w] is the set of vCPUs of the VM in world [w], [limit] the number of
    vCPUs it has room for, and [clock w] the time.  Plugging a free identifier
    and unplugging a present one either succeed or change nothing, and nobody
    else plugs or unplugs.  QmpHotplug.v shows that the QMP client keeps this
    promise if QEMU keeps its own. *)
Definition quiet {W} (cpus : W → gset Z) (clock : W → Time) (w w' : W) : Prop :=
  cpus w' = cpus w ∧ clock w ≤ clock w'.

Class CPULaws (W : Type) `{!CPUOps W} (limit : Z) (cpus : W → gset Z) (clock : W → Time) := {
  law_query : ∀ w, quiet cpus clock w (QueryCPUs w).2;
  law_query_ok : ∀ w l, (QueryCPUs w).1 = Ok l → NoDup l ∧ list_to_set l = cpus w;
  law_plug : ∀ id w, 0 ≤ id < limit → id ∉ cpus w → clock w ≤ clock (HotplugCPU id w).2 ∧ cpus (HotplugCPU id w).2 =
    match (HotplugCPU id w).1 with None => {[id]} ∪ cpus w | Some _ => cpus w end;
  law_unplug : ∀ id w, id ∈ cpus w → clock w ≤ clock (UnplugCPU id w).2 ∧ cpus (UnplugCPU id w).2 =
    match (UnplugCPU id w).1 with None => cpus w ∖ {[id]} | Some _ => cpus w end;
  law_stats : ∀ f w, statsCPU = Some f → quiet cpus clock w (f w).2;
  law_offline : ∀ f id w, offlineCPU = Some f → quiet cpus clock w (f id w).2;
  law_online : ∀ f id w, onlineCPU = Some f → quiet cpus clock w (f id w).2;
  law_now : ∀ w, quiet cpus clock w (now w).2 ∧ (now w).1 = clock w }.

End CpuHotplug.

(** ** Theorems *)

Section cpu_theorems.
Import CpuHotplug.
Context {W : Type} `{!CPUOps W} (limit : Z) (cpus : W → gset Z) (clock : W → Time).
Context `{!CPULaws W limit cpus clock}.
Implicit Types (c : Controller) (w : W).

#[local] Notation quiet := (quiet cpus clock).

#[local] Instance quiet_preorder : PreOrder quiet.
Proof.
  split; [by intros w|]. intros w1 w2 w3 [H1 H2] [H3 H4]. split; [congruence|lia].
Qed.

Lemma sample_quiet c w r c' w' :
  sampleCPU c w = (r, c', w') →
  quiet w w' ∧ c' = set_sample (lastSampleTime c') (lastUsageUsec c') (lastThrottledUsec c') c.
Proof.
  unfold sampleCPU. intros H. destruct statsCPU as [f|] eqn:Ef; [|simplify_eq; by destruct c'].
  pose proof (law_stats f w Ef) as Hs. destruct (f w) as [[[u th]|e] w1]; simpl in Hs;
    [|simplify_eq; by destruct c'].
  pose proof (law_now w1) as [Hn _]. destruct (now w1) as [t w2]. simpl in Hn.
  assert (quiet w w2) by (by trans w1).
  repeat (case_match; [by simplify_eq/=|]). by simplify_eq/=.
Qed.

Lemma target_quiet c w n c' w' :
  calculateTargetCPUs c w = (n, c', w') →
  quiet w w' ∧ c' = set_sample (lastSampleTime c') (lastUsageUsec c') (lastThrottledUsec c') c ∧
  (n = currentCPUs c ∨ ∃ u th, n = targetCPUs u th c).
Proof.
  unfold calculateTargetCPUs. intros H. destruct (sampleCPU c w) as [[r c1] w1] eqn:E.
  apply sample_quiet in E as [Hq Hc]. rewrite Hc in H.
  destruct r as [[[u th]|]|]; simplify_eq; split_and!; try done; eauto.
Qed.

(** The decision moves by at most one vCPU, inside the limits. *)
Lemma target_bounds u th c :
  0 ≤ currentCPUs c < 2 ^ 62 →
  let n := targetCPUs u th c in
  n = currentCPUs c ∨
  (n = currentCPUs c + 1 ∧ currentCPUs c < maxCPUs c) ∨
  (n = currentCPUs c - 1 ∧ bootCPUs c < currentCPUs c ∧ EnableScaleDown (config c) = true).
Proof.
  intros Hr. unfold targetCPUs. simpl. repeat case_match; bool_to_prop; auto;
    unwrap64; [right; left|right; right]; auto.
Qed.

Lemma canScaleUp_spec c w b w' :
  canScaleUp c w = (b, w') →
  quiet w w' ∧ (b = true → lastScaleUp c = 0 ∨
    ScaleUpCooldown (config c) ≤ time_Sub (clock w') (lastScaleUp c)).
Proof.
  unfold canScaleUp, IsZero. intros H. case_match eqn:E; simplify_eq.
  - split; [done|]. intros _. left. go_arith.
  - destruct (law_now w) as [Hq Ht]. destruct (now w) as [t w1]. simpl in *. simplify_eq.
    split; [done|]. intros Hb. right. bool_to_prop. destruct Hq as [_ Hq].
    unfold time_Sub in *. lia.
Qed.

Lemma canScaleDown_spec c w b w' :
  canScaleDown c w = (b, w') →
  quiet w w' ∧ (b = true → lastScaleDown c = 0 ∨
    ScaleDownCooldown (config c) ≤ time_Sub (clock w') (lastScaleDown c)).
Proof.
  unfold canScaleDown, IsZero. intros H. case_match eqn:E; simplify_eq.
  - split; [done|]. intros _. left. go_arith.
  - destruct (law_now w) as [Hq Ht]. destruct (now w) as [t w1]. simpl in *. simplify_eq.
    split; [done|]. intros Hb. right. bool_to_prop. destruct Hq as [_ Hq].
    unfold time_Sub in *. lia.
Qed.

(** Adding one vCPU plugs the lowest free identifier, once. *)
Lemma add_loop_one fuel i m w r w' :
  fuel = Z.to_nat (m - i) → 0 ≤ i → m ≤ limit →
  add_loop fuel i 1 0 (cpus w) w = (r, w') →
  (∀ j, 0 ≤ j < i → j ∈ cpus w) →
  clock w ≤ clock w' ∧
  ((cpus w' = cpus w ∧ (r = Ok 0 → ∀ j, 0 ≤ j < m → j ∈ cpus w)) ∨
   (r = Ok 1 ∧ ∃ id, cpus w' = {[id]} ∪ cpus w ∧ 0 ≤ id < m ∧ id ∉ cpus w ∧
      ∀ j, 0 ≤ j < id → j ∈ cpus w)).
Proof.
  revert i. induction fuel as [|fuel IH]; intros i Hf Hi Hm H Hlow; simpl in H.
  { simplify_eq. split; [lia|]. left. split; [done|]. intros _ j Hj. apply Hlow. lia. }
  case_bool_decide as Hin.
  - apply (IH (i + 1)); [lia|lia|done|done|]. intros j Hj.
    destruct (decide (j = i)) as [->|]; [done|]. apply Hlow. lia.
  - destruct (law_plug i w) as [Hc Hp]; [lia|done|]. destruct (HotplugCPU i w) as [[e|] w1]; simpl in *.
    { simplify_eq. split; [done|]. left. by split. }
    assert (Hq : quiet w1 (call_opt onlineCPU i w1)).
    { unfold call_opt. destruct onlineCPU eqn:Eo; [by apply law_online|done]. }
    destruct Hq as [Hq1 Hq2].
    assert (Hend : r = Ok 1 ∧ w' = call_opt onlineCPU i w1) by (destruct fuel; simpl in H; by simplify_eq).
    destruct Hend as [-> ->]. split; [lia|]. right. split; [done|]. exists i.
    split; [congruence|]. split; [lia|]. done.
Qed.

(** Removing one vCPU unplugs at most one identifier of the list. *)
Lemma remove_loop_one ids w r w' :
  remove_loop ids 1 0 w = (r, w') → (∀ id, id ∈ ids → id ∈ cpus w) →
  clock w ≤ clock w' ∧
  ((r = 0 ∧ cpus w' = cpus w) ∨
   (r = 1 ∧ ∃ id, id ∈ ids ∧ cpus w' = cpus w ∖ {[id]})).
Proof.
  revert w. induction ids as [|id ids IH]; intros w H Hin; simpl in H.
  { simplify_eq. split; [lia|]. by left. }
  assert (Hq : quiet w (call_opt offlineCPU id w)).
  { unfold call_opt. destruct offlineCPU eqn:Eo; [by apply law_offline|done]. }
  destruct Hq as [Hq1 Hq2].
  destruct (law_unplug id (call_opt offlineCPU id w)) as [Hc Hu].
  { rewrite Hq1. apply Hin. by left. }
  destruct (UnplugCPU _ _) as [[e|] w1]; simpl in *.
  - apply IH in H as [Hcl [[-> Hs]|(-> & id' & Hid & Hs)]].
    + split; [lia|]. left. split; [done|congruence].
    + split; [lia|]. right. split; [done|]. exists id'. split; [by right|congruence].
    + intros id' Hid'. rewrite Hu, Hq1. apply Hin. by right.
  - assert (Hend : r = 1 ∧ w' = w1) by (destruct ids; simpl in H; by simplify_eq).
    destruct Hend as [-> ->]. split; [lia|]. right. split; [done|]. exists id.
    split; [by left|congruence].
Qed.

(** What one tick may do to the VM. *)
Inductive tick_effect (c : Controller) (w w' : W) : Prop :=
  | tick_nothing : cpus w' = cpus w → tick_effect c w w'
  | tick_plug id :
      cpus w' = {[id]} ∪ cpus w → id ∉ cpus w → 0 ≤ id < maxCPUs c →
      (∀ j, 0 ≤ j < id → j ∈ cpus w) →
      Z.of_nat (size (cpus w)) < maxCPUs c →
      ScaleUpStability (config c) ≤ consecutiveHighUsage c +i 1 →
      lastScaleUp c = 0 ∨ ScaleUpCooldown (config c) ≤ time_Sub (clock w') (lastScaleUp c) →
      tick_effect c w w'
  | tick_unplug id :
      cpus w' = cpus w ∖ {[id]} → id ∈ cpus w → 0 < id →
      bootCPUs c < Z.of_nat (size (cpus w)) →
      EnableScaleDown (config c) = true →
      ScaleDownStability (config c) ≤ consecutiveLowUsage c +i 1 →
      lastScaleDown c = 0 ∨ ScaleDownCooldown (config c) ≤ time_Sub (clock w') (lastScaleDown c) →
      tick_effect c w w'.

Definition limits_same (c c' : Controller) : Prop :=
  bootCPUs c' = bootCPUs c ∧ maxCPUs c' = maxCPUs c ∧ config c' = config c.

Lemma time_Sub_mono t1 t2 u d : t1 ≤ t2 → d ≤ time_Sub t1 u → d ≤ time_Sub t2 u.
Proof. unfold time_Sub. lia. Qed.

Lemma scaleUp_effect c w err c' w' :
  scaleUp (currentCPUs c + 1) c w = (err, c', w') → 0 ≤ currentCPUs c < 2 ^ 62 →
  maxCPUs c ≤ limit →
  limits_same c c' ∧ clock w ≤ clock w' ∧
  (cpus w' = cpus w ∨
   ∃ id, cpus w' = {[id]} ∪ cpus w ∧ 0 ≤ id < maxCPUs c ∧ id ∉ cpus w ∧
     ∀ j, 0 ≤ j < id → j ∈ cpus w).
Proof.
  intros H Hr Hlimit. unfold scaleUp in H. destruct (law_query w) as [Hq1 Hq2].
  pose proof (law_query_ok w) as Hqo.
  destruct (QueryCPUs w) as [[l|e] w1]; simpl in *; cycle 1.
  { simplify_eq. split; [done|]. split; [done|]. by left. }
  destruct (Hqo l eq_refl) as [_ Hl]. rewrite Hl, <- Hq1 in H.
  replace (currentCPUs c + 1 -i currentCPUs c) with 1 in H by (unwrap64; lia).
  destruct (add_loop _ _ _ _ _ _) as [r w2] eqn:Ea.
  apply (add_loop_one _ 0 (maxCPUs c)) in Ea as [Hc He]; [|f_equal; lia|lia|done|intros; lia].
  rewrite Hq1 in He. destruct r as [n|e].
  - destruct (law_now w2) as [[Hn1 Hn2] _]. destruct (now w2) as [t w3]. simplify_eq/=.
    split; [done|]. split; [lia|]. rewrite Hn1.
    destruct He as [[He _]|(_ & id & ? & ? & ? & ?)]; eauto 10.
  - simplify_eq. split; [done|]. split; [lia|]. left. by destruct He as [[? _]|[? _]].
Qed.

Lemma scaleDown_effect c w err c' w' :
  scaleDown (currentCPUs c - 1) c w = (err, c', w') → 0 ≤ currentCPUs c < 2 ^ 62 →
  limits_same c c' ∧ clock w ≤ clock w' ∧
  (cpus w' = cpus w ∨ ∃ id, cpus w' = cpus w ∖ {[id]} ∧ id ∈ cpus w ∧ 0 < id).
Proof.
  intros H Hr. unfold scaleDown in H. destruct (law_query w) as [Hq1 Hq2].
  pose proof (law_query_ok w) as Hqo.
  destruct (QueryCPUs w) as [[l|e] w1]; simpl in *; cycle 1.
  { simplify_eq. split; [done|]. split; [done|]. by left. }
  destruct (Hqo l eq_refl) as [_ Hl].
  replace (currentCPUs c -i (currentCPUs c - 1)) with 1 in H by (unwrap64; lia).
  assert (Hin : ∀ id, id ∈ reverse (filter (λ id, 0 < id) l) → id ∈ cpus w1 ∧ 0 < id).
  { intros id. rewrite elem_of_reverse, list_elem_of_filter, Hq1, <- Hl, elem_of_list_to_set. tauto. }
  destruct (remove_loop _ _ _ _) as [r w2] eqn:Ea.
  apply remove_loop_one in Ea as [Hc He]; [|by intros id Hid; apply Hin].
  destruct (law_now w2) as [[Hn1 Hn2] _]. destruct (now w2) as [t w3]. simplify_eq/=.
  split; [done|]. split; [lia|]. rewrite Hn1. rewrite Hq1 in *.
  destruct He as [[_ ?]|(_ & id & Hid & ?)]; [by left|]. right. exists id.
  destruct (Hin id Hid). eauto.
Qed.

Lemma checkAndAdjust_ok c w err c' w' :
  checkAndAdjust c w = (err, c', w') → Z.of_nat (size (cpus w)) < 2 ^ 62 → maxCPUs c ≤ limit →
  limits_same c c' ∧ tick_effect c w w'.
Proof.
  intros H Hsz Hlimit. unfold checkAndAdjust in H. destruct (law_query w) as [Hq1 Hq2].
  pose proof (law_query_ok w) as Hqo.
  destruct (QueryCPUs w) as [[l|e] w1]; simpl in *; cycle 1.
  { simplify_eq. split; [done|]. by apply tick_nothing. }
  destruct (Hqo l eq_refl) as [Hnd Hl].
  assert (Hlen : Z.of_nat (length l) = Z.of_nat (size (cpus w))).
  { by rewrite <- Hl, size_list_to_set. }
  set (c0 := set_counts _ _ _ _ _ c) in H.
  destruct (calculateTargetCPUs c0 w1) as [[n c1] w2] eqn:Et.
  apply target_quiet in Et as ([Ht1 Ht2] & Hc1 & Hn). rewrite Hc1 in H.
  assert (Hb : n = currentCPUs c0 ∨ (n = currentCPUs c0 + 1 ∧ currentCPUs c0 < maxCPUs c0) ∨
    (n = currentCPUs c0 - 1 ∧ bootCPUs c0 < currentCPUs c0 ∧ EnableScaleDown (config c0) = true)).
  { destruct Hn as [->|(u & th & ->)]; [by left|]. apply target_bounds. subst c0. simpl. lia. }
  subst c0. simpl in *. destruct (Z.of_nat (length l) <? n) eqn:Eup.
  - destruct (canScaleUp _ w2) as [ok w3] eqn:Ec. apply canScaleUp_spec in Ec as [[Hs1 Hs2] Hok].
    simpl in Hok. destruct ok; simpl in H; [|simplify_eq; split; [done|apply tick_nothing; congruence]].
    destruct (_ <? ScaleUpStability _) eqn:Est; [simplify_eq; split; [done|apply tick_nothing; congruence]|].
    assert (n = Z.of_nat (length l) + 1) as -> by go_arith.
    apply scaleUp_effect in H as (Hlim & Hcl & He); [|simpl; lia|done]. simpl in *.
    split; [done|]. destruct He as [He|(id & He & Hid & Hni & Hlow)]; [apply tick_nothing; congruence|].
    rewrite Hs1, Ht1, Hq1 in *. apply (tick_plug _ _ _ id); try done; [lia|go_arith|].
    destruct (Hok eq_refl) as [?|?]; [by left|right]. eapply time_Sub_mono; [|done]. lia.
  - destruct ((n <? Z.of_nat (length l)) && EnableScaleDown (config c)) eqn:Edn; cycle 1.
    { simplify_eq. split; [done|]. apply tick_nothing. congruence. }
    destruct (canScaleDown _ w2) as [ok w3] eqn:Ec. apply canScaleDown_spec in Ec as [[Hs1 Hs2] Hok].
    simpl in Hok. destruct ok; simpl in H; [|simplify_eq; split; [done|apply tick_nothing; congruence]].
    destruct (_ <? ScaleDownStability _) eqn:Est; [simplify_eq; split; [done|apply tick_nothing; congruence]|].
    bool_to_prop. assert (n = Z.of_nat (length l) - 1) as -> by lia.
    destruct (scaleDown _ _ w3) as [[err' c3] w4] eqn:Esd. simplify_eq.
    apply scaleDown_effect in Esd as (Hlim & Hcl & He); [|simpl; lia]. simpl in *.
    split; [done|]. destruct He as [He|(id & He & Hid & Hpos)]; [apply tick_nothing; congruence|].
    rewrite Hs1, Ht1, Hq1 in *. apply (tick_unplug _ _ _ id); try done; [lia|].
    destruct (Hok eq_refl) as [?|?]; [by left|right]. eapply time_Sub_mono; [|done]. lia.
Qed.

(** One tick of the CPU controller adds or removes at most one vCPU.  It
    plugs only the lowest free identifier, below the maximum, and only after
    the required number of consecutive high readings and outside the scale-up
    cooldown; it unplugs only an identifier other than 0, only while the VM
    has more than its boot vCPUs, when scaling down is enabled, after the
    required number of low readings and outside the scale-down cooldown.  The
    limits and the configuration never change. *)
Theorem checkAndAdjust_effect c w err c' w' :
  checkAndAdjust c w = (err, c', w') → Z.of_nat (size (cpus w)) < 2 ^ 62 → maxCPUs c ≤ limit →
  limits_same c c' ∧ tick_effect c w w'.
Proof. apply checkAndAdjust_ok. Qed.

(** The VM is within the controller's limits: at least the boot vCPUs, at most
    the maximum, identifiers below the maximum, vCPU 0 present. *)
Definition within_limits (c : Controller) (w : W) : Prop :=
  bootCPUs c ≤ Z.of_nat (size (cpus w)) ≤ maxCPUs c ∧ maxCPUs c ≤ limit < 2 ^ 62 ∧
  0 ∈ cpus w ∧ ∀ id, id ∈ cpus w → 0 ≤ id < maxCPUs c.

Lemma tick_within c c' w w' :
  within_limits c w → limits_same c c' → tick_effect c w w' → within_limits c' w'.
Proof.
  intros (Hsz & Hmax & H0 & Hid) (Hb & Hm & _) He. unfold within_limits. rewrite Hb, Hm.
  destruct He as [->|id E Hni Hrange _ Hlt _ _|id E Hin Hpos Hlt _ _ _]; [done| |]; rewrite E.
  - rewrite size_union, size_singleton by set_solver. split; [lia|]. split; [done|].
    split; [set_solver|]. intros id'. rewrite elem_of_union, elem_of_singleton.
    intros [->|?]; [done|auto].
  - rewrite size_difference, size_singleton by set_solver.
    assert (size (cpus w) ≠ 0)%nat by (apply size_non_empty_iff; set_solver).
    split; [lia|]. split; [done|]. split; [set_solver by lia|]. set_solver.
Qed.

(** C16: the controller keeps the VM within its limits for ever: after any
    number of ticks, with any usage readings, failing calls and times, the VM
    has at least its boot vCPUs and at most the maximum, vCPU 0 was never
    unplugged, and no identifier at or above the maximum was plugged. *)
Theorem monitorLoop_within_limits n c w c' w' :
  within_limits c w → monitorLoop n c w = (c', w') → within_limits c' w' ∧ limits_same c c'.
Proof.
  revert c w. induction n as [|n IH]; intros c w Hlim H; simpl in H; [by simplify_eq|].
  destruct (checkAndAdjust c w) as [[err c1] w1] eqn:E.
  assert (Z.of_nat (size (cpus w)) < 2 ^ 62) by (destruct Hlim as (? & ? & _); lia).
  apply checkAndAdjust_ok in E as [Hs He]; [|done|by apply Hlim].
  destruct (IH c1 w1) as [? (? & ? & ?)]; [by eapply tick_within|done|].
  split; [done|]. destruct Hs as (? & ? & ?). split_and!; congruence.
Qed.

End cpu_theorems.

(** [Stop] before [Start] does nothing, [Start] after [Stop] does not restart,
    and a second [Stop] closes a closed channel. *)
Lemma Stop_lifecycle boot max cfg c :
  CpuHotplug.NewController boot max cfg = Some c →
  CpuHotplug.Stop c = Return c ∧
  ∃ c', CpuHotplug.Stop (CpuHotplug.Start c) = Return c' ∧ CpuHotplug.Start c' = c' ∧
    CpuHotplug.Stop c' = Panic "close of closed channel".
Proof.
  unfold CpuHotplug.NewController. case_match; [done|]. intros [= <-]. eauto.
Qed.

(** ** Witnesses: a VM whose vCPUs are always busy *)

Module CpuDemo.

(** The vCPUs and the time; every reading of the clock takes 20 seconds, and
    the guest uses all the CPU time there is. *)
Definition world : Type := gset Z * Z.

#[global] Instance ops : CpuHotplug.CPUOps world := {
  CpuHotplug.QueryCPUs := λ w, (Ok (elements w.1), w);
  CpuHotplug.HotplugCPU := λ id w, (None, ({[id]} ∪ w.1, w.2));
  CpuHotplug.UnplugCPU := λ id w, (None, (w.1 ∖ {[id]}, w.2));
  CpuHotplug.statsCPU := Some (λ w, (Ok (w.2 / 100, 0), w));
  CpuHotplug.offlineCPU := None;
  CpuHotplug.onlineCPU := None;
  CpuHotplug.now := λ w, (w.2, (w.1, w.2 + 20 * Second)) }.

#[global] Instance laws : CpuHotplug.CPULaws world 3 fst snd.
Proof.
  split; try done.
  - intros w l. simpl. intros [= <-]. split; [apply NoDup_elements|apply list_to_set_elements_L].
  - intros f w. simpl. intros [= <-]. done.
  - intros w. unfold CpuHotplug.quiet. simpl. unfold Second. repeat split; lia.
Qed.

Definition c0 : CpuHotplug.Controller :=
  CpuHotplug.mkController 1 3 1 CpuHotplug.DefaultConfig 0 0 0 0 0 0 0 OpenChan OpenChan.
Definition w0 : world := ({[0]}, Second).

End CpuDemo.

Lemma monitorLoop_within_limits_witness :
  let r := CpuHotplug.monitorLoop 5 CpuDemo.c0 CpuDemo.w0 in
  r.2.1 = {[0; 1; 2]} ∧ within_limits 3 fst r.1 r.2.
Proof.
  split; [vm_compute; reflexivity|].
  apply (monitorLoop_within_limits (W:=CpuDemo.world) 3 fst snd 5 CpuDemo.c0 CpuDemo.w0 _ _);
    [|apply surjective_pairing].
  split; [vm_compute; by split|]. split; [vm_compute; by split|].
  split; [by apply elem_of_singleton|].
  intros id Hid. change (id ∈ ({[0]} : gset Z)) in Hid. apply elem_of_singleton in Hid as ->.
  vm_compute. by split.
Defined.

Lemma checkAndAdjust_effect_witness :
  let r := CpuHotplug.monitorLoop 2 CpuDemo.c0 CpuDemo.w0 in
  let r' := CpuHotplug.checkAndAdjust r.1 r.2 in
  r'.2.1 = {[0; 1]} ∧ tick_effect fst snd r.1 r.2 r'.2.
Proof.
  split; [vm_compute; reflexivity|].
  eapply (checkAndAdjust_effect (W:=CpuDemo.world) 3 fst snd _ _ _ (CpuHotplug.checkAndAdjust _ _).1.2);
    [|vm_compute; reflexivity|vm_compute; discriminate].
  rewrite <- surjective_pairing. apply surjective_pairing.
Defined.
