(* ===== verification/MemHotplug.v ===== *)
(** * Memory hotplug controller

    Models internal/shim/memhotplug/controller.go.  The VM (QMP), the guest's
    online and offline calls, the statistics and the clock are the operations
    of the class [MemOps] on a world [W]; [MemLaws] relates them to the
    DIMMs of the VM, a map from slots to sizes (QmpHotplug.v derives these laws
    for the QMP client). *)

From S2P Require Import Prelude.

Module MemHotplug.

Class MemOps (W : Type) := {
  HotplugMemory : Z → Z → W → option error * W;
  UnplugMemory : Z → W → option error * W;
  QueryMemorySizeSummary : W → result (Z * Z) * W;
  statsMemory : W → result Z * W;
  offlineMemory : Z → W → option error * W;
  onlineMemory : Z → W → option error * W;
  now : W → Time * W }.

Record Config := mkConfig
  { MonitorInterval : Duration; ScaleUpCooldown : Duration; ScaleDownCooldown : Duration;
    ScaleUpThreshold : float64; ScaleDownThreshold : float64; OOMSafetyMarginMB : Z;
    IncrementSize : Z; ScaleUpStability : Z; ScaleDownStability : Z; EnableScaleDown : bool;
    MaxSlots : Z }.

Definition defaultMemorySlots : Z := 8.

Definition DefaultConfig : Config :=
  mkConfig (10 * Second) (30 * Second) (60 * Second) (f64_of_Z 85) (f64_of_Z 60) 128
    (128 * 1024 * 1024) 3 6 false defaultMemorySlots.

Record Controller := mkController
  { bootMemory : Z; maxMemory : Z; currentMemory : Z; usedSlots : gset Z; config : Config;
    lastScaleUp : Time; lastScaleDown : Time;
    consecutiveHighUsage : Z; consecutiveLowUsage : Z;
    lastSampleTime : Time; lastMemoryUsage : Z;
    started : bool; stopCh : chan; stoppedCh : chan }.

Definition with_slots (n : Z) (cfg : Config) : Config :=
  mkConfig (MonitorInterval cfg) (ScaleUpCooldown cfg) (ScaleDownCooldown cfg)
    (ScaleUpThreshold cfg) (ScaleDownThreshold cfg) (OOMSafetyMarginMB cfg) (IncrementSize cfg)
    (ScaleUpStability cfg) (ScaleDownStability cfg) (EnableScaleDown cfg) n.

(** [NewController]: [None] is the no-op controller. *)
Definition NewController (boot max : Z) (cfg : Config) : option Controller :=
  if max <=? boot then None
  else
    let cfg' := if MaxSlots cfg <? 1 then with_slots defaultMemorySlots cfg else cfg in
    Some (mkController boot max boot ∅ cfg' 0 0 0 0 0 0 false OpenChan OpenChan).

(** ** Start and Stop *)

Definition set_run (st : bool) (stop stopped : chan) (c : Controller) : Controller :=
  mkController (bootMemory c) (maxMemory c) (currentMemory c) (usedSlots c) (config c)
    (lastScaleUp c) (lastScaleDown c) (consecutiveHighUsage c) (consecutiveLowUsage c)
    (lastSampleTime c) (lastMemoryUsage c) st stop stopped.

Definition Start (c : Controller) : Controller :=
  if started c then c else set_run true (stopCh c) (stoppedCh c) c.

(** [Stop] closes [stopCh] and waits for [stoppedCh], which only the monitor
    goroutine closes; [None] is a call that never returns. *)
Definition Stop (c : Controller) : option Controller :=
  match stopCh c with
  | ClosedChan => Some c
  | _ => if started c then Some (set_run true ClosedChan ClosedChan c) else None
  end.

Section controller.
Context {W : Type} `{!MemOps W}.

Definition set_state (cur : Z) (slots : gset Z) (up down : Time) (high low : Z) (st : Time)
    (usage : Z) (c : Controller) : Controller :=
  mkController (bootMemory c) (maxMemory c) cur slots (config c) up down high low st usage
    (started c) (stopCh c) (stoppedCh c).

Definition set_current (cur : Z) (c : Controller) : Controller :=
  set_state cur (usedSlots c) (lastScaleUp c) (lastScaleDown c) (consecutiveHighUsage c)
    (consecutiveLowUsage c) (lastSampleTime c) (lastMemoryUsage c) c.
Definition set_slots (slots : gset Z) (c : Controller) : Controller :=
  set_state (currentMemory c) slots (lastScaleUp c) (lastScaleDown c) (consecutiveHighUsage c)
    (consecutiveLowUsage c) (lastSampleTime c) (lastMemoryUsage c) c.
Definition set_usage (high low : Z) (c : Controller) : Controller :=
  set_state (currentMemory c) (usedSlots c) (lastScaleUp c) (lastScaleDown c) high low
    (lastSampleTime c) (lastMemoryUsage c) c.
Definition set_sample (t : Time) (usage : Z) (c : Controller) : Controller :=
  set_state (currentMemory c) (usedSlots c) (lastScaleUp c) (lastScaleDown c)
    (consecutiveHighUsage c) (consecutiveLowUsage c) t usage c.

Definition sampleMemory (c : Controller) (w : W) : result (option float64) * Controller * W :=
  match statsMemory w with
  | (Err e, w1) => (Err (ErrWrap "failed to get memory stats" e), c, w1)
  | (Ok usageBytes, w1) =>
      let '(t, w2) := now w1 in
      let c' := set_sample t usageBytes c in
      if IsZero (lastSampleTime c) then (Ok None, c', w2)
      else
        let usagePct := f64_mul (f64_div (f64_of_Z usageBytes) (f64_of_Z (currentMemory c)))
                          (f64_of_Z 100) in
        (Ok (Some usagePct), c', w2)
  end.

Definition usedMemory (usagePct : float64) (c : Controller) : Z :=
  f64_to_int64 (f64_div (f64_mul (f64_of_Z (currentMemory c)) usagePct) (f64_of_Z 100)).

Definition safetyMargin (c : Controller) : Z := OOMSafetyMarginMB (config c) *i 1024 *i 1024.

Definition sinceLt (t0 : Time) (d : Duration) (w : W) : bool * W :=
  let '(t, w1) := now w in (time_Sub t t0 <? d, w1).

Definition calculateTargetMemory (c0 : Controller) (w0 : W) : result Z * Controller * W :=
  let '(r, c, w) := sampleMemory c0 w0 in
  match r with
  | Err e => (Err e, c, w)
  | Ok None => (Ok (currentMemory c), c, w)
  | Ok (Some usagePct) =>
      let used := usedMemory usagePct c in
      let freeMemory := currentMemory c -i used in
      if f64_le (ScaleUpThreshold (config c)) usagePct && (freeMemory <? safetyMargin c) then
        let '(cooling, w1) := sinceLt (lastScaleUp c) (ScaleUpCooldown (config c)) w in
        if cooling then (Ok (currentMemory c), c, w1)
        else
          let c1 := set_usage (consecutiveHighUsage c +i 1) 0 c in
          if ScaleUpStability (config c) <=? consecutiveHighUsage c1 then
            let sum := currentMemory c +i IncrementSize (config c) in
            let newMemory := if maxMemory c <? sum then maxMemory c else sum in
            if currentMemory c <? newMemory then (Ok newMemory, c1, w1)
            else (Ok (currentMemory c), c1, w1)
          else (Ok (currentMemory c), c1, w1)
      else if f64_lt usagePct (ScaleDownThreshold (config c)) then
        let '(cooling, w1) := sinceLt (lastScaleDown c) (ScaleDownCooldown (config c)) w in
        if cooling then (Ok (currentMemory c), c, w1)
        else
          let c1 := set_usage 0 (consecutiveLowUsage c +i 1) c in
          if ScaleDownStability (config c) <=? consecutiveLowUsage c1 then
            let diff := currentMemory c -i IncrementSize (config c) in
            let newMemory := if diff <? bootMemory c then bootMemory c else diff in
            let projectedFree := newMemory -i used in
            if (safetyMargin c <=? projectedFree) && (newMemory <? currentMemory c)
            then (Ok newMemory, c1, w1)
            else (Ok (currentMemory c), c1, w1)
          else (Ok (currentMemory c), c1, w1)
      else (Ok (currentMemory c), set_usage 0 0 c, w)
  end.

(** ** Slots *)

Fixpoint free_from (fuel : nat) (i : Z) (used : gset Z) : Z :=
  match fuel with
  | O => -1
  | S fuel' => if bool_decide (i ∈ used) then free_from fuel' (i + 1) used else i
  end.

Definition findFreeSlot (c : Controller) : Z :=
  free_from (Z.to_nat (MaxSlots (config c))) 0 (usedSlots c).

(** [fuel] is [i + 1]. *)
Fixpoint used_from (fuel : nat) (used : gset Z) : Z :=
  match fuel with
  | O => -1
  | S i => if bool_decide (Z.of_nat i ∈ used) then Z.of_nat i else used_from i used
  end.

Definition findUsedSlot (c : Controller) : Z :=
  used_from (Z.to_nat (MaxSlots (config c))) (usedSlots c).

(** ** Scaling *)

Definition scaleUp (target : Z) (c : Controller) (w : W) : option error * Controller * W :=
  let amountToAdd := target -i currentMemory c in
  if amountToAdd <=? 0 then (None, c, w)
  else
    let slotID := findFreeSlot c in
    if slotID <? 0 then (Some (ErrNew "no free memory slots available"), c, w)
    else
      match HotplugMemory slotID amountToAdd w with
      | (Some e, w1) => (Some (ErrWrap "failed to hotplug memory" e), c, w1)
      | (None, w1) =>
          let c1 := set_slots ({[slotID]} ∪ usedSlots c) c in
          match onlineMemory slotID w1 with
          | (Some e, w2) =>
              let w3 := (UnplugMemory slotID w2).2 in
              (Some (ErrWrap "memory allocated but failed to online in guest" e),
               set_slots (usedSlots c1 ∖ {[slotID]}) c1, w3)
          | (None, w2) =>
              let '(t, w3) := now w2 in
              (None, set_state target (usedSlots c1) t (lastScaleDown c) 0
                       (consecutiveLowUsage c) (lastSampleTime c) (lastMemoryUsage c) c1, w3)
          end
      end.

Definition scaleDown (target : Z) (c : Controller) (w : W) : option error * Controller * W :=
  let amountToRemove := currentMemory c -i target in
  if amountToRemove <=? 0 then (None, c, w)
  else
    let slotID := findUsedSlot c in
    if slotID <? 0 then (Some (ErrNew "no used memory slots to remove"), c, w)
    else
      match offlineMemory slotID w with
      | (Some e, w1) => (Some (ErrWrap "failed to offline memory" e), c, w1)
      | (None, w1) =>
          match UnplugMemory slotID w1 with
          | (Some e, w2) =>
              (Some (ErrWrap "failed to unplug memory" e), c, (onlineMemory slotID w2).2)
          | (None, w2) =>
              let '(t, w3) := now w2 in
              (None, set_state target (usedSlots c ∖ {[slotID]}) (lastScaleUp c) t
                       (consecutiveHighUsage c) 0 (lastSampleTime c) (lastMemoryUsage c) c, w3)
          end
      end.

Definition checkAndAdjust (c : Controller) (w : W) : option error * Controller * W :=
  match QueryMemorySizeSummary w with
  | (Err e, w1) => (Some (ErrWrap "failed to query memory summary" e), c, w1)
  | (Ok (base, plugged), w1) =>
      let c0 := set_current (base +i plugged) c in
      match calculateTargetMemory c0 w1 with
      | (Err e, c1, w2) => (Some (ErrWrap "failed to calculate target memory" e), c1, w2)
      | (Ok target, c1, w2) =>
          if target =? currentMemory c1 then (None, c1, w2)
          else if currentMemory c1 <? target then scaleUp target c1 w2
          else if (target <? currentMemory c1) && EnableScaleDown (config c1)
          then scaleDown target c1 w2
          else (None, c1, w2)
      end
  end.

Fixpoint monitorLoop (ticks : nat) (c : Controller) (w : W) : Controller * W :=
  match ticks with
  | O => (c, w)
  | S n => let '(_, c', w') := checkAndAdjust c w in monitorLoop n c' w'
  end.

End controller.

(** ** What the controller relies on: the DIMMs of the VM *)

Definition dimm_sum (m : gmap Z Z) : Z := map_fold (λ _ v acc, v + acc) 0 m.

Class MemLaws (W : Type) `{!MemOps W} (base : Z) (dimms : W → gmap Z Z) := {
  law_query : ∀ w, dimms (QueryMemorySizeSummary w).2 = dimms w;
  law_query_ok : ∀ w b p, (QueryMemorySizeSummary w).1 = Ok (b, p) →
    b = base ∧ p = dimm_sum (dimms w);
  law_plug : ∀ slot size w, 0 < size → dimms (HotplugMemory slot size w).2 =
    match (HotplugMemory slot size w).1 with
    | None => <[slot := size]> (dimms w) | Some _ => dimms w
    end;
  law_plug_busy : ∀ slot size w, 0 < size → is_Some (dimms w !! slot) →
    is_Some (HotplugMemory slot size w).1;
  law_unplug : ∀ slot w, dimms (UnplugMemory slot w).2 =
    match (UnplugMemory slot w).1 with None => delete slot (dimms w) | Some _ => dimms w end;
  law_stats : ∀ w, dimms (statsMemory w).2 = dimms w;
  law_offline : ∀ slot w, dimms (offlineMemory slot w).2 = dimms w;
  law_online : ∀ slot w, dimms (onlineMemory slot w).2 = dimms w;
  law_now : ∀ w, dimms (now w).2 = dimms w }.

End MemHotplug.

(** ** Theorems *)

Section mem_theorems.
Import MemHotplug.
Context {W : Type} `{!MemOps W} (base : Z) (dimms : W → gmap Z Z).
Context `{!MemLaws W base dimms}.
Implicit Types (c : Controller) (w : W) (m : gmap Z Z).

(** ** The sum of the DIMMs *)

Lemma dimm_sum_insert m slot size :
  m !! slot = None → dimm_sum (<[slot := size]> m) = size + dimm_sum m.
Proof. intros H. unfold dimm_sum. rewrite map_fold_insert_L; [done|intros; lia|done]. Qed.

Lemma dimm_sum_delete m slot size :
  m !! slot = Some size → dimm_sum m = size + dimm_sum (delete slot m).
Proof. intros H. unfold dimm_sum. rewrite (map_fold_delete_L _ _ slot size); [done|intros; lia|done]. Qed.

Lemma dimm_sum_nonneg m : (∀ slot size, m !! slot = Some size → 0 < size) → 0 ≤ dimm_sum m.
Proof.
  induction m as [|slot size m Hn IH] using map_ind; intros H; [done|].
  rewrite dimm_sum_insert by done. pose proof (H slot size (lookup_insert_eq _ _ _)).
  assert (0 ≤ dimm_sum m); [|lia]. apply IH. intros s z Hs. apply (H s).
  rewrite lookup_insert_ne; [done|]. intros ->. congruence.
Qed.

(** ** Slots *)

Lemma free_from_spec fuel i used :
  0 ≤ i →
  (free_from fuel i used = -1 ∧ ∀ j, i ≤ j < i + Z.of_nat fuel → j ∈ used) ∨
  (i ≤ free_from fuel i used < i + Z.of_nat fuel ∧ free_from fuel i used ∉ used ∧
   ∀ j, i ≤ j < free_from fuel i used → j ∈ used).
Proof.
  revert i. induction fuel as [|fuel IH]; intros i Hi; simpl.
  { left. split; [done|]. lia. }
  case_bool_decide as Hin; [|right; split_and!; try done; intros; lia].
  destruct (IH (i + 1)) as [[-> Hall]|(Hr & Hni & Hall)]; [lia|left|right].
  - split; [done|]. intros j Hj. destruct (decide (j = i)) as [->|]; [done|]. apply Hall. lia.
  - split_and!; [lia|lia|done|]. intros j Hj.
    destruct (decide (j = i)) as [->|]; [done|]. apply Hall. lia.
Qed.

Lemma used_from_spec fuel used :
  used_from fuel used = -1 ∨
  (0 ≤ used_from fuel used < Z.of_nat fuel ∧ used_from fuel used ∈ used).
Proof.
  induction fuel as [|i IH]; simpl; [by left|]. case_bool_decide; [right; split; [lia|done]|].
  destruct IH as [->|[? ?]]; [by left|right]. split; [lia|done].
Qed.

(** ** The invariant *)

Record mem_inv (c : Controller) (w : W) : Prop := mk_mem_inv
  { mi_boot : bootMemory c = base;
    mi_range : 0 ≤ base ≤ maxMemory c ∧ maxMemory c < 2 ^ 62;
    mi_inc : 0 < IncrementSize (config c) < 2 ^ 62;
    mi_slots : ∀ slot, slot ∈ usedSlots c → is_Some (dimms w !! slot);
    mi_dimms : ∀ slot size, dimms w !! slot = Some size →
      0 ≤ slot < MaxSlots (config c) ∧ 0 < size ≤ IncrementSize (config c);
    mi_max : base + dimm_sum (dimms w) ≤ maxMemory c }.

Definition same_limits (c c' : Controller) : Prop :=
  bootMemory c' = bootMemory c ∧ maxMemory c' = maxMemory c ∧ config c' = config c.

Lemma mi_total c w : mem_inv c w → base ≤ base + dimm_sum (dimms w) ≤ maxMemory c.
Proof.
  intros H. pose proof (mi_max _ _ H). split; [|done].
  assert (0 ≤ dimm_sum (dimms w)); [|lia]. apply dimm_sum_nonneg. intros slot size Hs.
  apply (mi_dimms _ _ H) in Hs. lia.
Qed.

(** ** The decision *)

Inductive decision (c : Controller) (t : Z) : Prop :=
  | dec_keep : t = currentMemory c → decision c t
  | dec_up :
      currentMemory c < t ≤ maxMemory c → t - currentMemory c ≤ IncrementSize (config c) →
      ScaleUpStability (config c) ≤ consecutiveHighUsage c +i 1 → decision c t
  | dec_down usagePct :
      bootMemory c ≤ t < currentMemory c →
      (t = bootMemory c ∨ t = currentMemory c - IncrementSize (config c)) →
      currentMemory c - t ≤ IncrementSize (config c) →
      safetyMargin c ≤ t -i usedMemory usagePct c →
      ScaleDownStability (config c) ≤ consecutiveLowUsage c +i 1 → decision c t.

Lemma sample_spec c w r c' w' :
  sampleMemory c w = (r, c', w') →
  dimms w' = dimms w ∧ c' = set_sample (lastSampleTime c') (lastMemoryUsage c') c.
Proof.
  unfold sampleMemory. intros H. pose proof (law_stats w) as Hs.
  destruct (statsMemory w) as [[u|e] w1]; simpl in Hs; [|simplify_eq; by destruct c'].
  pose proof (law_now w1) as Hn. destruct (now w1) as [t w2]. simpl in Hn.
  case_match; simplify_eq/=; split; congruence.
Qed.

Lemma since_dimms t d w b w' : sinceLt t d w = (b, w') → dimms w' = dimms w.
Proof. unfold sinceLt. pose proof (law_now w). case_match. intros. by simplify_eq/=. Qed.

Lemma target_spec c w r c' w' :
  calculateTargetMemory c w = (r, c', w') →
  0 ≤ currentMemory c < 2 ^ 62 → 0 < IncrementSize (config c) < 2 ^ 62 →
  dimms w' = dimms w ∧ same_limits c c' ∧ usedSlots c' = usedSlots c ∧
  currentMemory c' = currentMemory c ∧ ∀ t, r = Ok t → decision c t.
Proof.
  unfold calculateTargetMemory. intros H Hc Hi.
  destruct (sampleMemory c w) as [[rs c1] w1] eqn:Es. apply sample_spec in Es as [Hd Hc1].
  rewrite Hc1 in H. destruct rs as [[u|]|e]; cycle 1.
  { simplify_eq/=. split_and!; try done. intros t [= <-]. by apply dec_keep. }
  { simplify_eq/=. by split_and!. }
  change (usedMemory u (set_sample (lastSampleTime c1) (lastMemoryUsage c1) c))
    with (usedMemory u c) in H.
  change (safetyMargin (set_sample (lastSampleTime c1) (lastMemoryUsage c1) c))
    with (safetyMargin c) in H. simpl in H.
  destruct (f64_le _ _ && _) eqn:Eup; [|destruct (f64_lt _ _) eqn:Edn].
  - destruct (sinceLt _ _ w1) as [b w2] eqn:Ec. apply since_dimms in Ec.
    destruct b; [simplify_eq/=; split_and!; try done; [congruence|]; intros t [= <-]; by apply dec_keep|].
    destruct (ScaleUpStability (config c) <=? _) eqn:Est;
      [|simplify_eq/=; split_and!; try done; [congruence|]; intros t [= <-]; by apply dec_keep].
    rewrite (wrap64_id (currentMemory c + IncrementSize (config c))) in H
      by (unfold in_int64, min_int64, max_int64; lia).
    destruct (maxMemory c <? _) eqn:Em, (currentMemory c <? _) eqn:El; simplify_eq/=;
      (split_and!; try done; [congruence|]); intros t [= <-]; bool_to_prop;
      first [by apply dec_keep|apply dec_up; try done; lia].
  - destruct (sinceLt _ _ w1) as [b w2] eqn:Ec. apply since_dimms in Ec.
    destruct b; [simplify_eq/=; split_and!; try done; [congruence|]; intros t [= <-]; by apply dec_keep|].
    destruct (ScaleDownStability (config c) <=? _) eqn:Est;
      [|simplify_eq/=; split_and!; try done; [congruence|]; intros t [= <-]; by apply dec_keep].
    rewrite (wrap64_id (currentMemory c - IncrementSize (config c))) in H
      by (unfold in_int64, min_int64, max_int64; lia).
    clear Eup Edn. destruct (_ - _ <? bootMemory c) eqn:Em; destruct (_ && _) eqn:El; simplify_eq/=;
      (split_and!; try done; [congruence|]); intros t [= <-]; bool_to_prop;
      first [by apply dec_keep|apply (dec_down _ _ u); first [assumption|lia|by left|by right]].
  - simplify_eq/=. split_and!; try done. intros t [= <-]. by apply dec_keep.
Qed.

(** ** The effect of one tick *)

Inductive mem_effect (c : Controller) (w w' : W) : Prop :=
  | mem_nothing : dimms w' = dimms w → mem_effect c w w'
  | mem_plug slot size :
      dimms w !! slot = None → dimms w' = <[slot := size]> (dimms w) →
      0 ≤ slot < MaxSlots (config c) → 0 < size ≤ IncrementSize (config c) →
      base + dimm_sum (dimms w) + size ≤ maxMemory c →
      ScaleUpStability (config c) ≤ consecutiveHighUsage c +i 1 → mem_effect c w w'
  | mem_unplug slot usagePct target :
      slot ∈ usedSlots c → dimms w' = delete slot (dimms w) →
      EnableScaleDown (config c) = true →
      bootMemory c ≤ target ≤ base + dimm_sum (dimms w') →
      safetyMargin c ≤ target -i
        usedMemory usagePct (set_current (base + dimm_sum (dimms w)) c) →
      ScaleDownStability (config c) ≤ consecutiveLowUsage c +i 1 → mem_effect c w w'.

Lemma mem_scaleUp_effect c w t err c' w' :
  mem_inv c w → currentMemory c = base + dimm_sum (dimms w) →
  currentMemory c < t ≤ maxMemory c → t - currentMemory c ≤ IncrementSize (config c) →
  scaleUp t c w = (err, c', w') →
  same_limits c c' ∧
  (∀ slot, slot ∈ usedSlots c' → is_Some (dimms w' !! slot)) ∧
  (dimms w' = dimms w ∨
   ∃ slot, dimms w !! slot = None ∧ dimms w' = <[slot := t - currentMemory c]> (dimms w) ∧
     0 ≤ slot < MaxSlots (config c)).
Proof.
  intros Hinv Hcur Ht Hinc H. unfold scaleUp in H.
  pose proof (mi_total _ _ Hinv) as Htot. pose proof (mi_range _ _ Hinv) as [Hb Hmx].
  rewrite (wrap64_id (t - currentMemory c)) in H by (unfold in_int64, min_int64, max_int64; lia).
  destruct (_ <=? 0) eqn:E0; [go_arith|]. set (slot := findFreeSlot c) in *.
  pose proof (mi_slots _ _ Hinv) as Hsl.
  destruct (slot <? 0) eqn:Es; [simplify_eq; by split_and!; auto|].
  assert (Hslot : 0 ≤ slot < MaxSlots (config c)).
  { destruct (free_from_spec (Z.to_nat (MaxSlots (config c))) 0 (usedSlots c)) as [[E _]|[E _]];
      [lia|..]; fold (findFreeSlot c) in E; fold slot in E; go_arith. }
  bool_to_prop.
  pose proof (law_plug slot (t - currentMemory c) w E0) as Hp.
  pose proof (law_plug_busy slot (t - currentMemory c) w E0) as Hbusy.
  destruct (HotplugMemory _ _ w) as [[e|] w1]; simpl in *.
  { simplify_eq. split; [done|]. rewrite Hp. auto. }
  assert (Hfree : dimms w !! slot = None).
  { apply eq_None_not_Some. intros Hs. by destruct (Hbusy Hs). }
  assert (Hsl1 : ∀ s, s ∈ {[slot]} ∪ usedSlots c → is_Some (dimms w1 !! s)).
  { intros s Hs. rewrite Hp. destruct (decide (s = slot)) as [->|Hne]; [by rewrite lookup_insert_eq|].
    rewrite lookup_insert_ne by done. apply Hsl. set_solver. }
  pose proof (law_online slot w1) as Hon. destruct (onlineMemory slot w1) as [[e|] w2]; simpl in Hon.
  - pose proof (law_unplug slot w2) as Hu. destruct (UnplugMemory slot w2) as [[e'|] w3];
      simpl in *; simplify_eq; (split; [done|]); simpl; rewrite Hu, Hon.
    + split; [intros s Hs; apply Hsl1; set_solver|]. right. exists slot. by rewrite Hp.
    + rewrite Hp, delete_insert_id by done. split; [|by left].
      intros s Hs. apply Hsl. set_solver.
  - pose proof (law_now w2) as Hn. destruct (now w2) as [tm w3]. simplify_eq/=.
    rewrite Hn, Hon. split; [done|]. split; [done|]. right. by exists slot.
Qed.

Lemma mem_scaleDown_effect c w t err c' w' :
  mem_inv c w → currentMemory c = base + dimm_sum (dimms w) →
  bootMemory c ≤ t < currentMemory c →
  (t = bootMemory c ∨ t = currentMemory c - IncrementSize (config c)) →
  scaleDown t c w = (err, c', w') →
  same_limits c c' ∧
  (∀ slot, slot ∈ usedSlots c' → is_Some (dimms w' !! slot)) ∧
  (dimms w' = dimms w ∨
   ∃ slot, slot ∈ usedSlots c ∧ dimms w' = delete slot (dimms w) ∧
     t ≤ base + dimm_sum (dimms w')).
Proof.
  intros Hinv Hcur Ht Hopt H. unfold scaleDown in H.
  pose proof (mi_total _ _ Hinv) as Htot. pose proof (mi_range _ _ Hinv) as [Hb Hmx].
  pose proof (mi_boot _ _ Hinv) as Hboot.
  rewrite (wrap64_id (currentMemory c - t)) in H by (unfold in_int64, min_int64, max_int64; lia).
  destruct (_ <=? 0) eqn:E0; [go_arith|]. set (slot := findUsedSlot c) in *.
  pose proof (mi_slots _ _ Hinv) as Hsl.
  destruct (slot <? 0) eqn:Es; [simplify_eq; by split_and!; auto|].
  assert (Hslot : slot ∈ usedSlots c).
  { destruct (used_from_spec (Z.to_nat (MaxSlots (config c))) (usedSlots c)) as [E|[_ E]];
      fold (findUsedSlot c) in E; fold slot in E; [go_arith|done]. }
  pose proof (law_offline slot w) as Hoff. destruct (offlineMemory slot w) as [[e|] w1]; simpl in *.
  { simplify_eq. split; [done|]. rewrite Hoff. auto. }
  pose proof (law_unplug slot w1) as Hu. destruct (UnplugMemory slot w1) as [[e|] w2]; simpl in *.
  { simplify_eq. split; [done|]. rewrite (law_online slot w2), Hu, Hoff. auto. }
  pose proof (law_now w2) as Hn. destruct (now w2) as [tm w3]. simplify_eq/=.
  rewrite Hn, Hu, Hoff. split; [done|].
  destruct (Hsl slot Hslot) as [size Hsz]. pose proof (dimm_sum_delete _ _ _ Hsz) as Hsum.
  destruct (mi_dimms _ _ Hinv _ _ Hsz) as [_ Hsize].
  assert (0 ≤ dimm_sum (delete slot (dimms w))).
  { apply dimm_sum_nonneg. intros s z Hz. apply lookup_delete_Some in Hz as [_ Hz].
    apply (mi_dimms _ _ Hinv) in Hz. lia. }
  split.
  - intros s Hs. rewrite lookup_delete_ne by set_solver. apply Hsl. set_solver.
  - right. exists slot. split_and!; try done. lia.
Qed.

Lemma tick_ok c w err c' w' :
  mem_inv c w → checkAndAdjust c w = (err, c', w') →
  same_limits c c' ∧ mem_effect c w w' ∧
  (∀ slot, slot ∈ usedSlots c' → is_Some (dimms w' !! slot)).
Proof.
  intros Hinv H. unfold checkAndAdjust in H. pose proof (law_query w) as Hq.
  pose proof (law_query_ok w) as Hqo.
  destruct (QueryMemorySizeSummary w) as [[[b p]|e] w1]; simpl in *; cycle 1.
  { simplify_eq. split; [done|]. split; [by apply mem_nothing|]. rewrite Hq. apply (mi_slots _ _ Hinv). }
  destruct (Hqo b p eq_refl) as [-> ->]. pose proof (mi_total _ _ Hinv) as Htot.
  pose proof (mi_range _ _ Hinv) as [Hb Hmx]. pose proof (mi_inc _ _ Hinv) as Hinc.
  rewrite (wrap64_id (base + _)) in H by (unfold in_int64, min_int64, max_int64; lia).
  set (cur := base + dimm_sum (dimms w)) in *.
  destruct (calculateTargetMemory _ w1) as [[r c1] w2] eqn:Et.
  apply target_spec in Et as (Hd & (Hl1 & Hl2 & Hl3) & Hus & Hcu & Hdec); [|simpl; lia|done].
  simpl in *. rewrite Hq in Hd.
  assert (Hinv1 : mem_inv c1 w2).
  { destruct Hinv. split; rewrite ?Hl1, ?Hl2, ?Hl3, ?Hus, ?Hd; done. }
  assert (Hnoth : ∀ cx, same_limits c cx → usedSlots cx = usedSlots c →
    same_limits c cx ∧ mem_effect c w w2 ∧ ∀ slot, slot ∈ usedSlots cx → is_Some (dimms w2 !! slot)).
  { intros cx Hs Hu. split; [done|]. split; [by apply mem_nothing|]. rewrite Hu, Hd. apply (mi_slots _ _ Hinv). }
  destruct r as [t|e]; [|simplify_eq; by apply Hnoth].
  specialize (Hdec t eq_refl). rewrite Hcu in H.
  destruct (t =? cur) eqn:E1; [simplify_eq; by apply Hnoth|].
  destruct (cur <? t) eqn:E2; [|destruct (_ && _) eqn:E3; [|simplify_eq; by apply Hnoth]].
  - bool_to_prop. destruct Hdec as [?|Hr Hi Hst|u Hr]; simpl in *; [lia| |lia].
    apply mem_scaleUp_effect in H as ((HL1 & HL2 & HL3) & Hs & He); [|done|by rewrite Hcu, Hd|by rewrite Hcu, Hl2|by rewrite Hcu, Hl3].
    split; [split_and!; congruence|]. split; [|done]. rewrite Hd, Hcu, Hl3 in He.
    destruct He as [He|(slot & Hn & He & Hrg)]; [by apply mem_nothing|].
    eapply (mem_plug _ _ _ slot); try done; lia.
  - bool_to_prop. rewrite Hl3 in *. destruct Hdec as [?|Hr Hi Hst|u Hr Ho Hi Hm Hst]; simpl in *; [lia|lia|].
    apply mem_scaleDown_effect in H as ((HL1 & HL2 & HL3) & Hs & He);
      [|done|by rewrite Hcu, Hd|by rewrite Hcu, Hl1|by rewrite Hcu, Hl1, Hl3].
    split; [split_and!; congruence|]. split; [|done]. rewrite Hd, Hus in He.
    destruct He as [He|(slot & Hin & He & Hle)]; [by apply mem_nothing|].
    eapply (mem_unplug _ _ _ slot u t); try done; lia.
Qed.

Lemma mem_inv_tick c w err c' w' :
  mem_inv c w → checkAndAdjust c w = (err, c', w') → mem_inv c' w'.
Proof.
  intros Hinv H. destruct (tick_ok _ _ _ _ _ Hinv H) as ((H1 & H2 & H3) & He & Hs).
  destruct Hinv as [Hb Hr Hi Hsl Hd Hm]. split; rewrite ?H1, ?H2, ?H3; try done.
  - destruct He as [->|slot size Hn -> Hrg Hsz _ _|slot u t _ -> _ _ _ _]; [done| |].
    + intros s z Hz. apply lookup_insert_Some in Hz as [[<- <-]|[_ Hz]]; [done|by apply Hd].
    + intros s z Hz. apply lookup_delete_Some in Hz as [_ Hz]. by apply Hd.
  - destruct He as [->|slot size Hn -> Hrg Hsz Hle _|slot u t Hin E _ _ _ _]; [done| |].
    + rewrite dimm_sum_insert by done. lia.
    + destruct (Hsl slot Hin) as [size Hsz]. rewrite E. pose proof (dimm_sum_delete _ _ _ Hsz).
      destruct (Hd _ _ Hsz). lia.
Qed.

(** One tick of the memory controller plugs or unplugs at most one DIMM.
    A DIMM goes into a free slot, is at most one increment large, never takes
    the VM above its maximum, and is added only after enough consecutive high
    readings.  A DIMM is unplugged only when scaling down is enabled, after
    enough low readings, from a slot the controller filled; the memory left is
    at least the boot memory, and at least the target whose free memory was
    checked against the safety margin (although the unplugged DIMM need not
    have the size the controller computed). *)
Theorem mem_tick_effect c w err c' w' :
  mem_inv c w → checkAndAdjust c w = (err, c', w') → same_limits c c' ∧ mem_effect c w w'.
Proof. intros Hinv H. by destruct (tick_ok _ _ _ _ _ Hinv H) as (? & ? & _). Qed.

(** C35: the memory controller keeps its invariant for ever: after any number
    of ticks, whatever the readings and the failures of the calls, every slot
    it believes used holds a DIMM, the DIMMs are in the slots QEMU has, each at
    most one increment large, and the VM's memory lies between the boot and
    the maximum memory. *)
Theorem mem_monitorLoop_inv n c w c' w' :
  mem_inv c w → monitorLoop n c w = (c', w') →
  mem_inv c' w' ∧ bootMemory c' ≤ base + dimm_sum (dimms w') ≤ maxMemory c'.
Proof.
  revert c w. induction n as [|n IH]; intros c w Hinv H; simpl in H.
  { simplify_eq. split; [done|]. rewrite (mi_boot _ _ Hinv). by apply mi_total. }
  destruct (checkAndAdjust c w) as [[err c1] w1] eqn:E.
  eapply IH; [by eapply mem_inv_tick|done].
Qed.

(** A failed roll-back loses a slot.  When a DIMM was plugged but could
    not be brought online, and unplugging it fails as well, the controller
    forgets the slot although the VM still has the DIMM; from then on every
    scale-up of that controller picks the same slot and is refused by QEMU. *)
Theorem lost_slot_blocks_scale_up c w t err c1 w1 t' :
  mem_inv c w → 0 < t -i currentMemory c → 0 ≤ findFreeSlot c →
  let plugged := HotplugMemory (findFreeSlot c) (t -i currentMemory c) w in
  let onlined := onlineMemory (findFreeSlot c) plugged.2 in
  plugged.1 = None → is_Some onlined.1 → is_Some (UnplugMemory (findFreeSlot c) onlined.2).1 →
  scaleUp t c w = (err, c1, w1) →
  is_Some (dimms w1 !! findFreeSlot c) ∧ findFreeSlot c1 = findFreeSlot c ∧
  (0 < t' -i currentMemory c1 → is_Some (scaleUp t' c1 w1).1.1).
Proof.
  intros Hinv Ht Hfree plugged onlined Hp Hon Hun H. subst onlined plugged. unfold scaleUp in H.
  destruct (_ <=? 0) eqn:E0; [go_arith|]. clear E0. destruct (_ <? 0) eqn:E1; [go_arith|]. clear E1.
  set (slot := findFreeSlot c) in *.
  pose proof (law_plug slot (t -i currentMemory c) w Ht) as Hd.
  destruct (HotplugMemory _ _ w) as [oe w2]. simpl in *. subst oe.
  pose proof (law_online slot w2) as Ho.
  destruct (onlineMemory slot w2) as [[e|] w3]; simpl in *; [|by destruct Hon].
  pose proof (law_unplug slot w3) as Hu.
  destruct (UnplugMemory slot w3) as [[e'|] w4]; simpl in *; [|by destruct Hun]. simplify_eq.
  assert (Hni : slot ∉ usedSlots c).
  { destruct (free_from_spec (Z.to_nat (MaxSlots (config c))) 0 (usedSlots c) ltac:(lia))
      as [[E _]|(_ & E & _)]; fold (findFreeSlot c) in E; fold slot in E; [lia|done]. }
  assert (Hslots : ({[slot]} ∪ usedSlots c) ∖ {[slot]} = usedSlots c) by set_solver.
  assert (Hbusy : is_Some (dimms w1 !! slot)) by (rewrite Hu, Ho, Hd, lookup_insert_eq; eauto).
  rewrite Hslots. split; [done|]. split; [done|]. intros Ht'. unfold scaleUp.
  set (c1 := set_slots _ _) in *. change (currentMemory c1) with (currentMemory c) in *.
  destruct (t' -i currentMemory c <=? 0) eqn:E0; [go_arith|]. change (findFreeSlot c1) with slot.
  destruct (slot <? 0) eqn:E1; [go_arith|]. pose proof (law_plug_busy slot (t' -i currentMemory c) w1 Ht' Hbusy) as Hb.
  simpl in *. destruct (HotplugMemory slot _ w1) as [[e2|] w5]; simpl in *; [by eexists|by destruct Hb].
Qed.

End mem_theorems.

(** ** Witnesses *)

Module MemDemo.

(** The DIMMs and the time; [fails] says whether online and unplug fail.  The
    guest uses all the memory it has. *)
Record world := mkWorld { w_dimms : gmap Z Z; w_time : Z; fails : bool }.

Definition MiB : Z := 1024 * 1024.
Definition guest_err (w : world) : option error * world :=
  (if fails w then Some (ErrNew "guest refused") else None, w).
Definition total (w : world) : Z := 512 * MiB + MemHotplug.dimm_sum (w_dimms w).

#[global] Instance ops : MemHotplug.MemOps world := {
  MemHotplug.HotplugMemory := λ slot size w,
    match w_dimms w !! slot with
    | Some _ => (Some (ErrNew "slot busy"), w)
    | None => (None, mkWorld (<[slot := size]> (w_dimms w)) (w_time w) (fails w))
    end;
  MemHotplug.UnplugMemory := λ slot w,
    if fails w then (Some (ErrNew "unplug refused"), w)
    else (None, mkWorld (delete slot (w_dimms w)) (w_time w) (fails w));
  MemHotplug.QueryMemorySizeSummary := λ w,
    (Ok (512 * MiB, MemHotplug.dimm_sum (w_dimms w)), w);
  MemHotplug.statsMemory := λ w, (Ok (total w), w);
  MemHotplug.offlineMemory := λ _ w, guest_err w;
  MemHotplug.onlineMemory := λ _ w, guest_err w;
  MemHotplug.now := λ w, (w_time w, mkWorld (w_dimms w) (w_time w + 60 * Second) (fails w)) }.

#[global] Instance laws : MemHotplug.MemLaws world (512 * MiB) w_dimms.
Proof.
  split; try done.
  - intros w b p. simpl. by intros [= <- <-].
  - intros slot size w _. simpl. by destruct (w_dimms w !! slot).
  - intros slot size w _ [x Hx]. simpl. rewrite Hx. eauto.
  - intros slot w. simpl. by destruct (fails w).
Qed.

(** 10^20 ns after the zero instant: later than any cooldown. *)
Definition c0 : MemHotplug.Controller :=
  MemHotplug.mkController (512 * MiB) (700 * MiB) (512 * MiB) ∅ MemHotplug.DefaultConfig
    0 0 0 0 0 0 true OpenChan OpenChan.
Definition w0 (f : bool) : world := mkWorld ∅ (10 ^ 20) f.

Lemma inv0 f : mem_inv (512 * MiB) w_dimms c0 (w0 f).
Proof. split; done. Qed.

(** Two high readings were seen. *)
Definition c1 : MemHotplug.Controller :=
  MemHotplug.mkController (512 * MiB) (700 * MiB) (512 * MiB) ∅ MemHotplug.DefaultConfig
    0 0 2 0 (10 ^ 20 - 1) (512 * MiB) true OpenChan OpenChan.

Lemma inv1 f : mem_inv (512 * MiB) w_dimms c1 (w0 f).
Proof. split; done. Qed.

End MemDemo.

Lemma mem_monitorLoop_inv_witness :
  let r := MemHotplug.monitorLoop 12 MemDemo.c0 (MemDemo.w0 false) in
  MemDemo.w_dimms r.2 = {[0 := 128 * MemDemo.MiB; 1 := 60 * MemDemo.MiB]} ∧
  mem_inv (512 * MemDemo.MiB) MemDemo.w_dimms r.1 r.2.
Proof.
  split; [vm_compute; reflexivity|].
  apply (mem_monitorLoop_inv (512 * MemDemo.MiB) MemDemo.w_dimms 12 MemDemo.c0
           (MemDemo.w0 false) _ _ (MemDemo.inv0 false)).
  apply surjective_pairing.
Defined.

Lemma mem_tick_effect_witness :
  let r := MemHotplug.checkAndAdjust MemDemo.c1 (MemDemo.w0 false) in
  MemDemo.w_dimms r.2 = {[0 := 128 * MemDemo.MiB]} ∧
  mem_effect (512 * MemDemo.MiB) MemDemo.w_dimms MemDemo.c1 (MemDemo.w0 false) r.2.
Proof.
  split; [vm_compute; reflexivity|].
  eapply (mem_tick_effect (512 * MemDemo.MiB) MemDemo.w_dimms MemDemo.c1 (MemDemo.w0 false) _ _ _
           (MemDemo.inv1 false)).
  rewrite <- surjective_pairing. apply surjective_pairing.
Defined.

Lemma lost_slot_blocks_scale_up_witness :
  let r := MemHotplug.scaleUp (640 * MemDemo.MiB) MemDemo.c0 (MemDemo.w0 true) in
  MemDemo.w_dimms r.2 !! 0 = Some (128 * MemDemo.MiB) ∧ MemHotplug.findFreeSlot r.1.2 = 0.
Proof.
  split; [vm_compute; reflexivity|].
  eapply (lost_slot_blocks_scale_up (512 * MemDemo.MiB) MemDemo.w_dimms MemDemo.c0
    (MemDemo.w0 true) (640 * MemDemo.MiB) _ _ _ 0 (MemDemo.inv0 true));
    [vm_compute; reflexivity|vm_compute; discriminate|reflexivity|by eexists|by eexists|
     rewrite <- surjective_pairing; apply surjective_pairing].
Defined.
