(* ===== verification/QmpHotplug.v ===== *)
(** * The QMP client: commands, CPU and memory hotplug

    Models internal/host/vm/qemu/qmp_client.go (sending commands and decoding
    answers), qmp_cpu.go and qmp_memory.go.  QEMU is the operation [Run] of
    the class [QMP] (the monitor's answer to a command, or an error, which
    includes a timeout).  [QemuCPU] and [QemuMem] state what QEMU documents
    about its commands; from them the client's [HotplugCPU], [UnplugCPU],
    [HotplugMemory] and [UnplugMemory] are shown to keep the laws that the
    controllers of CpuHotplug.v and MemHotplug.v rely on. *)

From S2P Require Import Prelude GoStrings CpuHotplug MemHotplug.

Module Qmp.

(** ** Commands and answers *)

(** A value of type [any]: the Go types that occur; [VOther] is a list or an
    object. *)
Inductive value := VStr (s : string) | VInt (z : Z) | VFloat (f : float64) | VOther.

Record Command := mkCommand { Execute : string; Args : option (gmap string value) }.

Record CPUInfo := mkCPUInfo { CPUIndex : Z; cpu_QOMPath : string }.
Record HotpluggableCPU := mkSlot
  { Type_ : string; QOMPath : string; Props : option (gmap string value); VCPUsCount : Z }.
Record MemorySizeSummary := mkSummary { BaseMemory : Z; PluggedMemory : Z }.

(** The member [return] of an answer: absent, or what it decodes to. *)
Inductive reply :=
  | RNull
  | RCPUs (l : list CPUInfo)
  | RSlots (l : list HotpluggableCPU)
  | RSummary (m : MemorySizeSummary)
  | RObject.

(** [monitor.Run] and the decoding of its answer; an error is one of the
    monitor, an error answer of QEMU, a timeout or a cancelled context. *)
Class QMP (W : Type) := { Run : Command → W → result reply * W }.

(** The part of [qmpClient] that decides whether commands are sent. *)
Record qmpClient := mkClient { closed : bool }.

Section client.
Context {W : Type} `{!QMP W} (q : qmpClient).

Definition checkClosed : option error :=
  if closed q then Some (ErrNew "QMP client closed") else None.

Definition sendCommand (command : string) (args : option (gmap string value)) (w : W) :
    result reply * W :=
  match checkClosed with
  | Some e => (Err e, w)
  | None =>
      match Run (mkCommand command args) w with
      | (Err e, w1) => (Err (ErrWrap ("failed to send QMP command " +:+ command) e), w1)
      | (Ok r, w1) => (Ok r, w1)
      end
  end.

Definition execute (command : string) (args : option (gmap string value)) (w : W) :
    option error * W :=
  match sendCommand command args w with
  | (Err e, w1) => (Some e, w1)
  | (Ok _, w1) => (None, w1)
  end.

(** [qmpQuery]: the zero value when there is no [return]; [decode] is
    [json.Unmarshal] into the type of the query. *)
Definition qmpQuery {T} (zero : T) (decode : reply → option T) (command : string) (w : W) :
    result T * W :=
  match sendCommand command None w with
  | (Err e, w1) => (Err e, w1)
  | (Ok RNull, w1) => (Ok zero, w1)
  | (Ok r, w1) =>
      match decode r with
      | Some x => (Ok x, w1)
      | None => (Err (ErrNew ("failed to parse " +:+ command +:+ " response")), w1)
      end
  end.

Definition DeviceAdd (driver : string) (args : gmap string value) (w : W) : option error * W :=
  execute "device_add" (Some (<["driver" := VStr driver]> args)) w.

Definition DeviceDelete (deviceID : string) (w : W) : option error * W :=
  execute "device_del" (Some {["id" := VStr deviceID]}) w.

Definition ObjectAdd (qomType objID : string) (args : gmap string value) (w : W) :
    option error * W :=
  execute "object-add"
    (Some (args ∪ <["qom-type" := VStr qomType]> {["id" := VStr objID]})) w.

Definition ObjectDel (objID : string) (w : W) : option error * W :=
  execute "object-del" (Some {["id" := VStr objID]}) w.

Definition SendCtrlAltDelete (w : W) : option error * W :=
  execute "send-key" (Some {["keys" := VOther]}) w.
Definition Shutdown (w : W) : option error * W := execute "system_powerdown" None w.
Definition Quit (w : W) : option error * W := execute "quit" None w.

(** ** qmp_cpu.go *)

Definition QueryCPUs (w : W) : result (list CPUInfo) * W :=
  qmpQuery [] (λ r, match r with RCPUs l => Some l | _ => None end) "query-cpus-fast" w.

Definition QueryHotpluggableCPUs (w : W) : result (list HotpluggableCPU) * W :=
  qmpQuery [] (λ r, match r with RSlots l => Some l | _ => None end) "query-hotpluggable-cpus" w.

Definition intFromProp (v : option value) : option Z :=
  match v with
  | Some (VInt z) => Some z
  | Some (VFloat f) => Some (f64_to_int64 f)
  | _ => None
  end.

(** The loop of [matchHotpluggableCPU]. *)
Fixpoint match_loop (cpus : list HotpluggableCPU) (cpuID : Z) (fallback : option HotpluggableCPU) :
    option HotpluggableCPU :=
  match cpus with
  | [] => fallback
  | slot :: cpus' =>
      if negb (String.eqb (QOMPath slot) "") then match_loop cpus' cpuID fallback
      else
        match Props slot with
        | None => match_loop cpus' cpuID fallback
        | Some props =>
            if bool_decide (intFromProp (props !! "core-id") = Some cpuID) then Some slot
            else match_loop cpus' cpuID
                   (match fallback with None => Some slot | Some _ => fallback end)
        end
  end.

Definition matchHotpluggableCPU (cpus : list HotpluggableCPU) (cpuID : Z) :
    option HotpluggableCPU := match_loop cpus cpuID None.

Definition cpu_id (cpuID : Z) : string := "cpu" +:+ fmt_d cpuID.

Definition default_cpu_args (cpuID : Z) : gmap string value :=
  <["id" := VStr (cpu_id cpuID)]> (<["socket-id" := VInt 0]>
    (<["core-id" := VInt cpuID]> {["thread-id" := VInt 0]})).

(** The check after [device_add]. *)
Definition verify_cpu_count (beforeCount : Z) (w : W) : option error * W :=
  if 0 <=? beforeCount then
    match QueryCPUs w with
    | (Ok cpus, w1) =>
        (if Z.of_nat (length cpus) <=? beforeCount
         then Some (ErrNew "device_add did not increase CPU count") else None, w1)
    | (Err _, w1) => (None, w1)
    end
  else (None, w).

Definition plug_cpu (driver : string) (args : gmap string value) (beforeCount : Z) (w : W) :
    option error * W :=
  match DeviceAdd driver args w with
  | (Some e, w1) => (Some e, w1)
  | (None, w1) => verify_cpu_count beforeCount w1
  end.

Definition HotplugCPU (cpuID : Z) (w : W) : option error * W :=
  let '(r, w1) := QueryCPUs w in
  let beforeCount := match r with Ok cpus => Z.of_nat (length cpus) | Err _ => -1 end in
  let with_defaults w := plug_cpu "host-x86_64-cpu" (default_cpu_args cpuID) beforeCount w in
  match QueryHotpluggableCPUs w1 with
  | (Ok [], w2) => (Some (ErrNew "no hotpluggable CPU slots reported by QEMU"), w2)
  | (Ok cpus, w2) =>
      match matchHotpluggableCPU cpus cpuID with
      | Some slot =>
          plug_cpu (Type_ slot) (default ∅ (Props slot) ∪ {["id" := VStr (cpu_id cpuID)]})
            beforeCount w2
      | None => with_defaults w2
      end
  | (Err _, w2) => with_defaults w2
  end.

Definition UnplugCPU (cpuID : Z) (w : W) : option error * W := DeviceDelete (cpu_id cpuID) w.

(** ** qmp_memory.go *)

Definition QueryMemorySizeSummary (w : W) : result (option MemorySizeSummary) * W :=
  qmpQuery None (λ r, match r with RSummary m => Some (Some m) | _ => None end)
    "query-memory-size-summary" w.

Definition alignmentBytes : Z := 128 * 1024 * 1024.
Definition backend_id (slotID : Z) : string := "mem" +:+ fmt_d slotID.
Definition dimm_id (slotID : Z) : string := "dimm" +:+ fmt_d slotID.
Definition nil_deref : string := "invalid memory address or nil pointer dereference".

Definition total (m : MemorySizeSummary) : Z := BaseMemory m +i PluggedMemory m.

Definition HotplugMemory (slotID sizeBytes : Z) (w : W) : outcome (option error * W) :=
  if negb (Z.rem sizeBytes alignmentBytes =? 0) then
    Return (Some (ErrNew ("memory size must be 128MB aligned, got " +:+ fmt_d sizeBytes +:+ " bytes")), w)
  else
    let '(r, w1) := QueryMemorySizeSummary w in
    let before := match r with Ok b => b | Err _ => None end in
    match ObjectAdd "memory-backend-ram" (backend_id slotID) {["size" := VInt sizeBytes]} w1 with
    | (Some e, w2) => Return (Some (ErrWrap "failed to create memory backend" e), w2)
    | (None, w2) =>
        match DeviceAdd "pc-dimm"
                (<["id" := VStr (dimm_id slotID)]> {["memdev" := VStr (backend_id slotID)]}) w2 with
        | (Some e, w3) =>
            let '(_, w4) := ObjectDel (backend_id slotID) w3 in
            Return (Some (ErrWrap "failed to hotplug memory device" e), w4)
        | (None, w3) =>
            match before with
            | None => Return (None, w3)
            | Some b =>
                match QueryMemorySizeSummary w3 with
                | (Err _, w4) => Return (None, w4)
                | (Ok None, w4) => Panic nil_deref
                | (Ok (Some a), w4) =>
                    Return (if total a <=? total b
                            then Some (ErrNew "device_add did not increase memory size")
                            else None, w4)
                end
            end
        end
    end.

Definition UnplugMemory (slotID : Z) (w : W) : option error * W :=
  match DeviceDelete (dimm_id slotID) w with
  | (Some e, w1) => (Some (ErrWrap "failed to unplug memory device" e), w1)
  | (None, w1) => let '(_, w2) := ObjectDel (backend_id slotID) w1 in (None, w2)
  end.

End client.

(** ** What QEMU promises

    [cpus w] is the set of vCPUs (by core identifier) in world [w].  A
    [device_add] of a free core either succeeds or changes nothing; a
    [device_del] that is answered without an error has taken place; the other
    commands do not touch the vCPUs; the queries tell the truth: every core
    below [limit] that is not plugged has a free slot with its core-id. *)

Definition free_slot (id : Z) (s : HotpluggableCPU) : Prop :=
  QOMPath s = "" ∧ ∃ props, Props s = Some props ∧ intFromProp (props !! "core-id") = Some id.

Class QemuCPU (W : Type) `{!QMP W} (limit : Z) (cpus : W → gset Z) (clock : W → Time) := {
  q_clock : ∀ c w, clock w ≤ clock (Run c w).2;
  q_quiet : ∀ c w, Execute c ≠ "device_add" → Execute c ≠ "device_del" →
    cpus (Run c w).2 = cpus w;
  q_cpus : ∀ w r, (Run (mkCommand "query-cpus-fast" None) w).1 = Ok r →
    ∃ l, r = RCPUs l ∧ NoDup (CPUIndex <$> l) ∧ list_to_set (CPUIndex <$> l) = cpus w;
  q_slots : ∀ w r, (Run (mkCommand "query-hotpluggable-cpus" None) w).1 = Ok r →
    ∃ l, r = RSlots l ∧ ∀ id, 0 ≤ id < limit → id ∉ cpus w → ∃ s, s ∈ l ∧ free_slot id s;
  q_add : ∀ args id w, intFromProp (args !! "core-id") = Some id → id ∉ cpus w →
    cpus (Run (mkCommand "device_add" (Some args)) w).2 =
    match (Run (mkCommand "device_add" (Some args)) w).1 with
    | Ok _ => {[id]} ∪ cpus w | Err _ => cpus w
    end;
  q_del : ∀ id w, id ∈ cpus w →
    cpus (Run (mkCommand "device_del" (Some {["id" := VStr (cpu_id id)]})) w).2 =
    match (Run (mkCommand "device_del" (Some {["id" := VStr (cpu_id id)]})) w).1 with
    | Ok _ => cpus w ∖ {[id]} | Err _ => cpus w
    end }.

(** The QMP client as the [vm.CPUHotplugger] of the controller, beside the
    guest's agents and the clock. *)
Definition cpu_ops {W} `{!QMP W} (q : qmpClient) (stats : option (W → result (Z * Z) * W))
    (offline online : option (Z → W → option error * W)) (now : W → Time * W) :
    CpuHotplug.CPUOps W :=
  CpuHotplug.Build_CPUOps W
    (λ w, let '(r, w1) := QueryCPUs q w in
          (match r with Ok l => Ok (CPUIndex <$> l) | Err e => Err e end, w1))
    (HotplugCPU q) (UnplugCPU q) stats offline online now.

(** [dimms w] maps slots to the sizes of their DIMMs, [backends w] slots to the
    sizes of their memory backends.  A DIMM takes the size of its backend; a
    name in use and memory beyond the machine's maximum (an int64 at most) are
    refused; a command answered with an error changes nothing. *)
Class QemuMem (W : Type) `{!QMP W} (base : Z) (dimms backends : W → gmap Z Z) := {
  m_query : ∀ w, dimms (Run (mkCommand "query-memory-size-summary" None) w).2 = dimms w ∧
    backends (Run (mkCommand "query-memory-size-summary" None) w).2 = backends w;
  m_summary : ∀ w r, (Run (mkCommand "query-memory-size-summary" None) w).1 = Ok r →
    r = RSummary (mkSummary base (MemHotplug.dimm_sum (dimms w)));
  m_object : ∀ c w, Execute c = "object-add" ∨ Execute c = "object-del" →
    dimms (Run c w).2 = dimms w;
  m_backend : ∀ args slot size w, args !! "id" = Some (VStr (backend_id slot)) →
    args !! "size" = Some (VInt size) →
    is_ok (Run (mkCommand "object-add" (Some args)) w).1 = true →
    backends (Run (mkCommand "object-add" (Some args)) w).2 !! slot = Some size;
  m_add : ∀ args slot w, args !! "driver" = Some (VStr "pc-dimm") →
    args !! "id" = Some (VStr (dimm_id slot)) → args !! "memdev" = Some (VStr (backend_id slot)) →
    args !! "core-id" = None →
    match (Run (mkCommand "device_add" (Some args)) w).1 with
    | Ok _ => dimms w !! slot = None ∧ ∃ size, backends w !! slot = Some size ∧
        0 ≤ base + MemHotplug.dimm_sum (dimms w) ∧
        base + MemHotplug.dimm_sum (<[slot := size]> (dimms w)) < 2 ^ 62 ∧
        dimms (Run (mkCommand "device_add" (Some args)) w).2 = <[slot := size]> (dimms w)
    | Err _ => dimms (Run (mkCommand "device_add" (Some args)) w).2 = dimms w
    end;
  m_del : ∀ slot w,
    dimms (Run (mkCommand "device_del" (Some {["id" := VStr (dimm_id slot)]})) w).2 =
    match (Run (mkCommand "device_del" (Some {["id" := VStr (dimm_id slot)]})) w).1 with
    | Ok _ => delete slot (dimms w) | Err _ => dimms w
    end }.

(** The QMP client as the memory controller's VM.  [HotplugMemory_spec] shows
    that the panic does not happen. *)
Definition mem_ops {W} `{!QMP W} (q : qmpClient) (stats : W → result Z * W)
    (offline online : Z → W → option error * W) (now : W → Time * W) : MemHotplug.MemOps W :=
  MemHotplug.Build_MemOps W
    (λ slot size w, match HotplugMemory q slot size w with
                    | Return r => r | Panic msg => (Some (ErrNew msg), w) end)
    (UnplugMemory q)
    (λ w, let '(r, w1) := QueryMemorySizeSummary q w in
          (match r with
           | Ok (Some m) => Ok (BaseMemory m, PluggedMemory m)
           | Ok None => Err (ErrNew nil_deref)
           | Err e => Err e
           end, w1))
    stats offline online now.

End Qmp.

(** ** Theorems *)

Section cpu_laws.
Import Qmp.
Context {W : Type} `{!QMP W} (q : qmpClient) (limit : Z) (cpus : W → gset Z) (clock : W → Time).
Context `{!QemuCPU W limit cpus clock}.

#[local] Notation quiet := (CpuHotplug.quiet cpus clock).

#[local] Instance cpu_quiet_preorder : PreOrder quiet.
Proof. split; [by intros w|]. intros w1 w2 w3 [H1 H2] [H3 H4]. split; [congruence|lia]. Qed.

(** A query command leaves the VM alone, and its result is decoded from the
    answer. *)
Lemma qmpQuery_spec {T} (zero : T) decode command w r w' :
  command ≠ "device_add" → command ≠ "device_del" →
  qmpQuery q zero decode command w = (r, w') →
  quiet w w' ∧
  ∀ x, r = Ok x → ∃ rep, (Run (mkCommand command None) w).1 = Ok rep ∧
    (rep = RNull ∧ x = zero ∨ decode rep = Some x).
Proof.
  intros Ha Hd. unfold qmpQuery, sendCommand, checkClosed.
  destruct (closed q); [intros [= <- <-]; split; [done|by intros]|].
  pose proof (q_quiet (mkCommand command None) w Ha Hd) as Hq.
  pose proof (q_clock (mkCommand command None) w) as Hc.
  destruct (Run _ w) as [[rep|e] w1]; simpl in *; [|intros [= <- <-]; by split].
  intros H. assert (Hw : w' = w1) by (destruct rep; [|destruct (decode _)..]; by simplify_eq). subst w'.
  split; [by split|]. intros x ->. exists rep. split; [done|].
  destruct rep; [left|right..]; [|destruct (decode _)..]; by simplify_eq.
Qed.

Lemma QueryCPUs_spec w r w' :
  QueryCPUs q w = (r, w') →
  quiet w w' ∧ ∀ l, r = Ok l → NoDup (CPUIndex <$> l) ∧ list_to_set (CPUIndex <$> l) = cpus w.
Proof.
  intros [Hq H]%qmpQuery_spec; [|done..]. split; [done|]. intros l Hl.
  destruct (H l Hl) as (rep & Hr & Hx). destruct (q_cpus _ _ Hr) as (l' & -> & Hn & Hs).
  destruct Hx as [[? _]|Hx]; [done|]. by injection Hx as ->.
Qed.

Lemma QueryCPUs_length w l w' :
  QueryCPUs q w = (Ok l, w') → length l = size (cpus w).
Proof.
  intros [_ H]%QueryCPUs_spec. destruct (H l eq_refl) as [Hn Hs].
  by rewrite <- Hs, size_list_to_set, length_fmap.
Qed.

Lemma match_loop_spec l id fallback :
  (∃ s, s ∈ l ∧ free_slot id s) →
  ∃ s, match_loop l id fallback = Some s ∧ free_slot id s.
Proof.
  revert fallback. induction l as [|s0 l IH]; intros fb (s & Hs & Hf); [by apply elem_of_nil in Hs|].
  simpl. apply elem_of_cons in Hs as [->|Hs].
  - destruct Hf as (Hq & props & Hp & Hc). rewrite Hq, Hp, bool_decide_true by done. simpl.
    exists s0. split; [done|]. split; [done|]. by exists props.
  - destruct (String.eqb (QOMPath s0) "") eqn:E; simpl; [|by apply IH; eauto].
    destruct (Props s0) as [props|] eqn:Ep; [|by apply IH; eauto].
    case_bool_decide as Hc; [|by apply IH; eauto]. exists s0. split; [done|].
    split; [by apply String.eqb_eq|]. by exists props.
Qed.

(** A [device_add] for a free core, with the check that follows. *)
Lemma plug_cpu_spec driver args id n w r w' :
  intFromProp (args !! "core-id") = Some id → id ∉ cpus w →
  n = -1 ∨ n = Z.of_nat (size (cpus w)) →
  plug_cpu q driver args n w = (r, w') →
  clock w ≤ clock w' ∧ cpus w' = match r with None => {[id]} ∪ cpus w | Some _ => cpus w end.
Proof.
  intros Hargs Hid Hn. unfold plug_cpu, DeviceAdd, execute, sendCommand, checkClosed.
  destruct (closed q); [by intros [= <- <-]|].
  set (args' := <["driver" := VStr driver]> args).
  assert (Hargs' : intFromProp (args' !! "core-id") = Some id).
  { unfold args'. by rewrite lookup_insert_ne. }
  pose proof (q_add args' id w Hargs' Hid) as Ha.
  pose proof (q_clock (mkCommand "device_add" (Some args')) w) as Hc.
  destruct (Run _ w) as [[rep|e] w1]; simpl in *; [|intros [= <- <-]; by split].
  unfold verify_cpu_count. destruct (0 <=? n) eqn:E0; [|intros [= <- <-]; by split].
  destruct (QueryCPUs q w1) as [[l|e] w2] eqn:Eq.
  - pose proof (QueryCPUs_length _ _ _ Eq) as Hlen. apply QueryCPUs_spec in Eq as [[Hq1 Hq2] _].
    intros [= <- <-]. split; [lia|]. rewrite Hq1, Ha.
    destruct Hn as [->|Hn]; [done|]. replace (_ <=? n) with false; [done|].
    symmetry. apply Z.leb_gt. rewrite Hlen, Ha, size_union, size_singleton by set_solver. lia.
  - apply QueryCPUs_spec in Eq as [[Hq1 Hq2] _]. intros [= <- <-]. split; [lia|congruence].
Qed.

Lemma HotplugCPU_spec id w r w' :
  0 ≤ id < limit → id ∉ cpus w → HotplugCPU q id w = (r, w') →
  clock w ≤ clock w' ∧ cpus w' = match r with None => {[id]} ∪ cpus w | Some _ => cpus w end.
Proof.
  intros Hr Hid. unfold HotplugCPU. destruct (QueryCPUs q w) as [r1 w1] eqn:E1.
  set (n := match r1 with Ok l => _ | Err _ => _ end).
  assert (Hn : n = -1 ∨ n = Z.of_nat (size (cpus w))).
  { subst n. destruct r1 as [l|e]; [right|by left]. by rewrite (QueryCPUs_length _ _ _ E1). }
  apply QueryCPUs_spec in E1 as [[Hq1 Hc1] _]. clearbody n.
  destruct (QueryHotpluggableCPUs q w1) as [r2 w2] eqn:E2.
  apply qmpQuery_spec in E2 as [[Hq2 Hc2] Hs]; [|done..].
  assert (Hcp : cpus w2 = cpus w) by congruence. rewrite <- Hcp in Hn, Hid |- *.
  assert (Hgo : ∀ driver args, intFromProp (args !! "core-id") = Some id →
    plug_cpu q driver args n w2 = (r, w') → clock w ≤ clock w' ∧
    cpus w' = match r with None => {[id]} ∪ cpus w2 | Some _ => cpus w2 end).
  { intros driver args Ha H. destruct (plug_cpu_spec _ _ id _ _ _ _ Ha Hid Hn H). split; [lia|done]. }
  destruct r2 as [l|e]; [|by apply Hgo].
  destruct (Hs l eq_refl) as (rep & Hrep & Hx). destruct (q_slots _ _ Hrep) as (l' & -> & Hsl).
  destruct Hx as [[? _]|Hx]; [done|]. injection Hx as ->.
  destruct (match_loop_spec l id None) as (s & Hm & Hq & props & Hp & Hcore).
  { apply Hsl; [done|]. by rewrite <- Hq2. }
  destruct l as [|s0 l]; [by intros [= <- <-]; split; [lia|]|].
  unfold matchHotpluggableCPU. rewrite Hm, Hp. simpl. apply Hgo.
  rewrite lookup_union_l; [done|]. by rewrite lookup_singleton_ne.
Qed.

Lemma UnplugCPU_spec id w r w' :
  id ∈ cpus w → UnplugCPU q id w = (r, w') →
  clock w ≤ clock w' ∧ cpus w' = match r with None => cpus w ∖ {[id]} | Some _ => cpus w end.
Proof.
  intros Hid. unfold UnplugCPU, DeviceDelete, execute, sendCommand, checkClosed.
  destruct (closed q); [by intros [= <- <-]|]. pose proof (q_del id w Hid) as Hd.
  pose proof (q_clock (mkCommand "device_del" (Some {["id" := VStr (cpu_id id)]})) w) as Hc.
  destruct (Run _ w) as [[rep|e] w1]; simpl in *; intros [= <- <-]; by split.
Qed.


End cpu_laws.

Section mem_laws.
Import Qmp.
Context {W : Type} `{!QMP W} (q : qmpClient) (base : Z) (dimms backends : W → gmap Z Z).
Context `{!QemuMem W base dimms backends}.

Lemma summary_spec w r w' :
  QueryMemorySizeSummary q w = (r, w') →
  dimms w' = dimms w ∧
  ∀ m, r = Ok m → m = Some (mkSummary base (MemHotplug.dimm_sum (dimms w))).
Proof.
  unfold QueryMemorySizeSummary, qmpQuery, sendCommand, checkClosed.
  destruct (closed q); [by intros [= <- <-]|]. destruct (m_query w) as [Hd _].
  pose proof (m_summary w) as Hs. destruct (Run _ w) as [[rep|e] w1]; simpl in *; [|by intros [= <- <-]].
  rewrite (Hs rep eq_refl). intros [= <- <-]. split; [done|]. by intros m [= <-].
Qed.

Lemma ObjectDel_dimms id w : dimms (ObjectDel q id w).2 = dimms w.
Proof.
  unfold ObjectDel, execute, sendCommand, checkClosed. destruct (closed q); [done|].
  pose proof (m_object (mkCommand "object-del" (Some {["id" := VStr id]})) w (or_intror eq_refl)) as H.
  by destruct (Run _ w) as [[rep|e] w1].
Qed.

Lemma ObjectAdd_spec slot size w r w' :
  ObjectAdd q "memory-backend-ram" (backend_id slot) {["size" := VInt size]} w = (r, w') →
  dimms w' = dimms w ∧ (r = None → backends w' !! slot = Some size).
Proof.
  unfold ObjectAdd, execute, sendCommand, checkClosed. destruct (closed q); [by intros [= <- <-]|].
  set (args := _ ∪ _).
  pose proof (m_object (mkCommand "object-add" (Some args)) w (or_introl eq_refl)) as Hd.
  pose proof (m_backend args slot size w) as Hb.
  destruct (Run _ w) as [[rep|e] w1]; simpl in *; intros [= <- <-]; (split; [done|]); [|done].
  intros _. by apply Hb.
Qed.

Lemma DimmAdd_spec slot w r w' :
  DeviceAdd q "pc-dimm" (<["id" := VStr (dimm_id slot)]> {["memdev" := VStr (backend_id slot)]}) w =
    (r, w') →
  match r with
  | None => dimms w !! slot = None ∧ ∃ size, backends w !! slot = Some size ∧
      0 ≤ base + MemHotplug.dimm_sum (dimms w) ∧
      base + MemHotplug.dimm_sum (<[slot := size]> (dimms w)) < 2 ^ 62 ∧
      dimms w' = <[slot := size]> (dimms w)
  | Some _ => dimms w' = dimms w
  end.
Proof.
  unfold DeviceAdd, execute, sendCommand, checkClosed. destruct (closed q); [by intros [= <- <-]|].
  set (args := <["driver" := _]> _). pose proof (m_add args slot w) as Ha.
  destruct (Run _ w) as [[rep|e] w1]; simpl in *; intros [= <- <-]; apply Ha; done.
Qed.

Lemma DimmDel_spec slot w :
  dimms (DeviceDelete q (dimm_id slot) w).2 =
  match (DeviceDelete q (dimm_id slot) w).1 with
  | None => delete slot (dimms w) | Some _ => dimms w
  end.
Proof.
  unfold DeviceDelete, execute, sendCommand, checkClosed. destruct (closed q); [done|].
  pose proof (m_del slot w) as Hd. by destruct (Run _ w) as [[rep|e] w1].
Qed.

(** Plugging a positive size never panics, and plugs the DIMM or nothing. *)
Lemma HotplugMemory_spec slot size w :
  0 < size →
  ∃ r w', HotplugMemory q slot size w = Return (r, w') ∧
    (r = None → dimms w !! slot = None) ∧
    dimms w' = match r with None => <[slot := size]> (dimms w) | Some _ => dimms w end.
Proof.
  intros Hsz. unfold HotplugMemory. destruct (negb _); [by eexists _, _|].
  destruct (QueryMemorySizeSummary q w) as [rb w1] eqn:E1. apply summary_spec in E1 as [Hd1 Hb].
  destruct (ObjectAdd _ _ _ _ w1) as [[e|] w2] eqn:E2; apply ObjectAdd_spec in E2 as [Hd2 Hbk].
  { eexists _, _. split; [done|]. split; [done|congruence]. }
  specialize (Hbk eq_refl).
  destruct (DeviceAdd _ _ _ w2) as [[e|] w3] eqn:E3; apply DimmAdd_spec in E3.
  { pose proof (ObjectDel_dimms (backend_id slot) w3) as Hod. destruct (ObjectDel _ _ w3) as [? w4].
    eexists _, _. split; [done|]. split; [done|]. simpl in Hod. congruence. }
  destruct E3 as (Hfree & size' & Hsize & Hb1 & Hb2 & Hd3). rewrite Hbk in Hsize. injection Hsize as <-.
  rewrite Hd2, Hd1 in *.
  destruct (match rb with Ok b => b | Err _ => None end) as [b|] eqn:Eb; [|by eexists _, _].
  destruct rb as [b'|]; [|done]. subst b'. specialize (Hb _ eq_refl). injection Hb as ->.
  destruct (QueryMemorySizeSummary q w3) as [ra w4] eqn:E4. apply summary_spec in E4 as [Hd4 Ha].
  destruct ra as [a|e]; [|eexists _, _; split; [done|]; split; [done|congruence]].
  rewrite (Ha _ eq_refl). eexists _, _. split; [done|]. rewrite Hd4, Hd3.
  replace (_ <=? _) with false; [done|]. symmetry. apply Z.leb_gt. unfold total. simpl.
  rewrite dimm_sum_insert in * by done. unwrap64. lia.
Qed.

(** The QMP client is a memory hotplugger in the sense of the memory
    controller.  If QEMU keeps its promises about DIMMs and backends,
    [HotplugMemory] of a positive size plugs one DIMM of that size into a free
    slot, or fails and plugs none (also when the backend was created but the
    DIMM was refused), never panics and raises no false alarm about the
    memory size; [UnplugMemory] removes the DIMM of the slot or nothing. *)
Theorem qmp_client_hotplugs_memory stats offline online now :
  (∀ w, dimms (stats w).2 = dimms w) → (∀ slot w, dimms (offline slot w).2 = dimms w) →
  (∀ slot w, dimms (online slot w).2 = dimms w) → (∀ w, dimms (now w).2 = dimms w) →
  @MemHotplug.MemLaws W (mem_ops q stats offline online now) base dimms ∧
  ∀ slot size w, 0 < size → is_Some (match HotplugMemory q slot size w with Return r => Some r | _ => None end).
Proof.
  intros Hs Hof Hon Hn. split; [split; try done; simpl|].
  - intros w. destruct (QueryMemorySizeSummary q w) as [r w'] eqn:E. by apply summary_spec in E as [? _].
  - intros w b p. destruct (QueryMemorySizeSummary q w) as [r w'] eqn:E.
    apply summary_spec in E as [_ H]. simpl. destruct r as [m|e]; [|done].
    rewrite (H m eq_refl). by intros [= <- <-].
  - intros slot size w Hsz. destruct (HotplugMemory_spec slot size w Hsz) as (r & w' & -> & _ & Hd). done.
  - intros slot size w Hsz [x Hx]. destruct (HotplugMemory_spec slot size w Hsz) as (r & w' & -> & Hf & _).
    simpl. destruct r; [by eexists|]. by rewrite Hf in Hx.
  - intros slot w. unfold UnplugMemory. pose proof (DimmDel_spec slot w) as Hd.
    destruct (DeviceDelete q (dimm_id slot) w) as [[e|] w1]; simpl in *; [done|].
    pose proof (ObjectDel_dimms (backend_id slot) w1). destruct (ObjectDel _ _ w1). simpl in *. congruence.
  - intros slot size w Hsz. destruct (HotplugMemory_spec slot size w Hsz) as (r & w' & -> & _). by eexists.
Qed.

End mem_laws.

(** ** Witnesses: a small QEMU *)

Module QmpDemo.
Import Qmp.

(** vCPUs, DIMMs, backends and the time; four cores and eight slots. *)
Record world := mkWorld { wc : gset Z; wd : gmap Z Z; wb : gmap Z Z; wt : Z }.

Definition refused (w : world) : result reply * world := (Err (ErrNew "GenericError"), w).

Definition demo_slot (i : Z) : HotpluggableCPU :=
  mkSlot "host-x86_64-cpu" "" (Some {["core-id" := VFloat (f64_of_Z i)]}) 1.

(** The first element of a list whose name is the given string. *)
Definition by_name (name : Z → string) (l : list Z) (v : option value) : option Z :=
  match v with Some (VStr s) => find (λ i, String.eqb (name i) s) l | _ => None end.

Definition device_add (a : gmap string value) (w : world) : result reply * world :=
  match intFromProp (a !! "core-id") with
  | Some i =>
      if bool_decide (i ∈ wc w) then refused w
      else (Ok RObject, mkWorld ({[i]} ∪ wc w) (wd w) (wb w) (wt w))
  | None =>
      match by_name dimm_id (map_to_list (wb w)).*1 (a !! "id") with
      | None => refused w
      | Some slot =>
          match wd w !! slot, wb w !! slot with
          | None, Some size =>
              if (0 <=? 512 + MemHotplug.dimm_sum (wd w)) &&
                 (512 + MemHotplug.dimm_sum (<[slot := size]> (wd w)) <? 2 ^ 62)
              then (Ok RObject, mkWorld (wc w) (<[slot := size]> (wd w)) (wb w) (wt w))
              else refused w
          | _, _ => refused w
          end
      end
  end.

Definition device_del (a : gmap string value) (w : world) : result reply * world :=
  match by_name cpu_id (elements (wc w)) (a !! "id") with
  | Some i => (Ok RObject, mkWorld (wc w ∖ {[i]}) (wd w) (wb w) (wt w))
  | None =>
      match by_name dimm_id (map_to_list (wd w)).*1 (a !! "id") with
      | Some slot => (Ok RObject, mkWorld (wc w) (delete slot (wd w)) (wb w) (wt w))
      | None => refused w
      end
  end.

Definition object_add (a : gmap string value) (w : world) : result reply * world :=
  match by_name backend_id (seqZ 0 8) (a !! "id"), a !! "size" with
  | Some slot, Some (VInt size) =>
      (Ok RObject, mkWorld (wc w) (wd w) (<[slot := size]> (wb w)) (wt w))
  | _, _ => refused w
  end.

Definition run (c : Command) (w : world) : result reply * world :=
  match Args c with
  | None =>
      if String.eqb (Execute c) "query-cpus-fast"
      then (Ok (RCPUs ((λ i, mkCPUInfo i "/machine/cpu") <$> elements (wc w))), w)
      else if String.eqb (Execute c) "query-hotpluggable-cpus"
      then (Ok (RSlots (demo_slot <$> filter (λ i, i ∉ wc w) (seqZ 0 4))), w)
      else if String.eqb (Execute c) "query-memory-size-summary"
      then (Ok (RSummary (mkSummary 512 (MemHotplug.dimm_sum (wd w)))), w)
      else refused w
  | Some a =>
      if String.eqb (Execute c) "device_add" then device_add a w
      else if String.eqb (Execute c) "device_del" then device_del a w
      else if String.eqb (Execute c) "object-add" then object_add a w
      else if String.eqb (Execute c) "object-del" then (Ok RObject, w)
      else refused w
  end.

#[global] Instance qmp : QMP world := { Run := run }.

Lemma by_name_Some name l v i :
  by_name name l v = Some i → i ∈ l ∧ v = Some (VStr (name i)).
Proof.
  unfold by_name. destruct v as [[s| | |]|]; try done. intros H. apply find_some in H as [Hi Hs].
  apply String.eqb_eq in Hs as ->. by rewrite list_elem_of_In.
Qed.

Lemma by_name_in name l i :
  (∀ j, name j = name i → j = i) → i ∈ l → by_name name l (Some (VStr (name i))) = Some i.
Proof.
  intros Hinj Hi. unfold by_name. destruct (find _ l) as [j|] eqn:E.
  - apply find_some in E as [_ Hs]. apply String.eqb_eq in Hs. by rewrite (Hinj j Hs).
  - apply list_elem_of_In in Hi. apply (find_none _ _ E) in Hi. by rewrite String.eqb_refl in Hi.
Qed.

Lemma cpu_id_inj i j : cpu_id j = cpu_id i → j = i.
Proof. intros H%append_inj_l. by apply fmt_d_inj. Qed.
Lemma dimm_id_inj i j : dimm_id j = dimm_id i → j = i.
Proof. intros H%append_inj_l. by apply fmt_d_inj. Qed.
Lemma backend_id_inj i j : backend_id j = backend_id i → j = i.
Proof. intros H%append_inj_l. by apply fmt_d_inj. Qed.

Lemma elem_seqZ4 i : 0 ≤ i < 4 → i = 0 ∨ i = 1 ∨ i = 2 ∨ i = 3.
Proof. lia. Qed.

#[global] Instance cpu_laws : QemuCPU world 4 wc wt.
Proof.
  split.
  - intros [ex [a|]] w; simpl; unfold run; simpl; [|by repeat case_match].
    repeat case_match; try done; unfold device_add, device_del, object_add in *; by repeat case_match.
  - intros [ex [a|]] w Ha Hd; simpl in *; unfold run; simpl; [|by repeat case_match].
    apply String.eqb_neq in Ha as ->. apply String.eqb_neq in Hd as ->.
    unfold object_add. by repeat case_match.
  - intros w r. simpl. intros [= <-]. eexists. split; [done|].
    rewrite <- list_fmap_compose. simpl.
    replace (CPUIndex ∘ (λ i, mkCPUInfo i "/machine/cpu") <$> elements (wc w)) with (elements (wc w))
      by (symmetry; apply list_fmap_id).
    split; [apply NoDup_elements|apply list_to_set_elements_L].
  - intros w r. simpl. intros [= <-]. eexists. split; [done|]. intros id Hr Hid.
    exists (demo_slot id). split.
    + apply list_elem_of_fmap. exists id. split; [done|]. apply list_elem_of_filter. split; [done|].
      apply elem_of_seqZ. lia.
    + split; [done|]. eexists. split; [done|].
      by destruct (elem_seqZ4 id Hr) as [->|[->|[->| ->]]].
  - intros args id w Ha Hid. simpl. unfold run, device_add. simpl. rewrite Ha.
    by rewrite bool_decide_false.
  - intros id w Hid. simpl. unfold run, device_del. simpl.
    change ({["id" := VStr (cpu_id id)]} !! "id") with (Some (VStr (cpu_id id))).
    rewrite (by_name_in _ _ id) by (by auto using cpu_id_inj || by apply elem_of_elements). done.
Qed.

#[global] Instance mem_laws : QemuMem world 512 wd wb.
Proof.
  split.
  - done.
  - intros w r. simpl. by intros [= <-].
  - intros [ex [a|]] w [Hx|Hx]; simpl in *; subst ex; simpl; try done.
    unfold run, object_add. simpl. by repeat case_match.
  - intros args slot size w Hid Hs. simpl. unfold run, object_add. simpl. rewrite Hs.
    destruct (by_name _ _ _) as [s0|] eqn:E; [|done]. intros _. simpl.
    apply by_name_Some in E as [_ E]. rewrite Hid in E.
    assert (s0 = slot) as -> by (apply backend_id_inj; congruence). apply lookup_insert_eq.
  - intros args slot w _ Hid _ Hcore. simpl. unfold run, device_add. simpl. rewrite Hcore. simpl.
    destruct (by_name _ _ _) as [s0|] eqn:E; [|done]. apply by_name_Some in E as [_ E]. rewrite Hid in E.
    assert (s0 = slot) as -> by (apply dimm_id_inj; congruence).
    destruct (wd w !! slot) eqn:E1; [done|]. destruct (wb w !! slot) as [size|] eqn:E2; [|done].
    destruct (_ && _) eqn:E3; [|done]. simpl. bool_to_prop. split; [done|]. exists size. by split_and!.
  - intros slot w. simpl. unfold run, device_del. simpl.
    change ({["id" := VStr (dimm_id slot)]} !! "id") with (Some (VStr (dimm_id slot))).
    destruct (by_name cpu_id _ _) as [i|] eqn:E.
    { apply by_name_Some in E as [_ E]. done. }
    destruct (by_name dimm_id _ _) as [s0|] eqn:E1; [|done].
    apply by_name_Some in E1 as [_ E1]. simpl.
    assert (s0 = slot) as -> by (apply dimm_id_inj; congruence). done.
Qed.

Definition client : qmpClient := mkClient false.
Definition tick (w : world) : Time * world := (wt w, mkWorld (wc w) (wd w) (wb w) (wt w + 1)).
Definition w0 : world := mkWorld {[0]} ∅ ∅ 0.

End QmpDemo.


Lemma qmp_client_hotplugs_memory_witness :
  let guest := λ (_ : Z) (w : QmpDemo.world), (None, w) in
  let ops := Qmp.mem_ops QmpDemo.client (λ w, (Ok 0, w)) guest guest QmpDemo.tick in
  QmpDemo.wd (MemHotplug.HotplugMemory (MemOps := ops) 3 Qmp.alignmentBytes QmpDemo.w0).2 =
    {[3 := Qmp.alignmentBytes]} ∧
  @MemHotplug.MemLaws QmpDemo.world ops 512 QmpDemo.wd.
Proof.
  split; [vm_compute; reflexivity|].
  by apply (qmp_client_hotplugs_memory QmpDemo.client 512 QmpDemo.wd QmpDemo.wb).
Defined.
