(* ===== verification/VsockAlloc.v ===== *)
(** * vsock context identifiers

    Models internal/vsock/allocator.go: the allocation of a guest CID by lock
    files, with a cool-down before a CID is used again.  The lock directory is
    a map from CIDs to lock files; a lock file has the metadata that decodes
    from it ([None] when nothing does), its modification time and whether an
    open file holds its flock.  What the file system may do is [FS]: which
    files do not open, when a file that is created is stamped, and which writes
    fail and what they leave behind. *)

From S2P Require Import Prelude.

Module Vsock.

Record cidMetadata := mkMeta { PID : Z; AllocatedAt : Time; ReleasedAt : option Time }.
Record lockFile := mkFile { meta : option cidMetadata; ModTime : Time; locked : bool }.
Notation dir := (gmap Z lockFile) (only parsing).

Record FS := mkFS
  { mkdirErr : option error;
    openFails : Z → bool;
    createTime : Z → Time;
    writeTime : Z → Time;
    (* [None]: the write succeeds; [Some m]: it fails and leaves [m] *)
    write : Z → cidMetadata → option (option cidMetadata) }.

Record Allocator := NewAllocator { minCID : Z; maxCID : Z; cooldown : Duration }.

Definition emptyMeta : cidMetadata := mkMeta 0 0 None.

Definition readMetadata (f : lockFile) : cidMetadata := default emptyMeta (meta f).

Definition isCoolingDown (now : Time) (m : cidMetadata) (info : option Time) (cool : Duration) :
    bool :=
  if cool <=? 0 then false
  else
    let last :=
      match ReleasedAt m with
      | Some t => t
      | None => if negb (IsZero (AllocatedAt m)) then AllocatedAt m
                else match info with Some t => t | None => 0 end
      end in
    if IsZero last then false else time_Sub now last <? cool.

(** The loop [for cid := a.minCID; cid <= a.maxCID; cid++] on 32-bit CIDs.
    [None] means that the fuel ran out. *)
Fixpoint alloc_loop (fs : FS) (a : Allocator) (now pid : Z) (fuel : nat) (cid : Z) (d : dir) :
    option (result Z * dir) :=
  match fuel with
  | O => None
  | S fuel' =>
      if maxCID a <? cid then Some (Err (ErrNew "no available vsock CID in range"), d)
      else
        let next := alloc_loop fs a now pid fuel' (wrapu32 (cid + 1)) in
        if openFails fs cid then next d
        else
          let f := default (mkFile None (createTime fs cid) false) (d !! cid) in
          let d1 := <[cid := f]> d in
          if locked f then next d1
          else if isCoolingDown now (readMetadata f) (Some (ModTime f)) (cooldown a) then next d1
          else
            let m := mkMeta pid now None in
            match write fs cid m with
            | Some m' => next (<[cid := mkFile m' (writeTime fs cid) false]> d1)
            | None => Some (Ok cid, <[cid := mkFile (Some m) (writeTime fs cid) true]> d1)
            end
  end.

Definition Allocate (fs : FS) (a : Allocator) (now pid : Z) (fuel : nat) (d : dir) :
    option (result Z * dir) :=
  match mkdirErr fs with
  | Some e => Some (Err (ErrWrap "failed to create CID lock directory" e), d)
  | None => alloc_loop fs a now pid fuel (minCID a) d
  end.

(** [Lease.Release] of a lease that holds its file. *)
Definition Release (fs : FS) (now pid cid : Z) (d : dir) : dir :=
  match d !! cid with
  | None => d
  | Some f =>
      let m := readMetadata f in
      let at_ := if IsZero (AllocatedAt m) then now else AllocatedAt m in
      let m' := mkMeta pid at_ (Some now) in
      <[cid := match write fs cid m' with
               | None => mkFile (Some m') (writeTime fs cid) false
               | Some rest => mkFile rest (writeTime fs cid) false
               end]> d
  end.

(** ** The VMs of a host: a lock directory and the leases held

    [st_alloc] is an allocation by any process at any time with any file
    system behaviour; [st_release] the release of a lease. *)
Record state := mkState { lockDir : dir; leases : list Z }.

Inductive step (a : Allocator) : state → state → Prop :=
  | st_alloc fs now pid fuel d d' ls cid :
      Allocate fs a now pid fuel d = Some (Ok cid, d') →
      step a (mkState d ls) (mkState d' (cid :: ls))
  | st_alloc_fail fs now pid fuel d d' ls e :
      Allocate fs a now pid fuel d = Some (Err e, d') →
      step a (mkState d ls) (mkState d' ls)
  | st_release fs now pid d ls1 cid ls2 :
      step a (mkState d (ls1 ++ cid :: ls2)) (mkState (Release fs now pid cid d) (ls1 ++ ls2)).

End Vsock.

(** ** Theorems *)

Section vsock_theorems.
Import Vsock.
Implicit Types (fs : FS) (a : Allocator) (d : dir).

Definition is_locked d (cid : Z) : Prop :=
  ∃ f, d !! cid = Some f ∧ locked f = true.

(** A CID that the loop passes over. *)
Definition unavailable fs a (now pid : Z) d (cid : Z) : Prop :=
  openFails fs cid = true ∨
  let f := default (mkFile None (createTime fs cid) false) (d !! cid) in
  locked f = true ∨
  isCoolingDown now (readMetadata f) (Some (ModTime f)) (cooldown a) = true ∨
  is_Some (write fs cid (mkMeta pid now None)).

(** What the loop, started at [cid], has done when it returns: it touched only
    the CIDs it visited, unlocked none, and found the first available one. *)
Definition alloc_post fs a now pid cid d (r : result Z) d' : Prop :=
  (∀ c, c < cid → d' !! c = d !! c) ∧
  (∀ c, is_locked d c → is_locked d' c) ∧
  match r with
  | Ok c => cid ≤ c ≤ maxCID a ∧ ¬ is_locked d c ∧ is_locked d' c ∧
      ¬ unavailable fs a now pid d c ∧ (∀ c', cid ≤ c' < c → unavailable fs a now pid d c')
  | Err _ => ∀ c', cid ≤ c' ≤ maxCID a → unavailable fs a now pid d c'
  end.

(** Passing over an unavailable CID. *)
Lemma alloc_post_skip fs a now pid cid d d1 r d' :
  (∀ c, c ≠ cid → d1 !! c = d !! c) → (is_locked d cid → is_locked d1 cid) →
  unavailable fs a now pid d cid →
  alloc_post fs a now pid (cid + 1) d1 r d' → alloc_post fs a now pid cid d r d'.
Proof.
  intros Hd1 Hl1 Hun (H1 & H2 & H3).
  assert (Hu : ∀ c, c ≠ cid → unavailable fs a now pid d1 c ↔ unavailable fs a now pid d c).
  { intros c Hne. unfold unavailable. by rewrite Hd1. }
  assert (Hk : ∀ c, is_locked d c → is_locked d1 c).
  { intros c. destruct (decide (c = cid)) as [->|Hne]; [done|]. unfold is_locked. by rewrite Hd1. }
  split; [intros c Hlt; rewrite H1, Hd1 by lia; done|]. split; [auto|]. destruct r as [c|e].
  - destruct H3 as (Hr & Hnl & Hl & Hnu & Hall). split; [lia|]. split; [naive_solver|].
    split; [done|]. split; [by rewrite <- Hu by lia|]. intros c' Hr'.
    destruct (decide (c' = cid)) as [->|]; [done|]. rewrite <- Hu by done. apply Hall. lia.
  - intros c' Hr'. destruct (decide (c' = cid)) as [->|]; [done|]. rewrite <- Hu by done.
    apply H3. lia.
Qed.

Lemma alloc_loop_spec fs a now pid fuel cid d r d' :
  maxCID a < 2 ^ 32 - 1 → 0 ≤ cid →
  alloc_loop fs a now pid fuel cid d = Some (r, d') → alloc_post fs a now pid cid d r d'.
Proof.
  intros Hmax. revert cid d. induction fuel as [|fuel IH]; intros cid d Hc H; [done|].
  cbn [alloc_loop] in H. destruct (maxCID a <? cid) eqn:Emax.
  { simplify_eq. split; [done|]. split; [done|]. bool_to_prop. lia. }
  bool_to_prop. rewrite wrapu32_id in H by lia.
  set (f := default (mkFile None (createTime fs cid) false) (d !! cid)) in *.
  assert (Hkeep : ∀ c, c ≠ cid → (<[cid := f]> d) !! c = d !! c) by (intros; by rewrite lookup_insert_ne).
  assert (Hlk : is_locked d cid → is_locked (<[cid := f]> d) cid).
  { intros (g & Hg & Hl). exists f. rewrite lookup_insert_eq. split; [done|].
    unfold f. by rewrite Hg. }
  destruct (openFails fs cid) eqn:Eo.
  { apply IH in H; [|lia]. eapply alloc_post_skip; [| |by left|exact H]; auto. }
  destruct (locked f) eqn:El.
  { apply IH in H; [|lia]. eapply alloc_post_skip; [| |by right; left|exact H]; auto. }
  destruct (isCoolingDown _ _ _ _) eqn:Ec.
  { apply IH in H; [|lia]. eapply alloc_post_skip; [| |by right; right; left|exact H]; auto. }
  assert (Hnl : ¬ is_locked d cid).
  { intros (g & Hg & Hl). unfold f in El. rewrite Hg in El. simpl in El. congruence. }
  destruct (write fs cid _) eqn:Ew.
  - apply IH in H; [|lia]. eapply alloc_post_skip; [| |by right; right; right|exact H]; [|done].
    intros c Hne. by rewrite !lookup_insert_ne.
  - simplify_eq. split; [|split].
    + intros c Hlt. rewrite !lookup_insert_ne by lia. done.
    + intros c (g & Hg & Hl). destruct (decide (c = cid)) as [->|Hne].
      * eexists. rewrite lookup_insert_eq. done.
      * exists g. by rewrite !lookup_insert_ne.
    + split; [lia|]. split; [done|]. split; [eexists; by rewrite lookup_insert_eq|].
      split; [|lia]. unfold unavailable. cbv zeta. fold f. rewrite Eo, El, Ec, Ew.
      intros [?|[?|[?|[? ?]]]]; done.
Qed.

Lemma alloc_loop_total fs a now pid fuel cid d :
  maxCID a < 2 ^ 32 - 1 → 0 ≤ cid → 1 ≤ Z.of_nat fuel → maxCID a - cid + 2 ≤ Z.of_nat fuel →
  is_Some (alloc_loop fs a now pid fuel cid d).
Proof.
  intros Hmax. revert cid d. induction fuel as [|fuel IH]; intros cid d Hc H1 Hf; [lia|].
  cbn [alloc_loop]. destruct (maxCID a <? cid) eqn:Emax; [by eexists|]. bool_to_prop.
  rewrite wrapu32_id by lia.
  repeat case_match; first [by eexists|apply IH; lia].
Qed.

(** Allocation terminates and finds the first CID there is.  For a range
    that ends below 2^32-1, the loop returns after at most one iteration per
    CID; it returns the lowest CID whose lock file opens, is not locked, is not
    cooling down and can be written, and locks it; it fails only if there is
    none.  No lock is lost on the way. *)
Theorem Allocate_first_available fs a now pid d :
  0 ≤ minCID a → maxCID a < 2 ^ 32 - 1 → mkdirErr fs = None →
  ∃ r d', Allocate fs a now pid (Z.to_nat (maxCID a - minCID a + 2) + 1) d = Some (r, d') ∧
    (∀ c, is_locked d c → is_locked d' c) ∧
    match r with
    | Ok c => minCID a ≤ c ≤ maxCID a ∧ ¬ is_locked d c ∧ is_locked d' c ∧
        ¬ unavailable fs a now pid d c ∧
        ∀ c', minCID a ≤ c' < c → unavailable fs a now pid d c'
    | Err _ => ∀ c', minCID a ≤ c' ≤ maxCID a → unavailable fs a now pid d c'
    end.
Proof.
  intros Hmin Hmax Hmk. unfold Allocate. rewrite Hmk.
  destruct (alloc_loop_total fs a now pid (Z.to_nat (maxCID a - minCID a + 2) + 1) (minCID a) d)
    as [[r d'] Hr]; [done|done|lia|lia|].
  exists r, d'. split; [done|]. by apply alloc_loop_spec in Hr as (_ & ? & ?).
Qed.

(** With a range that ends at the largest 32-bit CID the loop does not
    end when no CID is available: the counter wraps around to 0. *)
Theorem Allocate_diverges_at_max fs a now pid fuel :
  maxCID a = 2 ^ 32 - 1 → 0 ≤ minCID a < 2 ^ 32 → mkdirErr fs = None →
  (∀ c, openFails fs c = true) → Allocate fs a now pid fuel ∅ = None.
Proof.
  intros Hmax Hmin Hmk Ho. unfold Allocate. rewrite Hmk.
  assert (H : ∀ cid, 0 ≤ cid < 2 ^ 32 → alloc_loop fs a now pid fuel cid ∅ = None); [|by apply H].
  induction fuel as [|fuel IH]; intros cid Hc; [done|]. cbn [alloc_loop].
  destruct (maxCID a <? cid) eqn:E; [go_arith|]. rewrite Ho. apply IH.
  unfold wrapu32. apply Z.mod_pos_bound. lia.
Qed.

(** ** Exclusive leases *)

Definition leases_ok a (s : state) : Prop :=
  NoDup (leases s) ∧ Forall (λ c, is_locked (lockDir s) c ∧ minCID a ≤ c ≤ maxCID a) (leases s).

Lemma Release_other fs now pid cid c d :
  c ≠ cid → is_locked d c → is_locked (Release fs now pid cid d) c.
Proof.
  intros Hne (f & Hf & Hl). exists f. unfold Release. destruct (d !! cid); [|done].
  by rewrite lookup_insert_ne.
Qed.

Lemma leases_ok_step a s s' :
  0 ≤ minCID a → maxCID a < 2 ^ 32 - 1 → leases_ok a s → step a s s' → leases_ok a s'.
Proof.
  intros Hmin Hmax [Hnd Hall] Hs. destruct Hs as [fs now pid fuel d d' ls cid H|fs now pid fuel d d' ls e H|fs now pid d ls1 cid ls2].
  - unfold Allocate in H. destruct (mkdirErr fs); [done|].
    apply alloc_loop_spec in H as (_ & Hk & Hr & Hnl & Hl & _); [|done|done]. simpl in *. split.
    + constructor; [|done]. intros Hin. rewrite Forall_forall in Hall.
      by destruct (Hall _ Hin) as [? _].
    + constructor; [done|]. eapply Forall_impl; [exact Hall|]. simpl. naive_solver.
  - unfold Allocate in H. split; [done|]. simpl in *. destruct (mkdirErr fs); [by simplify_eq|].
    apply alloc_loop_spec in H as (_ & Hk & _); [|done|done].
    eapply Forall_impl; [exact Hall|]. simpl. naive_solver.
  - simpl in *. rewrite <- Permutation_middle in Hnd, Hall.
    apply NoDup_cons in Hnd as [Hni Hnd]. apply Forall_cons in Hall as [_ Hall].
    split; [done|]. rewrite Forall_forall in *. intros c Hc. destruct (Hall c Hc) as [Hl Hr].
    split; [|done]. apply Release_other; [|done]. intros ->. done.
Qed.

(** C15: no two VMs share a CID.  In every state the host can reach by
    allocations (by any process, at any time, with any failures of the file
    system) and releases, the leases held are distinct, each is locked, and
    each lies in the allocator's range. *)
Theorem leases_exclusive a s :
  0 ≤ minCID a → maxCID a < 2 ^ 32 - 1 → rtc (step a) (mkState ∅ []) s → leases_ok a s.
Proof.
  intros Hmin Hmax Hr. assert (H0 : leases_ok a (mkState ∅ [])) by (split; constructor).
  revert H0. induction Hr as [|s1 s2 s3 Hs _ IH]; [done|]. intros H. apply IH. by eapply leases_ok_step.
Qed.

(** ** Cool-down *)

(** A CID is not used again before its cool-down is over: if a CID that
    was released at time [t] is allocated at time [now], then at least the
    cool-down has passed. *)
Theorem cooldown_respected fs a now pid fuel d d' cid f m t :
  0 ≤ minCID a → maxCID a < 2 ^ 32 - 1 → 0 < cooldown a →
  Allocate fs a now pid fuel d = Some (Ok cid, d') →
  d !! cid = Some f → meta f = Some m → ReleasedAt m = Some t → t ≠ 0 →
  cooldown a ≤ time_Sub now t.
Proof.
  intros Hmin Hmax Hcd H Hf Hm Ht Hnz. unfold Allocate in H. destruct (mkdirErr fs); [done|].
  apply alloc_loop_spec in H as (_ & _ & _ & _ & _ & Hnu & _); [|done|done].
  destruct (Z.le_gt_cases (cooldown a) (time_Sub now t)) as [?|Hlt]; [done|].
  destruct Hnu. right. right. left. rewrite Hf. simpl. unfold readMetadata. rewrite Hm. simpl.
  unfold isCoolingDown. destruct (cooldown a <=? 0) eqn:E; [go_arith|]. rewrite Ht.
  unfold IsZero. destruct (t =? 0) eqn:E0; [go_arith|]. by apply Z.ltb_lt.
Qed.

(** On a fresh lock directory nothing can be allocated.  A lock file that
    [Allocate] has just created has no metadata, so the cool-down is counted
    from its modification time, which is not before [now]: every CID of the
    range is "cooling down" and the allocation fails, although no CID was ever
    used. *)
Theorem fresh_directory_fails fs a now pid :
  0 ≤ minCID a → maxCID a < 2 ^ 32 - 1 → mkdirErr fs = None → 0 < cooldown a → 0 < now →
  (∀ c, now ≤ createTime fs c) →
  ∃ e d', Allocate fs a now pid (Z.to_nat (maxCID a - minCID a + 2) + 1) ∅ = Some (Err e, d').
Proof.
  intros Hmin Hmax Hmk Hcd Hnow Hct. unfold Allocate. rewrite Hmk.
  destruct (alloc_loop_total fs a now pid (Z.to_nat (maxCID a - minCID a + 2) + 1) (minCID a) ∅)
    as [[r d'] Hr]; [done|done|lia|lia|].
  rewrite Hr. destruct r as [c|e]; [|by eexists _, _]. exfalso.
  apply alloc_loop_spec in Hr as (_ & _ & _ & _ & _ & Hnu & _); [|done|done].
  destruct Hnu. right. right. left. rewrite lookup_empty. simpl. unfold isCoolingDown. simpl.
  destruct (cooldown a <=? 0) eqn:E; [go_arith|]. specialize (Hct c). unfold IsZero.
  destruct (createTime fs c =? 0) eqn:E0; [go_arith|]. apply Z.ltb_lt.
  unfold time_Sub, max_int64, min_int64. lia.
Qed.

End vsock_theorems.

(** ** Witnesses *)

Module VsockDemo.
(** A file system without failures; files are stamped one second after the
    start of the call. *)
Definition fs (now : Time) : Vsock.FS :=
  Vsock.mkFS None (λ _, false) (λ _, now + Second) (λ _, now + Second) (λ _ _, None).
Definition production : Vsock.Allocator := Vsock.NewAllocator 4 9 (2 * Second).
Definition old (r : Time) : Vsock.lockFile :=
  Vsock.mkFile (Some (Vsock.mkMeta 7 1 (Some r))) r false.
End VsockDemo.

Lemma Allocate_first_available_witness :
  ∃ d', Vsock.Allocate (VsockDemo.fs (100 * Second)) VsockDemo.production (100 * Second) 1 8
          {[4 := VsockDemo.old (99 * Second); 5 := VsockDemo.old (98 * Second)]} = Some (Ok 5, d') ∧
        is_locked d' 5.
Proof.
  destruct (Allocate_first_available (VsockDemo.fs (100 * Second)) VsockDemo.production
    (100 * Second) 1 {[4 := VsockDemo.old (99 * Second); 5 := VsockDemo.old (98 * Second)]})
    as (r & d' & Hr & _ & Hp); [done|done|done|].
  exists d'. vm_compute in Hr. destruct r as [c|]; [|discriminate].
  assert (c = 5) as -> by congruence. split; [exact Hr|]. apply Hp.
Defined.

Lemma Allocate_diverges_at_max_witness :
  Vsock.Allocate (Vsock.mkFS None (λ _, true) (λ _, 0) (λ _, 0) (λ _ _, None))
    (Vsock.NewAllocator 4294967294 4294967295 0) 1 1 100 ∅ = None.
Proof. apply Allocate_diverges_at_max; [reflexivity|by split|reflexivity|done]. Defined.

Lemma leases_exclusive_witness :
  ∃ d, rtc (Vsock.step (Vsock.NewAllocator 4 9 0)) (Vsock.mkState ∅ []) (Vsock.mkState d [5; 4]) ∧
    leases_ok (Vsock.NewAllocator 4 9 0) (Vsock.mkState d [5; 4]).
Proof.
  eexists. match goal with |- ?P ∧ _ => assert (H : P) end.
  { eapply rtc_l; [apply (Vsock.st_alloc _ (VsockDemo.fs 100) 100 1 9); vm_compute; reflexivity|].
    eapply rtc_l; [apply (Vsock.st_alloc _ (VsockDemo.fs 200) 200 2 9); vm_compute; reflexivity|].
    apply rtc_refl. }
  split; [exact H|]. apply (leases_exclusive _ _); [done|done|exact H].
Defined.

Lemma cooldown_respected_witness :
  2 * Second ≤ time_Sub (100 * Second) (98 * Second).
Proof.
  eapply (cooldown_respected (VsockDemo.fs (100 * Second)) VsockDemo.production (100 * Second) 1 8
    {[4 := VsockDemo.old (99 * Second); 5 := VsockDemo.old (98 * Second)]} _ 5);
    [done|done|done|vm_compute; reflexivity|reflexivity|reflexivity|reflexivity|done].
Defined.

Lemma fresh_directory_fails_witness :
  ∃ e d', Vsock.Allocate (VsockDemo.fs (100 * Second)) VsockDemo.production (100 * Second) 1 8 ∅
            = Some (Err e, d').
Proof.
  apply (fresh_directory_fails (VsockDemo.fs (100 * Second)) VsockDemo.production (100 * Second) 1);
    [done|done|done|done|done|]. intros c. vm_compute. discriminate.
Defined.
