(* ===== verification/VmManager.v ===== *)
(** * The VM lifecycle manager and the connection manager of the shim

    Module [VmManager] models internal/shim/lifecycle/vm.go and [NewInstance] of
    internal/host/vm/qemu/instance.go: one VM per manager, dialing with
    retries, shutdown.  A Go interface value may hold a nil pointer without
    being nil itself, so [m.instance] has three cases.  Module [ConnManager]
    models internal/shim/task/connmanager.go: the cached client of the VM and
    its ownership. *)

From S2P Require Import Prelude GoStrings.

Module VmManager.

(** A [vm.Instance]: the nil interface, an interface that holds a nil
    [*qemu.Instance], or an instance. *)
Inductive iface := NilIface | NilInstance | Inst (a : Z).

#[global] Instance iface_eq_dec : EqDecision iface.
Proof. solve_decision. Defined.

(** The operations outside the manager: the file system, the QEMU instance and
    the clock.  A client is its address. *)
Class Ops (W : Type) := {
  stateRoot : string;
  namespace : string;
  mkdirAll : string → W → option error * W;
  findQemu : W → option error;
  mkdirState : string → W → option error * W;
  newInstance : W → result Z * W;
  inst_Client : Z → W → result Z * W;
  inst_DialClient : Z → W → result Z * W;
  inst_Shutdown : Z → W → option error * W;
  now : W → Time * W;
  sleep : Duration → W → W }.

Definition vsockRetryInitialBackoff : Duration := 20 * Millisecond.
Definition vsockRetryMaxBackoff : Duration := 500 * Millisecond.

Definition Manager := iface.
Definition NewManager : Manager := NilIface.

Section manager.
Context {W : Type} `{!Ops W}.

(** [qemu.NewInstance]: [return newInstance(...)] converts a [*Instance] to an
    interface, also when it is nil. *)
Definition NewInstance (stateDir : string) (w : W) : iface * option error * W :=
  match findQemu w with
  | Some e => (NilIface, Some e, w)
  | None =>
      match mkdirState stateDir w with
      | (Some e, w1) => (NilIface, Some (ErrWrap "failed to create state directory" e), w1)
      | (None, w1) =>
          match newInstance w1 with
          | (Err e, w2) => (NilInstance, Some e, w2)
          | (Ok a, w2) => (Inst a, None, w2)
          end
      end
  end.

Definition vmStateDir (containerID bundlePath : string) : string :=
  if String.eqb stateRoot "" then bundlePath +:+ "/vm"
  else stateRoot +:+ "/" +:+ (if String.eqb namespace "" then "default" else namespace) +:+
       "/" +:+ containerID.

Definition CreateVM (containerID bundlePath : string) (m : Manager) (w : W) :
    result iface * Manager * W :=
  match m with
  | NilIface =>
      let vmState := vmStateDir containerID bundlePath in
      match mkdirAll vmState w with
      | (Some e, w1) => (Err (ErrWrap "failed to create vm state directory" e), m, w1)
      | (None, w1) =>
          match NewInstance vmState w1 with
          | (i, Some e, w2) => (Err e, i, w2)
          | (i, None, w2) => (Ok i, i, w2)
          end
      end
  | _ => (Err (ErrWrap "vm already exists; shim requires one VM per container"
                 (ErrSentinel ErrAlreadyExists)), m, w)
  end.

Definition vm_not_created : error := ErrWrap "vm not created" (ErrSentinel ErrFailedPrecondition).

Definition Instance_ (m : Manager) : result iface :=
  match m with NilIface => Err vm_not_created | _ => Ok m end.

Definition nil_deref : string := "invalid memory address or nil pointer dereference".

Definition Client (m : Manager) (w : W) : outcome (result Z * W) :=
  match m with
  | NilIface => Return (Err vm_not_created, w)
  | NilInstance => Panic nil_deref
  | Inst a => Return (inst_Client a w)
  end.

Definition DialClient (m : Manager) (w : W) : outcome (result Z * W) :=
  match m with
  | NilIface => Return (Err vm_not_created, w)
  | NilInstance => Panic nil_deref
  | Inst a => Return (inst_DialClient a w)
  end.

Definition isTransientVsockError (err : option error) : bool :=
  match err with
  | None => false
  | Some e =>
      errors_Is e ErrFailedPrecondition || errors_Is e ErrUnavailable ||
      (errors_Is e ECONNREFUSED || errors_Is e ECONNRESET || errors_Is e ENODEV ||
       errors_Is e EPIPE) ||
      String.eqb (error_text e) "ttrpc: closed"
  end.

(** The loop of [DialClientWithRetry]; [None] when the fuel runs out. *)
Fixpoint dial_loop (fuel : nat) (m : Manager) (deadline : Time) (backoff : Duration) (w : W) :
    option (outcome (result Z * W)) :=
  match fuel with
  | O => None
  | S fuel' =>
      match DialClient m w with
      | Panic msg => Some (Panic msg)
      | Return (Ok c, w1) => Some (Return (Ok c, w1))
      | Return (Err e, w1) =>
          if negb (isTransientVsockError (Some e)) then Some (Return (Err e, w1))
          else
            let '(t, w2) := now w1 in
            if deadline <? t then Some (Return (Err e, w2))
            else dial_loop fuel' m deadline (Z.min (backoff *i 2) vsockRetryMaxBackoff)
                   (sleep backoff w2)
      end
  end.

Definition DialClientWithRetry (fuel : nat) (m : Manager) (maxWait : Duration) (w : W) :
    option (outcome (result Z * W)) :=
  let '(t, w1) := now w in dial_loop fuel m (t + maxWait) vsockRetryInitialBackoff w1.

Definition Shutdown (m : Manager) (w : W) : outcome (option error * Manager * W) :=
  match m with
  | NilIface => Return (None, NilIface, w)
  | NilInstance => Panic nil_deref
  | Inst a => let '(err, w1) := inst_Shutdown a w in Return (err, NilIface, w1)
  end.

End manager.

(** The clock moves forward, and sleeping takes at least the time asked for. *)
Class ClockLaws (W : Type) `{!Ops W} (clock : W → Time) := {
  law_now : ∀ w, (now w).1 = clock w ∧ clock w ≤ clock (now w).2;
  law_sleep : ∀ d w, clock w + d ≤ clock (sleep d w);
  law_dial : ∀ a w, clock w ≤ clock (inst_DialClient a w).2 }.

End VmManager.

Module ConnManager.

(** [log] holds the clients closed so far (ghost state). *)
Record t := mk { client : option Z; closed : bool; log : list Z }.

Definition NewConnectionManager : t := mk None false [].

(** The dial functions of the manager, on a world [W]. *)
Section conn.
Context {W : Type} (dialRetryFn : W → result Z * W).

Definition getOrCreateClient (m : t) (w : W) : result Z * t * W :=
  if closed m then (Err (ErrSentinel ErrCanceled), m, w)
  else match client m with
       | Some c => (Ok c, m, w)
       | None =>
           match dialRetryFn w with
           | (Err e, w1) => (Err e, m, w1)
           | (Ok c, w1) => (Ok c, mk (Some c) (closed m) (log m), w1)
           end
       end.

(** The fast path under the read lock; the slow path re-checks under the
    write lock, when other goroutines may have run. *)
Definition GetClient_fast (m : t) : option Z :=
  match client m with
  | Some c => if negb (closed m) then Some c else None
  | None => None
  end.

Definition GetClient (m : t) (w : W) : result Z * t * W :=
  match GetClient_fast m with
  | Some c => (Ok c, m, w)
  | None => getOrCreateClient m w
  end.

Definition SetClient (c : option Z) (m : t) : t :=
  if closed m then
    match c with Some x => mk (client m) true (log m ++ [x]) | None => m end
  else
    match client m with
    | Some old => if bool_decide (c = Some old) then mk c false (log m)
                  else mk c false (log m ++ [old])
    | None => mk c false (log m)
    end.

Definition ClearClient (m : t) : option Z * t := (client m, mk None (closed m) (log m)).

Definition Invalidate (m : t) : t :=
  match client m with
  | Some c => mk None (closed m) (log m ++ [c])
  | None => m
  end.

Definition Close (m : t) : t :=
  if closed m then m
  else match client m with
       | Some c => mk None true (log m ++ [c])
       | None => mk None true (log m)
       end.

Definition HasClient (m : t) : bool := bool_decide (is_Some (client m)) && negb (closed m).

(** ** Runs: the calls of the shim's goroutines in any order *)

(** The run state: the manager, the clients it was ever given (dialed or set),
    those handed back by [ClearClient], and the world. *)
Record run := mkRun { mgr : t; given : list Z; cleared : list Z; world : W }.

Inductive step : run → run → Prop :=
  | st_get_cached m g cl w c : GetClient_fast m = Some c → step (mkRun m g cl w) (mkRun m g cl w)
  | st_get_fail m g cl w e m' w' :
      getOrCreateClient m w = (Err e, m', w') → step (mkRun m g cl w) (mkRun m' g cl w')
  | st_get_slow m g cl w c m' w' :
      getOrCreateClient m w = (Ok c, m', w') →
      step (mkRun m g cl w) (mkRun m' (match client m with Some _ => g | None => g ++ [c] end) cl w')
  | st_set_new m g cl w c :
      c ∉ g → step (mkRun m g cl w) (mkRun (SetClient (Some c) m) (g ++ [c]) cl w)
  | st_set_same m g cl w c :
      client m = Some c → step (mkRun m g cl w) (mkRun (SetClient (Some c) m) g cl w)
  | st_set_nil m g cl w : step (mkRun m g cl w) (mkRun (SetClient None m) g cl w)
  | st_clear m g cl w :
      step (mkRun m g cl w)
        (mkRun (ClearClient m).2 g (cl ++ match client m with Some c => [c] | None => [] end) w)
  | st_invalidate m g cl w : step (mkRun m g cl w) (mkRun (Invalidate m) g cl w)
  | st_close m g cl w : step (mkRun m g cl w) (mkRun (Close m) g cl w).

End conn.
Arguments mkRun {W}. Arguments mgr {W}. Arguments given {W}. Arguments cleared {W}.
Arguments world {W}.
End ConnManager.

(** ** Theorems *)

Section vm_theorems.
Import VmManager.
Context {W : Type} `{!Ops W}.

(** One VM per manager.  While an instance is stored, [CreateVM] fails
    with AlreadyExists and touches nothing; on a manager without one, a
    success stores exactly the instance it returns; a shutdown forgets the
    instance, and a second shutdown does nothing. *)
Theorem one_vm_per_manager cid bundle m (w : W) :
  (m ≠ NilIface → ∃ e, CreateVM cid bundle m w = (Err e, m, w) ∧
     errors_Is e ErrAlreadyExists = true) ∧
  (∀ i m' w', CreateVM cid bundle m w = (Ok i, m', w') →
     m = NilIface ∧ m' = i ∧ ∃ a, i = Inst a) ∧
  (∀ err m' w', Shutdown m w = Return (err, m', w') →
     m' = NilIface ∧ Shutdown m' w' = Return (None, m', w')).
Proof.
  split_and!.
  - intros Hne. destruct m; [done|..]; eexists; by split.
  - intros i m' w' H. destruct m; simpl in H; try done.
    destruct (mkdirAll _ w) as [[e|] w1]; [done|]. unfold NewInstance in H.
    repeat (case_match; simplify_eq/=). eauto.
  - intros err m' w' H. destruct m as [| |a]; simpl in H; try done; [by simplify_eq|].
    destruct (inst_Shutdown a w). by simplify_eq.
Qed.

(** A VM that could not be created blocks the manager.  When
    [newInstance] fails, the manager keeps an interface that holds a nil
    pointer: [Instance] reports a VM, every further [CreateVM] is refused with
    AlreadyExists, and [Client], [DialClient] and [Shutdown] dereference nil. *)
Theorem failed_create_poisons_manager cid bundle (w : W) :
  let dir := vmStateDir cid bundle in
  let w1 := (mkdirAll dir w).2 in
  let w2 := (mkdirState dir w1).2 in
  (mkdirAll dir w).1 = None → findQemu w1 = None → (mkdirState dir w1).1 = None →
  is_ok (newInstance w2).1 = false →
  ∃ e m w', CreateVM cid bundle NewManager w = (Err e, m, w') ∧
    is_ok (Instance_ m) = true ∧
    (∀ cid' bundle' w'', ∃ e', CreateVM cid' bundle' m w'' = (Err e', m, w'') ∧
       errors_Is e' ErrAlreadyExists = true) ∧
    Client m w' = Panic nil_deref ∧ DialClient m w' = Panic nil_deref ∧
    Shutdown m w' = Panic nil_deref.
Proof.
  intros dir w1 w2 H1 H2 H3 H4. subst dir w1 w2. unfold CreateVM, NewInstance. simpl.
  destruct (mkdirAll _ w) as [oe w1]. simpl in *. subst oe. rewrite H2.
  destruct (mkdirState _ w1) as [oe w2]. simpl in *. subst oe.
  destruct (newInstance w2) as [[a|e] w3]; [done|]. eexists _, _, _. split; [done|].
  split; [done|]. split; [|done]. intros. eexists. by split.
Qed.

Context (clock : W → Time) `{!ClockLaws W clock}.

Lemma dial_loop_terminates fuel m deadline backoff w :
  vsockRetryInitialBackoff ≤ backoff ≤ vsockRetryMaxBackoff →
  0 < Z.of_nat fuel → deadline - clock w < (Z.of_nat fuel - 1) * vsockRetryInitialBackoff →
  is_Some (dial_loop fuel m deadline backoff w).
Proof.
  revert backoff w. induction fuel as [|fuel IH]; intros backoff w Hb Hf Hd; [lia|]. simpl.
  destruct (DialClient m w) as [[[c|e] w1]|msg] eqn:Ed; [by eexists| |by eexists].
  assert (Hc : clock w ≤ clock w1).
  { unfold DialClient in Ed. destruct m as [| |a]; simplify_eq; [done|].
    pose proof (law_dial a w) as H. rewrite Ed in H. exact H. }
  destruct (negb _); [by eexists|]. destruct (law_now w1) as [Hn1 Hn2].
  destruct (now w1) as [t w2]. simpl in *. subst t.
  destruct (deadline <? clock w1) eqn:E; [by eexists|]. bool_to_prop.
  pose proof (law_sleep backoff w2) as Hs.
  unfold vsockRetryInitialBackoff, vsockRetryMaxBackoff, Millisecond in *.
  apply IH; [|lia|lia]. unwrap64. lia.
Qed.

(** Dialing with retries ends.  Because every round sleeps for at least
    the initial back-off (and at most the maximum), the loop returns after at
    most one round per initial back-off in the waiting time, plus two. *)
Theorem DialClientWithRetry_terminates m maxWait w :
  0 ≤ maxWait →
  is_Some (DialClientWithRetry (Z.to_nat (maxWait / vsockRetryInitialBackoff) + 3) m maxWait w).
Proof.
  intros H. unfold DialClientWithRetry. destruct (law_now w) as [H1 H2].
  destruct (now w) as [t w1]. simpl in *. subst t. apply dial_loop_terminates.
  - unfold vsockRetryInitialBackoff, vsockRetryMaxBackoff, Millisecond. lia.
  - lia.
  - assert (Hp : 0 < vsockRetryInitialBackoff) by (unfold vsockRetryInitialBackoff, Millisecond; lia).
    pose proof (Z.mul_succ_div_gt maxWait _ Hp).
    assert (0 ≤ maxWait / vsockRetryInitialBackoff) by (apply Z.div_pos; lia).
    rewrite Nat2Z.inj_add, Z2Nat.id by done. nia.
Qed.

End vm_theorems.

Section conn_theorems.
Import ConnManager.
Context {W : Type} (dial : W → result Z * W).

Definition opt_list (o : option Z) : list Z := match o with Some c => [c] | None => [] end.

(** Every client the manager was given is accounted for: closed, handed back,
    or cached. *)
Definition accounted (r : run) : Prop :=
  given r ≡ₚ log (mgr r) ++ cleared (W:=W) r ++ opt_list (client (mgr r)) ∧
  (closed (mgr r) = true → client (mgr r) = None).



Lemma accounted_step r r' : accounted r → step dial r r' → accounted r'.
Proof.
  intros [Hp Hc] Hs. destruct Hs as [m g cl w c Hf|m g cl w e m' w' Hg|m g cl w c m' w' Hg
    |m g cl w c Hn|m g cl w c Hsame|m g cl w|m g cl w|m g cl w|m g cl w];
    unfold accounted in *; simpl in *.
  - done.
  - assert (m' = m) as ->; [|done]. clear Hp Hc. unfold getOrCreateClient in Hg.
    by repeat (case_match; simplify_eq/=).
  - unfold getOrCreateClient in Hg. destruct (closed m) eqn:Ecl; [simplify_eq|].
    destruct (client m) as [c0|] eqn:Ec; [simplify_eq; rewrite Ec, Ecl; done|].
    destruct (dial w) as [[c1|e] w1]; simplify_eq/=. split; [|done].
    rewrite Hp. simpl. rewrite app_nil_r. by rewrite <- !app_assoc.
  - unfold SetClient. destruct (closed m) eqn:Ecl.
    + rewrite (Hc eq_refl) in *. simpl. split; [|done]. rewrite Hp. simpl.
      rewrite !app_nil_r, <- !app_assoc. apply Permutation_app_head, Permutation_app_comm.
    + destruct (client m) as [c0|] eqn:Ec; simpl; [case_bool_decide as E; simpl|]; (split; [|done]).
      * simplify_eq. destruct Hn. rewrite Hp. rewrite !elem_of_app. right. right. by left.
      * rewrite Hp. rewrite <- !app_assoc. apply Permutation_app_head. simpl.
        symmetry. apply (Permutation_middle cl [c] c0).
      * rewrite Hp. simpl. rewrite app_nil_r, <- !app_assoc. done.
  - unfold SetClient. destruct (closed m) eqn:Ecl; [by rewrite (Hc eq_refl) in Hsame|].
    rewrite Hsame in *. rewrite bool_decide_true by done. simpl. by split.
  - unfold SetClient. destruct (closed m) eqn:Ecl; [rewrite Ecl; by split|].
    destruct (client m) as [c0|] eqn:Ec; simpl; (split; [|done]).
    + rewrite Hp. simpl. rewrite app_nil_r, <- app_assoc. apply Permutation_app_head.
      by rewrite Permutation_app_comm.
    + done.
  - split; [|done]. rewrite Hp. destruct (client m); simpl; by rewrite ?app_nil_r.
  - unfold Invalidate. destruct (client m) as [c0|] eqn:Ec; simpl; [|rewrite Ec; by split].
    split; [|done]. rewrite Hp. simpl. rewrite app_nil_r, <- app_assoc.
    apply Permutation_app_head. by rewrite Permutation_app_comm.
  - unfold Close. destruct (closed m) eqn:Ecl; [rewrite Ecl; by split|].
    destruct (client m) as [c0|] eqn:Ec; simpl; (split; [|done]); rewrite Hp; simpl; [|done].
    rewrite app_nil_r, <- app_assoc. apply Permutation_app_head. by rewrite Permutation_app_comm.
Qed.

(** The connection manager neither leaks nor double-closes a connection.
    In every run of concurrent calls in which the clients given to it are
    distinct, each of them is closed at most once, the cached one is open, and
    once the manager is closed every client it was ever given has been closed
    or was handed back by [ClearClient]; after that no call returns a client. *)
Theorem connections_accounted r (w : W) :
  rtc (step dial) (mkRun NewConnectionManager [] [] w) r → NoDup (given r) →
  NoDup (log (mgr r)) ∧
  (∀ c, client (mgr r) = Some c → c ∉ log (mgr r)) ∧
  (closed (mgr r) = true →
     given r ≡ₚ log (mgr r) ++ cleared r ∧
     ∀ w', GetClient dial (mgr r) w' = (Err (ErrSentinel ErrCanceled), mgr r, w')).
Proof.
  intros Hr Hnd. assert (H : accounted r).
  { assert (H0 : accounted (mkRun NewConnectionManager [] [] w)) by done.
    revert H0. induction Hr as [|r1 r2 r3 Hs _ IH]; [done|]. intros H0.
    apply IH; [done|]. by eapply accounted_step. }
  destruct H as [Hp Hc]. rewrite Hp in Hnd. apply NoDup_app in Hnd as (Hl & Hd & _).
  split; [done|]. split.
  - intros c Hcl Hin. apply (Hd c Hin). rewrite Hcl. apply elem_of_app. right. by left.
  - intros Hclosed. rewrite (Hc Hclosed) in Hp. simpl in Hp. rewrite app_nil_r in Hp.
    split; [done|]. intros w'. unfold GetClient, GetClient_fast, getOrCreateClient.
    by rewrite (Hc Hclosed), Hclosed.
Qed.

End conn_theorems.

(** ** Witnesses *)

Module VmDemo.
(** The world is the time; the VM refuses connections and QEMU has no kernel. *)
#[global] Instance ops : VmManager.Ops Z := {
  VmManager.stateRoot := "";
  VmManager.namespace := "";
  VmManager.mkdirAll := λ _ w, (None, w);
  VmManager.findQemu := λ _, None;
  VmManager.mkdirState := λ _ w, (None, w);
  VmManager.newInstance := λ w, (Err (ErrNew "kernel not found"), w);
  VmManager.inst_Client := λ _ w, (Ok 1, w);
  VmManager.inst_DialClient := λ _ w, (Err (ErrSentinel ECONNREFUSED), w + 1);
  VmManager.inst_Shutdown := λ _ w, (None, w);
  VmManager.now := λ w, (w, w);
  VmManager.sleep := λ d w, w + d }.

#[global] Instance laws : VmManager.ClockLaws Z id.
Proof. split; unfold id; simpl; intros; lia. Qed.

(** Dialing hands out the next number. *)
Definition dial (w : Z) : result Z * Z := (Ok w, w + 1).
End VmDemo.

Lemma failed_create_poisons_manager_witness :
  ∃ e m w', VmManager.CreateVM (W:=Z) "c1" "/run/c1" VmManager.NewManager 0 = (Err e, m, w') ∧
    VmManager.Shutdown m w' = Panic VmManager.nil_deref.
Proof.
  destruct (failed_create_poisons_manager (W:=Z) "c1" "/run/c1" 0)
    as (e & m & w' & H1 & _ & _ & _ & _ & H2); [reflexivity..|].
  by exists e, m, w'.
Defined.

Lemma DialClientWithRetry_terminates_witness :
  is_Some (VmManager.DialClientWithRetry (W:=Z) 53 (VmManager.Inst 1) (1 * Second) 0).
Proof.
  apply (DialClientWithRetry_terminates (W:=Z) id (VmManager.Inst 1) (1 * Second) 0). done.
Defined.

Lemma connections_accounted_witness :
  ∃ r, rtc (ConnManager.step VmDemo.dial)
         (ConnManager.mkRun ConnManager.NewConnectionManager [] [] 7) r ∧
    ConnManager.given r = [7; 3] ∧ ConnManager.log (ConnManager.mgr r) = [7; 3] ∧
    NoDup (ConnManager.log (ConnManager.mgr r)).
Proof.
  eexists. match goal with |- ?P ∧ _ => assert (H : P) end.
  { eapply rtc_l; [eapply (ConnManager.st_get_slow VmDemo.dial ConnManager.NewConnectionManager [] [] 7);
      reflexivity|].
    eapply rtc_l; [apply (ConnManager.st_set_new VmDemo.dial _ _ _ _ 3); apply not_elem_of_cons; split; [done|apply not_elem_of_nil]|].
    eapply rtc_l; [apply ConnManager.st_close|]. apply rtc_refl. }
  split; [exact H|]. split; [reflexivity|]. split; [reflexivity|].
  apply (connections_accounted VmDemo.dial _ 7 H). simpl.
  apply NoDup_cons. split; [|apply NoDup_singleton]. apply not_elem_of_cons.
  split; [done|apply not_elem_of_nil].
Defined.
