(* ===== verification/Resources.v ===== *)
(** * VM resources

    Models internal/shim/resources/config.go (the resources a container's OCI
    spec asks for, the host's, and the VM's configuration) and
    [validateResourceConfig] of internal/host/vm/qemu/instance.go. *)

From S2P Require Import Prelude GoStrings CpuHotplug MemHotplug.
From Stdlib Require Import Ascii.

Module Resources.

(** The part of the OCI spec that is read: [Linux.Resources], if present.
    [Quota] and [Limit] are int64, [Period] is uint64. *)
Record LinuxCPU := mkCPU { Quota : option Z; Period : option Z; Cpus : string }.
Record LinuxMemory := mkMemory { Limit : option Z }.
Record LinuxResources := mkResources { CPU : option LinuxCPU; Memory : option LinuxMemory }.
Definition Spec := option LinuxResources.

Record VMResourceConfig := mkVMConfig
  { BootCPUs : Z; MaxCPUs : Z; MemorySize : Z; MemoryHotplugSize : Z; MemorySlots : Z }.

Record ConfigInfo := mkInfo
  { HasExplicitCPULimit : bool; HasExplicitMemoryLimit : bool; HostCPUs : Z; HostMemory : Z }.

(** ** Memory *)

Definition alignMemory (memory alignment : Z) : outcome Z :=
  if alignment <=? 0 then Panic "alignMemory: invalid alignment (must be > 0)"
  else if negb (Z.land alignment (alignment -i 1) =? 0) then
    Panic "alignMemory: alignment is not a power of 2"
  else if Z.rem memory alignment =? 0 then Return memory
  else Return ((Z.quot memory alignment +i 1) *i alignment).

Definition virtioMemAlignment : Z := 128 * 1024 * 1024.
Definition defaultMemory : Z := 512 * 1024 * 1024.

Definition extractMemoryRequest (spec : Spec) : Z :=
  match spec with
  | Some (mkResources _ (Some mem)) =>
      match Limit mem with
      | Some l => if 0 <? l then l else defaultMemory
      | None => defaultMemory
      end
  | _ => defaultMemory
  end.

(** The scan of /proc/meminfo, line by line. *)
Fixpoint scan_meminfo (lines : list string) : result Z :=
  match lines with
  | [] => Err (ErrNew "MemTotal not found in /proc/meminfo")
  | line :: lines' =>
      if HasPrefix line "MemTotal:" then
        match Fields line with
        | _ :: f1 :: _ =>
            match ParseInt64 f1 with
            | None => Err (ErrNew "failed to parse MemTotal value")
            | Some kb => Ok (kb *i 1024)
            end
        | _ => scan_meminfo lines'
        end
      else scan_meminfo lines'
  end.

Definition getHostMemoryTotal (file : result (list string)) : result Z :=
  match file with
  | Err e => Err (ErrWrap "failed to open /proc/meminfo" e)
  | Ok lines => scan_meminfo lines
  end.

(** ** CPUs *)

(** The loop [for i := start; i <= end; i++]; it does not end when [end] is
    the largest int. *)
Definition cpu_range (start end_ : Z) : option (gset Z) :=
  if end_ =? max_int64 then None
  else Some (list_to_set (seqZ start (end_ - start + 1))).

(** The loop over the comma-separated parts: [None] when it does not end,
    [Some None] when a part is invalid. *)
Fixpoint cpuset_parts (parts : list string) (cpus : gset Z) : option (option (gset Z)) :=
  match parts with
  | [] => Some (Some cpus)
  | part0 :: parts' =>
      let part := TrimSpace part0 in
      if String.eqb part "" then cpuset_parts parts' cpus
      else if Contains part "-" then
        match SplitN part "-" 2 with
        | [r0; r1] =>
            match Atoi (TrimSpace r0) with
            | Some start =>
                if start <? 0 then Some None
                else
                  match Atoi (TrimSpace r1) with
                  | Some end_ =>
                      if (end_ <? 0) || (end_ <? start) then Some None
                      else match cpu_range start end_ with
                           | None => None
                           | Some r => cpuset_parts parts' (r ∪ cpus)
                           end
                  | None => Some None
                  end
            | None => Some None
            end
        | _ => Some None
        end
      else
        match Atoi part with
        | Some cpu => if cpu <? 0 then Some None else cpuset_parts parts' ({[cpu]} ∪ cpus)
        | None => Some None
        end
  end.

Definition parseCPUSet (cpuset0 : string) : option Z :=
  let cpuset := TrimSpace cpuset0 in
  if String.eqb cpuset "" then Some 0
  else match cpuset_parts (Split cpuset ",") ∅ with
       | None => None
       | Some None => Some 0
       | Some (Some cpus) => Some (Z.of_nat (size cpus))
       end.

Definition extractCPURequest (spec : Spec) : option Z :=
  match spec with
  | Some (mkResources (Some cpu) _) =>
      let fallback :=
        if negb (String.eqb (Cpus cpu) "") then
          match parseCPUSet (Cpus cpu) with
          | None => None
          | Some count => if 0 <? count then Some count else Some 1
          end
        else Some 1 in
      match Quota cpu, Period cpu with
      | Some q, Some p =>
          if 0 <? p then
            let cpus := wrap64 (Z.quot q (wrap64 p)) in
            if 0 <? cpus then Some cpus else Some 1
          else fallback
      | _, _ => fallback
      end
  | _ => Some 1
  end.

(** ** ComputeConfig *)

Definition hasExplicitCPULimit (spec : Spec) : bool :=
  match spec with
  | Some (mkResources (Some cpu) _) =>
      bool_decide (is_Some (Quota cpu)) || negb (String.eqb (Cpus cpu) "")
  | _ => false
  end.

Definition hasExplicitMemoryLimit (spec : Spec) : bool :=
  match spec with
  | Some (mkResources _ (Some mem)) => bool_decide (is_Some (Limit mem))
  | _ => false
  end.

Definition conservativeDefault : Z := 4 * 1024 * 1024 * 1024.

(** The host's CPUs and memory are arguments; [None] when the cpuset does not
    parse in finite time. *)
Definition ComputeConfig (hostCPUs : Z) (meminfo : result (list string)) (spec : Spec) :
    option (outcome (VMResourceConfig * ConfigInfo)) :=
  match extractCPURequest spec with
  | None => None
  | Some cpuRequest =>
      let hostMemory0 := match getHostMemoryTotal meminfo with
                         | Err _ => conservativeDefault | Ok m => m
                         end in
      Some (
        outcome_bind (alignMemory (extractMemoryRequest spec) virtioMemAlignment) (λ memoryRequest,
        outcome_bind (alignMemory hostMemory0 virtioMemAlignment) (λ hostMemory,
        let maxCPUs := if hasExplicitCPULimit spec then Z.min cpuRequest hostCPUs else hostCPUs in
        outcome_bind
          (if hasExplicitMemoryLimit spec
           then alignMemory (Z.min (memoryRequest *i 2) hostMemory) virtioMemAlignment
           else Return hostMemory) (λ memoryHotplugSize,
        Return (mkVMConfig cpuRequest maxCPUs memoryRequest memoryHotplugSize 0,
                mkInfo (hasExplicitCPULimit spec) (hasExplicitMemoryLimit spec) hostCPUs
                  hostMemory)))))
  end.

(** ** validateResourceConfig *)

Definition defaultBootCPUs : Z := 1.
Definition defaultMaxCPUs : Z := 2.
Definition defaultMemorySize : Z := 512 * 1024 * 1024.
Definition defaultMemoryMax : Z := 1024 * 1024 * 1024.
Definition defaultMemorySlots : Z := 8.

Definition validateResourceConfig (cfg : option VMResourceConfig) : VMResourceConfig :=
  match cfg with
  | None => mkVMConfig defaultBootCPUs defaultMaxCPUs defaultMemorySize defaultMemoryMax
              defaultMemorySlots
  | Some c =>
      let boot := if BootCPUs c <? 1 then defaultBootCPUs else BootCPUs c in
      let max := if MaxCPUs c <? boot then boot else MaxCPUs c in
      let mem := if MemorySize c <? 1 then defaultMemorySize else MemorySize c in
      let hot := if MemoryHotplugSize c <? mem then mem else MemoryHotplugSize c in
      let slots := if MemorySlots c <? 1 then defaultMemorySlots else MemorySlots c in
      mkVMConfig boot max mem hot slots
  end.

End Resources.

(** ** Theorems *)

Section resource_theorems.
Import Resources.

Lemma align_least memory alignment k :
  0 ≤ k < 62 → alignment = 2 ^ k → 0 ≤ memory ≤ max_int64 - alignment →
  ∃ r, alignMemory memory alignment = Return r ∧
    (alignment | r) ∧ memory ≤ r < memory + alignment ∧
    ∀ r', (alignment | r') → memory ≤ r' → r ≤ r'.
Proof.
  intros Hk -> Hm. set (a := 2 ^ k) in *.
  assert (Ha : 0 < a) by (apply Z.pow_pos_nonneg; lia).
  assert (Ha2 : a < 2 ^ 62) by (apply Z.pow_lt_mono_r; lia).
  assert (Hle : ∀ r r', r < memory + a → (a | r) → (a | r') → memory ≤ r' → r ≤ r').
  { intros r r' Hr [q ->] [q' ->] Hr'. apply Z.mul_le_mono_nonneg_r; [lia|].
    assert (q * a < (q' + 1) * a) as Hlt by lia. apply Z.mul_lt_mono_pos_r in Hlt; lia. }
  unfold alignMemory. destruct (a <=? 0) eqn:E; [go_arith|].
  assert (Hpow : Z.land a (a -i 1) = 0).
  { rewrite wrap64_id by (unfold in_int64, min_int64, max_int64; lia).
    replace (a - 1) with (Z.ones k) by (rewrite Z.ones_equiv; unfold a; lia).
    rewrite Z.land_ones by lia. apply Z.mod_same. lia. }
  rewrite Hpow. simpl. rewrite Z.rem_mod_nonneg, Z.quot_div_nonneg by lia.
  pose proof (Z.div_mod memory a ltac:(lia)) as Hdm. pose proof (Z.mod_pos_bound memory a Ha) as Hmod.
  destruct (memory mod a =? 0) eqn:E0; bool_to_prop.
  - exists memory. split; [done|]. assert (a | memory) by (by apply Z.mod_divide; lia).
    split; [done|]. split; [lia|]. intros. eapply (Hle memory); eauto; lia.
  - set (q := memory / a) in *.
    assert (Hq : 0 ≤ q) by (apply Z.div_pos; lia).
    assert (Hqa : (q + 1) * a ≤ max_int64) by lia.
    assert (Hq1 : q + 1 ≤ max_int64) by nia.
    rewrite (wrap64_id (q + 1)) by (unfold in_int64, min_int64, max_int64 in *; lia).
    rewrite wrap64_id by (unfold in_int64, min_int64, max_int64 in *; nia).
    exists ((q + 1) * a). split; [done|].
    split; [by exists (q + 1)|]. split; [nia|].
    intros. eapply (Hle ((q + 1) * a)); eauto; [nia|by exists (q + 1)].
Qed.

(** [alignMemory] rounds up to the next multiple.  For a positive power
    of two and a size that is not negative and not within one alignment of the
    largest int64, it returns the least multiple of the alignment that is at
    least the size. *)
Theorem alignMemory_least memory alignment k :
  0 ≤ k < 62 → alignment = 2 ^ k → 0 ≤ memory ≤ max_int64 - alignment →
  ∃ r, alignMemory memory alignment = Return r ∧
    (alignment | r) ∧ memory ≤ r < memory + alignment ∧
    ∀ r', (alignment | r') → memory ≤ r' → r ≤ r'.
Proof. apply align_least. Qed.

Lemma align_virtio memory :
  0 ≤ memory ≤ 2 ^ 61 →
  ∃ r, alignMemory memory virtioMemAlignment = Return r ∧ (virtioMemAlignment | r) ∧
    memory ≤ r < memory + virtioMemAlignment.
Proof.
  intros H. destruct (align_least memory virtioMemAlignment 27) as (r & ? & ? & ? & _);
    [lia|reflexivity|unfold max_int64, virtioMemAlignment; lia|]. by exists r.
Qed.

Lemma align_id memory :
  (virtioMemAlignment | memory) → alignMemory memory virtioMemAlignment = Return memory.
Proof.
  intros Hd. unfold alignMemory. change (virtioMemAlignment <=? 0) with false.
  change (negb (Z.land virtioMemAlignment (virtioMemAlignment -i 1) =? 0)) with false. cbv iota.
  apply Z.rem_divide in Hd; [|done]. by rewrite Hd.
Qed.

Lemma extractCPURequest_pos spec n : extractCPURequest spec = Some n → 1 ≤ n.
Proof.
  unfold extractCPURequest. intros H. repeat (case_match; simplify_eq/=; bool_to_prop; try lia).
Qed.

Lemma extractMemoryRequest_pos spec : 0 < extractMemoryRequest spec.
Proof. unfold extractMemoryRequest, defaultMemory. repeat case_match; bool_to_prop; lia. Qed.

Lemma divide_min (d x y : Z) : (d | x) → (d | y) → (d | Z.min x y).
Proof. intros. by destruct (Z.min_spec x y) as [[_ ->]|[_ ->]]. Qed.

Definition host_memory (meminfo : result (list string)) : Z :=
  match getHostMemoryTotal meminfo with Err _ => conservativeDefault | Ok m => m end.

(** The resources of a VM are sound.  For any spec (with a memory limit of
    at most 2^60 bytes) and any host (at least one CPU, at most 2^61 bytes of
    memory), the configuration is computed without panic, and what QEMU is
    started with after validation satisfies: at least one boot vCPU, no more
    boot vCPUs than the maximum; the memory is at least what was asked for, a
    multiple of 128 MiB as virtio-mem needs, and no more than the hot-plug
    limit, which is a multiple too; an explicit memory limit bounds the hot-plug
    limit by twice the memory. *)
Theorem vm_resources_sound hostCPUs meminfo spec n :
  1 ≤ hostCPUs → 0 ≤ host_memory meminfo ≤ 2 ^ 61 → extractMemoryRequest spec ≤ 2 ^ 60 →
  extractCPURequest spec = Some n →
  ∃ cfg info, ComputeConfig hostCPUs meminfo spec = Some (Return (cfg, info)) ∧
    let v := validateResourceConfig (Some cfg) in
    1 ≤ BootCPUs v ≤ MaxCPUs v ∧
    extractMemoryRequest spec ≤ MemorySize v ≤ MemoryHotplugSize v ∧
    (virtioMemAlignment | MemorySize v) ∧ (virtioMemAlignment | MemoryHotplugSize v) ∧
    (hasExplicitMemoryLimit spec = true → MemoryHotplugSize v ≤ 2 * MemorySize v) ∧
    1 ≤ MemorySlots v.
Proof.
  intros Hcpu Hhost Hreq Hn. unfold ComputeConfig. rewrite Hn.
  pose proof (extractMemoryRequest_pos spec) as Hpos. pose proof (extractCPURequest_pos _ _ Hn) as Hn1.
  destruct (align_virtio (extractMemoryRequest spec)) as (mem & Em & Dm & Bm); [lia|].
  destruct (align_virtio (host_memory meminfo)) as (host & Eh & Dh & Bh); [lia|].
  unfold host_memory in Eh. rewrite Em, Eh. cbn [outcome_bind].
  set (max := if hasExplicitCPULimit spec then Z.min n hostCPUs else hostCPUs).
  assert (Hv : virtioMemAlignment = 134217728) by reflexivity.
  assert (H2 : mem *i 2 = mem * 2) by (apply wrap64_id; unfold in_int64, min_int64, max_int64; lia).
  assert (Hhot : ∃ hot, (if hasExplicitMemoryLimit spec
     then alignMemory (Z.min (mem *i 2) host) virtioMemAlignment else Return host) = Return hot ∧
     (virtioMemAlignment | hot) ∧ (hasExplicitMemoryLimit spec = true → hot ≤ 2 * mem)).
  { destruct (hasExplicitMemoryLimit spec); [|by exists host]. rewrite H2.
    assert (virtioMemAlignment | Z.min (mem * 2) host) by (apply divide_min; [by apply Z.divide_mul_l|done]).
    exists (Z.min (mem * 2) host). rewrite align_id by done. split; [done|]. split; [done|]. lia. }
  destruct Hhot as (hot & -> & Dhot & Bhot). cbn [outcome_bind]. eexists _, _. split; [done|].
  unfold validateResourceConfig. cbn [BootCPUs MaxCPUs MemorySize MemoryHotplugSize MemorySlots].
  destruct (n <? 1) eqn:E1; [go_arith|]. destruct (mem <? 1) eqn:E2; [go_arith|].
  destruct (max <? n) eqn:E3; destruct (hot <? mem) eqn:E4; bool_to_prop;
    (split; [lia|split; [lia|split; [done|split; [done|split; [|done]]]]]); intros He;
    try specialize (Bhot He); lia.
Qed.

(** Validation undoes the cap on vCPUs.  [ComputeConfig] caps the maximum
    at the host's CPUs, but it leaves the boot vCPUs at the requested number,
    and [validateResourceConfig] raises the maximum to it: a container that asks
    for more CPUs than the host has gets a VM with that many. *)
Theorem cpu_cap_undone hostCPUs meminfo spec n cfg info :
  extractCPURequest spec = Some n → hasExplicitCPULimit spec = true → 1 ≤ hostCPUs < n →
  ComputeConfig hostCPUs meminfo spec = Some (Return (cfg, info)) →
  MaxCPUs cfg = hostCPUs ∧ MaxCPUs (validateResourceConfig (Some cfg)) = n ∧
  BootCPUs (validateResourceConfig (Some cfg)) = n.
Proof.
  intros Hn He Hr H. unfold ComputeConfig in H. rewrite Hn, He in H.
  destruct (alignMemory (extractMemoryRequest spec) _); [|done].
  destruct (alignMemory (match getHostMemoryTotal meminfo with _ => _ end) _); [|done].
  cbn [outcome_bind] in H.
  destruct (if hasExplicitMemoryLimit spec then _ else _); [|done]. cbn [outcome_bind] in H.
  simplify_eq. cbn [BootCPUs MaxCPUs validateResourceConfig].
  destruct (n <? 1) eqn:E1; [go_arith|]. destruct (Z.min n hostCPUs <? n) eqn:E2; [|go_arith].
  split; [lia|done].
Qed.

(** An unlimited quota is taken for a limit.  A CFS quota of -1 (the OCI
    spec's "no limit") with a period counts as an explicit limit of one CPU, so
    the VM gets one vCPU and no CPU hot-plug; without the quota it could have
    all the host's CPUs. *)
Theorem unlimited_quota_is_one_cpu hostCPUs meminfo period mem cfg info :
  0 < period < 2 ^ 63 → 1 ≤ hostCPUs →
  ComputeConfig hostCPUs meminfo
    (Some (mkResources (Some (mkCPU (Some (-1)) (Some period) "")) mem)) = Some (Return (cfg, info)) →
  BootCPUs cfg = 1 ∧ MaxCPUs cfg = 1 ∧
  ∀ cfg' info', ComputeConfig hostCPUs meminfo
    (Some (mkResources (Some (mkCPU None (Some period) "")) mem)) = Some (Return (cfg', info')) →
    MaxCPUs cfg' = hostCPUs.
Proof.
  intros Hp Hc H.
  assert (Hq : ∀ spec n cfg info, extractCPURequest spec = Some n →
    ComputeConfig hostCPUs meminfo spec = Some (Return (cfg, info)) →
    BootCPUs cfg = n ∧ MaxCPUs cfg = if hasExplicitCPULimit spec then Z.min n hostCPUs else hostCPUs).
  { intros spec n cfg0 info0 Hn H0. unfold ComputeConfig in H0. rewrite Hn in H0.
    destruct (alignMemory (extractMemoryRequest spec) _); [|done].
    destruct (alignMemory (match getHostMemoryTotal meminfo with _ => _ end) _); [|done].
    cbn [outcome_bind] in H0.
    destruct (if hasExplicitMemoryLimit spec then _ else _); [|done]. cbn [outcome_bind] in H0.
    by simplify_eq. }
  assert (H1 : extractCPURequest (Some (mkResources (Some (mkCPU (Some (-1)) (Some period) "")) mem))
               = Some 1).
  { simpl. destruct (0 <? period) eqn:E; [|go_arith].
    rewrite (wrap64_id period) by (unfold in_int64, min_int64, max_int64; lia).
    assert (wrap64 (Z.quot (-1) period) ≤ 0); [|by case_match; [go_arith|]].
    assert (Hz : -1 ≤ Z.quot (-1) period ≤ 0).
    { destruct (decide (period = 1)) as [->|]; [done|].
      change (-1) with (- (1)). rewrite Z.quot_opp_l by lia. rewrite Z.quot_small by lia. lia. }
    rewrite wrap64_id; [lia|]. unfold in_int64, min_int64, max_int64. lia. }
  destruct (Hq _ _ _ _ H1 H) as [-> ->]. simpl. split; [done|]. split; [lia|].
  intros cfg' info' H'. by apply (Hq _ 1) in H' as [_ ->].
Qed.

(** ** cpusets *)

(** The kernel's text of a cpuset: ranges and single CPUs, separated by commas. *)
Definition print_range (r : Z * Z) : string :=
  if r.1 =? r.2 then fmt_d r.1 else fmt_d r.1 +:+ String "-" (fmt_d r.2).
Definition print_cpuset (l : list (Z * Z)) : string := strings_Join (print_range <$> l) ",".
Definition range_set (r : Z * Z) : gset Z := list_to_set (seqZ r.1 (r.2 - r.1 + 1)).
Definition range_ok (r : Z * Z) : Prop := 0 ≤ r.1 ≤ r.2 ∧ r.2 < max_int64.

(** The characters of a cpuset. *)
Definition range_char (a : ascii) : bool := is_digit a || Ascii.eqb a "-".

Lemma fmt_d_all (P : ascii → bool) z :
  (∀ a, is_digit a = true → P a = true) → 0 ≤ z → str_all P (fmt_d z) = true.
Proof. intros HP Hz. eapply str_all_impl; [exact HP|]. by apply fmt_d_digits. Qed.

Lemma print_range_all r :
  range_ok r → str_all range_char (print_range r) = true ∧ print_range r ≠ "".
Proof.
  intros [H1 H2]. assert (Hd : ∀ z, 0 ≤ z → str_all range_char (fmt_d z) = true).
  { intros z Hz. apply fmt_d_all; [|done]. intros a Ha. unfold range_char. by rewrite Ha. }
  unfold print_range. case_match.
  - split; [apply Hd; lia|]. apply fmt_d_digits. lia.
  - split.
    + rewrite str_all_app. apply andb_true_intro. split; [apply Hd; lia|]. apply Hd. lia.
    + destruct (fmt_d_digits r.1) as (_ & _ & Hne); [lia|]. by destruct (fmt_d r.1).
Qed.

Lemma range_char_not_comma a : range_char a = true → not_char "," a = true.
Proof. destruct a as [[] [] [] [] [] [] [] []]; vm_compute; done. Qed.
Lemma range_char_not_space a : range_char a = true → negb (is_space a) = true.
Proof. destruct a as [[] [] [] [] [] [] [] []]; vm_compute; done. Qed.

Lemma split_cpuset l :
  l ≠ [] → Forall range_ok l → Split (print_cpuset l) "," = print_range <$> l.
Proof.
  intros Hne Hall. induction Hall as [|r l Hr Hall IH]; [done|].
  destruct (print_range_all r Hr) as [Ha _].
  pose proof (str_all_impl _ _ _ range_char_not_comma Ha) as Hc.
  destruct l as [|r2 l]; [by apply Split_single|].
  change (print_cpuset (r :: r2 :: l)) with (print_range r +:+ String "," (print_cpuset (r2 :: l))).
  rewrite Split_app by done. by rewrite IH.
Qed.

Lemma cpuset_no_space l :
  Forall range_ok l → str_all (λ a, negb (is_space a)) (print_cpuset l) = true.
Proof.
  intros Hall. induction Hall as [|r l Hr Hall IH]; [done|].
  destruct (print_range_all r Hr) as [Ha _].
  pose proof (str_all_impl _ _ _ range_char_not_space Ha) as Hc.
  destruct l as [|r2 l]; [done|].
  change (print_cpuset (r :: r2 :: l)) with (print_range r +:+ String "," (print_cpuset (r2 :: l))).
  rewrite str_all_app, Hc. exact IH.
Qed.

(** One part of the list. *)
Lemma cpuset_part r parts cpus :
  range_ok r →
  cpuset_parts (print_range r :: parts) cpus = cpuset_parts parts (range_set r ∪ cpus).
Proof.
  intros Hr. destruct (print_range_all r Hr) as [Ha Hne]. cbn [cpuset_parts].
  rewrite (TrimSpace_id (print_range r)) by (eapply str_all_impl; [exact range_char_not_space|done]).
  destruct (String.eqb (print_range r) "") eqn:E; [by apply String.eqb_eq in E|].
  destruct r as [a b]. destruct Hr as [Hab Hb]. simpl in Hab, Hb.
  assert (Hts : ∀ z, 0 ≤ z → TrimSpace (fmt_d z) = fmt_d z).
  { intros z Hz. apply TrimSpace_id, fmt_d_all; [apply digit_not_space|done]. }
  unfold print_range in *. cbn [fst snd] in *. destruct (a =? b) eqn:Eab; bool_to_prop.
  - subst b. rewrite Contains_char_none by (apply fmt_d_all; [apply digit_not_dash|lia]).
    rewrite Atoi_fmt_d by lia. destruct (a <? 0) eqn:E0; [go_arith|]. f_equal. f_equal.
    unfold range_set. cbn [fst snd]. replace (a - a + 1) with 1 by lia.
    rewrite seqZ_cons, seqZ_nil by lia. simpl. set_solver.
  - assert (Hcon : Contains (fmt_d a +:+ String "-" (fmt_d b)) "-" = true).
    { exact (Contains_app (fmt_d a) "-" (fmt_d b)). }
    rewrite Hcon. rewrite SplitN2_app by (apply fmt_d_all; [apply digit_not_dash|lia]).
    rewrite !Hts by lia. rewrite !Atoi_fmt_d by lia.
    destruct (a <? 0) eqn:E0; [go_arith|]. destruct (_ || _) eqn:E1; [go_arith|].
    unfold cpu_range. destruct (b =? max_int64) eqn:E2; [go_arith|]. done.
Qed.

Lemma cpuset_all l cpus :
  Forall range_ok l →
  cpuset_parts (print_range <$> l) cpus = Some (Some (⋃ (range_set <$> l) ∪ cpus)).
Proof.
  intros Hall. revert cpus. induction Hall as [|r l Hr Hall IH]; intros cpus.
  - simpl. f_equal. f_equal. set_solver.
  - rewrite fmap_cons, cpuset_part by done. rewrite IH. f_equal. f_equal. simpl. set_solver.
Qed.

(** Reading back a cpuset gives its size: for the kernel's text of any
    non-empty list of ranges (overlapping ones included), [parseCPUSet] returns
    the number of distinct CPUs. *)
Theorem parseCPUSet_roundtrip l :
  l ≠ [] → Forall range_ok l →
  parseCPUSet (print_cpuset l) = Some (Z.of_nat (size (⋃ (range_set <$> l)))).
Proof.
  intros Hne Hall. unfold parseCPUSet. rewrite TrimSpace_id by (by apply cpuset_no_space).
  destruct (String.eqb (print_cpuset l) "") eqn:E.
  { apply String.eqb_eq in E. exfalso. destruct l as [|r l]; [done|].
    apply Forall_cons in Hall as [Hr _]. destruct (print_range_all r Hr) as [_ Hn].
    destruct l as [|r2 l]; [done|].
    change (print_range r +:+ String "," (print_cpuset (r2 :: l)) = "") in E.
    by destruct (print_range r). }
  rewrite split_cpuset by done. rewrite cpuset_all by done. by rewrite (right_id_L ∅ (∪)).
Qed.

End resource_theorems.

(** ** Witnesses *)

Lemma alignMemory_least_witness :
  ∃ r, Resources.alignMemory (600 * 1024 * 1024) (2 ^ 27) = Return r ∧ r = 640 * 1024 * 1024.
Proof.
  destruct (alignMemory_least (600 * 1024 * 1024) (2 ^ 27) 27) as (r & Hr & _);
    [lia|reflexivity|unfold max_int64; lia|].
  exists r. split; [exact Hr|]. vm_compute in Hr. injection Hr as <-. reflexivity.
Defined.

(** Two CPUs by quota, a limit of 600 MiB, a host with 4 CPUs and 16 GB. *)
Definition demo_meminfo : result (list string) :=
  Ok ["MemTotal:       16384000 kB"; "MemFree: 1 kB"].
Definition demo_spec (quota : Z) : Resources.Spec :=
  Some (Resources.mkResources (Some (Resources.mkCPU (Some quota) (Some 100000) ""))
          (Some (Resources.mkMemory (Some (600 * 1024 * 1024))))).

Lemma vm_resources_sound_witness :
  ∃ cfg info, Resources.ComputeConfig 4 demo_meminfo (demo_spec 200000) = Some (Return (cfg, info)) ∧
    Resources.BootCPUs cfg = 2 ∧
    1 ≤ Resources.BootCPUs (Resources.validateResourceConfig (Some cfg)).
Proof.
  destruct (vm_resources_sound 4 demo_meminfo (demo_spec 200000) 2) as (cfg & info & H & Hb & _);
    [lia|vm_compute; by split|vm_compute; discriminate|vm_compute; reflexivity|].
  exists cfg, info. split; [exact H|]. split; [|lia]. vm_compute in H. by injection H as <- _.
Defined.

Lemma cpu_cap_undone_witness :
  ∃ cfg info, Resources.ComputeConfig 4 demo_meminfo (demo_spec 6400000) = Some (Return (cfg, info)) ∧
    Resources.MaxCPUs cfg = 4 ∧
    Resources.MaxCPUs (Resources.validateResourceConfig (Some cfg)) = 64.
Proof.
  eexists _, _. match goal with |- ?P ∧ _ => assert (H : P) by (vm_compute; reflexivity) end.
  split; [exact H|].
  destruct (cpu_cap_undone 4 demo_meminfo (demo_spec 6400000) 64 _ _ eq_refl eq_refl
              ltac:(lia) H) as (H1 & H2 & _). by split.
Defined.

Lemma unlimited_quota_is_one_cpu_witness :
  ∃ cfg info, Resources.ComputeConfig 4 demo_meminfo
    (Some (Resources.mkResources (Some (Resources.mkCPU (Some (-1)) (Some 100000) "")) None))
      = Some (Return (cfg, info)) ∧ Resources.MaxCPUs cfg = 1.
Proof.
  eexists _, _. match goal with |- ?P ∧ _ => assert (H : P) by (vm_compute; reflexivity) end.
  split; [exact H|].
  apply (unlimited_quota_is_one_cpu 4 demo_meminfo 100000 None _ _ ltac:(lia) ltac:(lia) H).
Defined.

Lemma parseCPUSet_roundtrip_witness :
  print_cpuset [(0, 3); (2, 2); (8, 11)] = "0-3,2,8-11" ∧
  Resources.parseCPUSet "0-3,2,8-11" = Some 8.
Proof.
  split; [vm_compute; reflexivity|].
  apply (parseCPUSet_roundtrip [(0, 3); (2, 2); (8, 11)]); [done|].
  repeat constructor; simpl; unfold max_int64; lia.
Defined.
