(* ===== verification/QemuCmd.v ===== *)
(** * The QEMU command line

    Models internal/host/vm/qemu/qemu_command.go (the builder of QEMU's
    arguments), kernel_cmdline.go (the guest kernel's command line),
    [formatInitArgs] and [needsQuoting] of utils.go, [newInstancePaths] of
    instance.go, the types of types.go and qemu.go, and
    [buildKernelCommandLine], [buildQemuCommandLine] and the choice of the
    inherited files of [startQemuProcess] of start.go.  A builder is its list
    of arguments. *)

From S2P Require Import Prelude GoStrings Resources.
From Stdlib Require Import Ascii.

Module Qemu.

(** ** types.go, vm.go and qemu.go *)

Record DiskConfig := mkDisk { disk_ID : string; Path : string; Readonly : bool }.

(** [TapFile] is the file's address, [None] for a nil pointer. *)
Record NetConfig := mkNet { net_ID : string; TapName : string; TapFile : option Z; MAC : string }.

Record NetworkConfig := mkNetwork
  { InterfaceName : string; IP : string; Gateway : string; Netmask : string; DNS : list string }.

Record StartOpts := mkStartOpts
  { InitArgs : list string; so_NetworkConfig : option NetworkConfig; NetworkNamespace : string }.

Record instancePaths := mkPaths
  { stateDir : string; logDir : string; qmpSocketPath : string; vsockPath : string;
    consolePath : string; consoleFifoPath : string; qemuLogPath : string }.

Definition maxUnixSocketPath : Z := 107.
Definition len (s : string) : Z := Z.of_nat (String.length s).

(** [stateDir] and [logDir] are clean paths ([filepath.Join] only adds the
    separator). *)
Definition newInstancePaths (stateDir logDir : string) : result instancePaths :=
  let p := mkPaths stateDir logDir (stateDir +:+ "/qmp.sock") (stateDir +:+ "/vsock.sock")
             (logDir +:+ "/console.log") (stateDir +:+ "/console.fifo") (logDir +:+ "/qemu.log") in
  if maxUnixSocketPath <? len (qmpSocketPath p) then
    Err (ErrNew ("QMP socket path too long (" +:+ fmt_d (len (qmpSocketPath p)) +:+ " > " +:+
           fmt_d maxUnixSocketPath +:+ "): " +:+ qmpSocketPath p))
  else if maxUnixSocketPath <? len (vsockPath p) then
    Err (ErrNew ("vsock socket path too long (" +:+ fmt_d (len (vsockPath p)) +:+ " > " +:+
           fmt_d maxUnixSocketPath +:+ "): " +:+ vsockPath p))
  else Ok p.

(** ** utils.go: the arguments of init *)

Fixpoint needsQuoting (s : string) : bool :=
  match s with
  | EmptyString => false
  | String c s' =>
      Ascii.eqb c " " || Ascii.eqb c "009" || Ascii.eqb c "010" || needsQuoting s'
  end.

Definition dquote : ascii := "034".
Definition quote (arg : string) : string := String dquote (arg +:+ String dquote "").

Fixpoint formatInitArgs (args : list string) : string :=
  match args with
  | [] => ""
  | [a] => if negb (needsQuoting a) then a else quote a
  | a :: args' =>
      (if negb (needsQuoting a) then a else quote a) +:+ " " +:+ formatInitArgs args'
  end.

(** ** kernel_cmdline.go *)

Record KernelCmdlineConfig := mkCmdline
  { Console : string; VsockRPCPort : Z; VsockStreamPort : Z; VsockCID : Z;
    Network : option NetworkConfig; kc_InitArgs : list string; Quiet : bool; LogLevel : Z }.

Definition DefaultRPCPort : Z := 1025.
Definition DefaultStreamPort : Z := 1026.

Definition DefaultKernelCmdlineConfig : KernelCmdlineConfig :=
  mkCmdline "ttyS0" DefaultRPCPort DefaultStreamPort 0 None [] true 3.

Definition buildNetworkParam (netCfg : option NetworkConfig) : string :=
  match netCfg with
  | None => ""
  | Some c =>
      if String.eqb (IP c) "" then ""
      else
        "ip=" +:+ IP c +:+ "::" +:+ Gateway c +:+ ":" +:+ Netmask c +:+ "::eth0:none" +:+
        String.concat "" ((λ dns, ":" +:+ dns) <$> take 2 (DNS c))
  end.

Definition buildInitArgs (cfg : KernelCmdlineConfig) : list string :=
  ["-vsock-rpc-port=" +:+ fmt_d (VsockRPCPort cfg);
   "-vsock-stream-port=" +:+ fmt_d (VsockStreamPort cfg);
   "-vsock-cid=" +:+ fmt_d (VsockCID cfg)] ++ kc_InitArgs cfg.

Definition cmdline_parts (cfg : KernelCmdlineConfig) : list string :=
  (if negb (String.eqb (Console cfg) "") then ["console=" +:+ Console cfg] else []) ++
  (if Quiet cfg then ["quiet"] else []) ++
  ["loglevel=" +:+ fmt_d (LogLevel cfg);
   "systemd.show_status=0"; "systemd.log_level=warning"; "panic=1"; "net.ifnames=0";
   "biosdevname=0"; "systemd.unified_cgroup_hierarchy=1"; "cgroup_no_v1=all"; "nohz=off"] ++
  (let netParam := buildNetworkParam (Network cfg) in
   if negb (String.eqb netParam "") then [netParam] else []).

Definition BuildKernelCmdline (cfg : KernelCmdlineConfig) : string :=
  strings_Join
    (cmdline_parts cfg ++ ["init=/sbin/vminitd -- " +:+ formatInitArgs (buildInitArgs cfg)]) " ".

(** ** qemu_command.go: the builder *)

Definition qemuCommandBuilder := list string.
Definition newQemuCommandBuilder : qemuCommandBuilder := [].

Definition setBIOSPath (path : string) (b : qemuCommandBuilder) := b ++ ["-L"; path].
Definition setNoDefaults (b : qemuCommandBuilder) := b ++ ["-nodefaults"].

Definition with_options (s : string) (options : list string) : string :=
  match options with [] => s | _ => s +:+ "," +:+ strings_Join options "," end.

Definition setMachine (machineType : string) (options : list string) (b : qemuCommandBuilder) :=
  b ++ ["-machine"; with_options machineType options].
Definition setCPU (model : string) (features : list string) (b : qemuCommandBuilder) :=
  b ++ ["-cpu"; with_options model features].

Definition setSMP (bootCPUs maxCPUs : Z) (b : qemuCommandBuilder) :=
  if (0 <? maxCPUs) && negb (maxCPUs =? bootCPUs)
  then b ++ ["-smp"; fmt_d bootCPUs +:+ ",maxcpus=" +:+ fmt_d maxCPUs]
  else b ++ ["-smp"; fmt_d bootCPUs].

Definition setMemory (memoryMB slots maxMemoryMB : Z) (b : qemuCommandBuilder) :=
  if (0 <? slots) && (memoryMB <? maxMemoryMB)
  then b ++ ["-m"; fmt_d memoryMB +:+ ",slots=" +:+ fmt_d slots +:+ ",maxmem=" +:+
                   fmt_d maxMemoryMB +:+ "M"]
  else b ++ ["-m"; fmt_d memoryMB].

Definition setKernel (path : string) (b : qemuCommandBuilder) := b ++ ["-kernel"; path].
Definition setInitrd (path : string) (b : qemuCommandBuilder) := b ++ ["-initrd"; path].
Definition setKernelArgs (cmdline : string) (b : qemuCommandBuilder) := b ++ ["-append"; cmdline].
Definition setNoGraphic (b : qemuCommandBuilder) := b ++ ["-nographic"].
Definition setSerial (config : string) (b : qemuCommandBuilder) := b ++ ["-serial"; config].
Definition addDevice (device : string) (b : qemuCommandBuilder) := b ++ ["-device"; device].
Definition addVsockDevice (guestCID : Z) (b : qemuCommandBuilder) :=
  addDevice ("vhost-vsock-pci,guest-cid=" +:+ fmt_d guestCID) b.
Definition addVirtioRNG (b : qemuCommandBuilder) := addDevice "virtio-rng-pci" b.
Definition setQMP (config : string) (b : qemuCommandBuilder) := b ++ ["-qmp"; config].
Definition setQMPUnixSocket (socketPath : string) (b : qemuCommandBuilder) :=
  setQMP ("unix:" +:+ socketPath +:+ ",server=on,wait=off") b.

Definition disk_format (path : string) : string :=
  if HasSuffix path ".vmdk" then "vmdk"
  else if HasSuffix path ".qcow2" then "qcow2" else "raw".

Definition addDisk (id : string) (disk : DiskConfig) (b : qemuCommandBuilder) :=
  b ++ ["-drive";
        ("file=" +:+ Path disk +:+ ",if=none,id=" +:+ id +:+ ",format=" +:+
         disk_format (Path disk)) +:+ (if Readonly disk then ",readonly=on" else "")]
    ++ ["-device"; "virtio-blk-pci,drive=" +:+ id].

Record NICConfig := mkNIC { TapFD : Z; nic_MAC : string }.

Definition addNIC (id : string) (nic : NICConfig) (b : qemuCommandBuilder) :=
  b ++ ["-netdev"; "tap,id=" +:+ id +:+ ",fd=" +:+ fmt_d (TapFD nic);
        "-device"; "virtio-net-pci,netdev=" +:+ id +:+ ",mac=" +:+ nic_MAC nic +:+ ",romfile="].

Definition build (b : qemuCommandBuilder) : list string := b.

(** ** qemu.go: the instance

    The fields that are fixed by [newInstance] are grouped in
    [InstanceConfig]; the others follow as in the source.  A handle (open
    file, client, connection, lease) is its address, [None] for nil.  [cmd] is
    [None] for a nil command, and otherwise holds the pid of its [Process] if
    it was started. *)

Inductive vmState := vmStateNew | vmStateStarting | vmStateRunning | vmStateShutdown.

#[global] Instance vmState_eq_dec : EqDecision vmState.
Proof. solve_decision. Defined.

(** [%d] of a state. *)
Definition vmState_int (s : vmState) : Z :=
  match s with
  | vmStateNew => 0 | vmStateStarting => 1 | vmStateRunning => 2 | vmStateShutdown => 3
  end.

Record InstanceConfig := mkConfig
  { binaryPath : string; kernelPath : string; initrdPath : string;
    resourceCfg : Resources.VMResourceConfig; guestCID : Z; paths : instancePaths }.

Record Instance := mkInstance
  { config : InstanceConfig;
    state : vmState;
    cidLease : option Z;
    consoleFile : option Z;
    consoleFifo : option Z;
    cmd : option (option Z);
    qmpClient : option Z;
    client : option Z;
    vsockConn : option Z;
    runCancel : bool;
    tapNetns : string;
    disks : list DiskConfig;
    nets : list NetConfig;
    networkCfg : option NetworkConfig }.

(** ** start.go: the command lines *)

Definition buildKernelCommandLine (q : Instance) (startOpts : StartOpts) : string :=
  let d := DefaultKernelCmdlineConfig in
  BuildKernelCmdline
    (mkCmdline (Console d) (VsockRPCPort d) (VsockStreamPort d) (guestCID (config q))
       (so_NetworkConfig startOpts) (InitArgs startOpts) (Quiet d) (LogLevel d)).

Definition MiB : Z := 1024 * 1024.

(** The fluent part of [buildQemuCommandLine], up to the disks. *)
Definition base_command (sharePath cmdlineArgs : string) (q : Instance) : qemuCommandBuilder :=
  let c := config q in
  let r := resourceCfg c in
  let memoryMB := Z.quot (Resources.MemorySize r) MiB in
  let memoryMaxMB := Z.quot (Resources.MemoryHotplugSize r) MiB in
  let memorySlots :=
    if Resources.MemoryHotplugSize r <=? Resources.MemorySize r then 0
    else Resources.defaultMemorySlots in
  let b := setNoDefaults newQemuCommandBuilder in
  let b := setBIOSPath sharePath b in
  let b := setMachine "q35" ["accel=kvm"; "kernel-irqchip=on"; "hpet=off"; "acpi=on"] b in
  let b := setCPU "host" ["migratable=on"] b in
  let b := setSMP (Resources.BootCPUs r) (Resources.MaxCPUs r) b in
  let b := setMemory memoryMB memorySlots memoryMaxMB b in
  let b := setKernel (kernelPath c) b in
  let b := setInitrd (initrdPath c) b in
  let b := setKernelArgs cmdlineArgs b in
  let b := setNoGraphic b in
  let b := setSerial ("file:" +:+ consoleFifoPath (paths c)) b in
  let b := addVsockDevice (guestCID c) b in
  let b := setQMPUnixSocket (qmpSocketPath (paths c)) b in
  addVirtioRNG b.

Fixpoint add_disks (i : Z) (ds : list DiskConfig) (b : qemuCommandBuilder) : qemuCommandBuilder :=
  match ds with
  | [] => b
  | disk :: ds' => add_disks (i + 1) ds' (addDisk ("blk" +:+ fmt_d i) disk b)
  end.

Fixpoint add_nics (i : Z) (ns : list NetConfig) (b : qemuCommandBuilder) :
    result qemuCommandBuilder :=
  match ns with
  | [] => Ok b
  | nic :: ns' =>
      match TapFile nic with
      | None => Err (ErrNew ("internal error: NIC " +:+ TapName nic +:+
                  " has no TAP file descriptor (openTapFiles not called?)"))
      | Some _ => add_nics (i + 1) ns' (addNIC ("net" +:+ fmt_d i) (mkNIC (3 + i) (MAC nic)) b)
      end
  end.

(** [sharePath] is [config.Get()] followed by [paths.QemuSharePath]. *)
Definition buildQemuCommandLine (sharePath : result string) (cmdlineArgs : string) (q : Instance) :
    result (list string) :=
  match sharePath with
  | Err e => Err (ErrWrap "failed to get config" e)
  | Ok share =>
      match add_nics 0 (nets q) (add_disks 0 (disks q) (base_command share cmdlineArgs q)) with
      | Err e => Err e
      | Ok b => Ok (build b)
      end
  end.

(** [q.cmd.ExtraFiles] as [startQemuProcess] fills it; file [i] of the list is
    descriptor [3 + i] of the process. *)
Definition extraFiles (q : Instance) : list Z := omap TapFile (nets q).

End Qemu.

(** ** Theorems *)

Section cmd_theorems.
Import Qemu.

Definition nic_args (i : Z) (nic : NetConfig) : list string :=
  ["-netdev"; "tap,id=net" +:+ fmt_d i +:+ ",fd=" +:+ fmt_d (3 + i);
   "-device"; "virtio-net-pci,netdev=net" +:+ fmt_d i +:+ ",mac=" +:+ MAC nic +:+ ",romfile="].

Definition disk_args (i : Z) (d : DiskConfig) : list string :=
  addDisk ("blk" +:+ fmt_d i) d [].

Lemma imap_shift {A B} (f : Z → A → B) i l :
  imap (λ k x, f (i + 1 + Z.of_nat k) x) l = imap ((λ k x, f (i + Z.of_nat k) x) ∘ S) l.
Proof. apply imap_ext. intros k x _. simpl. f_equal. lia. Qed.

Lemma add_disks_app i ds b :
  add_disks i ds b = b ++ concat (imap (λ k d, disk_args (i + Z.of_nat k) d) ds).
Proof.
  revert i b. induction ds as [|d ds IH]; intros i b; simpl; [by rewrite app_nil_r|].
  rewrite IH, imap_shift. unfold addDisk at 1. by rewrite <- !app_assoc, Z.add_0_r.
Qed.

Lemma add_nics_app i ns b args :
  add_nics i ns b = Ok args →
  args = b ++ concat (imap (λ k n, nic_args (i + Z.of_nat k) n) ns) ∧
  Forall (λ n, is_Some (TapFile n)) ns.
Proof.
  revert i b. induction ns as [|n ns IH]; intros i b; simpl.
  { intros [= <-]. by rewrite app_nil_r. }
  destruct (TapFile n) as [f|] eqn:E; [|done]. intros [-> H]%IH. split.
  - rewrite imap_shift. unfold addNIC. by rewrite <- app_assoc, Z.add_0_r.
  - constructor; [by rewrite E|done].
Qed.

Lemma omap_TapFile ns :
  Forall (λ n, is_Some (TapFile n)) ns → omap TapFile ns = (λ n, default 0 (TapFile n)) <$> ns.
Proof.
  induction 1 as [|n ns [f Hf] _ IH]; [done|]. rewrite fmap_cons, <- IH. simpl. by rewrite Hf.
Qed.

(** The devices QEMU gets are the configured ones, in order, and the file
    descriptor of each NIC's netdev is the one under which the process inherits
    that NIC's own TAP file. *)
Lemma command_line_devices share cmdline q args :
  buildQemuCommandLine share cmdline q = Ok args →
  (∃ sharePath, share = Ok sharePath ∧
     args = base_command sharePath cmdline q ++
            concat (imap (λ i d, disk_args (Z.of_nat i) d) (disks q)) ++
            concat (imap (λ i n, nic_args (Z.of_nat i) n) (nets q))) ∧
  length (extraFiles q) = length (nets q) ∧
  (∀ i nic, nets q !! i = Some nic → ∃ f, TapFile nic = Some f ∧ extraFiles q !! i = Some f).
Proof.
  unfold buildQemuCommandLine. destruct share as [sp|e]; [|done].
  destruct (add_nics _ _ _) as [b|e] eqn:E; [|done]. intros [= <-].
  apply add_nics_app in E as [-> Hf]. unfold extraFiles. rewrite (omap_TapFile _ Hf).
  split; [|split].
  - exists sp. split; [done|]. rewrite add_disks_app. by rewrite <- app_assoc.
  - apply length_fmap.
  - intros i nic Hi. rewrite list_lookup_fmap, Hi. simpl. rewrite Forall_lookup in Hf.
    destruct (Hf _ _ Hi) as [f ->]. by exists f.
Qed.

(** QEMU gets the devices that were configured, wired to the right files.
    The arguments end with the disks and the NICs in order, under distinct
    names, and the descriptor named in the netdev of NIC [i] is the one
    under which the process inherits the TAP file of NIC [i]. *)
Theorem qemu_devices_wired share cmdline q args :
  buildQemuCommandLine share cmdline q = Ok args →
  (∃ sharePath, share = Ok sharePath ∧
     args = base_command sharePath cmdline q ++
            concat (imap (λ i d, disk_args (Z.of_nat i) d) (disks q)) ++
            concat (imap (λ i n, nic_args (Z.of_nat i) n) (nets q))) ∧
  length (extraFiles q) = length (nets q) ∧
  (∀ i nic, nets q !! i = Some nic → ∃ f, TapFile nic = Some f ∧ extraFiles q !! i = Some f).
Proof. apply command_line_devices. Qed.

(** ** The arguments of init

    The words of a command line: a space separates words except between double
    quotes, which are dropped. *)
Fixpoint words_go (s : string) (quoted : bool) (cur : string) : list string :=
  match s with
  | EmptyString => [cur]
  | String c s' =>
      if Ascii.eqb c dquote then words_go s' (negb quoted) cur
      else if Ascii.eqb c " " && negb quoted then cur :: words_go s' false ""
      else words_go s' quoted (cur +:+ String c "")
  end.
Definition words (s : string) : list string := words_go s false "".

Definition format_arg (a : string) : string := if negb (needsQuoting a) then a else quote a.

Lemma words_go_app a s quoted cur :
  str_all (not_char dquote) a = true → quoted = true ∨ needsQuoting a = false →
  words_go (a +:+ s) quoted cur = words_go s quoted (cur +:+ a).
Proof.
  revert cur. induction a as [|c a IH]; intros cur Hd Hq; simpl in *; [by rewrite append_nil_r|].
  apply andb_true_iff in Hd as [Hc Ha]. unfold not_char in Hc. apply negb_true_iff in Hc. rewrite Hc.
  replace (Ascii.eqb c " " && negb quoted) with false.
  - rewrite IH, append_assoc; [done..|]. destruct Hq as [->|Hq]; [by left|right].
    by apply orb_false_iff in Hq as [_ ->].
  - destruct Hq as [-> |Hq]; [by rewrite andb_false_r|]. by destruct (Ascii.eqb c " ").
Qed.

Lemma words_go_arg a s :
  str_all (not_char dquote) a = true → words_go (format_arg a +:+ s) false "" = words_go s false a.
Proof.
  intros Ha. unfold format_arg, quote. destruct (needsQuoting a) eqn:E; simpl.
  - rewrite append_assoc, words_go_app by auto. done.
  - rewrite words_go_app by auto. done.
Qed.

Lemma words_formatInitArgs args :
  args ≠ [] → Forall (λ a, str_all (not_char dquote) a = true) args →
  words (formatInitArgs args) = args.
Proof.
  intros Hne HF. unfold words. induction HF as [|a args Ha HF IH]; [done|].
  destruct args as [|b args].
  - change (formatInitArgs [a]) with (format_arg a). rewrite <- (append_nil_r (format_arg a)).
    by rewrite words_go_arg.
  - change (formatInitArgs (a :: b :: args))
      with (format_arg a +:+ (" " +:+ formatInitArgs (b :: args))).
    rewrite words_go_arg by done.
    change (words_go (" " +:+ ?s) false a) with (a :: words_go s false ""). by rewrite IH.
Qed.

Lemma str_all_fmt_d z : 0 ≤ z → str_all (not_char dquote) (fmt_d z) = true.
Proof.
  intros Hz. destruct (fmt_d_digits z Hz) as [H _]. revert H. apply str_all_impl.
  intros [[] [] [] [] [] [] [] []]; vm_compute; congruence.
Qed.

Lemma cmdline_parts_ne cfg : cmdline_parts cfg ≠ [].
Proof. unfold cmdline_parts. by destruct (negb _), (Quiet cfg). Qed.

(** The guest's init gets the arguments it was meant to get.  The kernel
    command line ends with them, and splitting them into words (double quotes
    group) gives back the ports, the CID and the caller's arguments, whatever
    white space these contain, as long as they contain no double quote. *)
Theorem kernel_cmdline_init q opts :
  0 ≤ guestCID (config q) →
  Forall (λ a, str_all (not_char dquote) a = true) (InitArgs opts) →
  ∃ pre args,
    buildKernelCommandLine q opts = pre +:+ "init=/sbin/vminitd -- " +:+ args ∧
    words args = ["-vsock-rpc-port=1025"; "-vsock-stream-port=1026";
                  "-vsock-cid=" +:+ fmt_d (guestCID (config q))] ++ InitArgs opts.
Proof.
  intros Hc HF. unfold buildKernelCommandLine, BuildKernelCmdline.
  set (cfg := mkCmdline _ _ _ _ _ _ _ _).
  exists (strings_Join (cmdline_parts cfg) " " +:+ " "), (formatInitArgs (buildInitArgs cfg)). split.
  - rewrite strings_Join_snoc, append_assoc; [done|]. apply cmdline_parts_ne.
  - apply words_formatInitArgs; [done|]. apply Forall_app. split; [|done].
    repeat constructor. rewrite str_all_app, str_all_fmt_d by done. done.
Qed.

End cmd_theorems.

(** ** Witnesses *)

Module QemuCmdDemo.
Import Qemu.
Definition q : Instance :=
  mkInstance
    (mkConfig "/usr/bin/qemu" "/boot/kernel" "/boot/initrd" (Resources.validateResourceConfig None) 42
       (mkPaths "/run/vm" "/log/vm" "/run/vm/qmp.sock" "/run/vm/vsock.sock" "/log/vm/console.log"
          "/run/vm/console.fifo" "/log/vm/qemu.log"))
    vmStateStarting None None None None None None None false "ns" [mkDisk "d" "/img/a.vmdk" true]
    [mkNet "net0" "tap0" (Some 7) "02:00:00:00:00:01"; mkNet "net1" "tap1" (Some 9) "02:00:00:00:00:02"]
    None.
Definition args : list string :=
  match buildQemuCommandLine (Ok "/share") "quiet" q with Ok l => l | Err _ => [] end.
Definition opts : StartOpts := mkStartOpts ["-name"; "two words"] None "ns".
End QemuCmdDemo.

Lemma qemu_devices_wired_witness :
  "tap,id=net1,fd=4" ∈ QemuCmdDemo.args ∧ Qemu.extraFiles QemuCmdDemo.q !! 1%nat = Some 9.
Proof.
  destruct (qemu_devices_wired (Ok "/share") "quiet" QemuCmdDemo.q QemuCmdDemo.args eq_refl)
    as ((sp & _ & Ha) & _ & Hf).
  split; [|by destruct (Hf 1%nat _ eq_refl) as (f & [= <-] & ?)].
  rewrite Ha, !elem_of_app. right. right. vm_compute. repeat (first [left|right]).
Defined.

Lemma kernel_cmdline_init_witness :
  ∃ pre args,
    Qemu.buildKernelCommandLine QemuCmdDemo.q QemuCmdDemo.opts = pre +:+ "init=/sbin/vminitd -- " +:+ args ∧
    words args = ["-vsock-rpc-port=1025"; "-vsock-stream-port=1026"; "-vsock-cid=42"; "-name"; "two words"].
Proof.
  apply (kernel_cmdline_init QemuCmdDemo.q QemuCmdDemo.opts); [done|]. by repeat constructor.
Defined.
