(* ===== verification/QemuInstance.v ===== *)
(** * The life of a QEMU instance

    Models [Start] with its roll-back (internal/host/vm/qemu/start.go),
    [Shutdown] (shutdown.go), the devices scheduled before the start
    (devices.go), the state checks of client.go, [connectVsockRPC]
    (streaming.go) and [newInstance] with its CID lease (instance.go).  An operation is
    a program of the state monad [M] over the instance, the world and a trace of
    what it opened, closed, spawned and killed; the outcome of every system
    call is decided by the world ([QOps]).  The goroutine that copies the
    console and the one that waits for the process are not run: what they do
    to the instance is [consoleReader] and the exit that [waitCh] delivers. *)

From S2P Require Import Prelude GoStrings VsockAlloc Resources QemuCmd.

Module QemuInstance.
Import Qemu.
#[local] Open Scope m_scope.

(** What an operation holds.  [HTap], [HConsole], [HFifo] and [HLog] are open
    files, [HLease] is the lease of the vsock CID. *)
Inductive handle :=
  | HTap (f : Z) | HConsole (f : Z) | HFifo (f : Z) | HLog (f : Z)
  | HQmp (c : Z) | HClient (c : Z) | HConn (c : Z) | HLease (l : Z).

#[global] Instance handle_eq_dec : EqDecision handle.
Proof. solve_decision. Defined.

Inductive event :=
  | EvOpen (h : handle)
  | EvClose (h : handle)
  | EvSpawn (pid : Z) (args : list string) (files : list Z)
  | EvKill (pid : Z) (ok : bool)
  | EvExited (pid : Z)
  | EvCancel
  | EvRemoveAll (path : string).

#[global] Instance event_eq_dec : EqDecision event.
Proof. solve_decision. Defined.

(** ** instance.go: construction *)

Definition minGuestCID : Z := 4.
Definition maxGuestCID : Z := 65535.
Definition cidCooldownPeriod : Duration := 2 * Second.

(** The results of [findKernel], [findInitrd], [config.Get] (the log directory
    of the container) and [os.MkdirAll]. *)
Record NewEnv := mkNewEnv
  { findKernel : result string; findInitrd : result string;
    containerLogDir : result string; mkdirLogDir : option error }.

(** [newInstance], on the lock directory of the CIDs; a lease is named by its
    CID.  [None] when the fuel of the allocator runs out. *)
Definition newInstance (env : NewEnv) (fs : Vsock.FS) (now pid : Z) (fuel : nat)
    (binaryPath stateDir : string) (cfg : option Resources.VMResourceConfig) (d : gmap Z Vsock.lockFile) :
    option (result Instance * gmap Z Vsock.lockFile) :=
  match findKernel env with Err e => Some (Err e, d) | Ok kernelPath =>
  match findInitrd env with Err e => Some (Err e, d) | Ok initrdPath =>
  let resourceCfg := Resources.validateResourceConfig cfg in
  match containerLogDir env with
  | Err e => Some (Err (ErrWrap "failed to get config for log directory" e), d)
  | Ok logDir =>
  match mkdirLogDir env with
  | Some e => Some (Err (ErrWrap "failed to create log directory" e), d)
  | None =>
  match newInstancePaths stateDir logDir with Err e => Some (Err e, d) | Ok p =>
  let allocator := Vsock.NewAllocator minGuestCID maxGuestCID cidCooldownPeriod in
  match Vsock.Allocate fs allocator now pid fuel d with
  | None => None
  | Some (Err e, d1) => Some (Err (ErrWrap "failed to allocate vsock CID" e), d1)
  | Some (Ok cid, d1) =>
      Some (Ok (mkInstance (mkConfig binaryPath kernelPath initrdPath resourceCfg cid p)
                  vmStateNew (Some cid) None None None None None None false "" [] [] None), d1)
  end end end end end end.

(** The operating system, QEMU's sockets and the clock. *)
Class QOps (W : Type) := {
  os_Stat : string → W → option error;
  os_Remove : string → W → W;
  os_RemoveAll : string → W → W;
  mkfifo : string → W → option error * W;
  os_Create : string → W → result Z * W;
  os_Open : string → W → result Z * W;
  openTAPInNetNS : string → string → W → result Z * W;
  sharePath : W → result string;
  cmd_Start : string → list string → list Z → W → result Z * W;
  process_Kill : Z → W → option error * W;
  (* what [q.waitCh] delivers within a time: [None] for a timeout *)
  waitCh : Z → Duration → W → option (option error) * W;
  newQMPClient : string → W → result Z * W;
  qmp_SendCtrlAltDelete : Z → W → option error * W;
  qmp_Shutdown : Z → W → option error * W;
  qmp_Quit : Z → W → option error * W;
  vsock_Dial : Z → Z → W → result Z * W;
  SetReadDeadline : Z → Time → W → option error * W;
  pingTTRPC : Z → W → option error * W;
  ttrpc_NewClient : Z → W → Z * W;
  close_handle : handle → W → W;
  ctx_Err : W → option error;
  now : W → Time * W;
  sleep : Duration → W → W }.

Record st (W : Type) := mkSt { inst : Instance; world : W; trace : list event }.
Arguments mkSt {W}. Arguments inst {W}. Arguments world {W}. Arguments trace {W}.

Section instance.
Context {W : Type} `{!QOps W}.
Notation ST := (st W).

Definition io {A} (f : W → A * W) : M ST A :=
  λ s, let '(a, w) := f (world s) in Return (a, mkSt (inst s) w (trace s)).
Definition io_ (f : W → W) : M ST () :=
  λ s, Return (tt, mkSt (inst s) (f (world s)) (trace s)).
Definition emit (e : event) : M ST () := m_modify (λ s, mkSt (inst s) (world s) (trace s ++ [e])).
Definition get_q : M ST Instance := m_get inst.
Definition upd (f : Instance → Instance) : M ST () :=
  m_modify (λ s, mkSt (f (inst s)) (world s) (trace s)).
Definition close_h (h : handle) : M ST () := io_ (close_handle h) ≫= λ _, emit (EvClose h).

(** ** Field updates *)

Definition setState (s : vmState) (q : Instance) : Instance :=
  mkInstance (config q) s (cidLease q) (consoleFile q) (consoleFifo q) (cmd q) (qmpClient q)
    (client q) (vsockConn q) (runCancel q) (tapNetns q) (disks q) (nets q) (networkCfg q).
Definition set_lease (l : option Z) (q : Instance) : Instance :=
  mkInstance (config q) (state q) l (consoleFile q) (consoleFifo q) (cmd q) (qmpClient q)
    (client q) (vsockConn q) (runCancel q) (tapNetns q) (disks q) (nets q) (networkCfg q).
Definition set_console (f : option Z) (q : Instance) : Instance :=
  mkInstance (config q) (state q) (cidLease q) f (consoleFifo q) (cmd q) (qmpClient q)
    (client q) (vsockConn q) (runCancel q) (tapNetns q) (disks q) (nets q) (networkCfg q).
Definition set_fifo (f : option Z) (q : Instance) : Instance :=
  mkInstance (config q) (state q) (cidLease q) (consoleFile q) f (cmd q) (qmpClient q)
    (client q) (vsockConn q) (runCancel q) (tapNetns q) (disks q) (nets q) (networkCfg q).
Definition set_cmd (c : option (option Z)) (q : Instance) : Instance :=
  mkInstance (config q) (state q) (cidLease q) (consoleFile q) (consoleFifo q) c (qmpClient q)
    (client q) (vsockConn q) (runCancel q) (tapNetns q) (disks q) (nets q) (networkCfg q).
Definition set_qmp (c : option Z) (q : Instance) : Instance :=
  mkInstance (config q) (state q) (cidLease q) (consoleFile q) (consoleFifo q) (cmd q) c
    (client q) (vsockConn q) (runCancel q) (tapNetns q) (disks q) (nets q) (networkCfg q).
Definition set_client (c : option Z) (q : Instance) : Instance :=
  mkInstance (config q) (state q) (cidLease q) (consoleFile q) (consoleFifo q) (cmd q) (qmpClient q)
    c (vsockConn q) (runCancel q) (tapNetns q) (disks q) (nets q) (networkCfg q).
Definition set_conn (c : option Z) (q : Instance) : Instance :=
  mkInstance (config q) (state q) (cidLease q) (consoleFile q) (consoleFifo q) (cmd q) (qmpClient q)
    (client q) c (runCancel q) (tapNetns q) (disks q) (nets q) (networkCfg q).
Definition set_runCancel (q : Instance) : Instance :=
  mkInstance (config q) (state q) (cidLease q) (consoleFile q) (consoleFifo q) (cmd q) (qmpClient q)
    (client q) (vsockConn q) true (tapNetns q) (disks q) (nets q) (networkCfg q).
Definition set_nets (netns : string) (ns : list NetConfig) (q : Instance) : Instance :=
  mkInstance (config q) (state q) (cidLease q) (consoleFile q) (consoleFifo q) (cmd q) (qmpClient q)
    (client q) (vsockConn q) (runCancel q) netns (disks q) ns (networkCfg q).
Definition set_disks (ds : list DiskConfig) (q : Instance) : Instance :=
  mkInstance (config q) (state q) (cidLease q) (consoleFile q) (consoleFifo q) (cmd q) (qmpClient q)
    (client q) (vsockConn q) (runCancel q) (tapNetns q) ds (nets q) (networkCfg q).
Definition set_networkCfg (n : option NetworkConfig) (q : Instance) : Instance :=
  mkInstance (config q) (state q) (cidLease q) (consoleFile q) (consoleFifo q) (cmd q) (qmpClient q)
    (client q) (vsockConn q) (runCancel q) (tapNetns q) (disks q) (nets q) n.

(** ** devices.go *)

(** [stableID] is [generateStableDiskID], which asks the file system. *)
Definition AddDisk (stableID : result string) (blockID mountPath : string) (readonly : bool)
    (q : Instance) : option error * Instance :=
  if negb (bool_decide (state q = vmStateNew)) then
    (Some (ErrNew "cannot add disk after VM started"), q)
  else
    let add id := (None, set_disks (disks q ++ [mkDisk id mountPath readonly]) q) in
    if String.eqb blockID "" then
      match stableID with
      | Err e => (Some (ErrWrap "failed to generate stable disk ID" e), q)
      | Ok id => add id
      end
    else add blockID.

Definition AddTAPNIC (tapName mac : string) (q : Instance) : option error * Instance :=
  if negb (bool_decide (state q = vmStateNew)) then
    (Some (ErrNew "cannot add NIC after VM started"), q)
  else
    (None, set_nets (tapNetns q)
             (nets q ++ [mkNet ("net" +:+ fmt_d (Z.of_nat (length (nets q)))) tapName None mac]) q).

(** ** start.go *)

Definition setupConsoleFIFO : M ST (option error) :=
  q ← get_q;
  let p := paths (config q) in
  io_ (os_Remove (consoleFifoPath p)) ≫= λ _,
  e ← io (mkfifo (consoleFifoPath p));
  match e with
  | Some e => m_ret (Some (ErrWrap "failed to create console FIFO" e))
  | None =>
      r ← io (os_Create (consolePath p));
      match r with
      | Err e =>
          io_ (os_Remove (consoleFifoPath p)) ≫= λ _,
          m_ret (Some (ErrWrap "failed to create console log file" e))
      | Ok f =>
          emit (EvOpen (HConsole f)) ≫= λ _, upd (set_console (Some f)) ≫= λ _, m_ret None
      end
  end.

(** The goroutine of [setupConsoleFIFO], up to its copying loop: it opens the
    FIFO once QEMU writes to it and stores the handle. *)
Definition consoleReader : M ST () :=
  q ← get_q;
  r ← io (os_Open (consoleFifoPath (paths (config q))));
  match r with
  | Err _ => m_ret tt
  | Ok f => emit (EvOpen (HFifo f)) ≫= λ _, upd (set_fifo (Some f))
  end.

Fixpoint stat_disks (ds : list DiskConfig) (w : W) : option error :=
  match ds with
  | [] => None
  | d :: ds' =>
      match os_Stat (Path d) w with
      | Some e => Some (ErrWrap ("disk not found at " +:+ Path d) e)
      | None => stat_disks ds' w
      end
  end.

Definition minMemory : Z := 128 * 1024 * 1024.

Definition validateConfiguration (q : Instance) (w : W) : option error :=
  let c := config q in
  let r := resourceCfg c in
  match os_Stat (kernelPath c) w with
  | Some e => Some (ErrWrap ("kernel not found at " +:+ kernelPath c) e)
  | None =>
  match os_Stat (initrdPath c) w with
  | Some e => Some (ErrWrap ("initrd not found at " +:+ initrdPath c) e)
  | None =>
  match os_Stat (binaryPath c) w with
  | Some e => Some (ErrWrap ("QEMU binary not found at " +:+ binaryPath c) e)
  | None =>
  match stat_disks (disks q) w with
  | Some e => Some e
  | None =>
      if Resources.MemorySize r <? minMemory then 
        Some (ErrNew ("memory too low: " +:+ fmt_d (Resources.MemorySize r) +:+
          " bytes (minimum " +:+ fmt_d minMemory +:+ " bytes / 128 MiB)"))
      else if Resources.BootCPUs r <? 1 then
        Some (ErrNew ("boot CPUs must be at least 1, got " +:+ fmt_d (Resources.BootCPUs r)))
      else if Resources.MaxCPUs r <? Resources.BootCPUs r then
        Some (ErrNew ("max CPUs (" +:+ fmt_d (Resources.MaxCPUs r) +:+
          ") cannot be less than boot CPUs (" +:+ fmt_d (Resources.BootCPUs r) +:+ ")"))
      else if bool_decide (nets q = []) then
        Some (ErrNew "no network interface configured: call AddNetwork() before Start()")
      else None
  end end end end.

Definition close_tap (nic : NetConfig) : NetConfig := mkNet (net_ID nic) (TapName nic) None (MAC nic).

Definition closeTAPFiles : M ST () :=
  q ← get_q;
  m_for (λ nic, match TapFile nic with Some f => close_h (HTap f) | None => m_ret tt end)
    (nets q) ≫= λ _,
  upd (set_nets "" (close_tap <$> nets q)).

(** The loop over [q.nets]; [done] were opened before. *)
Fixpoint open_taps (netns : string) (done todo : list NetConfig) : M ST (option error) :=
  match todo with
  | [] => m_ret None
  | nic :: todo' =>
      r ← io (openTAPInNetNS (TapName nic) netns);
      match r with
      | Err e =>
          closeTAPFiles ≫= λ _,
          m_ret (Some (ErrWrap ("failed to open tap " +:+ TapName nic +:+ " in netns") e))
      | Ok f =>
          let nic' := mkNet (net_ID nic) (TapName nic) (Some f) (MAC nic) in
          emit (EvOpen (HTap f)) ≫= λ _,
          q ← get_q;
          upd (set_nets (tapNetns q) (done ++ nic' :: todo')) ≫= λ _,
          open_taps netns (done ++ [nic']) todo'
      end
  end.

Definition openTapFiles (netns : string) : M ST (option error) :=
  q ← get_q;
  match nets q with
  | [] => m_ret None
  | ns =>
      if String.eqb netns "" then
        m_ret (Some (ErrNew "network namespace is required when NICs are configured"))
      else
        e ← open_taps netns [] ns;
        match e with
        | Some e => m_ret (Some e)
        | None => q1 ← get_q; upd (set_nets netns (nets q1)) ≫= λ _, m_ret None
        end
  end.

Definition startQemuProcess (qemuArgs : list string) : M ST (option error) :=
  q ← get_q;
  r ← io (os_Create (qemuLogPath (paths (config q))));
  match r with
  | Err e => m_ret (Some (ErrWrap "failed to create qemu log file" e))
  | Ok f =>
      emit (EvOpen (HLog f)) ≫= λ _,
      upd (set_cmd (Some None)) ≫= λ _,
      r ← io (cmd_Start (binaryPath (config q)) qemuArgs (extraFiles q));
      match r with
      | Err e =>
          m_for (λ f, close_h (HTap f)) (extraFiles q) ≫= λ _,
          m_ret (Some (ErrWrap "failed to start qemu" e))
      | Ok pid =>
          upd (set_cmd (Some (Some pid))) ≫= λ _,
          emit (EvSpawn pid qemuArgs (extraFiles q)) ≫= λ _, m_ret None
      end
  end.

Definition kill (pid : Z) : M ST (option error) :=
  e ← io (process_Kill pid);
  emit (EvKill pid (bool_decide (e = None))) ≫= λ _, m_ret e.

(** [if q.cmd != nil && q.cmd.Process != nil { q.cmd.Process.Kill() }]. *)
Definition kill_cmd : M ST () :=
  q ← get_q;
  match cmd q with
  | Some (Some pid) => kill pid ≫= λ _, m_ret tt
  | _ => m_ret tt
  end.

Definition connectQMP : M ST (option error) :=
  q ← get_q;
  r ← io (newQMPClient (qmpSocketPath (paths (config q))));
  match r with
  | Err e => kill_cmd ≫= λ _, m_ret (Some (ErrWrap "failed to connect to QMP" e))
  | Ok c => emit (EvOpen (HQmp c)) ≫= λ _, upd (set_qmp (Some c)) ≫= λ _, m_ret None
  end.

(** ** streaming.go: the connection to the guest's RPC server *)

Definition connectRetryTimeout : Duration := 10 * Second.
Definition initialBackoff : Duration := 10 * Millisecond.
Definition maxBackoff : Duration := 200 * Millisecond.

(** The loop of [connectVsockRPC]; [None] when the fuel runs out. *)
Fixpoint rpc_loop (fuel : nat) (retryStart : Time) (backoff pingDeadline : Duration) :
    M ST (option (result Z)) :=
  match fuel with
  | O => m_ret None
  | Datatypes.S fuel' =>
      w ← m_get world;
      match ctx_Err w with
      | Some e => m_ret (Some (Err e))
      | None =>
      t ← io now;
      if connectRetryTimeout <? time_Sub t retryStart then
        m_ret (Some (Err (ErrNew "timeout waiting for vminitd to accept connections")))
      else
        let again pd :=
          io_ (sleep backoff) ≫= λ _,
          rpc_loop fuel' retryStart (Z.min (backoff *i 2) maxBackoff) pd in
        q ← get_q;
        r ← io (vsock_Dial (guestCID (config q)) DefaultRPCPort);
        match r with
        | Err _ => again pingDeadline
        | Ok conn =>
            let fail pd := close_h (HConn conn) ≫= λ _, again pd in
            emit (EvOpen (HConn conn)) ≫= λ _,
            t1 ← io now;
            e1 ← io (SetReadDeadline conn (t1 + pingDeadline));
            match e1 with Some _ => fail pingDeadline | None =>
            e2 ← io (pingTTRPC conn);
            match e2 with Some _ => fail (pingDeadline +i 10 * Millisecond) | None =>
            e3 ← io (SetReadDeadline conn 0);
            match e3 with Some _ => fail pingDeadline | None =>
            e4 ← io (pingTTRPC conn);
            match e4 with Some _ => fail pingDeadline | None => m_ret (Some (Ok conn))
            end end end end
        end
      end
  end.

Definition connectVsockRPC (fuel : nat) : M ST (option (result Z)) :=
  t ← io now; rpc_loop fuel t initialBackoff (50 * Millisecond).

(** ** start.go, continued *)

(** The process is killed and the QMP client closed (but kept in its field). *)
Definition abort_vm : M ST () :=
  kill_cmd ≫= λ _,
  q ← get_q;
  match qmpClient q with Some c => close_h (HQmp c) | None => m_ret tt end.

Definition connectVsockClient (fuel : nat) : M ST (option (option error)) :=
  w ← m_get world;
  match ctx_Err w with
  | Some e => abort_vm ≫= λ _, m_ret (Some (Some e))
  | None =>
      r ← connectVsockRPC fuel;
      match r with
      | None => m_ret None
      | Some (Err e) => abort_vm ≫= λ _, m_ret (Some (Some e))
      | Some (Ok conn) =>
          upd (set_conn (Some conn)) ≫= λ _,
          c ← io (ttrpc_NewClient conn);
          emit (EvOpen (HClient c)) ≫= λ _,
          upd (set_client (Some c)) ≫= λ _, m_ret (Some None)
      end
  end.

(** [if q.f != nil { q.f.Close(); q.f = nil }]. *)
Definition close_field (get : Instance → option Z) (mk : Z → handle)
    (clear : Instance → Instance) : M ST () :=
  q ← get_q;
  match get q with
  | Some x => close_h (mk x) ≫= λ _, upd clear
  | None => m_ret tt
  end.

Definition remove_path (path : string) : M ST () :=
  if negb (String.eqb path "") then io_ (os_Remove path) else m_ret tt.

Definition removeAll_path (path : string) : M ST () :=
  if negb (String.eqb path "")
  then io_ (os_RemoveAll path) ≫= λ _, emit (EvRemoveAll path) else m_ret tt.

(** [rollbackStart] after a failure. *)
Definition rollbackStart : M ST () :=
  upd (setState vmStateNew) ≫= λ _,
  close_field vsockConn HConn (set_conn None) ≫= λ _,
  close_field client HClient (set_client None) ≫= λ _,
  close_field qmpClient HQmp (set_qmp None) ≫= λ _,
  close_field consoleFile HConsole (set_console None) ≫= λ _,
  q ← get_q;
  remove_path (consoleFifoPath (paths (config q))) ≫= λ _,
  closeTAPFiles ≫= λ _,
  close_field cidLease HLease (set_lease None) ≫= λ _,
  removeAll_path (stateDir (paths (config q))).

(** [Start] from the construction of the command line to its return. *)
Definition launch (fuel : nat) (startOpts : StartOpts) : M ST (option (option error)) :=
  q ← get_q;
  w ← m_get world;
  match buildQemuCommandLine (sharePath w) (buildKernelCommandLine q startOpts) q with
  | Err e => m_ret (Some (Some e))
  | Ok qemuArgs =>
  e ← startQemuProcess qemuArgs;
  match e with Some e => m_ret (Some (Some e)) | None =>
  e ← connectQMP;
  match e with Some e => m_ret (Some (Some e)) | None =>
  upd set_runCancel ≫= λ _,
  r ← connectVsockClient fuel;
  match r with
  | None => m_ret None
  | Some (Some e) => m_ret (Some (Some e))
  | Some None => upd (setState vmStateRunning) ≫= λ _, m_ret (Some None)
  end end end end.

(** [Start] under the lock, from the removal of old sockets to its return. *)
Definition start_body (fuel : nat) (startOpts : StartOpts) : M ST (option (option error)) :=
  q ← get_q;
  io_ (os_Remove (qmpSocketPath (paths (config q)))) ≫= λ _,
  io_ (os_Remove (vsockPath (paths (config q)))) ≫= λ _,
  upd (set_networkCfg (so_NetworkConfig startOpts)) ≫= λ _,
  e ← openTapFiles (NetworkNamespace startOpts);
  match e with
  | Some e => m_ret (Some (Some e))
  | None => launch fuel startOpts
  end.

(** [Start]; [None] when the fuel of the connection loop runs out. *)
Definition Start (fuel : nat) (startOpts : StartOpts) : M ST (option (option error)) :=
  q ← get_q;
  if negb (bool_decide (state q = vmStateNew)) then
    m_ret (Some (Some (ErrNew ("cannot start VM in state " +:+ fmt_d (vmState_int (state q))))))
  else
    upd (setState vmStateStarting) ≫= λ _,
    q0 ← get_q;
    w ← m_get world;
    match validateConfiguration q0 w with
    | Some e =>
        upd (setState vmStateNew) ≫= λ _,
        m_ret (Some (Some (ErrWrap "configuration validation failed" e)))
    | None =>
    e ← setupConsoleFIFO;
    match e with
    | Some e =>
        upd (setState vmStateNew) ≫= λ _,
        m_ret (Some (Some (ErrWrap "failed to setup console FIFO" e)))
    | None =>
    r ← start_body fuel startOpts;
    match r with
    | Some (Some e) => rollbackStart ≫= λ _, m_ret (Some (Some e))
    | _ => m_ret r
    end end end.

(** ** shutdown.go *)

Definition shutdownACPIWait : Duration := 500 * Millisecond.
Definition shutdownQuitWait : Duration := 2 * Second.
Definition shutdownKillWait : Duration := 2 * Second.

Definition shutdownGuest : M ST () :=
  q ← get_q;
  match qmpClient q with
  | None => m_ret tt
  | Some c =>
      e ← io (qmp_SendCtrlAltDelete c);
      match e with
      | None => m_ret tt
      | Some _ => io (qmp_Shutdown c) ≫= λ _, m_ret tt
      end
  end.

Definition cleanupAfterFailedKill : M ST () :=
  close_field qmpClient HQmp (set_qmp None) ≫= λ _, closeTAPFiles.

Definition wait_exit (pid : Z) (d : Duration) : M ST bool :=
  r ← io (waitCh pid d);
  match r with
  | Some _ => emit (EvExited pid) ≫= λ _, m_ret true
  | None => m_ret false
  end.

(** From the comment "Still not dead" on. *)
Definition sigkill (pid : Z) : M ST (option error) :=
  e ← kill pid;
  match e with
  | Some e =>
      upd (set_cmd None) ≫= λ _, cleanupAfterFailedKill ≫= λ _,
      m_ret (Some (ErrWrap "failed to kill QEMU process" e))
  | None =>
      exited ← wait_exit pid shutdownKillWait;
      if exited : bool then upd (set_cmd None) ≫= λ _, m_ret None
      else
        upd (set_cmd None) ≫= λ _, cleanupAfterFailedKill ≫= λ _,
        m_ret (Some (ErrNew "process did not exit after SIGKILL"))
  end.

Definition stopQemuProcess : M ST (option error) :=
  q ← get_q;
  match cmd q with
  | None | Some None => m_ret None
  | Some (Some pid) =>
      exited ← wait_exit pid shutdownACPIWait;
      if exited : bool then upd (set_cmd None) ≫= λ _, m_ret None
      else
        match qmpClient q with
        | None => sigkill pid
        | Some c =>
            e ← io (qmp_Quit c);
            match e with
            | Some _ => sigkill pid
            | None =>
                exited ← wait_exit pid shutdownQuitWait;
                if exited : bool then upd (set_cmd None) ≫= λ _, m_ret None else sigkill pid
            end
        end
  end.

Definition closeClientConnections : M ST () :=
  close_field client HClient (set_client None) ≫= λ _,
  close_field vsockConn HConn (set_conn None) ≫= λ _,
  close_field consoleFifo HFifo (set_fifo None).

Definition cancelBackgroundMonitors : M ST () :=
  q ← get_q; if runCancel q then emit EvCancel else m_ret tt.

(** [closeAndLog] of a nil [*qmpClient] calls [Close] on it, because the
    interface that holds it is not nil; that of a nil [*os.File] fails
    harmlessly. *)
Definition cleanupResources : M ST () :=
  q ← get_q;
  match qmpClient q with
  | None => m_panic "invalid memory address or nil pointer dereference"
  | Some c => close_h (HQmp c)
  end ≫= λ _,
  upd (set_qmp None) ≫= λ _,
  match consoleFile q with Some f => close_h (HConsole f) | None => m_ret tt end ≫= λ _,
  upd (set_console None) ≫= λ _,
  remove_path (consoleFifoPath (paths (config q))) ≫= λ _,
  closeTAPFiles ≫= λ _,
  close_field cidLease HLease (set_lease None) ≫= λ _,
  removeAll_path (stateDir (paths (config q))).

Definition Shutdown : M ST (option error) :=
  q ← get_q;
  if negb (bool_decide (state q = vmStateRunning)) then m_ret None
  else
    upd (setState vmStateShutdown) ≫= λ _,
    cancelBackgroundMonitors ≫= λ _,
    closeClientConnections ≫= λ _,
    shutdownGuest ≫= λ _,
    e ← stopQemuProcess;
    match e with
    | Some e => m_ret (Some e)
    | None => cleanupResources ≫= λ _, m_ret None
    end.

(** ** client.go: the state checks *)

Definition not_running : error := ErrWrap "vm not running" (ErrSentinel ErrFailedPrecondition).

Definition Client (q : Instance) : result (option Z) :=
  if negb (bool_decide (state q = vmStateRunning)) then Err not_running else Ok (client q).

Definition QMPClient (q : Instance) : option Z :=
  if bool_decide (state q = vmStateShutdown) then None else qmpClient q.

Definition CPUHotplugger (q : Instance) : result (option Z) :=
  if negb (bool_decide (state q = vmStateRunning)) then Err not_running else Ok (qmpClient q).

End instance.

(** The clock moves forward, and sleeping takes at least the time asked for. *)
Class QClock (W : Type) `{!QOps W} (clock : W → Time) := {
  law_now : ∀ w, (now w).1 = clock w ∧ clock w ≤ clock (now w).2;
  law_sleep : ∀ d w, clock w + d ≤ clock (sleep d w);
  law_dial : ∀ cid port w, clock w ≤ clock (vsock_Dial cid port w).2;
  law_deadline : ∀ c t w, clock w ≤ clock (SetReadDeadline c t w).2;
  law_ping : ∀ c w, clock w ≤ clock (pingTTRPC c w).2;
  law_close : ∀ h w, clock w ≤ clock (close_handle h w) }.

End QemuInstance.

(** ** Theorems *)

Section instance_theorems.
Import Qemu QemuInstance.
Context {W : Type} `{!QOps W}.
Implicit Types (s : st W) (q : Instance) (tr : list event).

(** *** Rules: the world may answer anything *)

Lemma wp_io {A} (f : W → A * W) Q s :
  (∀ a w, Q a (mkSt (inst s) w (trace s))) → wp (io f) Q s.
Proof. intros H. unfold wp, io. destruct (f (world s)) as [a w]. apply H. Qed.

Lemma wp_io_ (f : W → W) Q s : (∀ w, Q tt (mkSt (inst s) w (trace s))) → wp (io_ f) Q s.
Proof. intros H. apply H. Qed.

Lemma wp_emit e Q s : Q tt (mkSt (inst s) (world s) (trace s ++ [e])) → wp (emit e) Q s.
Proof. done. Qed.

Lemma wp_upd f Q s : Q tt (mkSt (f (inst s)) (world s) (trace s)) → wp (upd f) Q s.
Proof. done. Qed.

Lemma wp_close_h h Q s :
  (∀ w, Q tt (mkSt (inst s) w (trace s ++ [EvClose h]))) → wp (close_h h) Q s.
Proof. intros H. apply wp_bind, wp_io_. intros w. by apply wp_emit. Qed.

Definition closes {A} (mk : A → handle) (o : option A) : list event :=
  match o with Some x => [EvClose (mk x)] | None => [] end.

Lemma wp_close_field get mk clear Q s :
  (get (inst s) = None → clear (inst s) = inst s) →
  (∀ w, Q tt (mkSt (clear (inst s)) w (trace s ++ closes mk (get (inst s))))) →
  wp (close_field get mk clear) Q s.
Proof.
  intros Hc H. apply wp_bind, wp_get. destruct (get (inst s)) eqn:E; simpl in *.
  - apply wp_bind, wp_close_h. intros w. by apply wp_upd.
  - apply wp_ret. specialize (H (world s)). rewrite Hc, app_nil_r in H by done. by destruct s.
Qed.

Lemma wp_for_close {A} (f : A → option Z) mk (l : list A) Q s :
  (∀ w, Q tt (mkSt (inst s) w (trace s ++ (EvClose ∘ mk <$> omap f l)))) →
  wp (m_for (λ x, match f x with Some y => close_h (mk y) | None => m_ret tt end) l) Q s.
Proof.
  revert s. induction l as [|x l IH]; intros s H; simpl.
  - apply wp_ret. specialize (H (world s)). rewrite app_nil_r in H. by destruct s.
  - apply wp_bind. simpl in H. destruct (f x) as [y|].
    + apply wp_close_h. intros w. apply IH. intros w'. simpl. rewrite <- app_assoc. apply H.
    + apply wp_ret, IH. apply H.
Qed.

Lemma wp_closeTAPFiles Q s :
  (∀ w, Q tt (mkSt (set_nets "" (close_tap <$> nets (inst s)) (inst s)) w
                (trace s ++ (EvClose ∘ HTap <$> extraFiles (inst s))))) →
  wp closeTAPFiles Q s.
Proof.
  intros H. apply wp_bind, wp_get, wp_bind, wp_for_close. intros w. by apply wp_upd.
Qed.

Lemma wp_remove_path p Q s : (∀ w, Q tt (mkSt (inst s) w (trace s))) → wp (remove_path p) Q s.
Proof.
  intros H. unfold remove_path. case_match; [by apply wp_io_|apply wp_ret].
  specialize (H (world s)). by destruct s.
Qed.

Lemma wp_removeAll_path p Q s :
  (∀ w tr, tr = [EvRemoveAll p] ∨ tr = [] → Q tt (mkSt (inst s) w (trace s ++ tr))) →
  wp (removeAll_path p) Q s.
Proof.
  intros H. unfold removeAll_path. case_match; [apply wp_bind, wp_io_; intros w; apply wp_emit; by apply H; left|].
  apply wp_ret. specialize (H (world s) [] (or_intror eq_refl)). rewrite app_nil_r in H. by destruct s.
Qed.

(** *** What an instance holds *)

Definition owns q (h : handle) : Prop :=
  match h with
  | HTap f => f ∈ extraFiles q
  | HConsole f => consoleFile q = Some f
  | HFifo f => consoleFifo q = Some f
  | HLog _ => False
  | HQmp c => qmpClient q = Some c
  | HClient c => client q = Some c
  | HConn c => vsockConn q = Some c
  | HLease l => cidLease q = Some l
  end.

(** Only closing and removing. *)
Definition closing (e : event) : bool :=
  match e with EvClose _ | EvRemoveAll _ => true | _ => false end.

Definition rolled_back q : Instance :=
  mkInstance (config q) vmStateNew None None (consoleFifo q) (cmd q) None None None (runCancel q) ""
    (disks q) (close_tap <$> nets q) (networkCfg q).

Lemma closes_in {A} (mk : A → handle) o x : o = Some x → EvClose (mk x) ∈ closes mk o.
Proof. intros ->. by left. Qed.

Lemma closes_closing {A} (mk : A → handle) o : Forall closing (closes mk o).
Proof. destruct o; repeat constructor. Qed.

Lemma wp_rollbackStart Q s :
  (∀ w tr, (∀ h, owns (inst s) h → (∀ f, h ≠ HFifo f) → EvClose h ∈ tr) → Forall closing tr →
     Q tt (mkSt (rolled_back (inst s)) w (trace s ++ tr))) →
  wp rollbackStart Q s.
Proof.
  intros H. unfold rollbackStart.
  apply wp_bind, wp_upd. destruct s as [[cfg st lease cf ff cm qm cl vc rc tn ds ns nc] w0 t0].
  do 4 (apply wp_bind, wp_close_field; [simpl; by intros ->|intros ?]; simpl).
  apply wp_bind, wp_get, wp_bind, wp_remove_path. intros ?. simpl.
  apply wp_bind, wp_closeTAPFiles. intros ?. simpl.
  apply wp_bind, wp_close_field; [simpl; by intros ->|intros ?]; simpl.
  apply wp_removeAll_path. intros wx tr Htr. simpl. rewrite <- !app_assoc. apply H.
  - intros h Ho Hf. destruct h; simpl in Ho; rewrite !elem_of_app; try (by eauto 10 using closes_in).
    + do 4 right. left. apply list_elem_of_fmap. eauto.
    + by destruct (Hf f).
  - rewrite !Forall_app. split_and!; try apply closes_closing.
    + apply Forall_fmap, Forall_true. done.
    + destruct Htr as [-> | ->]; repeat constructor.
Qed.

(** *** Accounting: what was opened is closed or held *)

Definition is_log (h : handle) : Prop := match h with HLog _ => True | _ => False end.

Definition opened_ok tr q : Prop :=
  ∀ h, EvOpen h ∈ tr → EvClose h ∈ tr ∨ owns q h ∨ is_log h.

Lemma opened_ok_app tr1 tr2 q1 q2 :
  opened_ok tr1 q1 → opened_ok tr2 q2 → (∀ h, owns q1 h → owns q2 h ∨ EvClose h ∈ tr2) →
  opened_ok (tr1 ++ tr2) q2.
Proof.
  intros H1 H2 H h. rewrite !elem_of_app.
  intros [[?|[?|?]]%H1|[?|[?|?]]%H2]; [|destruct (H h)| | | |]; auto.
Qed.

Definition is_spawn (e : event) : bool := match e with EvSpawn _ _ _ => true | _ => false end.
Definition no_spawn tr : Prop := Forall (λ e, is_spawn e = false) tr.
Definition killed tr : Prop :=
  ∀ pid args files, EvSpawn pid args files ∈ tr → ∃ ok, EvKill pid ok ∈ tr.

Lemma no_spawn_killed tr : no_spawn tr → killed tr.
Proof. intros H pid a f Hin. unfold no_spawn in H. rewrite Forall_forall in H. by apply H in Hin. Qed.

Lemma no_spawn_existsb tr : no_spawn tr → existsb is_spawn tr = false.
Proof. by induction 1 as [|e tr He _ IH]; simpl; [|rewrite He]. Qed.

Lemma closing_no_spawn tr : Forall closing tr → no_spawn tr.
Proof. intros H. eapply Forall_impl; [exact H|]. by intros []. Qed.

Lemma killed_app tr1 tr2 : killed tr1 → no_spawn tr2 → killed (tr1 ++ tr2).
Proof.
  intros H1 H2 pid a f. rewrite elem_of_app. intros [H|H].
  - destruct (H1 _ _ _ H) as [ok Hok]. exists ok. rewrite elem_of_app. auto.
  - destruct (no_spawn_killed _ H2 _ _ _ H) as [ok Hok]. exists ok. rewrite elem_of_app. auto.
Qed.

Lemma wp_setupConsoleFIFO Q s :
  (∀ w e, Q (Some e) (mkSt (inst s) w (trace s))) →
  (∀ w f, Q None (mkSt (set_console (Some f) (inst s)) w (trace s ++ [EvOpen (HConsole f)]))) →
  wp setupConsoleFIFO Q s.
Proof.
  intros He Hok. apply wp_bind, wp_get, wp_bind, wp_io_. intros w1. apply wp_bind, wp_io.
  intros [e|] w2; [by apply wp_ret|]. apply wp_bind, wp_io. intros [f|e] w3.
  - apply wp_bind, wp_emit, wp_bind, wp_upd, wp_ret. apply Hok.
  - apply wp_bind, wp_io_. intros w4. by apply wp_ret.
Qed.

Lemma extraFiles_close q : omap TapFile (close_tap <$> nets q) = [].
Proof. by induction (nets q). Qed.

(** Opening the TAP files: whatever happens, each file that was opened is held
    by its NIC or closed. *)
Lemma wp_open_taps netns done todo Q s :
  nets (inst s) = done ++ todo → Forall (λ n, TapFile n = None) todo →
  (∀ r n ns w tr,
     (∀ h, EvOpen h ∈ tr → ∃ f, h = HTap f ∧ (EvClose h ∈ tr ∨ f ∈ omap TapFile ns)) →
     (∀ f, f ∈ extraFiles (inst s) → EvClose (HTap f) ∈ tr ∨ f ∈ omap TapFile ns) → no_spawn tr →
     Q r (mkSt (set_nets n ns (inst s)) w (trace s ++ tr))) →
  wp (open_taps netns done todo) Q s.
Proof.
  revert done s. induction todo as [|nic todo IH]; intros done s Hn Hnone H; simpl.
  { apply wp_ret. specialize (H None (tapNetns (inst s)) (nets (inst s)) (world s) []).
    rewrite app_nil_r in H. destruct s as [[] w t]. apply H; [by intros ? ?%elem_of_nil|by right|constructor]. }
  inversion Hnone as [|? ? Hnic Hrest]; subst. apply wp_bind, wp_io. intros [f|e] w.
  - apply wp_bind, wp_emit, wp_bind, wp_get, wp_bind, wp_upd. simpl. apply IH; simpl; [by rewrite <- app_assoc|done|].
    intros r n ns w' tr Ho Hk Hs. rewrite <- app_assoc. apply (H r n ns w' (EvOpen (HTap f) :: tr)).
    + intros h [[= ->]|Hh]%elem_of_cons.
      * exists f. split; [done|]. rewrite elem_of_cons. destruct (Hk f); [|by auto..].
        unfold extraFiles. simpl. rewrite omap_app. apply elem_of_app. right. by left.
      * destruct (Ho h Hh) as (f' & -> & [?|?]); eexists; (split; [done|]); rewrite elem_of_cons; auto.
    + intros f' Hf'. rewrite elem_of_cons. destruct (Hk f') as [?|?]; [|by auto..].
      unfold extraFiles in *. simpl. rewrite Hn, omap_app in Hf'. rewrite omap_app.
      simpl in Hf'. rewrite Hnic in Hf'. set_solver.
    + by constructor.
  - apply wp_bind, wp_closeTAPFiles. intros w'. simpl. apply wp_ret.
    apply H; rewrite ?extraFiles_close.
    + intros h (f & [=] & _)%list_elem_of_fmap.
    + intros f Hf. left. apply list_elem_of_fmap. by exists f.
    + apply Forall_fmap, Forall_true. done.
Qed.

(** *** The connection loop ends *)

Section clock.
Context (clock : W → Time) `{!QClock W clock}.

Definition ticks_on (t : Time) s : Prop := t ≤ clock (world s).

Lemma wp_io_clock {A} (f : W → A * W) Q s :
  clock (world s) ≤ clock (f (world s)).2 →
  (∀ a w, clock (world s) ≤ clock w → Q a (mkSt (inst s) w (trace s))) → wp (io f) Q s.
Proof. intros Hc H. unfold wp, io. destruct (f (world s)) as [a w]. by apply H. Qed.

Lemma wp_close_h_clock h Q s :
  (∀ w, clock (world s) ≤ clock w → Q tt (mkSt (inst s) w (trace s ++ [EvClose h]))) →
  wp (close_h h) Q s.
Proof. intros H. apply wp_bind, wp_emit. simpl. apply H, law_close. Qed.

(** With enough rounds the loop returns; it leaves no connection open but the
    one it returns. *)
Definition rpc_post s (r : option (result Z)) (s' : st W) : Prop :=
  ∃ r' tr, r = Some r' ∧ inst s' = inst s ∧ trace s' = trace s ++ tr ∧ no_spawn tr ∧
    ∀ h, EvOpen h ∈ tr → EvClose h ∈ tr ∨ ∃ c, r' = Ok c ∧ h = HConn c.

Lemma rpc_post_trans s s1 tr r s' :
  inst s1 = inst s → trace s1 = trace s ++ tr → no_spawn tr →
  (∀ h, EvOpen h ∈ tr → EvClose h ∈ tr) → rpc_post s1 r s' → rpc_post s r s'.
Proof.
  intros Hi Ht Hs Ho (r' & tr' & -> & Hi' & Ht' & Hs' & Ho'). exists r', (tr ++ tr').
  split; [done|]. split; [congruence|]. split; [by rewrite Ht', Ht, app_assoc|].
  split; [by apply Forall_app|]. intros h. rewrite !elem_of_app. intros [?%Ho|[?|?]%Ho']; auto.
Qed.

Lemma rpc_post_world q w w' t r s' : rpc_post (mkSt q w t) r s' → rpc_post (mkSt q w' t) r s'.
Proof. done. Qed.

Lemma rpc_post_err q w w' t e : rpc_post (mkSt q w t) (Some (Err e)) (mkSt q w' t).
Proof.
  exists (Err e), []. simpl. rewrite app_nil_r. split_and!; try done; [constructor|].
  by intros h ?%elem_of_nil.
Qed.

Lemma wp_rpc_loop fuel start backoff pd s :
  initialBackoff ≤ backoff ≤ maxBackoff → 0 < Z.of_nat fuel →
  start + connectRetryTimeout - clock (world s) < (Z.of_nat fuel - 1) * initialBackoff →
  wp (rpc_loop fuel start backoff pd) (rpc_post s) s.
Proof.
  unfold initialBackoff, maxBackoff, connectRetryTimeout, Millisecond, Second.
  revert backoff pd s. induction fuel as [|fuel IH]; intros backoff pd s Hb Hf Hd; [lia|].
  cbn [rpc_loop]. apply wp_bind, wp_get.
  destruct s as [q w t0]. simpl in Hd |- *.
  destruct (ctx_Err _) as [e|]; [apply wp_ret, rpc_post_err|].
  apply wp_bind. destruct (law_now w) as [Hn1 Hn2]. unfold wp at 1, io. simpl.
  destruct (now w) as [t w1]. simpl in Hn1, Hn2. subst t.
  destruct (connectRetryTimeout <? _) eqn:Et; [apply wp_ret, rpc_post_err|].
  unfold connectRetryTimeout, Second, time_Sub, min_int64, max_int64 in Et. bool_to_prop.
  assert (Hagain : ∀ s1 pd', clock w1 ≤ clock (world s1) →
    wp (io_ (sleep backoff) ≫= λ _, rpc_loop fuel start (Z.min (backoff *i 2) maxBackoff) pd')%m
       (rpc_post s1) s1).
  { intros s1 pd' Hc1. apply wp_bind. unfold wp at 1, io_. cbn [fst snd].
    pose proof (law_sleep backoff (world s1)) as Hs.
    eapply wp_mono; [apply IH; simpl|].
    - unfold maxBackoff, Millisecond. unwrap64. lia.
    - lia.
    - lia.
    - intros r s'. destruct s1. apply rpc_post_world. }
  apply wp_bind, wp_get, wp_bind. simpl. apply wp_io_clock; [apply law_dial|]. simpl.
  intros [conn|e] w2 Hc2; cycle 1.
  { eapply wp_mono; [apply Hagain; simpl; lia|]. intros r s'. apply rpc_post_world. }
  apply wp_bind, wp_emit. simpl.
  assert (Hfail : ∀ w3 pd', clock w1 ≤ clock w3 →
    wp (close_h (HConn conn) ≫= λ _, io_ (sleep backoff) ≫= λ _,
          rpc_loop fuel start (Z.min (backoff *i 2) maxBackoff) pd')%m
       (rpc_post (mkSt q w t0)) (mkSt q w3 (t0 ++ [EvOpen (HConn conn)]))).
  { intros w3 pd' Hw. apply wp_bind, wp_close_h_clock. simpl. intros w' Hw'.
    eapply wp_mono; [apply Hagain; simpl; lia|]. intros r s' Hp.
    eapply (rpc_post_trans _ _ [EvOpen (HConn conn); EvClose (HConn conn)]); [| | | |exact Hp];
      simpl; try done; [by rewrite <- app_assoc|by repeat constructor|].
    intros h. rewrite !elem_of_cons, elem_of_nil. intros [[= ->]|[[=]|[]]]. auto. }
  apply wp_bind, wp_io_clock; [apply law_now|]. simpl. intros t1 w3 Hc3.
  apply wp_bind, wp_io_clock; [apply law_deadline|]. simpl. intros [e|] w4 Hc4; [apply Hfail; lia|].
  apply wp_bind, wp_io_clock; [apply law_ping|]. simpl. intros [e|] w5 Hc5; [apply Hfail; lia|].
  apply wp_bind, wp_io_clock; [apply law_deadline|]. simpl. intros [e|] w6 Hc6; [apply Hfail; lia|].
  apply wp_bind, wp_io_clock; [apply law_ping|]. simpl. intros [e|] w7 Hc7; [apply Hfail; lia|].
  apply wp_ret. exists (Ok conn), [EvOpen (HConn conn)]. split_and!; try done; [by repeat constructor|].
  intros h [= ->]%list_elem_of_singleton. eauto.
Qed.

(** *** Starting *)

(** Enough rounds for the connection loop: one per initial back-off. *)
Definition start_fuel : nat := 1003.

Lemma wp_startQemuProcess args Q s :
  (∀ w e q tr, q = inst s ∨ q = set_cmd (Some None) (inst s) →
     opened_ok tr q → no_spawn tr → Q (Some e) (mkSt q w (trace s ++ tr))) →
  (∀ w pid f, Q None (mkSt (set_cmd (Some (Some pid)) (inst s)) w
                (trace s ++ [EvOpen (HLog f); EvSpawn pid args (extraFiles (inst s))]))) →
  wp (startQemuProcess args) Q s.
Proof.
  intros He Hok. apply wp_bind, wp_get, wp_bind, wp_io. intros [f|e] w1; cycle 1.
  { apply wp_ret. specialize (He w1 (ErrWrap "failed to create qemu log file" e) (inst s) []).
    rewrite app_nil_r in He. apply He; [by left|by intros h ?%elem_of_nil|constructor]. }
  apply wp_bind, wp_emit, wp_bind, wp_upd, wp_bind, wp_io. simpl. intros [pid|e] w2.
  - apply wp_bind, wp_upd, wp_bind, wp_emit, wp_ret. simpl. rewrite <- app_assoc. apply Hok.
  - apply wp_bind. eapply wp_mono.
    { apply (wp_for_close (λ x : Z, Some x) HTap _ (λ _ s', ∃ w,
        s' = mkSt (set_cmd (Some None) (inst s)) w
               (trace s ++ EvOpen (HLog f) :: (EvClose ∘ HTap <$> extraFiles (inst s))))).
      intros w3. exists w3. simpl. rewrite <- app_assoc.
      assert (Hom : ∀ l : list Z, omap (λ x, Some x) l = l) by (by induction l as [|x l IH]; simpl; f_equal).
      by rewrite Hom. }
    intros [] s' [w4 ->]. apply wp_ret. apply He; [by right| |].
    + intros h. rewrite elem_of_cons, list_elem_of_fmap. intros [[= ->]|(x & [=] & _)]. by do 2 right.
    + constructor; [done|]. apply Forall_fmap, Forall_true. done.
Qed.

Lemma wp_kill_cmd Q s :
  (∀ w tr, no_spawn tr → (∀ h, EvOpen h ∉ tr) →
     (∀ pid, cmd (inst s) = Some (Some pid) → ∃ ok, EvKill pid ok ∈ tr) →
     Q tt (mkSt (inst s) w (trace s ++ tr))) →
  wp kill_cmd Q s.
Proof.
  intros H. apply wp_bind, wp_get.
  destruct (cmd (inst s)) as [[pid|]|] eqn:E.
  1: { apply wp_bind, wp_bind, wp_io. intros e w. apply wp_bind, wp_emit, wp_ret, wp_ret. simpl.
       apply H; [by repeat constructor|set_solver|]. intros pid' [= <-]. eexists. by left. }
  all: apply wp_ret; specialize (H (world s) []); rewrite app_nil_r in H; destruct s;
    apply H; [constructor|set_solver|done].
Qed.

Lemma wp_abort_vm Q s :
  (∀ w tr, no_spawn tr → (∀ h, EvOpen h ∉ tr) →
     (∀ pid, cmd (inst s) = Some (Some pid) → ∃ ok, EvKill pid ok ∈ tr) →
     Q tt (mkSt (inst s) w (trace s ++ tr))) →
  wp abort_vm Q s.
Proof.
  intros H. apply wp_bind, wp_kill_cmd. intros w tr Hs Ho Hk. apply wp_bind, wp_get. simpl.
  destruct (qmpClient (inst s)); [|by apply wp_ret, H].
  apply wp_close_h. intros w'. simpl. rewrite <- app_assoc. apply H.
  - apply Forall_app. split; [done|by repeat constructor].
  - intros h. rewrite elem_of_app. intros [?%Ho|?]; set_solver.
  - intros pid Hp. destruct (Hk pid Hp) as [ok ?]. exists ok. apply elem_of_app. by left.
Qed.

Lemma wp_connectVsockClient Q s :
  (∀ w e tr, no_spawn tr → (∀ h, EvOpen h ∈ tr → EvClose h ∈ tr) →
     (∀ pid, cmd (inst s) = Some (Some pid) → ∃ ok, EvKill pid ok ∈ tr) →
     Q (Some (Some e)) (mkSt (inst s) w (trace s ++ tr))) →
  (∀ w conn c tr, no_spawn tr →
     (∀ h, EvOpen h ∈ tr → EvClose h ∈ tr ∨ h = HConn conn ∨ h = HClient c) →
     Q (Some None) (mkSt (set_client (Some c) (set_conn (Some conn) (inst s))) w (trace s ++ tr))) →
  wp (connectVsockClient start_fuel) Q s.
Proof.
  intros He Hok. apply wp_bind, wp_get. destruct (ctx_Err _) as [e|].
  { apply wp_bind, wp_abort_vm. intros w tr Hs Ho Hk. apply wp_ret, He; [done| |done].
    by intros h ?%Ho. }
  apply wp_bind, wp_bind. destruct (law_now (world s)) as [Hn1 Hn2]. unfold wp at 1, io.
  destruct (now (world s)) as [t w1]. simpl in Hn1, Hn2. subst t.
  eapply wp_mono; [apply wp_rpc_loop|].
  { unfold initialBackoff, maxBackoff, Millisecond. lia. }
  { unfold start_fuel. lia. }
  { unfold connectRetryTimeout, initialBackoff, Millisecond, Second, start_fuel. simpl. lia. }
  intros r s' (r' & tr & -> & Hi & Ht & Hs & Ho). destruct s' as [q2 w2 t2]. simpl in *. subst q2 t2.
  destruct r' as [conn|e].
  - apply wp_bind, wp_upd, wp_bind, wp_io. intros c w3. apply wp_bind, wp_emit, wp_bind, wp_upd, wp_ret.
    simpl. rewrite <- app_assoc. apply Hok; [apply Forall_app; split; [done|by repeat constructor]|].
    intros h. rewrite !elem_of_app, !list_elem_of_singleton. intros [Hh|[= ->]]; [|by auto].
    destruct (Ho h Hh) as [?|(c' & [= <-] & ->)]; auto.
  - apply wp_bind, wp_abort_vm. simpl. intros w3 tr' Hs' Ho' Hk. apply wp_ret. rewrite <- app_assoc. apply He.
    + by apply Forall_app.
    + intros h. rewrite !elem_of_app. intros [[?|(c & [=] & _)]%Ho|?%Ho']; [by left|done].
    + intros pid Hp. destruct (Hk pid Hp) as [ok ?]. exists ok. apply elem_of_app. by right.
Qed.

(** The fields a start does not touch. *)
Definition same_setup q q' : Prop :=
  config q' = config q ∧ cidLease q' = cidLease q ∧ disks q' = disks q ∧
  consoleFile q' = consoleFile q ∧ consoleFifo q' = consoleFifo q.

(** A running VM: its process was given the TAP file of every NIC. *)
Definition running_ok tr q : Prop :=
  state q = vmStateRunning ∧ is_Some (qmpClient q) ∧ is_Some (client q) ∧ is_Some (vsockConn q) ∧
  ∃ pid args, cmd q = Some (Some pid) ∧ EvSpawn pid args (extraFiles q) ∈ tr ∧
    length (extraFiles q) = length (nets q).

Definition body_post s (r : option (option error)) (s' : st W) : Prop :=
  same_setup (inst s) (inst s') ∧ opened_ok (trace s') (inst s') ∧
  ((∃ e, r = Some (Some e) ∧ killed (trace s')) ∨
   (r = Some None ∧ running_ok (trace s') (inst s'))).

Lemma wp_openTapFiles netns Q s :
  Forall (λ n, TapFile n = None) (nets (inst s)) →
  (∀ r n ns w tr,
     (∀ h, EvOpen h ∈ tr → ∃ f, h = HTap f ∧ (EvClose h ∈ tr ∨ f ∈ omap TapFile ns)) → no_spawn tr →
     Q r (mkSt (set_nets n ns (inst s)) w (trace s ++ tr))) →
  wp (openTapFiles netns) Q s.
Proof.
  intros Hn H. apply wp_bind, wp_get.
  assert (Hsame : ∀ r, wp (m_ret r) Q s).
  { intros r. apply wp_ret. specialize (H r (tapNetns (inst s)) (nets (inst s)) (world s) []).
    rewrite app_nil_r in H. destruct s as [[] w t]. apply H; [by intros ? ?%elem_of_nil|constructor]. }
  destruct (nets (inst s)) as [|n0 ns0] eqn:En; [apply Hsame|].
  destruct (String.eqb netns ""); [apply Hsame|].
  apply wp_bind, wp_open_taps; [by rewrite En|done|]. intros [e|] n ns w tr Ho _ Hs.
  - by apply wp_ret, H.
  - apply wp_bind, wp_get, wp_bind, wp_upd, wp_ret. simpl. by apply (H None netns ns w tr).
Qed.

Lemma wp_launch opts s :
  opened_ok (trace s) (inst s) → no_spawn (trace s) →
  qmpClient (inst s) = None → client (inst s) = None → vsockConn (inst s) = None →
  wp (launch start_fuel opts) (body_post s) s.
Proof.
  intros Hacc Hsp Hqmp Hcl Hvc. apply wp_bind, wp_get, wp_bind, wp_get.
  destruct (buildQemuCommandLine _ _ _) as [args|e] eqn:Eb; cycle 1.
  { apply wp_ret. split; [done|]. split; [done|]. left. exists e. split; [done|by apply no_spawn_killed]. }
  apply command_line_devices in Eb as (_ & Hlen & _).
  apply wp_bind, wp_startQemuProcess.
  { intros w e q tr Hq Hacc2 Hs2. apply wp_ret. split; [by destruct Hq as [-> | ->]|]. split.
    - apply (opened_ok_app _ _ (inst s)); [done|done|]. intros [] ?; left; by destruct Hq as [-> | ->].
    - left. exists e. split; [done|]. apply no_spawn_killed. by apply Forall_app. }
  intros w2 pid lf. simpl.
  set (t2 := trace s ++ _). set (q2 := set_cmd _ _).
  assert (Hspawn : EvSpawn pid args (extraFiles q2) ∈ t2) by set_solver.
  assert (Hacc2 : opened_ok t2 q2).
  { apply (opened_ok_app _ _ (inst s)); [done| |by intros [] ?; left].
    intros h. rewrite !elem_of_cons, elem_of_nil. intros [[= ->]|[[=]|[]]]. by do 2 right. }
  assert (Hk2 : ∀ tr, no_spawn tr → (∃ ok, EvKill pid ok ∈ tr) → killed (t2 ++ tr)).
  { intros tr Hs [ok Hk] pid' a f. unfold t2. rewrite !elem_of_app.
    intros [[H|H]|H].
    - by destruct (no_spawn_killed _ Hsp _ _ _ H) as [k ?]; exists k; rewrite !elem_of_app; auto.
    - exists ok. rewrite elem_of_app. right. set_solver.
    - unfold no_spawn in Hs. rewrite Forall_forall in Hs. by apply Hs in H. }
  clearbody t2. apply wp_bind, wp_bind, wp_get, wp_bind, wp_io. intros [c|e] w3; cycle 1.
  { apply wp_bind, wp_kill_cmd. simpl. intros w4 tr Hs Ho Hk. apply wp_ret, wp_ret. split; [done|].
    split; [apply (opened_ok_app _ _ q2); [done|by intros h ?%Ho|by auto]|].
    left. eexists. split; [done|]. apply Hk2; [done|by apply Hk]. }
  apply wp_bind, wp_emit, wp_bind, wp_upd, wp_ret, wp_bind, wp_upd. simpl.
  set (q3 := set_runCancel _).
  assert (Hacc3 : opened_ok (t2 ++ [EvOpen (HQmp c)]) q3).
  { apply (opened_ok_app _ _ q2); [done| |].
    - intros h [= ->]%list_elem_of_singleton. right. by left.
    - intros [] Hh; try by left. simpl in Hh. congruence. }
  apply wp_bind, wp_connectVsockClient; simpl.
  - intros w4 e tr Hs Ho Hk. apply wp_ret. split; [done|].
    split; [apply (opened_ok_app _ _ q3); [done|by intros h ?%Ho; left|by auto]|].
    left. eexists. split; [done|]. rewrite <- app_assoc. apply Hk2.
    + by constructor.
    + destruct (Hk pid eq_refl) as [ok ?]. exists ok. by right.
  - intros w4 conn cl tr Hs Ho. apply wp_bind, wp_upd, wp_ret. split; [done|]. split.
    + apply (opened_ok_app _ _ q3); [done| |].
      * intros h Hh. destruct (Ho h Hh) as [?|[->| ->]]; [by left|right; by left..].
      * intros [] Hh; first [by left|unfold q3, q2 in Hh; simpl in Hh; congruence].
    + right. split; [done|]. split; [done|]. repeat (split; [by eexists|]). exists pid, args.
      split; [done|]. split; [|done]. simpl. rewrite !elem_of_app. by do 2 left.
Qed.

Lemma wp_start_body opts s :
  opened_ok (trace s) (inst s) → no_spawn (trace s) →
  Forall (λ n, TapFile n = None) (nets (inst s)) →
  qmpClient (inst s) = None → client (inst s) = None → vsockConn (inst s) = None →
  wp (start_body start_fuel opts) (body_post s) s.
Proof.
  intros Hacc Hsp Htap Hqmp Hcl Hvc. apply wp_bind, wp_get, wp_bind, wp_io_. intros w1.
  apply wp_bind, wp_io_. intros w2. apply wp_bind, wp_upd, wp_bind, wp_openTapFiles; [done|]. simpl.
  intros r n ns w3 tr1 Ho1 Hs1.
  assert (Hacc1 : opened_ok (trace s ++ tr1) (set_nets n ns (inst s))).
  { apply (opened_ok_app _ _ (inst s)); [done| |].
    - intros h Hh. destruct (Ho1 h Hh) as (f & -> & [?|?]); auto.
    - intros [] Hh; try by left. simpl in Hh. unfold extraFiles in Hh. exfalso.
      clear -Htap Hh. induction Htap as [|x l Hx _ IH]; simpl in *; [by apply elem_of_nil in Hh|].
      rewrite Hx in Hh. auto. }
  assert (Hsp1 : no_spawn (trace s ++ tr1)) by (by apply Forall_app).
  destruct r as [e|].
  - apply wp_ret. split; [done|]. split; [done|]. left. exists e. split; [done|by apply no_spawn_killed].
  - eapply wp_mono; [apply wp_launch; done|]. intros r s' (H1 & H2 & H3). by split_and!.
Qed.

(** An instance that was not started, or whose start was rolled back. *)
Definition fresh q : Prop :=
  state q = vmStateNew ∧ consoleFile q = None ∧ consoleFifo q = None ∧ qmpClient q = None ∧ client q = None ∧
  vsockConn q = None ∧ Forall (λ n, TapFile n = None) (nets q).

(** What a start leaves behind. *)
Definition start_post q (err : option error) q' tr : Prop :=
  config q' = config q ∧ disks q' = disks q ∧
  match err with
  | None => running_ok tr q' ∧ is_Some (consoleFile q') ∧ cidLease q' = cidLease q ∧ opened_ok tr q'
  | Some _ =>
      fresh q' ∧ killed tr ∧
      (∀ h, EvOpen h ∈ tr → EvClose h ∈ tr ∨ is_log h) ∧
      (cidLease q' = cidLease q ∧ no_spawn tr ∨
       cidLease q' = None ∧ ∀ l, cidLease q = Some l → EvClose (HLease l) ∈ tr)
  end.

Lemma close_tap_None ns : Forall (λ n, TapFile n = None) (close_tap <$> ns).
Proof. apply Forall_fmap, Forall_true. done. Qed.

Lemma wp_Start opts q w :
  fresh q →
  wp (Start start_fuel opts) (λ r s', ∃ err, r = Some err ∧ start_post q err (inst s') (trace s'))
    (mkSt q w []).
Proof.
  intros (Hst & Hcf & Hfi & Hqmp & Hcl & Hvc & Htap). unfold Start. apply wp_bind, wp_get. simpl.
  rewrite bool_decide_true by done. simpl. apply wp_bind, wp_upd, wp_bind, wp_get, wp_bind, wp_get. simpl.
  assert (Hback : ∀ e, ∃ err, Some (Some e) = Some err ∧
    start_post q err (setState vmStateNew (setState vmStateStarting q)) []).
  { intros e. eexists. split; [done|]. split; [done|]. split; [done|]. split; [done|].
    split; [by intros ? ? ? ?%elem_of_nil|]. split; [by intros h ?%elem_of_nil|].
    left. split; [done|constructor]. }
  destruct (validateConfiguration _ _) as [e|]; [apply wp_bind, wp_upd, wp_ret; by apply Hback|].
  apply wp_bind, wp_setupConsoleFIFO; simpl.
  { intros w1 e. apply wp_bind, wp_upd, wp_ret. by apply Hback. }
  intros w1 f. apply wp_bind. eapply wp_mono.
  { apply wp_start_body; simpl; try done; [|by repeat constructor].
    intros h [= ->]%list_elem_of_singleton. right. by left. }
  intros r [q2 w2 t2] (Hsame & Hacc & Hr). simpl in *. destruct Hsame as (Hc & Hl & Hd & Hf & Hfi2).
  simpl in Hc, Hl, Hd, Hf, Hfi2.
  destruct Hr as [(e & -> & Hk)|[-> Hrun]].
  - apply wp_bind, wp_rollbackStart. simpl. intros w3 tr Hcl3 Hct. apply wp_ret.
    cbn [inst trace]. eexists. split; [done|]. split; [done|]. split; [done|]. split; [|split; [|split]].
    + unfold fresh. simpl in *. repeat (split; [congruence|]). apply close_tap_None.
    + apply killed_app; [done|by apply closing_no_spawn].
    + intros h. rewrite !elem_of_app. intros [Hh|Hh].
      * destruct (Hacc h Hh) as [?|[Ho|?]]; [by auto..| |by auto].
        left. right. apply Hcl3; [done|]. intros f' ->. simpl in Ho. congruence.
      * rewrite Forall_forall in Hct. by apply Hct in Hh.
    + right. split; [done|]. intros l Hql. apply elem_of_app. right. apply Hcl3; [simpl; congruence|done].
  - apply wp_ret. eexists. split; [done|]. split; [done|]. split; [done|].
    split; [done|]. cbn [inst trace]. rewrite Hf, Hl. split; [by eexists|done].
Qed.



(** A new instance can be started: it is fresh, its resources are those
    [validateConfiguration] asks for, and its CID is leased to it. *)
Lemma newInstance_fresh env fs t pid fuel bin dir cfg d q d' :
  newInstance env fs t pid fuel bin dir cfg d = Some (Ok q, d') →
  fresh q ∧ cidLease q = Some (guestCID (config q)) ∧
  1 ≤ Resources.BootCPUs (resourceCfg (config q)) ≤ Resources.MaxCPUs (resourceCfg (config q)).
Proof.
  unfold newInstance. intros H. repeat case_match; simplify_eq/=. split; [by repeat split|].
  split; [done|]. unfold Resources.validateResourceConfig. destruct cfg as [c|]; simpl; [|done].
  unfold Resources.defaultBootCPUs. repeat case_match; bool_to_prop; lia.
Qed.


(** After a failed start the instance has lost its lease but keeps its CID.
    Its state is New again, so it may be started a second time; if that start
    succeeds, the VM runs on a CID that is not leased, and that other VMs
    may be given. *)
Theorem restart_runs_without_lease opts1 opts2 q w e q1 w1 tr1 :
  fresh q → Start start_fuel opts1 (mkSt q w []) = Return (Some (Some e), mkSt q1 w1 tr1) →
  ¬ no_spawn tr1 →
  fresh q1 ∧ cidLease q1 = None ∧
  ∀ w1' q2 w2 tr2, Start start_fuel opts2 (mkSt q1 w1' []) = Return (Some None, mkSt q2 w2 tr2) →
    state q2 = vmStateRunning ∧ cidLease q2 = None ∧ guestCID (config q2) = guestCID (config q).
Proof.
  intros Hf H1 Hns.
  pose proof (wp_Start opts1 q w Hf) as Hp. unfold wp in Hp. rewrite H1 in Hp.
  destruct Hp as (err & [= <-] & Hc1 & _ & Hf1 & _ & _ & Hl1). simpl in *.
  destruct Hl1 as [[_ ?]|[Hl1 _]]; [done|]. split; [done|]. split; [done|].
  intros w1' q2 w2 tr2 H2. pose proof (wp_Start opts2 q1 w1' Hf1) as Hp. unfold wp in Hp. rewrite H2 in Hp.
  destruct Hp as (err & [= <-] & Hc2 & _ & Hrun & _ & Hl2 & _). simpl in *.
  split; [apply Hrun|]. split; congruence.
Qed.

End clock.

(** *** Shutting down *)

(** Events before the final cleanup: the lease, the console file and the state
    directory are untouched. *)
Definition keeps (e : event) : bool :=
  match e with
  | EvClose (HLease _) | EvClose (HConsole _) | EvRemoveAll _ => false
  | _ => true
  end.

Definition stopped q : Instance := set_cmd None q.
Definition kill_failed q : Instance :=
  set_nets "" (close_tap <$> nets q) (set_qmp None (set_cmd None q)).

Lemma wp_wait_exit pid d Q s :
  (∀ w, Q true (mkSt (inst s) w (trace s ++ [EvExited pid]))) →
  (∀ w, Q false (mkSt (inst s) w (trace s))) → wp (wait_exit pid d) Q s.
Proof.
  intros H1 H2. apply wp_bind, wp_io. intros [e|] w; [apply wp_bind, wp_emit|]; apply wp_ret; auto.
Qed.

(** The possible ends of [stopQemuProcess]. *)
Definition stop_ends (pid : Z) (Q : option error → st W → Prop) s : Prop :=
  (∀ w tr, Forall keeps tr → Q None (mkSt (stopped (inst s)) w (trace s ++ tr ++ [EvExited pid]))) ∧
  (∀ w e tr, Forall keeps tr → Q (Some e) (mkSt (kill_failed (inst s)) w (trace s ++ tr))).

Lemma stop_ends_app pid Q q w w' t tr :
  Forall keeps tr → stop_ends pid Q (mkSt q w t) → stop_ends pid Q (mkSt q w' (t ++ tr)).
Proof.
  intros Hk [H1 H2]. split; intros; simpl in *; rewrite <- app_assoc.
  - rewrite (app_assoc tr). apply H1. by apply Forall_app.
  - apply H2. by apply Forall_app.
Qed.

Lemma wp_kill_failed (e : error) Q s :
  (∀ w tr, Forall keeps tr → Q (Some e) (mkSt (kill_failed (inst s)) w (trace s ++ tr))) →
  wp (upd (set_cmd None) ≫= λ _, cleanupAfterFailedKill ≫= λ _, m_ret (Some e))%m Q s.
Proof.
  intros H. apply wp_bind, wp_upd, wp_bind. destruct s as [q w t]. simpl in *.
  apply wp_bind, wp_close_field; [intros E; destruct q; simpl in *; by subst|]. intros w1. simpl.
  apply wp_closeTAPFiles. intros w2. simpl. apply wp_ret. rewrite <- app_assoc. apply H.
  apply Forall_app. split; [by destruct (qmpClient q); repeat constructor|].
  apply Forall_fmap, Forall_true. done.
Qed.

Lemma wp_sigkill pid Q s : stop_ends pid Q s → wp (sigkill pid) Q s.
Proof.
  intros [H1 H2]. apply wp_bind, wp_bind, wp_io. intros e w. apply wp_bind, wp_emit, wp_ret. simpl.
  set (k := EvKill pid _). destruct e as [e|].
  - apply wp_kill_failed. simpl. intros w' tr Hk. rewrite <- app_assoc. apply H2. by constructor.
  - apply wp_bind, wp_wait_exit; simpl.
    + intros w'. apply wp_bind, wp_upd, wp_ret. simpl. rewrite <- app_assoc. apply (H1 w' [k]).
      by repeat constructor.
    + intros w'. apply wp_kill_failed. simpl. intros w2 tr Hk. rewrite <- app_assoc. apply H2. by constructor.
Qed.

Lemma wp_stopQemuProcess pid Q s :
  cmd (inst s) = Some (Some pid) → stop_ends pid Q s → wp stopQemuProcess Q s.
Proof.
  intros Hc H. pose proof H as [H1 _]. apply wp_bind, wp_get. rewrite Hc.
  assert (Hexit : ∀ w, wp (upd (set_cmd None) ≫= λ _, m_ret (None : option error))%m Q
                         (mkSt (inst s) w (trace s ++ [EvExited pid]))).
  { intros w. apply wp_bind, wp_upd, wp_ret. apply (H1 w []). constructor. }
  assert (Hkill : ∀ w, wp (sigkill pid) Q (mkSt (inst s) w (trace s))).
  { intros w. apply wp_sigkill. destruct s as [q w0 t]. rewrite <- (app_nil_r t).
    apply (stop_ends_app _ _ _ w0); [constructor|done]. }
  apply wp_bind, wp_wait_exit; [done|]. intros w1.
  destruct (qmpClient (inst s)) as [c|]; [|done].
  apply wp_bind, wp_io. simpl. intros [e|] w2; [done|]. apply wp_bind, wp_wait_exit; simpl; done.
Qed.

Lemma wp_shutdownGuest Q s : (∀ w, Q tt (mkSt (inst s) w (trace s))) → wp shutdownGuest Q s.
Proof.
  intros H. apply wp_bind, wp_get. destruct (qmpClient (inst s)).
  - apply wp_bind, wp_io. intros [e|] w; [apply wp_bind, wp_io; intros ? w'|]; by apply wp_ret.
  - apply wp_ret. specialize (H (world s)). by destruct s.
Qed.

Definition cleaned q : Instance :=
  set_lease None (set_nets "" (close_tap <$> nets q) (set_console None (set_qmp None q))).

Lemma wp_close_opt {A} (mk : A → handle) (o : option A) Q s :
  (∀ w, Q tt (mkSt (inst s) w (trace s ++ closes mk o))) →
  wp (match o with Some x => close_h (mk x) | None => m_ret tt end) Q s.
Proof.
  intros H. destruct o; [by apply wp_close_h|]. apply wp_ret. specialize (H (world s)).
  rewrite app_nil_r in H. by destruct s.
Qed.

Lemma wp_cleanupResources c Q s :
  qmpClient (inst s) = Some c →
  (∀ w tr, (∀ h, owns (inst s) h → owns (cleaned (inst s)) h ∨ EvClose h ∈ tr) →
     Q tt (mkSt (cleaned (inst s)) w (trace s ++ tr))) →
  wp cleanupResources Q s.
Proof.
  intros Hq H. destruct s as [[cfg st lease cf ff cm qm cl vc rc tn ds ns nc] w0 t0]. simpl in *. subst qm.
  apply wp_bind, wp_get, wp_bind, wp_close_h. intros w1. apply wp_bind, wp_upd, wp_bind, wp_close_opt.
  intros w2. simpl. apply wp_bind, wp_upd, wp_bind, wp_remove_path. intros w3. simpl.
  apply wp_bind, wp_closeTAPFiles. intros w4. simpl.
  apply wp_bind, wp_close_field; [simpl; by intros ->|]. intros w5. simpl.
  apply wp_removeAll_path. intros w6 tr _. simpl. rewrite <- !app_assoc. apply H.
  intros h Ho. rewrite !elem_of_app. destruct h; simpl in Ho; first [by left|right].
  - do 2 right. left. apply list_elem_of_fmap. eauto.
  - right. left. by apply closes_in.
  - left. injection Ho as ->. by left.
  - do 3 right. left. by apply closes_in.
Qed.

Definition disconnected q : Instance := set_fifo None (set_conn None (set_client None q)).

Lemma wp_cancel Q s :
  (∀ tr, Forall keeps tr → Q tt (mkSt (inst s) (world s) (trace s ++ tr))) →
  wp cancelBackgroundMonitors Q s.
Proof.
  intros H. apply wp_bind, wp_get. destruct (runCancel _).
  - apply wp_emit, H. by repeat constructor.
  - apply wp_ret. specialize (H []). rewrite app_nil_r in H. destruct s. apply H. constructor.
Qed.

Lemma wp_closeClientConnections Q s :
  (∀ w tr, Forall keeps tr →
     (∀ h, owns (inst s) h → owns (disconnected (inst s)) h ∨ EvClose h ∈ tr) →
     Q tt (mkSt (disconnected (inst s)) w (trace s ++ tr))) →
  wp closeClientConnections Q s.
Proof.
  intros H. destruct s as [[cfg st lease cf ff cm qm cl vc rc tn ds ns nc] w0 t0].
  do 2 (apply wp_bind, wp_close_field; [simpl; by intros ->|]; intros ?; simpl).
  apply wp_close_field; [simpl; by intros ->|]; intros ?; simpl. rewrite <- !app_assoc. apply H.
  - rewrite !Forall_app. split_and!; [destruct cl|destruct vc|destruct ff]; by repeat constructor.
  - intros h Ho. rewrite !elem_of_app. destruct h; simpl in Ho; first [by left|right]; eauto 6 using closes_in.
Qed.

(** The state and the trace a shutdown leaves. *)
Definition shutdown_post q pid (err : option error) q' tr : Prop :=
  state q' = vmStateShutdown ∧ client q' = None ∧ vsockConn q' = None ∧ cmd q' = None ∧
  match err with
  | None =>
      (∀ h, ¬ owns q' h) ∧ (∀ h, owns q h → EvClose h ∈ tr) ∧
      ∃ tr1 tr2, tr = tr1 ++ EvExited pid :: tr2 ∧ Forall keeps tr1
  | Some _ => cidLease q' = cidLease q ∧ consoleFile q' = consoleFile q ∧ Forall keeps tr
  end.

Lemma wp_Shutdown q w pid c :
  state q = vmStateRunning → cmd q = Some (Some pid) → qmpClient q = Some c →
  wp Shutdown (λ err s', shutdown_post q pid err (inst s') (trace s')) (mkSt q w []).
Proof.
  intros Hst Hcmd Hqmp. apply wp_bind, wp_get. simpl. rewrite bool_decide_true by done. simpl.
  apply wp_bind, wp_upd, wp_bind, wp_cancel. simpl. intros tr0 Hk0.
  apply wp_bind, wp_closeClientConnections. simpl. intros w1 tr1 Hk1 Ho1.
  apply wp_bind, wp_shutdownGuest. intros w2. simpl.
  apply wp_bind, (wp_stopQemuProcess pid); [done|]. split; simpl.
  - intros w3 tr Hk. apply wp_bind, (wp_cleanupResources c); [done|]. simpl. intros w4 tr2 Ho2.
    apply wp_ret. do 4 (split; [done|]). split; [|split].
    + intros [] Ho; simpl in Ho; try done. unfold extraFiles in Ho. simpl in Ho.
      rewrite extraFiles_close in Ho. by apply elem_of_nil in Ho.
    + intros h Ho. simpl. rewrite !elem_of_app. destruct (Ho1 h) as [H1|H1]; [done| |by auto].
      destruct (Ho2 h) as [H2|H2]; [done| |by auto]. exfalso. clear Ho1 Ho2 H1.
      destruct h; simpl in H2; try done. unfold extraFiles in H2. simpl in H2.
      rewrite extraFiles_close in H2. by apply elem_of_nil in H2.
    + exists ((tr0 ++ tr1) ++ tr), tr2. simpl. rewrite <- !app_assoc. split; [done|].
      by rewrite !Forall_app.
  - intros w3 e tr Hk. apply wp_ret. do 6 (split; [done|]). simpl. by rewrite !Forall_app.
Qed.

(** C37: [Shutdown] gives everything back, in the right order, or says so.  If
    it reports no error, the exit of QEMU was seen, everything the instance
    held is closed, and the CID lease is released only after the exit.  If it
    reports an error QEMU may still run: the lease, the console file and the
    state directory are kept, and calling it again does nothing. *)
Theorem Shutdown_releases q w pid c :
  state q = vmStateRunning → cmd q = Some (Some pid) → qmpClient q = Some c →
  ∃ err q' w' tr, Shutdown (mkSt q w []) = Return (err, mkSt q' w' tr) ∧
    shutdown_post q pid err q' tr ∧
    ∀ s, inst s = q' → Shutdown s = Return (None, s).
Proof.
  intros Hst Hcmd Hqmp. pose proof (wp_Shutdown q w pid c Hst Hcmd Hqmp) as H.
  apply wp_Return in H as (err & [q' w' tr] & H & Hp). exists err, q', w', tr.
  split; [done|]. split; [done|]. intros s <-. destruct Hp as [Hs _]. simpl in Hs.
  unfold Shutdown, m_bind, get_q, m_get. by rewrite Hs.
Qed.

End instance_theorems.

(** ** Witnesses: a host on which the first connection to QMP fails *)

Module QemuDemo.
Import Qemu QemuInstance.

(** The number of QMP connections tried, and the time. *)
Definition world : Type := Z * Z.

Definition fine (w : world) : option error * world := (None, w).

#[global] Instance ops : QOps world := {
  os_Stat := λ _ _, None;
  os_Remove := λ _ w, w;
  os_RemoveAll := λ _ w, w;
  mkfifo := λ _, fine;
  os_Create := λ _ w, (Ok 10, w);
  os_Open := λ _ w, (Ok 11, w);
  openTAPInNetNS := λ _ _ w, (Ok 12, w);
  sharePath := λ _, Ok "/usr/share/spin-stack/qemu";
  cmd_Start := λ _ _ _ w, (Ok 4711, w);
  process_Kill := λ _, fine;
  waitCh := λ _ _ w, (Some None, w);
  newQMPClient := λ _ w,
    ((if w.1 =? 0 then Err (ErrNew "QMP socket not available") else Ok 13), (w.1 + 1, w.2));
  qmp_SendCtrlAltDelete := λ _, fine;
  qmp_Shutdown := λ _, fine;
  qmp_Quit := λ _, fine;
  vsock_Dial := λ _ _ w, (Ok 14, w);
  SetReadDeadline := λ _ _, fine;
  pingTTRPC := λ _, fine;
  ttrpc_NewClient := λ _ w, (15, w);
  close_handle := λ _ w, w;
  ctx_Err := λ _, None;
  now := λ w, (w.2, (w.1, w.2 + 1));
  sleep := λ d w, (w.1, w.2 + d) }.

#[global] Instance clock_laws : QClock world snd.
Proof. split; intros; simpl; lia. Qed.

Definition paths0 : instancePaths :=
  mkPaths "/run/vm" "/var/log/vm" "/run/vm/qmp.sock" "/run/vm/vsock.sock" "/var/log/vm/console.log"
    "/run/vm/console.fifo" "/var/log/vm/qemu.log".
Definition q0 : Instance :=
  mkInstance
    (mkConfig "/usr/bin/qemu" "/boot/kernel" "/boot/initrd"
       (Resources.validateResourceConfig None) 42 paths0)
    vmStateNew (Some 16) None None None None None None false ""
    [mkDisk "disk0" "/img/root.erofs" true] [mkNet "net0" "tap0" None "02:00:00:00:00:01"] None.
Definition opts : StartOpts := mkStartOpts ["-debug"] None "/run/netns/a".

Lemma fresh0 : fresh q0.
Proof. repeat split. by repeat constructor. Qed.

(** The instance after the failed start, and after the second one. *)
Definition q1 : Instance :=
  match Start start_fuel opts (mkSt q0 (0, 0) []) with Return (_, s) => inst s | Panic _ => q0 end.
Definition tr1 : list event :=
  match Start start_fuel opts (mkSt q0 (0, 0) []) with Return (_, s) => trace s | Panic _ => [] end.
Definition err1 : error :=
  ErrWrap "failed to connect to QMP" (ErrNew "QMP socket not available").
Definition q2 : Instance :=
  match Start start_fuel opts (mkSt q1 (1, 0) []) with Return (_, s) => inst s | Panic _ => q0 end.

End QemuDemo.


Lemma restart_runs_without_lease_witness :
  Qemu.state QemuDemo.q2 = Qemu.vmStateRunning ∧ Qemu.cidLease QemuDemo.q2 = None ∧
  Qemu.guestCID (Qemu.config QemuDemo.q2) = 42.
Proof.
  destruct (restart_runs_without_lease (W:=QemuDemo.world) snd QemuDemo.opts QemuDemo.opts
    QemuDemo.q0 (0, 0) QemuDemo.err1 QemuDemo.q1 (1, 0) QemuDemo.tr1 QemuDemo.fresh0) as (_ & _ & H).
  - vm_compute. reflexivity.
  - intros H%no_spawn_existsb. vm_compute in H. discriminate.
  - eapply (H (1, 0) QemuDemo.q2). vm_compute. reflexivity.
Defined.

Lemma Shutdown_releases_witness :
  ∃ err q' w' tr,
    QemuInstance.Shutdown (QemuInstance.mkSt QemuDemo.q2 (2, 0) []) =
      Return (err, QemuInstance.mkSt q' w' tr) ∧ shutdown_post QemuDemo.q2 4711 err q' tr.
Proof.
  destruct (Shutdown_releases (W:=QemuDemo.world) QemuDemo.q2 (2, 0) 4711 13) as (err & q' & w' & tr & H & Hp & _);
    [vm_compute; reflexivity..|]. exists err, q', w', tr. by split.
Defined.
