(* ===== verification/HostConns.v ===== *)
(** * Connections of the host to a VM

    Models [DialClient] of internal/host/vm/qemu/client.go with the goroutine that
    dials ([Dial]), and the life of the QMP client, internal/host/vm/qemu/qmp_client.go
    and qmp_events.go ([QmpLife]): its construction, the loop that handles events and
    any number of concurrent calls of [Close].  Both are systems of goroutines whose
    steps interleave in any order. *)

From S2P Require Import Prelude GoStrings.

(** ** DialClient *)

Module Dial.

(** The caller: its checks, the select, the three calls on the connection that it
    received, and its end. *)
Inductive stage := SetDeadline | Ping | ClearDeadline.
Inductive caller_pc := CCheck | CSelect | CSetup (g : stage) (c : Z) | COk (c : Z) | CErr.
Inductive dialer_pc := DIdle | DDialing | DDone.

(** The channel with room for one result (a connection or an error), the open
    connections, and whether the caller stopped waiting. *)
Record sys := mkSys
  { caller : caller_pc; dialer : dialer_pc; resultCh : option (option Z); opened : gset Z; fresh : Z; gaveUp : bool }.

Definition next_stage (g : stage) (c : Z) : caller_pc :=
  match g with SetDeadline => CSetup Ping c | Ping => CSetup ClearDeadline c | ClearDeadline => COk c end.

(** What may happen. *)
Inductive action :=
  | Refuse                    (* not running, or the context has ended *)
  | Spawn
  | Dialed (ok : bool)
  | GiveUp                    (* the context or the timeout *)
  | Receive
  | SetupStep (ok : bool).

Definition exec (a : action) (s : sys) : option sys :=
  match a, caller s, dialer s with
  | Refuse, CCheck, _ => Some (mkSys CErr (dialer s) (resultCh s) (opened s) (fresh s) (gaveUp s))
  | Spawn, CCheck, DIdle => Some (mkSys CSelect DDialing (resultCh s) (opened s) (fresh s) (gaveUp s))
  | Dialed true, _, DDialing =>
      Some (mkSys (caller s) DDone (Some (Some (fresh s))) ({[fresh s]} ∪ opened s) (fresh s + 1) (gaveUp s))
  | Dialed false, _, DDialing => Some (mkSys (caller s) DDone (Some None) (opened s) (fresh s) (gaveUp s))
  | GiveUp, CSelect, _ => Some (mkSys CErr (dialer s) (resultCh s) (opened s) (fresh s) true)
  | Receive, CSelect, _ =>
      match resultCh s with
      | Some (Some c) => Some (mkSys (CSetup SetDeadline c) (dialer s) None (opened s) (fresh s) (gaveUp s))
      | Some None => Some (mkSys CErr (dialer s) None (opened s) (fresh s) (gaveUp s))
      | None => None
      end
  | SetupStep true, CSetup g c, _ => Some (mkSys (next_stage g c) (dialer s) (resultCh s) (opened s) (fresh s) (gaveUp s))
  | SetupStep false, CSetup _ c, _ => Some (mkSys CErr (dialer s) (resultCh s) (opened s ∖ {[c]}) (fresh s) (gaveUp s))
  | _, _, _ => None
  end.

Definition step (s s' : sys) : Prop := ∃ a, exec a s = Some s'.
Definition init : sys := mkSys CCheck DIdle None ∅ 0 false.

End Dial.

Section dial.
Import Dial.

(** The one connection is in the channel, with the caller, or nowhere. *)
Definition dial_inv (s : sys) : Prop :=
  match caller s with
  | CCheck => dialer s = DIdle ∧ resultCh s = None ∧ opened s = ∅ ∧ gaveUp s = false
  | CSelect =>
      gaveUp s = false ∧
      match dialer s with
      | DIdle => False
      | DDialing => resultCh s = None ∧ opened s = ∅
      | DDone => ∃ r, resultCh s = Some r ∧ opened s = match r with Some c => {[c]} | None => ∅ end
      end
  | CSetup _ c | COk c => gaveUp s = false ∧ dialer s = DDone ∧ resultCh s = None ∧ opened s = {[c]}
  | CErr =>
      if gaveUp s then
        match dialer s with
        | DIdle => False
        | DDialing => resultCh s = None ∧ opened s = ∅
        | DDone => ∃ r, resultCh s = Some r ∧ opened s = match r with Some c => {[c]} | None => ∅ end
        end
      else dialer s ≠ DDialing ∧ resultCh s = None ∧ opened s = ∅
  end.

Lemma dial_inv_step s s' : dial_inv s → step s s' → dial_inv s'.
Proof.
  intros Hi [a Ha]. destruct s as [cp dp ch op fr gu]. unfold exec in Ha. cbn in *.
  destruct a as [| |[]| | |[]], cp as [| |g c|c|], dp; cbn in *; try discriminate; simplify_eq/=;
    repeat match goal with H : _ ∧ _ |- _ => destruct H end; simplify_eq/=;
    try (destruct gu; cbn in *; [|naive_solver]);
    repeat match goal with
    | H : ∃ _, _ |- _ => destruct H
    | H : _ ∧ _ |- _ => destruct H
    | H : match ?ch with _ => _ end = Some _ |- _ => destruct ch as [[]|]; simplify_eq/=
    end; simplify_eq/=; try (destruct g); unfold dial_inv; cbn; eauto 8; try naive_solver;
    try (split_and!; try done; set_solver); (eexists; split; [done|set_solver]).
Qed.

Lemma dial_reachable s : rtc step init s → dial_inv s.
Proof.
  intros Hs. assert (dial_inv init) as H0 by (by repeat split). revert Hs H0. generalize init. induction 1 as [|s1 s2 s3 Hst _ IH]; [done|].
  intros Hi. by eapply IH, dial_inv_step.
Qed.

(** Dialing the guest hands out or closes the connection: in every interleaving of
    the caller and the dialing goroutine, a call that succeeds has the one open
    connection, and once the goroutine has ended a call that failed has left none
    open, unless it stopped waiting and the dial succeeded after all; such a
    connection stays in the channel. *)
Theorem dial_accounted s :
  rtc step init s →
  (∀ c, caller s = COk c → opened s = {[c]}) ∧
  (caller s = CErr → dialer s ≠ DDialing →
    opened s = ∅ ∨ gaveUp s = true ∧ ∃ c, resultCh s = Some (Some c) ∧ opened s = {[c]}).
Proof.
  intros Hi%dial_reachable. unfold dial_inv in Hi. split.
  - intros c Hc. rewrite Hc in Hi. naive_solver.
  - intros Hc Hd. rewrite Hc in Hi. destruct (gaveUp s); [|naive_solver]. destruct (dialer s); [done|done|].
    destruct Hi as ([c|] & Hr & Ho); [right|by left]. eauto.
Qed.

(** It can come to that. *)
Example late_dial_stays_open :
  ∃ s, rtc step init s ∧ caller s = CErr ∧ dialer s = DDone ∧ opened s = {[0]}.
Proof.
  exists (mkSys CErr DDone (Some (Some 0)) {[0]} 1 true). split; [|done].
  eapply rtc_l; [exists Spawn; reflexivity|]. eapply rtc_l; [exists GiveUp; reflexivity|].
  eapply rtc_l; [exists (Dialed true); vm_compute; reflexivity|]. constructor.
Qed.

End dial.

(** ** The QMP client *)

Module QmpLife.

(** *** newQMPClient *)

Class Monitor (W : Type) := {
  waitForSocket : W → option error * W;
  NewSocketMonitor : W → option error * W;
  Connect : W → option error * W;
  Disconnect : W → option error * W;
  (* monitor.Events; whether events are not supported *)
  Events : W → option error * W;
  ErrEventsNotSupported : error → bool }.

(** The state of the monitor's socket and whether the loop was started. *)
Record st (W : Type) := mkSt { world : W; connected : bool; loops : nat }.
Arguments mkSt {W}. Arguments world {W}. Arguments connected {W}. Arguments loops {W}.

Section new.
Context {W : Type} `{!Monitor W}.
#[local] Open Scope m_scope.
Notation ST := (st W).

Definition call (f : W → option error * W) : M ST (option error) := λ s,
  let '(e, w) := f (world s) in Return (e, mkSt w (connected s) (loops s)).
Definition set_connected (b : bool) : M ST () := m_modify (λ s, mkSt (world s) b (loops s)).

Definition disconnect : M ST () := call Disconnect ≫= λ _, set_connected false.

Definition newQMPClient : M ST (option error) :=
  e ← call waitForSocket;
  match e with
  | Some e => m_ret (Some (ErrWrap "QMP socket not available" e))
  | None =>
      e ← call NewSocketMonitor;
      match e with
      | Some e => m_ret (Some (ErrWrap "failed to connect to QMP socket" e))
      | None =>
          set_connected true ≫= λ _,
          e ← call Connect;
          match e with
          | Some e => disconnect ≫= λ _, m_ret (Some (ErrWrap "failed to negotiate QMP capabilities" e))
          | None =>
              e ← call Events;
              match e with
              | Some e =>
                  if negb (ErrEventsNotSupported e)
                  then disconnect ≫= λ _, m_ret (Some (ErrWrap "failed to subscribe to QMP events" e))
                  else m_modify (λ s, mkSt (world s) (connected s) (S (loops s))) ≫= λ _, m_ret None
              | None => m_modify (λ s, mkSt (world s) (connected s) (S (loops s))) ≫= λ _, m_ret None
              end
          end
      end
  end.

End new.

(** *** The loop and Close *)

(** An event is a number.  The loop is before its select, before the check of the
    flag, in the handler, before the deferred close, or has ended. *)
Inductive loop_pc := LSelect | LCheck (e : Z) | LHandle (e : Z) | LExit | LDone | LPanic.
Inductive close_pc := KStart | KDisconnect | KWait | KDone.

(** The flag, the times the monitor was disconnected, the channel of events (its
    contents and whether the library has closed it; nothing if there is none), the
    channel [eventLoopDone], the callers of [Close], the events that arrived and
    those that were handled, with the number of the latter since the flag was set. *)
Record sys := mkSys
  { closed : bool; disconnects : nat; events : option (list Z * bool); eventLoopDone : chan;
    loop : loop_pc; closers : gmap Z close_pc; arrived : list Z; handled : list Z; late : nat }.

Definition set_loop (p : loop_pc) (s : sys) : sys :=
  mkSys (closed s) (disconnects s) (events s) (eventLoopDone s) p (closers s) (arrived s) (handled s) (late s).
Definition set_closer (k : Z) (p : close_pc) (s : sys) : sys :=
  mkSys (closed s) (disconnects s) (events s) (eventLoopDone s) (loop s) (<[k := p]> (closers s)) (arrived s) (handled s) (late s).
Definition set_events (ev : option (list Z * bool)) (s : sys) : sys :=
  mkSys (closed s) (disconnects s) ev (eventLoopDone s) (loop s) (closers s) (arrived s) (handled s) (late s).

(** One step of [eventLoop].  Its context is never cancelled. *)
Definition loop_exec (s : sys) : option sys :=
  match loop s with
  | LSelect =>
      match events s with
      | None => Some (set_loop LExit s)
      | Some (e :: q, o) => Some (set_loop (LCheck e) (set_events (Some (q, o)) s))
      | Some ([], true) => None
      | Some ([], false) => Some (set_loop LExit s)
      end
  | LCheck e => Some (set_loop (if closed s then LExit else LHandle e) s)
  | LHandle e =>
      Some (mkSys (closed s) (disconnects s) (events s) (eventLoopDone s) LSelect (closers s) (arrived s)
              (handled s ++ [e]) (if closed s then S (late s) else late s))
  | LExit =>
      Some (match close (eventLoopDone s) with
            | Return c => mkSys (closed s) (disconnects s) (events s) c LDone (closers s) (arrived s) (handled s) (late s)
            | Panic _ => set_loop LPanic s
            end)
  | LDone | LPanic => None
  end.

(** One step of a call of [Close]; the wait also ends by its timeout. *)
Definition close_exec (k : Z) (s : sys) : option sys :=
  match closers s !! k with
  | Some KStart =>
      Some (if closed s then set_closer k KDone s
            else set_closer k KDisconnect
                   (mkSys true (disconnects s) (events s) (eventLoopDone s) (loop s) (closers s) (arrived s) (handled s) (late s)))
  | Some KDisconnect =>
      Some (set_closer k KWait
              (mkSys (closed s) (S (disconnects s)) (events s) (eventLoopDone s) (loop s) (closers s) (arrived s) (handled s) (late s)))
  | Some KWait => Some (set_closer k KDone s)
  | Some KDone | None => None
  end.

Inductive step : sys → sys → Prop :=
  | Loop s s' : loop_exec s = Some s' → step s s'
  | Closing k s s' : close_exec k s = Some s' → step s s'
  | CallClose k s : closers s !! k = None → step s (set_closer k KStart s)
  (* the library delivers an event, or closes the channel when the socket is gone *)
  | Arrives e q s : events s = Some (q, true) →
      step s (mkSys (closed s) (disconnects s) (Some (q ++ [e], true)) (eventLoopDone s) (loop s) (closers s) (arrived s ++ [e]) (handled s) (late s))
  | Hangup q s : events s = Some (q, true) → step s (set_events (Some (q, false)) s).

Definition init (supported : bool) : sys :=
  mkSys false 0 (if supported then Some ([], true) else None) OpenChan LSelect ∅ [] [] 0.

End QmpLife.

Section qmp.
Import QmpLife.

(** A client, or nothing: the socket is open and one loop runs, or neither. *)
Theorem newQMPClient_all_or_nothing {W} `{!Monitor W} (s : st W) :
  connected s = false →
  wp newQMPClient (λ r s', match r with
    | None => connected s' = true ∧ loops s' = S (loops s)
    | Some _ => connected s' = false ∧ loops s' = loops s
    end) s.
Proof.
  intros Hc. unfold wp, newQMPClient, disconnect, set_connected, call, m_bind, m_ret, m_modify.
  repeat (case_match; simplify_eq/=; try done).
Qed.

(** *** Invariants of the running client *)

(** Who closes: nobody yet, one caller before its disconnect, or it was done. *)
Definition closing_ok (s : sys) : Prop :=
  if closed s then
    (disconnects s = 0%nat ∧ ∃ k, closers s !! k = Some KDisconnect ∧ ∀ k', k' ≠ k → closers s !! k' ≠ Some KDisconnect) ∨
    (disconnects s = 1%nat ∧ ∀ k, closers s !! k ≠ Some KDisconnect)
  else disconnects s = 0%nat ∧ ∀ k p, closers s !! k = Some p → p = KStart.

Definition queue (s : sys) : list Z := match events s with Some (q, _) => q | None => [] end.
Definition in_hand (p : loop_pc) : list Z := match p with LCheck e | LHandle e => [e] | _ => [] end.
Definition ended (p : loop_pc) : bool := match p with LExit | LDone | LPanic => true | _ => false end.
Definition handling (p : loop_pc) : nat := match p with LHandle _ => 1%nat | _ => 0%nat end.

Definition loop_ok (s : sys) : Prop :=
  loop s ≠ LPanic ∧ eventLoopDone s = (match loop s with LDone => ClosedChan | _ => OpenChan end) ∧
  (if closed s then (late s + handling (loop s) ≤ 1)%nat else late s = 0%nat) ∧
  (if ended (loop s) then handled s `prefix_of` arrived s else handled s ++ in_hand (loop s) ++ queue s = arrived s).

Lemma loop_exec_ok s s' : loop_ok s → loop_exec s = Some s' → loop_ok s'.
Proof.
  destruct s as [cl di ev ch lo cs ar ha la]. unfold loop_ok, loop_exec, queue. cbn. intros (Hp & Hc & Hl & Hh) E.
  destruct lo as [|e|e| | |]; cbn in *; try done.
  - destruct ev as [[[|e q] []]|]; simplify_eq/=; (split_and!; try done); try (by rewrite app_nil_r); destruct cl; cbn in *; try lia; try done.
  - simplify_eq/=. destruct cl; cbn in *; (split_and!; try done); try lia. by eexists.
  - simplify_eq/=. destruct cl; cbn in *; (split_and!; try done); try lia; try (by rewrite <- app_assoc).
  - subst ch. simplify_eq/=. by split_and!.
Qed.

Lemma close_exec_loop k s s' : loop_ok s → close_exec k s = Some s' → loop_ok s'.
Proof.
  unfold loop_ok, close_exec, queue. intros (Hp & Hc & Hl & Hh) E. destruct (closers s !! k) as [[]|]; try done; simplify_eq/=; try done.
  destruct (closed s) eqn:Hcl; cbn; rewrite ?Hcl; split_and!; try done. rewrite Hl. destruct (loop s); cbn; lia.
Qed.

(** Closers that do not disconnect do not matter. *)
Lemma closing_insert s k p :
  closing_ok s → p ≠ KDisconnect → closers s !! k ≠ Some KDisconnect → (closed s = false → p = KStart) → closing_ok (set_closer k p s).
Proof.
  unfold closing_ok. cbn. intros Hc Hp Hk Hs.
  assert (∀ k', closers s !! k' ≠ Some KDisconnect → <[k := p]> (closers s) !! k' ≠ Some KDisconnect) as Hi.
  { intros k' Hk'. destruct (decide (k' = k)) as [->|]; [rewrite lookup_insert_eq; congruence|by rewrite lookup_insert_ne]. }
  destruct (closed s).
  - destruct Hc as [(Hd & k0 & H0 & H1)|[Hd H1]]; [left|right; by auto]. split; [done|]. exists k0.
    rewrite lookup_insert_ne by congruence. auto.
  - destruct Hc as [Hd H1]. split; [done|]. intros k' p'. destruct (decide (k' = k)) as [->|].
    + rewrite lookup_insert_eq. intros [= <-]. by apply Hs.
    + rewrite lookup_insert_ne by done. apply H1.
Qed.

Lemma close_exec_closing k s s' : closing_ok s → close_exec k s = Some s' → closing_ok s'.
Proof.
  unfold close_exec. intros Hc E. destruct (closers s !! k) as [[]|] eqn:Hk; try done; simplify_eq/=.
  - destruct (closed s) eqn:Hcl; [apply closing_insert; [done|done|congruence|congruence]|].
    unfold closing_ok in *. cbn. rewrite Hcl in Hc. destruct Hc as [Hd H1]. left. split; [done|]. exists k.
    rewrite lookup_insert_eq. split; [done|]. intros k' Hk'. rewrite lookup_insert_ne by done. intros E. by apply H1 in E.
  - unfold closing_ok in *. cbn. destruct (closed s) eqn:Hcl; [|by destruct Hc as [_ Hc]; apply Hc in Hk].
    destruct Hc as [(Hd & k0 & H0 & H1)|[_ H1]]; [|by apply H1 in Hk].
    right. split; [by rewrite Hd|]. intros k'. destruct (decide (k' = k)) as [->|]; [by rewrite lookup_insert_eq|].
    rewrite lookup_insert_ne by done. destruct (decide (k0 = k)) as [->|Hne]; [by apply H1|]. by destruct (H1 k (not_eq_sym Hne)).
  - apply closing_insert; [done|done|congruence|]. intros Hcl. unfold closing_ok in Hc. rewrite Hcl in Hc.
    destruct Hc as [_ Hc]. by apply Hc in Hk.
Qed.

Lemma qmp_step s s' : closing_ok s ∧ loop_ok s → step s s' → closing_ok s' ∧ loop_ok s'.
Proof.
  intros [Hc Hl] Hs. destruct Hs as [s s' E|k s s' E|k s E|e q s E|q s E].
  - split; [|by eapply loop_exec_ok].
    assert (closed s' = closed s ∧ disconnects s' = disconnects s ∧ closers s' = closers s) as (E1 & E2 & E3)
      by (unfold loop_exec in E; by repeat case_match; simplify_eq/=).
    unfold closing_ok. by rewrite E1, E2, E3.
  - split; [by eapply close_exec_closing|by eapply close_exec_loop].
  - split; [|done]. apply closing_insert; [done|done|by rewrite E|done].
  - split; [done|]. unfold loop_ok, queue in *. cbn. rewrite E in Hl. destruct Hl as (? & ? & ? & Hh). split_and!; try done.
    destruct (ended (loop s)); [by apply prefix_app_r|]. by rewrite <- Hh, <- !app_assoc.
  - split; [done|]. unfold loop_ok, queue in *. cbn. by rewrite E in Hl.
Qed.

Lemma qmp_inv b s : rtc step (init b) s → closing_ok s ∧ loop_ok s.
Proof.
  assert (closing_ok (init b) ∧ loop_ok (init b)) as H0 by (by destruct b).
  intros Hs. revert Hs H0. generalize (init b). induction 1 as [|s1 s2 s3 Hst _ IH]; [done|]. intros Hi. by eapply IH, qmp_step.
Qed.

(** In every interleaving of the loop and of any number of calls of [Close], the
    monitor is disconnected at most once, and exactly once when a caller that is to
    do it has; the loop handles the events in the order in which they arrived, at
    most one of them after the client was closed; and the channel that [Close] waits
    for is closed exactly when the loop has ended, never twice. *)
Theorem qmp_client_life b s :
  rtc step (init b) s →
  loop s ≠ LPanic ∧ (disconnects s ≤ 1)%nat ∧ (late s ≤ 1)%nat ∧ handled s `prefix_of` arrived s ∧
  (eventLoopDone s = ClosedChan ↔ loop s = LDone) ∧
  (∀ k, closers s !! k = Some KWait → disconnects s = 1%nat ∨ ∃ k', closers s !! k' = Some KDisconnect).
Proof.
  intros [Hc (Hp & Hd & Hl & Hh)]%qmp_inv. split_and!.
  - done.
  - unfold closing_ok in Hc. destruct (closed s); [destruct Hc as [[-> _]|[-> _]]|destruct Hc as [-> _]]; lia.
  - destruct (closed s); lia.
  - destruct (ended (loop s)); [done|]. rewrite <- Hh. by eexists.
  - rewrite Hd. destruct (loop s); split; congruence.
  - intros k Hk. unfold closing_ok in Hc. destruct (closed s); [|destruct Hc as [_ Hc]; by apply Hc in Hk].
    destruct Hc as [(_ & k0 & ? & _)|[? _]]; eauto.
Qed.

(** From each point of its loop the goroutine gets to its end by its own steps, if
    the channel will not block it. *)
Definition runs_out (s : sys) : Prop := ∃ s', rtc (λ x y, loop_exec x = Some y) s s' ∧ loop s' = LDone.

Lemma runs_step s s' : loop_exec s = Some s' → runs_out s' → runs_out s.
Proof. intros E (s2 & Hr & Hd). exists s2. split; [by eapply rtc_l|done]. Qed.

Lemma exit_runs_out s : loop s = LExit → eventLoopDone s = OpenChan → runs_out s.
Proof. intros E1 E2. eapply runs_step; [unfold loop_exec; by rewrite E1, E2|]. eexists. split; [constructor|done]. Qed.

Lemma check_runs_out s e :
  loop s = LCheck e → eventLoopDone s = OpenChan →
  (∀ s1, loop s1 = LSelect → eventLoopDone s1 = OpenChan → events s1 = events s → runs_out s1) → runs_out s.
Proof.
  intros E1 E2 Hsel. eapply runs_step; [unfold loop_exec; by rewrite E1|]. destruct (closed s); [by apply exit_runs_out|].
  eapply runs_step; [unfold loop_exec; reflexivity|]. by apply Hsel.
Qed.

Lemma select_runs_out s :
  loop s = LSelect → eventLoopDone s = OpenChan → (∀ q, events s ≠ Some (q, true)) → runs_out s.
Proof.
  intros E1 E2 Hev. destruct (events s) as [[q []]|] eqn:Ev; [by destruct (Hev q)| |].
  - clear Hev. revert s E1 E2 Ev. induction q as [|e q IH]; intros s E1 E2 Ev.
    + eapply runs_step; [unfold loop_exec; by rewrite E1, Ev|]. by apply exit_runs_out.
    + eapply runs_step; [unfold loop_exec; by rewrite E1, Ev|]. eapply check_runs_out; [done..|]. intros s1 ? ? Hs1. by apply IH.
  - eapply runs_step; [unfold loop_exec; by rewrite E1, Ev|]. by apply exit_runs_out.
Qed.

(** Once the library has closed the channel of events, or if there is none, the loop
    ends by its own steps. *)
Theorem qmp_loop_ends b s : rtc step (init b) s → (∀ q, events s ≠ Some (q, true)) → runs_out s.
Proof.
  intros [_ (Hp & Hd & _)]%qmp_inv Hev. destruct (loop s) as [|e|e| | |] eqn:E; try done.
  - by apply select_runs_out.
  - eapply check_runs_out; [done..|]. intros s1 ? ? Hs1. apply select_runs_out; [done..|]. by rewrite Hs1.
  - eapply runs_step; [unfold loop_exec; by rewrite E|]. by apply select_runs_out.
  - by apply exit_runs_out.
  - exists s. split; [constructor|done].
Qed.

End qmp.
