(* ===== verification/MountUtil.v ===== *)
(** * Mounting a root file system in the guest

    Models internal/host/mountutil/mount.go: the templates in mount options
    ({{ source N }}, {{ target N }}, {{ mount N }}, {{ overlay N M }}), the
    options that create directories, and [All], which mounts a list of
    components and undoes what it did when one fails.  The four regular
    expressions are matched by hand: their character classes are disjoint, so a
    match at a position is unique and found without backtracking.  The mount
    and unmount calls and the file system are an interface. *)

From S2P Require Import Prelude GoStrings.
From Stdlib Require Import Ascii.

Module MountUtil.

(** [types.Mount]. *)
Record Mount := mkMount
  { mnt_Type : string; mnt_Source : string; mnt_Target : string; mnt_Options : list string }.

(** [mount.ActiveMount], without the time. *)
Record ActiveMount := mkActive { am_Mount : Mount; MountPoint : string }.

(** The verb [%q] on a string of printable characters. *)
Definition fmt_q (s : string) : string :=
  let q := String (ascii_of_N 34) EmptyString in q +:+ s +:+ q.

(** ** Templates *)

(** The classes [\s] and [\d] of the regular expressions. *)
Definition re_space (a : ascii) : bool :=
  let n := N_of_ascii a in ((n =? 9) || (n =? 10) || (n =? 12) || (n =? 13) || (n =? 32))%N.

Fixpoint skip_spaces (s : string) : string :=
  match s with
  | EmptyString => EmptyString
  | String a s' => if re_space a then skip_spaces s' else s
  end.
(** [\s+]. *)
Definition spaces1 (s : string) : option string :=
  match s with String a s' => if re_space a then Some (skip_spaces s') else None | _ => None end.

Fixpoint span_digits (s : string) : string * string :=
  match s with
  | EmptyString => (EmptyString, EmptyString)
  | String a s' => if is_digit a then let '(d, r) := span_digits s' in (String a d, r)
                   else (EmptyString, s)
  end.
(** [(\d+)]: the digits and the rest. *)
Definition digits1 (s : string) : option (string * string) :=
  let '(d, r) := span_digits s in
  if String.eqb d "" then None else Some (d, r).

(** [\{\{\s*word\s+(\d+)\s*\}\}] at the start of [s]: the group and the rest. *)
Definition match_index (word : string) (s : string) : option (string * string) :=
  s1 ← CutPrefix s "{{"; s2 ← CutPrefix (skip_spaces s1) word;
  s3 ← spaces1 s2; '(d, s4) ← digits1 s3;
  r ← CutPrefix (skip_spaces s4) "}}"; Some (d, r).

(** The same with two groups, for the word "overlay". *)
Definition match_overlay (s : string) : option (string * string * string) :=
  s1 ← CutPrefix s "{{"; s2 ← CutPrefix (skip_spaces s1) "overlay";
  s3 ← spaces1 s2; '(d1, s4) ← digits1 s3;
  s5 ← spaces1 s4; '(d2, s6) ← digits1 s5;
  r ← CutPrefix (skip_spaces s6) "}}"; Some (d1, d2, r).

(** [ReplaceAllStringFunc] with a function that may fail, as the closures that
    capture an error: the first failure is the result.  [skip] bytes belong to
    the match just replaced. *)
Fixpoint replace_from {C} (m : string → option (C * string)) (f : C → result string)
    (skip : nat) (s : string) : result string :=
  match s with
  | EmptyString => Ok EmptyString
  | String a s' =>
      match skip with
      | S k => replace_from m f k s'
      | O =>
          match m s with
          | Some (c, rest) =>
              match f c with
              | Err e => Err e
              | Ok v =>
                  match replace_from m f (String.length s' - String.length rest) s' with
                  | Err e => Err e
                  | Ok r => Ok (v +:+ r)
                  end
              end
          | None =>
              match replace_from m f O s' with Err e => Err e | Ok r => Ok (String a r) end
          end
      end
  end.

(** [strconv.Atoi] with its error. *)
Definition atoi (what s : string) : result Z :=
  match Atoi s with
  | Some i => Ok i
  | None => Err (ErrWrap what (ErrNew ("strconv.Atoi: parsing " +:+ fmt_q s +:+ ": value out of range")))
  end.

Definition parseIndex (indexStr : string) (maxLen : Z) : result Z :=
  match atoi ("invalid index " +:+ fmt_q indexStr) indexStr with
  | Err e => Err e
  | Ok i =>
      if (i <? 0) || (maxLen <=? i) then
        Err (ErrNew ("index out of bounds: " +:+ fmt_d i +:+ ", has " +:+ fmt_d maxLen +:+
                     " active mounts"))
      else Ok i
  end.

Definition len {A} (l : list A) : Z := Z.of_nat (length l).

(** [getter] is only called with an index in range. *)
Definition replaceSimplePattern (word : string) (getter : ActiveMount → string) (s : string)
    (mounts : list ActiveMount) : result string :=
  replace_from (match_index word) (λ d,
    match parseIndex d (len mounts) with
    | Err e => Err e
    | Ok i => Ok (match mounts !! Z.to_nat i with Some m => getter m | None => "" end)
    end) O s.

Definition mount_points (mounts : list ActiveMount) (idx : list Z) : list string :=
  omap (λ i, MountPoint <$> mounts !! Z.to_nat i) idx.

Definition buildOverlayDirs (start end_ : Z) (mounts : list ActiveMount) : result string :=
  let invalid := Err (ErrNew ("invalid range: " +:+ fmt_d start +:+ "-" +:+ fmt_d end_ +:+
                              ", has " +:+ fmt_d (len mounts) +:+ " active mounts")) in
  if end_ <? start then
    if (len mounts <=? start) || (end_ <? 0) then invalid
    else Ok (strings_Join (mount_points mounts (reverse (seqZ end_ (start - end_ + 1)))) ":")
  else if (start <? 0) || (len mounts <=? end_) then invalid
  else Ok (strings_Join (mount_points mounts (seqZ start (end_ - start + 1))) ":").

Definition replaceOverlayPattern (s : string) (mounts : list ActiveMount) : result string :=
  replace_from match_overlay (λ '(d1, d2),
    match atoi "invalid start index in overlay" d1 with
    | Err e => Err e
    | Ok start =>
        match atoi "invalid end index in overlay" d2 with
        | Err e => Err e
        | Ok end_ => buildOverlayDirs start end_ mounts
        end
    end) O s.

(** The error of a pass, with its name. *)
Definition pass (what : string) (r : result string) (k : string → result string) : result string :=
  match r with Err e => Err (ErrWrap what e) | Ok s => k s end.

(** [None] for the nil function. *)
Definition formatString (s : string) : option (list ActiveMount → result string) :=
  if negb (Contains s "{{") then None
  else Some (λ a,
    pass "source pattern" (replaceSimplePattern "source" (mnt_Source ∘ am_Mount) s a) (λ s1,
    pass "target pattern" (replaceSimplePattern "target" (mnt_Target ∘ am_Mount) s1 a) (λ s2,
    pass "mount pattern" (replaceSimplePattern "mount" MountPoint s2 a) (λ s3,
    pass "overlay pattern" (replaceOverlayPattern s3 a) (λ s4,
    if Contains s4 "{{" then Err (ErrNew ("unsupported format pattern in " +:+ fmt_q s))
    else Ok s4))))).

(** One string of a mount. *)
Definition format_with (what s : string) (active : list ActiveMount) : result string :=
  match formatString s with
  | None => Ok s
  | Some fn =>
      match fn active with
      | Err e => Err (ErrWrap ("formatting mount " +:+ what +:+ " " +:+ fmt_q s) e)
      | Ok s' => Ok s'
      end
  end.

Fixpoint format_options (opts : list string) (active : list ActiveMount) : result (list string) :=
  match opts with
  | [] => Ok []
  | o :: opts' =>
      match format_with "option" o active with
      | Err e => Err e
      | Ok o' => match format_options opts' active with Err e => Err e | Ok l => Ok (o' :: l) end
      end
  end.

Definition applyFormatSubstitution (m : Mount) (active : list ActiveMount) : result Mount :=
  match format_options (mnt_Options m) active with
  | Err e => Err e
  | Ok opts =>
      match format_with "source" (mnt_Source m) active with
      | Err e => Err e
      | Ok src =>
          match format_with "target" (mnt_Target m) active with
          | Err e => Err e
          | Ok tgt => Ok (mkMount (mnt_Type m) src tgt opts)
          end
      end
  end.

(** ** Directories *)

Record mkdirSpec := mkMkdir { md_Path : string; md_Mode : Z; md_UID : Z; md_GID : Z }.

(** A number of the option, or the default when its part is missing. *)
Definition opt_part (parse : string → option Z) (what : string) (dflt : Z) (part : option string) :
    result Z :=
  match part with
  | None => Ok dflt
  | Some s =>
      match parse s with
      | Some v => Ok v
      | None => Err (ErrWrap ("invalid " +:+ what +:+ " " +:+ fmt_q s +:+ " in mkdir option")
                       (ErrNew "invalid syntax"))
      end
  end.

Definition mkdir_prefix : string := "X-containerd.mkdir.path=".

(** The cases of the switch fall through from the last part to the first. *)
Definition parseMkdirOption (opt baseDir : string) : result mkdirSpec :=
  match CutPrefix opt mkdir_prefix with
  | None => Err (ErrNew ("unknown mkdir mount option " +:+ fmt_q opt))
  | Some rest =>
      let parts := SplitN rest ":" 4 in
      match opt_part Atoi "gid" (-1) (parts !! 3%nat) with
      | Err e => Err e
      | Ok gid =>
          match opt_part Atoi "uid" (-1) (parts !! 2%nat) with
          | Err e => Err e
          | Ok uid =>
              match opt_part (λ s, ParseUint s 8 32) "mode" 493 (parts !! 1%nat) with
              | Err e => Err e
              | Ok mode =>
                  match parts with
                  | [] => Err (ErrNew ("invalid mkdir mount option " +:+ fmt_q opt))
                  | path :: _ =>
                      if negb (HasPrefix path baseDir) then
                        Err (ErrNew ("mkdir path " +:+ fmt_q path +:+ " must be under " +:+
                                     fmt_q baseDir))
                      else Ok (mkMkdir path mode uid gid)
                  end
              end
          end
      end
  end.

(** The other options and the specifications, in order. *)
Fixpoint processMkdirOptions (options : list string) (baseDir : string) :
    result (list string * list mkdirSpec) :=
  match options with
  | [] => Ok ([], [])
  | opt :: options' =>
      if HasPrefix opt "X-containerd.mkdir." then
        match parseMkdirOption opt baseDir with
        | Err e => Err e
        | Ok spec =>
            match processMkdirOptions options' baseDir with
            | Err e => Err e
            | Ok (remaining, specs) => Ok (remaining, spec :: specs)
            end
        end
      else
        match processMkdirOptions options' baseDir with
        | Err e => Err e
        | Ok (remaining, specs) => Ok (opt :: remaining, specs)
        end
  end.

(** ** All *)

Class MountOps (W : Type) := {
  os_MkdirAll : string → Z → W → option error * W;
  os_Chown : string → Z → Z → W → option error * W;
  mount_Mount : Mount → string → W → option error * W;
  mount_UnmountAll : string → W → option error * W }.

(** What was done: directories made and mount points mounted, if it succeeded;
    mount points unmounted, successfully or not. *)
Inductive event :=
  | EvMkdir (path : string)
  | EvMount (m : Mount) (target : string)
  | EvUnmount (target : string).

Record st (W : Type) := mkSt { world : W; trace : list event }.
Arguments mkSt {W}. Arguments world {W}. Arguments trace {W}.

Section all.
Context {W : Type} `{!MountOps W}.
Notation ST := (st W).
#[local] Open Scope m_scope.

(** A call, recorded if it succeeds. *)
Definition call (e : event) (f : W → option error * W) : M ST (option error) := λ s,
  let '(r, w) := f (world s) in
  Return (r, mkSt w (trace s ++ match r with None => [e] | Some _ => [] end)).

Definition MkdirAll (path : string) (mode : Z) : M ST (option error) :=
  call (EvMkdir path) (os_MkdirAll path mode).

Fixpoint applyMkdirSpecs (specs : list mkdirSpec) : M ST (option error) :=
  match specs with
  | [] => m_ret None
  | spec :: specs' =>
      e ← MkdirAll (md_Path spec) (md_Mode spec);
      match e with
      | Some e => m_ret (Some e)
      | None =>
          if negb (md_UID spec =? -1) || negb (md_GID spec =? -1) then
            e ← (λ s, let '(r, w) := os_Chown (md_Path spec) (md_UID spec) (md_GID spec) (world s) in
                      Return (r, mkSt w (trace s)));
            match e with
            | Some e => m_ret (Some (ErrWrap ("failed to chown " +:+ fmt_q (md_Path spec) +:+ " to " +:+
                                              fmt_d (md_UID spec) +:+ ":" +:+ fmt_d (md_GID spec)) e))
            | None => applyMkdirSpecs specs'
            end
          else applyMkdirSpecs specs'
      end
  end.

(** Recorded whether it succeeds or not. *)
Definition UnmountAll (target : string) : M ST (option error) := λ s,
  let '(r, w) := mount_UnmountAll target (world s) in
  Return (r, mkSt w (trace s ++ [EvUnmount target])).

(** In reverse order, whatever fails; the last error. *)
Fixpoint unmount_all (l : list ActiveMount) (lastErr : option error) : M ST (option error) :=
  match l with
  | [] => m_ret lastErr
  | a :: l' =>
      if String.eqb (mnt_Type (am_Mount a)) "mkdir" then unmount_all l' lastErr
      else
        e ← UnmountAll (MountPoint a);
        unmount_all l' (match e with Some _ => e | None => lastErr end)
  end.
Definition cleanupMounts (active : list ActiveMount) : M ST (option error) :=
  unmount_all (reverse active) None.

(** An error return of [All]. *)
Definition fail {A} (active : list ActiveMount) (e : error) : M ST (result A) :=
  cleanupMounts active ≫= λ _, m_ret (Err e).

(** The prefixes of the type, and the mount that is left. *)
Definition prepare (mdir : string) (m : Mount) (active : list ActiveMount) : M ST (result Mount) :=
  let set_type t m := mkMount t (mnt_Source m) (mnt_Target m) (mnt_Options m) in
  match (match CutPrefix (mnt_Type m) "format/" with
         | Some t => applyFormatSubstitution (set_type t m) active
         | None => Ok m
         end) with
  | Err e => m_ret (Err e)
  | Ok m =>
      match CutPrefix (mnt_Type m) "mkdir/" with
      | None => m_ret (Ok m)
      | Some t =>
          match processMkdirOptions (mnt_Options m) mdir with
          | Err e => m_ret (Err e)
          | Ok (remaining, specs) =>
              e ← applyMkdirSpecs specs;
              match e with
              | Some e => m_ret (Err e)
              | None => m_ret (Ok (mkMount t (mnt_Source m) (mnt_Target m) remaining))
              end
          end
      end
  end.

(** One component, at [target]. *)
Definition mount_one (mdir target : string) (m : Mount) (active : list ActiveMount) :
    M ST (result ActiveMount) :=
  r ← prepare mdir m active;
  match r with
  | Err e => fail active e
  | Ok m =>
      e ← call (EvMount m target) (mount_Mount m target);
      match e with
      | Some e => fail active e
      | None => m_ret (Ok (mkActive m target))
      end
  end.

(** The loop, from the component with index [i]; all but the last are mounted
    in a directory of their own. *)
Fixpoint mount_loop (rootfs mdir : string) (i : Z) (ms : list Mount) (active : list ActiveMount) :
    M ST (result (list ActiveMount)) :=
  match ms with
  | [] => m_ret (Ok active)
  | [m] =>
      r ← mount_one mdir rootfs m active;
      m_ret (match r with Err e => Err e | Ok a => Ok (active ++ [a]) end)
  | m :: ms' =>
      let target := filepath_Join [mdir; fmt_d i] in
      e ← MkdirAll target 488;
      match e with
      | Some e => fail active e
      | None =>
          r ← mount_one mdir target m active;
          match r with
          | Err e => m_ret (Err e)
          | Ok a => mount_loop rootfs mdir (i + 1) ms' (active ++ [a])
          end
      end
  end.

(** The mounts that the returned cleanup unmounts; [None] for the nil function. *)
Definition All (rootfs mdir : string) (mounts : list Mount) :
    M ST (result (option (list ActiveMount))) :=
  match mounts with
  | [] => m_ret (Ok None)
  | _ =>
      r ← mount_loop rootfs mdir 0 mounts [];
      m_ret (match r with Err e => Err e | Ok active => Ok (Some active) end)
  end.

End all.
End MountUtil.

(** ** Templates against a reference

    A template as a list of pieces, its text, and what it stands for. *)

Import MountUtil.

Inductive piece :=
  | Lit (s : string)
  | PSource (i : Z)
  | PTarget (i : Z)
  | PMount (i : Z)
  | POverlay (i j : Z).

Definition print_piece (p : piece) : string :=
  match p with
  | Lit s => s
  | PSource i => "{{ source " +:+ fmt_d i +:+ " }}"
  | PTarget i => "{{ target " +:+ fmt_d i +:+ " }}"
  | PMount i => "{{ mount " +:+ fmt_d i +:+ " }}"
  | POverlay i j => "{{ overlay " +:+ fmt_d i +:+ " " +:+ fmt_d j +:+ " }}"
  end.
Definition print (t : list piece) : string := foldr (λ p r, print_piece p +:+ r) "" t.

(** The mount points from [i] to [j], in this order, upwards or downwards. *)
Definition overlay_dirs (a : list ActiveMount) (i j : Z) : option (list string) :=
  mapM (λ k, MountPoint <$> a !! Z.to_nat k)
    (if j <? i then reverse (seqZ j (i - j + 1)) else seqZ i (j - i + 1)).

Definition eval_piece (a : list ActiveMount) (p : piece) : option string :=
  match p with
  | Lit s => Some s
  | PSource i => mnt_Source ∘ am_Mount <$> a !! Z.to_nat i
  | PTarget i => mnt_Target ∘ am_Mount <$> a !! Z.to_nat i
  | PMount i => MountPoint <$> a !! Z.to_nat i
  | POverlay i j => (λ l, strings_Join l ":") <$> overlay_dirs a i j
  end.
Definition eval (a : list ActiveMount) (t : list piece) : option string :=
  foldr (λ p r, s ← eval_piece a p; r' ← r; Some (s +:+ r')) (Some "") t.

(** Text without an opening brace; indices that are numbers of a machine. *)
Definition plain (s : string) : Prop := str_all (not_char "{") s = true.
Definition wf_piece (p : piece) : Prop :=
  match p with
  | Lit s => plain s
  | PSource i | PTarget i | PMount i => 0 ≤ i ≤ max_int64
  | POverlay i j => 0 ≤ i ≤ max_int64 ∧ 0 ≤ j ≤ max_int64
  end.
Definition plain_mount (m : ActiveMount) : Prop :=
  plain (mnt_Source (am_Mount m)) ∧ plain (mnt_Target (am_Mount m)) ∧ plain (MountPoint m).

(** A pass of [ReplaceAllStringFunc] whose pattern starts with a brace. *)
Section pass.
Context {C : Type} (m : string → option (C * string)) (f : C → result string).
Hypothesis Hm : ∀ s, CutPrefix s "{{" = None → m s = None.

Definition prepend (v : string) (r : result string) : result string :=
  match r with Err e => Err e | Ok r => Ok (v +:+ r) end.

Lemma replace_skip p r : replace_from m f (String.length p) (p +:+ r) = replace_from m f 0 r.
Proof. induction p as [|a p IH]; [done|]. exact IH. Qed.

Lemma replace_step a s :
  m (String a s) = None → replace_from m f 0 (String a s) = prepend (String a "") (replace_from m f 0 s).
Proof. intros E. simpl. rewrite E. by destruct (replace_from m f 0 s). Qed.

Lemma prepend_app u v r : prepend u (prepend v r) = prepend (u +:+ v) r.
Proof. destruct r; simpl; [|done]. by rewrite append_assoc. Qed.

(** Text that the pattern does not match anywhere is kept. *)
Lemma replace_keep p r :
  (∀ q a p', p = q +:+ String a p' → m (String a p' +:+ r) = None) →
  replace_from m f 0 (p +:+ r) = prepend p (replace_from m f 0 r).
Proof.
  induction p as [|a p IH]; intros Hp.
  - change (replace_from m f 0 r = prepend "" (replace_from m f 0 r)).
    by destruct (replace_from m f 0 r).
  - change (String a p +:+ r) with (String a (p +:+ r)). rewrite replace_step by exact (Hp "" a p eq_refl).
    rewrite IH; [by rewrite prepend_app|]. intros q b p' ->. exact (Hp (String a q) b p' eq_refl).
Qed.

Lemma cut_plain a s : not_char "{" a = true → CutPrefix (String a s) "{{" = None.
Proof.
  unfold CutPrefix, not_char. cbn [HasPrefix]. rewrite (Ascii.eqb_sym "{" a). by destruct (Ascii.eqb a "{").
Qed.

Lemma replace_plain p r : plain p → replace_from m f 0 (p +:+ r) = prepend p (replace_from m f 0 r).
Proof.
  intros Hp. apply replace_keep. intros q a p' ->. apply Hm, cut_plain.
  unfold plain in Hp. rewrite str_all_app in Hp. apply andb_prop in Hp as [_ Hp].
  cbn [str_all] in Hp. by apply andb_prop in Hp as [Hp _].
Qed.

(** A match is replaced. *)
Lemma replace_match p c r :
  p ≠ "" → m (p +:+ r) = Some (c, r) →
  replace_from m f 0 (p +:+ r) =
    match f c with Err e => Err e | Ok v => prepend v (replace_from m f 0 r) end.
Proof.
  destruct p as [|a p]; [done|]. intros _. change (String a p +:+ r) with (String a (p +:+ r)).
  intros E. cbn [replace_from]. rewrite E. destruct (f c) as [v|e]; [|done].
  rewrite append_length. replace (_ + _ - _)%nat with (String.length p) by lia. by rewrite replace_skip.
Qed.

(** A template of another kind is kept: its second brace is followed by a
    space and the rest has no opening brace. *)
Lemma replace_other body r :
  plain body → m ("{{ " +:+ body +:+ r) = None →
  replace_from m f 0 ("{{ " +:+ body +:+ r) = prepend ("{{ " +:+ body) (replace_from m f 0 r).
Proof.
  intros Hb E. rewrite <-(prepend_app "{{ "), <-(replace_plain body r Hb).
  change ("{{ " +:+ body +:+ r) with (String "{" (String "{" (String " " (body +:+ r)))) in *.
  rewrite replace_step by exact E. rewrite replace_step by (apply Hm; done).
  rewrite replace_step by (apply Hm; done). by rewrite !prepend_app.
Qed.

End pass.

(** ** Matching the text of a piece *)

Lemma span_digits_app d a r :
  str_all is_digit d = true → is_digit a = false → span_digits (d +:+ String a r) = (d, String a r).
Proof.
  induction d as [|b d IH]; intros Hd Ha.
  - change ("" +:+ String a r) with (String a r). cbn [span_digits]. by rewrite Ha.
  - change (String b d +:+ String a r) with (String b (d +:+ String a r)). cbn [str_all] in Hd.
    apply andb_prop in Hd as [Hb Hd]. cbn [span_digits]. by rewrite Hb, IH.
Qed.

Lemma digits1_fmt_d i a r :
  0 ≤ i → is_digit a = false → digits1 (fmt_d i +:+ String a r) = Some (fmt_d i, String a r).
Proof.
  intros Hi Ha. destruct (fmt_d_digits i Hi) as (Hd & _ & Hne). unfold digits1.
  rewrite span_digits_app by done. by destruct (String.eqb_spec (fmt_d i) "").
Qed.

Lemma skip_digits i r : 0 ≤ i → skip_spaces (fmt_d i +:+ r) = fmt_d i +:+ r.
Proof.
  intros Hi. destruct (fmt_d_digits i Hi) as (Hd & _ & Hne). destruct (fmt_d i) as [|a s]; [done|].
  change (String a s +:+ r) with (String a (s +:+ r)). cbn [str_all] in Hd. apply andb_prop in Hd as [Hd _].
  cbn [skip_spaces]. assert (re_space a = false) as ->; [|done].
  revert Hd. by destruct a as [[] [] [] [] [] [] [] []].
Qed.

Lemma cut_brace x : CutPrefix ("{{ " +:+ x) "{{" = Some (String " " x).
Proof. apply (CutPrefix_app "{{" (String " " x)). Qed.
Lemma skip_space x : skip_spaces (String " " x) = skip_spaces x.
Proof. done. Qed.
Lemma spaces1_space x : spaces1 (" " +:+ x) = Some (skip_spaces x).
Proof. done. Qed.
Lemma cut_close r : CutPrefix (skip_spaces (" }}" +:+ r)) "}}" = Some r.
Proof. apply (CutPrefix_app "}}" r). Qed.

Lemma digits1_close i r : 0 ≤ i → digits1 (fmt_d i +:+ " }}" +:+ r) = Some (fmt_d i, " }}" +:+ r).
Proof. intros Hi. exact (digits1_fmt_d i " " ("}}" +:+ r) Hi eq_refl). Qed.
Lemma digits1_space i r : 0 ≤ i → digits1 (fmt_d i +:+ " " +:+ r) = Some (fmt_d i, " " +:+ r).
Proof. intros Hi. exact (digits1_fmt_d i " " r Hi eq_refl). Qed.

Lemma match_index_own word i r :
  (∀ x, skip_spaces (word +:+ x) = word +:+ x) → 0 ≤ i →
  match_index word ("{{ " +:+ word +:+ " " +:+ fmt_d i +:+ " }}" +:+ r) = Some (fmt_d i, r).
Proof.
  intros Hw Hi. unfold match_index, mbind, option_bind. rewrite cut_brace, skip_space, Hw, CutPrefix_app.
  rewrite spaces1_space, skip_digits, digits1_close by done. by rewrite cut_close.
Qed.

Lemma match_overlay_own i j r :
  0 ≤ i → 0 ≤ j →
  match_overlay ("{{ " +:+ "overlay" +:+ " " +:+ fmt_d i +:+ " " +:+ fmt_d j +:+ " }}" +:+ r) =
    Some (fmt_d i, fmt_d j, r).
Proof.
  intros Hi Hj. unfold match_overlay, mbind, option_bind. rewrite cut_brace, skip_space.
  change (skip_spaces ("overlay" +:+ ?x)) with ("overlay" +:+ x). rewrite CutPrefix_app.
  rewrite spaces1_space, skip_digits, digits1_space by done.
  rewrite spaces1_space, skip_digits, digits1_close by done. by rewrite cut_close.
Qed.

(** ** The passes on templates *)

Inductive kind := KSource | KTarget | KMount | KOverlay.
#[global] Instance kind_eq_dec : EqDecision kind.
Proof. solve_decision. Defined.

Definition kind_of (p : piece) : option kind :=
  match p with
  | Lit _ => None | PSource _ => Some KSource | PTarget _ => Some KTarget
  | PMount _ => Some KMount | POverlay _ _ => Some KOverlay
  end.

(** The pass for [k] puts in the values of its pieces. *)
Definition sub (a : list ActiveMount) (k : kind) (p : piece) : option piece :=
  if bool_decide (kind_of p = Some k) then Lit <$> eval_piece a p else Some p.

(** A pass that does to each piece what [sub] says. *)
Definition implements (a : list ActiveMount) (k : kind) (pass : string → result string) : Prop :=
  pass "" = Ok "" ∧
  ∀ p r, wf_piece p →
    match sub a k p with
    | Some p' => pass (print_piece p +:+ r) = prepend (print_piece p') (pass r)
    | None => ∃ e, pass (print_piece p +:+ r) = Err e
    end.

Lemma pass_print a k pass t :
  implements a k pass → Forall wf_piece t →
  match mapM (sub a k) t with
  | Some t' => pass (print t) = Ok (print t')
  | None => ∃ e, pass (print t) = Err e
  end.
Proof.
  intros [H0 HP] Ht. induction Ht as [|p t Hp Ht IH]; [done|]. simpl.
  specialize (HP p (print t) Hp). destruct (sub a k p) as [p'|]; [|done]. simpl.
  destruct (mapM (sub a k) t) as [t'|]; simpl.
  - by rewrite HP, IH.
  - destruct IH as [e IH]. exists e. by rewrite HP, IH.
Qed.

Lemma plain_digits i : 0 ≤ i → plain (fmt_d i).
Proof.
  intros Hi. destruct (fmt_d_digits i Hi) as (Hd & _). eapply str_all_impl; [|exact Hd].
  intros a. by destruct a as [[] [] [] [] [] [] [] []].
Qed.

(** The text after the braces. *)
Definition body (p : piece) : string :=
  match p with
  | Lit s => s
  | PSource i => "source " +:+ fmt_d i +:+ " }}"
  | PTarget i => "target " +:+ fmt_d i +:+ " }}"
  | PMount i => "mount " +:+ fmt_d i +:+ " }}"
  | POverlay i j => "overlay " +:+ fmt_d i +:+ " " +:+ fmt_d j +:+ " }}"
  end.

Lemma plain_app s r : plain s → plain r → plain (s +:+ r).
Proof. unfold plain. intros Hs Hr. by rewrite str_all_app, Hs, Hr. Qed.

Lemma plain_body p : wf_piece p → plain (body p).
Proof. destruct p; simpl; intros; repeat apply plain_app; try done; apply plain_digits; lia. Qed.

Lemma print_body p r :
  kind_of p ≠ None → print_piece p +:+ r = "{{ " +:+ body p +:+ r.
Proof. by destruct p. Qed.

(** What a pass has to be shown to do. *)
Lemma implements_intro {C} a k (m : string → option (C * string)) f :
  (∀ s, CutPrefix s "{{" = None → m s = None) →
  (∀ p r, wf_piece p → kind_of p ≠ None → kind_of p ≠ Some k → m ("{{ " +:+ body p +:+ r) = None) →
  (∀ p r, wf_piece p → kind_of p = Some k →
     ∃ c, m (print_piece p +:+ r) = Some (c, r) ∧
       match eval_piece a p with Some v => f c = Ok v | None => ∃ e, f c = Err e end) →
  implements a k (replace_from m f 0).
Proof.
  intros Hm Ho Hk. split; [done|]. intros p r Hp. unfold sub. case_bool_decide as Ekind.
  - destruct (Hk p r Hp Ekind) as (c & Ec & Hv).
    assert (print_piece p ≠ "") by (by destruct p).
    rewrite (replace_match m f (print_piece p) c r) by done.
    destruct (eval_piece a p) as [v|]; simpl; [by rewrite Hv|]. destruct Hv as [e Hv]. exists e. by rewrite Hv.
  - destruct (kind_of p) eqn:Ek.
    + rewrite print_body by (by rewrite Ek). rewrite replace_other; [|done|by apply plain_body|].
      * f_equal. pose proof (print_body p "" ltac:(by rewrite Ek)) as E. by rewrite !append_nil_r in E.
      * apply Ho; [done|by rewrite Ek|by rewrite Ek].
    + destruct p; try done. by apply replace_plain.
Qed.

Lemma atoi_fmt_d what i : 0 ≤ i ≤ max_int64 → atoi what (fmt_d i) = Ok i.
Proof. intros Hi. unfold atoi. by rewrite Atoi_fmt_d. Qed.

Lemma parseIndex_fmt_d {A} i (l : list A) :
  0 ≤ i ≤ max_int64 →
  match l !! Z.to_nat i with
  | Some _ => parseIndex (fmt_d i) (len l) = Ok i
  | None => ∃ e, parseIndex (fmt_d i) (len l) = Err e
  end.
Proof.
  intros Hi. unfold parseIndex. rewrite atoi_fmt_d by done. unfold len.
  replace (i <? 0) with false by (symmetry; apply Z.ltb_ge; lia). cbn [orb].
  destruct (l !! Z.to_nat i) eqn:E.
  - apply lookup_lt_Some in E. destruct (Z.leb_spec (Z.of_nat (length l)) i); [lia|done].
  - apply lookup_ge_None in E. destruct (Z.leb_spec (Z.of_nat (length l)) i); [by eexists|lia].
Qed.

Lemma match_index_cut word s : CutPrefix s "{{" = None → match_index word s = None.
Proof. intros E. unfold match_index, mbind, option_bind. by rewrite E. Qed.
Lemma match_overlay_cut s : CutPrefix s "{{" = None → match_overlay s = None.
Proof. intros E. unfold match_overlay, mbind, option_bind. by rewrite E. Qed.

(** A pass of [replaceSimplePattern] for the pieces [mk i]. *)
Lemma implements_index a k word getter (mk : Z → piece) :
  (∀ x, skip_spaces (word +:+ x) = word +:+ x) →
  (∀ p, kind_of p = Some k → ∃ i, p = mk i) →
  (∀ i r, print_piece (mk i) +:+ r = "{{ " +:+ word +:+ " " +:+ fmt_d i +:+ " }}" +:+ r) →
  (∀ i, wf_piece (mk i) → 0 ≤ i ≤ max_int64) →
  (∀ i, eval_piece a (mk i) = getter <$> a !! Z.to_nat i) →
  (∀ p r, kind_of p ≠ None → kind_of p ≠ Some k → HasPrefix (body p +:+ r) word = false) →
  (∀ p r, skip_spaces (body p +:+ r) = body p +:+ r ∨ kind_of p = None) →
  implements a k (λ s, replaceSimplePattern word getter s a).
Proof.
  intros Hw Hk Hpr Hwf Hev Hoth Hsk. unfold replaceSimplePattern. apply implements_intro.
  - apply match_index_cut.
  - intros p r _ Hn Hne. unfold match_index, mbind, option_bind. rewrite cut_brace, skip_space.
    destruct (Hsk p r) as [->|?]; [|done]. unfold CutPrefix at 1. by rewrite Hoth.
  - intros p r Hp (i & ->)%Hk. exists (fmt_d i). apply Hwf in Hp. rewrite Hpr, match_index_own by (done || lia).
    split; [done|]. rewrite Hev. pose proof (parseIndex_fmt_d i a Hp) as Hi.
    destruct (a !! Z.to_nat i) as [m|] eqn:Em; simpl; [by rewrite Hi, Em|].
    destruct Hi as [e Hi]. exists e. by rewrite Hi.
Qed.

Lemma body_no_space p r : skip_spaces (body p +:+ r) = body p +:+ r ∨ kind_of p = None.
Proof. destruct p; [by right|by left..]. Qed.

Ltac index_pass mk :=
  apply (implements_index _ _ _ _ mk);
  [done | intros p Hp; destruct p; try done; by eexists
  | intros i r; simpl; by rewrite ?append_assoc
  | done | done
  | intros p r H1 H2; by destruct p
  | apply body_no_space].

Lemma implements_source a :
  implements a KSource (λ s, replaceSimplePattern "source" (mnt_Source ∘ am_Mount) s a).
Proof. index_pass PSource. Qed.
Lemma implements_target a :
  implements a KTarget (λ s, replaceSimplePattern "target" (mnt_Target ∘ am_Mount) s a).
Proof. index_pass PTarget. Qed.
Lemma implements_mount a : implements a KMount (λ s, replaceSimplePattern "mount" MountPoint s a).
Proof. index_pass PMount. Qed.

Lemma mapM_points (a : list ActiveMount) idx :
  (∀ k, k ∈ idx → 0 ≤ k < len a) →
  mapM (λ k, MountPoint <$> a !! Z.to_nat k) idx = Some (mount_points a idx).
Proof.
  induction idx as [|k idx IH]; intros Hk; [done|]. unfold mount_points. simpl.
  assert (0 ≤ k < len a) as Hk0 by (apply Hk; by left). unfold len in Hk0.
  destruct (lookup_lt_is_Some_2 a (Z.to_nat k)) as [x Ex]; [lia|]. rewrite Ex. simpl.
  rewrite IH; [done|]. intros. apply Hk. by right.
Qed.

Lemma mapM_points_None (a : list ActiveMount) idx k :
  k ∈ idx → len a ≤ k → mapM (λ k, MountPoint <$> a !! Z.to_nat k) idx = None.
Proof.
  intros Hk Hlen. apply mapM_None. apply Exists_exists. exists k. split; [done|].
  unfold len in Hlen. rewrite lookup_ge_None_2 by lia. done.
Qed.

Lemma buildOverlayDirs_spec a i j :
  0 ≤ i → 0 ≤ j →
  match overlay_dirs a i j with
  | Some l => buildOverlayDirs i j a = Ok (strings_Join l ":")
  | None => ∃ e, buildOverlayDirs i j a = Err e
  end.
Proof.
  intros Hi Hj. unfold overlay_dirs, buildOverlayDirs.
  destruct (j <? i) eqn:Eji; [apply Z.ltb_lt in Eji|apply Z.ltb_ge in Eji].
  - replace (j <? 0) with false by (symmetry; apply Z.ltb_ge; lia). rewrite orb_false_r.
    destruct (Z.leb_spec (len a) i) as [Hl|Hl].
    + rewrite (mapM_points_None a _ i); [by eexists| |done].
      apply elem_of_reverse, elem_of_seqZ. lia.
    + rewrite mapM_points; [done|]. intros k. rewrite elem_of_reverse, elem_of_seqZ. lia.
  - replace (i <? 0) with false by (symmetry; apply Z.ltb_ge; lia). cbn [orb].
    destruct (Z.leb_spec (len a) j) as [Hl|Hl].
    + rewrite (mapM_points_None a _ j); [by eexists| |done]. apply elem_of_seqZ. lia.
    + rewrite mapM_points; [done|]. intros k. rewrite elem_of_seqZ. lia.
Qed.

Lemma implements_overlay a : implements a KOverlay (λ s, replaceOverlayPattern s a).
Proof.
  unfold replaceOverlayPattern. apply implements_intro.
  - apply match_overlay_cut.
  - intros p r _ Hn Hne. unfold match_overlay, mbind, option_bind. rewrite cut_brace, skip_space.
    destruct (body_no_space p r) as [->|?]; [|done]. unfold CutPrefix at 1. by destruct p.
  - intros p r Hp Hk. destruct p as [| | | |i j]; try done. exists (fmt_d i, fmt_d j). destruct Hp as [Hi Hj].
    assert (Epr : print_piece (POverlay i j) +:+ r =
      "{{ " +:+ "overlay" +:+ " " +:+ fmt_d i +:+ " " +:+ fmt_d j +:+ " }}" +:+ r).
    { simpl. by rewrite ?append_assoc. }
    rewrite Epr, match_overlay_own by lia. split; [done|]. rewrite !atoi_fmt_d by done. simpl.
    pose proof (buildOverlayDirs_spec a i j ltac:(lia) ltac:(lia)) as Hb. by destruct (overlay_dirs a i j).
Qed.

(** ** All passes *)

Lemma eval_sub a k t t' : mapM (sub a k) t = Some t' → eval a t' = eval a t.
Proof.
  intros Hm%mapM_Some_1. induction Hm as [|p p' t t' Hp _ IH]; [done|].
  assert (eval_piece a p' = eval_piece a p) as Ep.
  { unfold sub in Hp. case_bool_decide; [|by simplify_eq]. by apply fmap_Some in Hp as (v & -> & ->). }
  simpl. by rewrite Ep, IH.
Qed.

Lemma eval_sub_None a k t : mapM (sub a k) t = None → eval a t = None.
Proof.
  intros Hm%mapM_None_1. induction Hm as [p t Hp|p t _ IH].
  - unfold sub in Hp. case_bool_decide; [|done]. apply fmap_None in Hp. simpl. by rewrite Hp.
  - simpl. rewrite IH. by destruct (eval_piece a p).
Qed.

Lemma strings_Join_plain l sep : plain sep → Forall plain l → plain (strings_Join l sep).
Proof.
  intros Hs. induction 1 as [|x l Hx Hl IH]; [done|]. destruct l as [|y l]; [done|].
  change (plain (x +:+ sep +:+ strings_Join (y :: l) sep)). by repeat apply plain_app.
Qed.

Lemma eval_plain a p v : Forall plain_mount a → wf_piece p → eval_piece a p = Some v → plain v.
Proof.
  intros Ha Hp. destruct p as [s|i|i|i|i j]; simpl.
  - by intros [= <-].
  - intros (m & Hm & ->)%fmap_Some. rewrite Forall_lookup in Ha. by destruct (Ha _ _ Hm).
  - intros (m & Hm & ->)%fmap_Some. rewrite Forall_lookup in Ha. by destruct (Ha _ _ Hm) as (_ & ? & _).
  - intros (m & Hm & ->)%fmap_Some. rewrite Forall_lookup in Ha. by destruct (Ha _ _ Hm) as (_ & _ & ?).
  - intros (l & Hl & ->)%fmap_Some. apply strings_Join_plain; [done|]. apply mapM_Some_1 in Hl.
    apply Forall_forall. intros x Hx. eapply Forall2_Forall_r in Hl;
      [exact (proj1 (Forall_forall _ _) Hl x Hx)|]. apply Forall_true. clear x Hx. intros k x.
    intros (m & Hm & ->)%fmap_Some. rewrite Forall_lookup in Ha. by destruct (Ha _ _ Hm) as (_ & _ & ?).
Qed.

(** The kinds left after a pass. *)
Definition only (ks : list kind) (t : list piece) : Prop :=
  Forall (λ p, wf_piece p ∧ ∀ k, kind_of p = Some k → k ∈ ks) t.

Lemma only_sub a k ks t t' :
  Forall plain_mount a → only (k :: ks) t → mapM (sub a k) t = Some t' → only ks t'.
Proof.
  intros Ha Ht Hm. apply mapM_Some_1 in Hm. unfold only in *. induction Hm as [|p p' t t' Hp Hm IH]; [done|].
  apply Forall_cons in Ht as [[Hw Hk] Ht]. constructor; [|by apply IH]. unfold sub in Hp. case_bool_decide as E.
  - apply fmap_Some in Hp as (v & Hv & ->). split; [|done]. by eapply eval_plain.
  - injection Hp as <-. split; [done|]. intros k' Ek. specialize (Hk k' Ek).
    apply elem_of_cons in Hk as [->|?]; done.
Qed.

Lemma only_wf ks t : only ks t → Forall wf_piece t.
Proof. intros Ht. eapply Forall_impl; [exact Ht|]. by intros p [? _]. Qed.

Lemma only_nil t : only [] t → ∀ a, eval a t = Some (print t) ∧ plain (print t).
Proof.
  intros Ht a. induction Ht as [|p t [Hw Hk] Ht [IH1 IH2]]; [done|]. destruct p as [s|i|i|i|i j];
    try (by destruct (not_elem_of_nil _ (Hk _ eq_refl))). simpl. rewrite IH1. split; [done|]. by apply plain_app.
Qed.

Lemma plain_no_braces s : plain s → Contains s "{{" = false.
Proof.
  induction s as [|c s IH]; [done|]. unfold plain. cbn [str_all]. intros [Hc Hs]%andb_prop.
  cbn [Contains]. rewrite (IH Hs), orb_false_r. unfold not_char in Hc. cbn [HasPrefix].
  rewrite Ascii.eqb_sym. by destruct (Ascii.eqb c "{").
Qed.

Lemma only_all t : Forall wf_piece t → only [KSource; KTarget; KMount; KOverlay] t.
Proof.
  intros Ht. eapply Forall_impl; [exact Ht|]. intros p Hp. split; [done|].
  intros [] _; repeat first [by left|right].
Qed.

(** One pass of [formatString]. *)
Lemma pass_step a k ks what f (K : string → result string) t :
  implements a k f → Forall plain_mount a → only (k :: ks) t →
  (∀ t', only ks t' → eval a t' = eval a t → ∀ r, K (print t') = Ok r ↔ eval a t' = Some r) →
  ∀ r, pass what (f (print t)) K = Ok r ↔ eval a t = Some r.
Proof.
  intros Hi Ha Ht HK r. pose proof (pass_print a k f t Hi (only_wf _ _ Ht)) as Hp.
  destruct (mapM (sub a k) t) as [t'|] eqn:Em.
  - rewrite Hp. simpl. pose proof (eval_sub _ _ _ _ Em) as Ee.
    rewrite HK; [by rewrite Ee|by eapply only_sub|done].
  - destruct Hp as [e Hp]. rewrite Hp, (eval_sub_None _ _ _ Em). done.
Qed.

Lemma piece_braces p r : kind_of p ≠ None → Contains (print_piece p +:+ r) "{{" = true.
Proof. by destruct p. Qed.

Lemma no_braces_lit t : Contains (print t) "{{" = false → Forall wf_piece t → only [] t.
Proof.
  intros Hc Ht. induction Ht as [|p t Hp Ht IH]; [constructor|]. simpl in Hc.
  destruct (kind_of p) eqn:Ek; [by rewrite piece_braces in Hc by (by rewrite Ek)|].
  constructor; [split; [done|by rewrite Ek]|]. apply IH. destruct (Contains (print t) "{{") eqn:E; [|done].
  rewrite <-Hc. symmetry. clear -E. induction (print_piece p) as [|a s IHs]; [done|].
  change (HasPrefix (String a (s +:+ print t)) "{{" || Contains (s +:+ print t) "{{" = true).
  by rewrite IHs, orb_true_r.
Qed.

Lemma format_reference what t a r :
  Forall wf_piece t → Forall plain_mount a →
  format_with what (print t) a = Ok r ↔ eval a t = Some r.
Proof.
  intros Ht Ha. unfold format_with, formatString. destruct (Contains (print t) "{{") eqn:Ec; simpl.
  - pose proof (only_all _ Ht) as H0.
    match goal with |- match ?x with _ => _ end = _ ↔ _ =>
      assert (Hx : ∀ r, x = Ok r ↔ eval a t = Some r) end.
    { eapply pass_step; [apply implements_source|done|exact H0|]. intros t1 H1 _.
      eapply pass_step; [apply implements_target|done|exact H1|]. intros t2 H2 _.
      eapply pass_step; [apply implements_mount|done|exact H2|]. intros t3 H3 _.
      eapply pass_step; [apply implements_overlay|done|exact H3|]. intros t4 H4 _ r'.
      destruct (only_nil t4 H4 a) as [-> Hp]. rewrite plain_no_braces by done. naive_solver. }
    rewrite <-Hx. match goal with |- match ?x with _ => _ end = _ ↔ _ => by destruct x end.
  - destruct (only_nil t (no_braces_lit t Ec Ht) a) as [-> _]. naive_solver.
Qed.

Lemma format_options_reference opts a l :
  Forall (Forall wf_piece) opts → Forall plain_mount a →
  format_options (print <$> opts) a = Ok l ↔ mapM (eval a) opts = Some l.
Proof.
  intros Ho Ha. revert l. induction Ho as [|t opts Ht _ IH]; intros l; simpl;
    [by split; intros Hl; inversion Hl|]. change (list_fmap _ _ print opts) with (print <$> opts).
  pose proof (format_reference "option" t a) as Hr.
  destruct (format_with "option" (print t) a) as [o|e].
  - rewrite (proj1 (Hr o Ht Ha) eq_refl). simpl.
    destruct (format_options (print <$> opts) a) as [l'|e].
    + rewrite (proj1 (IH l') eq_refl). simpl. by split; intros Hl; inversion Hl.
    + destruct (mapM (eval a) opts) as [l'|]; simpl; [|done]. by pose proof (proj2 (IH l') eq_refl).
  - destruct (eval a t) as [o|]; simpl; [|done]. by pose proof (proj2 (Hr o Ht Ha) eq_refl).
Qed.

(** A mount whose strings are templates, and the mount it stands for. *)
Record template := mkTemplate { t_Type : string; t_Source : list piece; t_Target : list piece;
                                t_Options : list (list piece) }.
Definition print_mount (t : template) : Mount :=
  mkMount (t_Type t) (print (t_Source t)) (print (t_Target t)) (print <$> t_Options t).
Definition eval_mount (a : list ActiveMount) (t : template) : option Mount :=
  opts ← mapM (eval a) (t_Options t); src ← eval a (t_Source t); tgt ← eval a (t_Target t);
  Some (mkMount (t_Type t) src tgt opts).
Definition wf_template (t : template) : Prop :=
  Forall wf_piece (t_Source t) ∧ Forall wf_piece (t_Target t) ∧ Forall (Forall wf_piece) (t_Options t).

(** C7: the substitution of templates in a mount is equivalent to the reference
    semantics of templates: four passes of text replacement over each option,
    the source and the target give exactly the mount with the values put in for
    the pieces, and fail exactly if an index is out of range, for every template
    whose text outside of the pieces has no opening brace, on mounts whose
    strings have none. *)
Theorem format_equals_reference t a m :
  wf_template t → Forall plain_mount a →
  applyFormatSubstitution (print_mount t) a = Ok m ↔ eval_mount a t = Some m.
Proof.
  intros (Hs & Ht & Ho) Ha. unfold applyFormatSubstitution, eval_mount. simpl.
  pose proof (λ l, format_options_reference (t_Options t) a l Ho Ha) as Ro.
  pose proof (λ r, format_reference "source" (t_Source t) a r Hs Ha) as Rs.
  pose proof (λ r, format_reference "target" (t_Target t) a r Ht Ha) as Rt.
  revert Ro Rs Rt. generalize (format_options (print <$> t_Options t) a), (format_with "source" (print (t_Source t)) a),
    (format_with "target" (print (t_Target t)) a), (mapM (eval a) (t_Options t)), (eval a (t_Source t)), (eval a (t_Target t)).
  intros [l|] [x|] [y|] [l'|] [x'|] [y'|] Ro Rs Rt; simpl;
    repeat match goal with
    | H : ∀ r, Ok ?a = Ok r ↔ _ |- _ => pose proof (proj1 (H a) eq_refl); clear H; simplify_eq
    | H : ∀ r, Err _ = Ok r ↔ Some ?a = _ |- _ => pose proof (proj2 (H a) eq_refl); clear H; simplify_eq
    end; by split; intros Hl; inversion Hl.
Qed.

(** ** All *)

Definition is_mkdir (e : event) : bool := match e with EvMkdir _ => true | _ => false end.
(** The mounts and unmounts among the events. *)
Definition mounts_of (t : list event) : list event := filter (λ e, is_mkdir e = false) t.
Definition ev_of (a : ActiveMount) : event := EvMount (am_Mount a) (MountPoint a).
(** What [cleanupMounts] unmounts, last mounted first. *)
Definition unmounts (active : list ActiveMount) : list event :=
  EvUnmount ∘ MountPoint <$> filter (λ a, mnt_Type (am_Mount a) ≠ "mkdir") (reverse active).
(** Where the components are mounted. *)
Definition targets (rootfs mdir : string) (i : Z) (n : nat) : list string :=
  ((λ k, filepath_Join [mdir; fmt_d k]) <$> seqZ i (Z.of_nat n - 1)) ++ [rootfs].

(** The mount that is left of [m] after its prefixes, and the directories. *)
Definition resolve (mdir : string) (m : Mount) (active : list ActiveMount) :
    result (Mount * list mkdirSpec) :=
  match (match CutPrefix (mnt_Type m) "format/" with
         | Some t => applyFormatSubstitution
                       (mkMount t (mnt_Source m) (mnt_Target m) (mnt_Options m)) active
         | None => Ok m
         end) with
  | Err e => Err e
  | Ok m =>
      match CutPrefix (mnt_Type m) "mkdir/" with
      | None => Ok (m, [])
      | Some t =>
          match processMkdirOptions (mnt_Options m) mdir with
          | Err e => Err e
          | Ok (remaining, specs) => Ok (mkMount t (mnt_Source m) (mnt_Target m) remaining, specs)
          end
      end
  end.

(** [ms] resolved one after the other, with the directories made in [ev]. *)
Definition resolved (mdir : string) (ms : list Mount) (before new : list ActiveMount)
    (ev : list event) : Prop :=
  ∀ i m a, ms !! i = Some m → new !! i = Some a →
    ∃ specs, resolve mdir m (before ++ take i new) = Ok (am_Mount a, specs) ∧
      ∀ sp, sp ∈ specs → EvMkdir (md_Path sp) ∈ ev.

Section all_spec.
Context {W : Type} `{OM : !MountOps W}.
Notation ST := (st W).
Implicit Types (s : ST).

(** [m] from [s]: what it returns, and what it adds to the trace. *)
Definition adds {A} (m : M ST A) (s : ST) (Q : A → list event → Prop) : Prop :=
  wpp False m (λ a s', ∃ ev, trace s' = trace s ++ ev ∧ Q a ev) s.

Lemma adds_ret {A} (a : A) s (Q : A → list event → Prop) : Q a [] → adds (m_ret a) s Q.
Proof. intros HQ. apply wpp_ret. exists []. by rewrite app_nil_r. Qed.
Lemma adds_mono {A} (m : M ST A) s (Q Q' : A → list event → Prop) :
  adds m s Q → (∀ a ev, Q a ev → Q' a ev) → adds m s Q'.
Proof. intros Hm HQ. eapply wpp_mono; [exact Hm|]. intros a s' (ev & Ht & H). exists ev. auto. Qed.
Lemma adds_bind {A B} (m : M ST A) (f : A → M ST B) s Q (R : A → list event → Prop) :
  adds m s R → (∀ a ev s1, R a ev → adds (f a) s1 (λ b ev', Q b (ev ++ ev'))) →
  adds (m_bind m f) s Q.
Proof.
  intros Hm Hf. apply wpp_bind. eapply wpp_mono; [exact Hm|]. intros a s1 (ev & Ht & HR).
  eapply wpp_mono; [exact (Hf a ev s1 HR)|]. intros b s2 (ev' & Ht' & HQ). exists (ev ++ ev').
  by rewrite Ht', Ht, app_assoc.
Qed.
Lemma adds_call e f s (Q : option error → list event → Prop) :
  (∀ err, (∃ w, (f w).1 ≠ None) → Q (Some err) []) → Q None [e] → adds (call e f) s Q.
Proof.
  intros HE HN. unfold adds, wpp, call. destruct (f (world s)) as [[err|] w] eqn:E; eexists; split; try done.
  apply HE. exists (world s). by rewrite E.
Qed.

(** Some call of the system can fail. *)
Definition call_fails : Prop :=
  (∃ p m w, (os_MkdirAll p m w).1 ≠ None) ∨ (∃ p u g w, (os_Chown p u g w).1 ≠ None) ∨
  (∃ m t w, (mount_Mount m t w).1 ≠ None).

Lemma adds_unmount_all l e s :
  adds (unmount_all l e) s
    (λ _ ev, ev = EvUnmount ∘ MountPoint <$> filter (λ a, mnt_Type (am_Mount a) ≠ "mkdir") l).
Proof.
  revert e s. induction l as [|a l IH]; intros e s; [by apply adds_ret|]. simpl.
  destruct (String.eqb_spec (mnt_Type (am_Mount a)) "mkdir") as [E|E].
  - eapply adds_mono; [apply IH|]. simpl. intros _ ev ->. rewrite filter_cons_False; [done|tauto].
  - eapply (adds_bind _ _ _ _ (λ _ ev, ev = [EvUnmount (MountPoint a)])).
    + unfold adds, wpp, UnmountAll. destruct (mount_UnmountAll _ _). by eexists.
    + intros e' ev s1 ->. eapply adds_mono; [apply IH|]. simpl. intros _ ev ->.
      by rewrite filter_cons_True by done.
Qed.

Lemma adds_fail {A} active e s :
  adds (fail (A:=A) active e) s (λ r ev, r = Err e ∧ ev = unmounts active).
Proof.
  eapply adds_bind; [apply adds_unmount_all|]. simpl. intros _ ev s1 ->. apply adds_ret.
  by rewrite app_nil_r.
Qed.

Lemma adds_applyMkdirSpecs specs s :
  adds (applyMkdirSpecs specs) s
    (λ r ev, mounts_of ev = [] ∧
       match r with
       | None => ∀ sp, sp ∈ specs → EvMkdir (md_Path sp) ∈ ev
       | Some _ => call_fails
       end).
Proof.
  revert s. induction specs as [|sp specs IH]; intros s; simpl.
  { apply adds_ret. split; [done|]. intros sp Hin. by apply elem_of_nil in Hin. }
  eapply (adds_bind _ _ _ _ (λ r ev, match r with
    | Some _ => ev = [] ∧ call_fails | None => ev = [EvMkdir (md_Path sp)] end)).
  { apply adds_call; [|done]. intros _ [w Hw]. split; [done|]. left. by eexists _, _, _. }
  assert (Hrest : ∀ s1, adds (applyMkdirSpecs specs) s1 (λ r ev,
    mounts_of ([EvMkdir (md_Path sp)] ++ ev) = [] ∧
    match r with
    | None => ∀ sp0, sp0 ∈ sp :: specs → EvMkdir (md_Path sp0) ∈ [EvMkdir (md_Path sp)] ++ ev
    | Some _ => call_fails
    end)).
  { intros s1. eapply adds_mono; [apply IH|]. intros [e|] ev [H1 H2]; (split; [done|]); [done|].
    intros sp0 [->|Hin]%elem_of_cons; [by left|right; by apply H2]. }
  intros [e|] ev s1 HR; [destruct HR as [-> Hf]; by apply adds_ret|]. subst ev.
  destruct (_ || _); [|apply Hrest].
  eapply (adds_bind _ _ _ _ (λ r ev, ev = [] ∧ (r ≠ None → call_fails))).
  { unfold adds, wpp. destruct (os_Chown _ _ _ _) as [e w] eqn:E. eexists. rewrite app_nil_r.
    split_and!; [done|done|]. intros He. right; left. eexists _, _, _, _. by rewrite E. }
  intros [e|] ev s2 [-> Hf]; [|apply Hrest]. apply adds_ret. split; [done|by apply Hf].
Qed.

Lemma adds_prepare mdir m active s :
  adds (prepare mdir m active) s (λ r ev, mounts_of ev = [] ∧
    match r with
    | Ok m' => ∃ specs, resolve mdir m active = Ok (m', specs) ∧
                 ∀ sp, sp ∈ specs → EvMkdir (md_Path sp) ∈ ev
    | Err _ => call_fails ∨ is_ok (resolve mdir m active) = false
    end).
Proof.
  unfold prepare, resolve. destruct (match CutPrefix _ "format/" with _ => _ end) as [m1|e];
    [|apply adds_ret; split; [done|by right]].
  destruct (CutPrefix (mnt_Type m1) "mkdir/") as [t|].
  - destruct (processMkdirOptions _ _) as [[remaining specs]|e]; [|apply adds_ret; split; [done|by right]].
    eapply adds_bind; [apply adds_applyMkdirSpecs|]. intros [e|] ev s1 [H1 H2]; apply adds_ret; rewrite app_nil_r.
    + split; [done|by left].
    + split; [done|]. by exists specs.
  - apply adds_ret. split; [done|]. exists []. split; [done|]. intros sp Hin. by apply elem_of_nil in Hin.
Qed.

Lemma mounts_of_app t t' : mounts_of (t ++ t') = mounts_of t ++ mounts_of t'.
Proof. apply filter_app. Qed.
Lemma mounts_of_unmounts l : mounts_of (unmounts l) = unmounts l.
Proof.
  unfold unmounts, mounts_of. induction (filter _ (reverse l)) as [|a l' IH]; [done|].
  csimpl. rewrite filter_cons_True by done. by rewrite IH.
Qed.

Lemma adds_mount_one mdir target m active s :
  adds (mount_one mdir target m active) s (λ r ev,
    match r with
    | Ok a => MountPoint a = target ∧ mounts_of ev = [ev_of a] ∧
        ∃ specs, resolve mdir m active = Ok (am_Mount a, specs) ∧
          ∀ sp, sp ∈ specs → EvMkdir (md_Path sp) ∈ ev
    | Err _ => mounts_of ev = unmounts active ∧
        (call_fails ∨ is_ok (resolve mdir m active) = false)
    end).
Proof.
  eapply adds_bind; [apply adds_prepare|]. intros [m'|e] ev s1 [H1 H2].
  - eapply (adds_bind _ _ _ _ (λ r ev, match r with
      | Some _ => ev = [] ∧ call_fails | None => ev = [EvMount m' target] end)).
    { apply adds_call; [|done]. intros _ [w Hw]. split; [done|]. right; right. by eexists _, _, _. }
    intros [e|] ev' s2 HR.
    + destruct HR as [-> Hf]. eapply adds_mono; [apply adds_fail|]. simpl. intros r ev' [-> ->].
      rewrite mounts_of_app, H1, mounts_of_unmounts. split; [done|by left].
    + subst ev'. apply adds_ret. rewrite app_nil_r. split; [done|]. split; [by rewrite mounts_of_app, H1|].
      destruct H2 as (specs & Hr & Hsp). exists specs. split; [done|]. intros sp Hin.
      apply elem_of_app. left. by apply Hsp.
  - eapply adds_mono; [apply adds_fail|]. simpl. intros r ev' [-> ->].
    by rewrite mounts_of_app, H1, mounts_of_unmounts.
Qed.

(** Why mounting [ms] failed after [new]. *)
Definition failure (rootfs mdir : string) (i : Z) (ms : list Mount) (before new : list ActiveMount)
    (ev : list event) : Prop :=
  call_fails ∨
  ∃ m, ms !! length new = Some m ∧ is_ok (resolve mdir m (before ++ new)) = false ∧
    resolved mdir ms before new ev ∧
    MountPoint <$> new = take (length new) (targets rootfs mdir i (length ms)).

Lemma resolved_nil mdir ms before ev : resolved mdir ms before [] ev.
Proof. intros i m a _. by rewrite lookup_nil. Qed.

Lemma resolved_cons mdir m ms before a new ev ev' specs :
  resolve mdir m before = Ok (am_Mount a, specs) → (∀ sp, sp ∈ specs → EvMkdir (md_Path sp) ∈ ev) →
  resolved mdir ms (before ++ [a]) new ev' → resolved mdir (m :: ms) before (a :: new) (ev ++ ev').
Proof.
  intros Hr Hsp Hres [|i] m' a'; simpl.
  - intros [= <-] [= <-]. exists specs. rewrite app_nil_r. split; [done|]. intros sp Hin.
    apply elem_of_app. left. by apply Hsp.
  - intros Hm Ha. destruct (Hres i m' a' Hm Ha) as (specs' & Hr' & Hsp'). exists specs'.
    rewrite <-app_assoc in Hr'. split; [done|]. intros sp Hin. apply elem_of_app. right. by apply Hsp'.
Qed.

Lemma targets_S rootfs mdir i n :
  targets rootfs mdir i (S (S n)) = filepath_Join [mdir; fmt_d i] :: targets rootfs mdir (i + 1) (S n).
Proof.
  unfold targets. rewrite seqZ_cons by lia. simpl. do 3 f_equal. unfold Z.succ. f_equal. lia.
Qed.

Lemma adds_mount_loop rootfs mdir ms : ∀ i active s, ms ≠ [] →
  adds (mount_loop rootfs mdir i ms active) s (λ r ev, ∃ new,
    match r with
    | Ok act' => act' = active ++ new ∧ mounts_of ev = ev_of <$> new ∧
        MountPoint <$> new = targets rootfs mdir i (length ms) ∧ resolved mdir ms active new ev
    | Err _ => mounts_of ev = (ev_of <$> new) ++ unmounts (active ++ new) ∧
        failure rootfs mdir i ms active new ev
    end).
Proof.
  induction ms as [|m [|m' ms] IH]; intros i active s Hne; [done| |]; cbn [mount_loop].
  - eapply adds_bind; [apply adds_mount_one|]. intros [a|e] ev s1 HR; apply adds_ret; rewrite app_nil_r.
    + destruct HR as (Ht & Hm & specs & Hr & Hsp). exists [a]. split_and!; [done|by rewrite Hm| |].
      * simpl. by rewrite Ht.
      * intros [|i'] m1 a1; simpl; [|done]. intros [= <-] [= <-]. exists specs. by rewrite app_nil_r.
    + destruct HR as [Hm Hf]. exists []. rewrite app_nil_r. split; [done|]. destruct Hf; [by left|right].
      exists m. rewrite app_nil_r. split_and!; [done|done|apply resolved_nil|done].
  - eapply (adds_bind _ _ _ _ (λ r ev, mounts_of ev = [] ∧ (r ≠ None → call_fails))).
    { apply adds_call; [|done]. intros err [w Hw]. split; [done|]. left. by eexists _, _, _. }
    intros [e|] ev0 s1 [H0 Hf].
    + eapply adds_mono; [apply adds_fail|]. simpl. intros r ev [-> ->]. exists [].
      rewrite app_nil_r, mounts_of_app, H0, mounts_of_unmounts. split; [done|left; by apply Hf].
    + eapply adds_bind; [apply adds_mount_one|]. intros [a|e] ev s2 HR.
      * destruct HR as (Ht & Hm & specs & Hr & Hsp).
        eapply adds_mono; [by apply IH|]. simpl. intros [act'|e] ev' [new HN].
        -- destruct HN as (-> & Hm' & Htg & Hres). exists (a :: new).
           rewrite <-app_assoc, !mounts_of_app, H0, Hm, Hm'. split_and!; [done|done| |].
           ++ rewrite fmap_cons, Htg, Ht. symmetry. apply targets_S.
           ++ rewrite app_assoc. eapply resolved_cons; [done| |done]. intros sp Hin.
              apply elem_of_app. right. by apply Hsp.
        -- destruct HN as [HN HF]. exists (a :: new). rewrite !mounts_of_app, H0, Hm, HN, <-app_assoc.
           split; [done|]. destruct HF as [|(m1 & Hl & Hre & Hres & Htg)]; [by left|right]. exists m1.
           rewrite <-app_assoc in Hre. split_and!; [done|done| |].
           ++ rewrite app_assoc. eapply resolved_cons; [done| |done]. intros sp Hin.
              apply elem_of_app. right. by apply Hsp.
           ++ rewrite fmap_cons, Htg, Ht. cbn [length]. by rewrite targets_S.
      * destruct HR as [HR Hf']. apply adds_ret. exists []. rewrite !app_nil_r, mounts_of_app, H0, HR.
        split; [done|]. destruct Hf'; [by left|right]. exists m. rewrite app_nil_r.
        split_and!; [done|done|apply resolved_nil|done].
Qed.

Lemma All_returns rootfs mdir ms s :
  ms ≠ [] →
  adds (All rootfs mdir ms) s (λ r ev, ∃ new,
    match r with
    | Ok None => False
    | Ok (Some act) => act = new ∧ mounts_of ev = ev_of <$> new ∧
        MountPoint <$> new = targets rootfs mdir 0 (length ms) ∧ resolved mdir ms [] new ev
    | Err _ => mounts_of ev = (ev_of <$> new) ++ unmounts new ∧ failure rootfs mdir 0 ms [] new ev
    end).
Proof.
  intros Hne. unfold All. destruct ms as [|m ms]; [done|]. eapply adds_bind; [by apply adds_mount_loop|].
  intros [act|e] ev s1 [new HN]; apply adds_ret; rewrite app_nil_r; exists new; by rewrite ?app_nil_l in HN.
Qed.

(** C8: mounting a list of components is all or nothing.  It returns whatever
    fails; on success exactly the components are mounted, in order, each with
    its templates resolved against those before it and the directories it asks
    for made, all but the last in a directory of its own and the last at the
    root, and the returned cleanup unmounts them last first; on failure every
    component that was mounted is unmounted again, last first.  It fails only
    if a call of the system does or the next component cannot be resolved. *)
Theorem All_or_nothing rootfs mdir ms s :
  ∃ r s' ev, All rootfs mdir ms s = Return (r, s') ∧ trace s' = trace s ++ ev ∧
    match r with
    | Ok None => ms = [] ∧ ev = []
    | Ok (Some active) =>
        mounts_of ev = ev_of <$> active ∧ MountPoint <$> active = targets rootfs mdir 0 (length ms) ∧
        resolved mdir ms [] active ev ∧
        ∃ e s2, cleanupMounts active s' = Return (e, s2) ∧ trace s2 = trace s' ++ unmounts active
    | Err _ => ∃ active, mounts_of ev = (ev_of <$> active) ++ unmounts active ∧
        failure rootfs mdir 0 ms [] active ev
    end.
Proof.
  destruct (decide (ms = [])) as [->|Hne].
  { exists (Ok None), s, []. by rewrite app_nil_r. }
  pose proof (All_returns rootfs mdir ms s Hne) as Ha.
  apply wpp_False in Ha as (r & s' & E & ev & Ht & new & HN). exists r, s', ev. split_and!; [done|done|].
  destruct r as [[act|]|e]; [|done|by exists new]. destruct HN as (-> & H1 & H2 & H3). split_and!; [done..|].
  pose proof (adds_unmount_all (reverse new) None s') as Hu.
  apply wpp_False in Hu as (e & s2 & E2 & ev2 & Ht2 & ->). by exists e, s2.
Qed.

End all_spec.

(** ** What the checks let through *)

Lemma SplitN_single c n s : str_all (not_char c) s = true → SplitN s c n = [s].
Proof.
  revert n. induction s as [|a s IH]; intros n H; [by destruct n as [|[|n]]|]. cbn [str_all] in H.
  apply andb_prop in H as [Ha Hs]. unfold not_char in Ha. destruct n as [|[|n]]; [done..|].
  cbn [SplitN]. destruct (Ascii.eqb a c); [done|]. by rewrite IH.
Qed.

(** Any path that begins with the text of the base directory is accepted, and
    so one that leaves the directory by dot-dot elements. *)
Lemma mkdir_path_accepted baseDir rest :
  str_all (not_char ":") (baseDir +:+ rest) = true →
  parseMkdirOption (mkdir_prefix +:+ baseDir +:+ rest) baseDir =
    Ok (mkMkdir (baseDir +:+ rest) 493 (-1) (-1)).
Proof.
  intros Hc. unfold parseMkdirOption. rewrite CutPrefix_app, SplitN_single by done. simpl.
  by rewrite HasPrefix_app.
Qed.
Example mkdir_leaves_base :
  parseMkdirOption "X-containerd.mkdir.path=/run/m/../../etc" "/run/m" =
    Ok (mkMkdir "/run/m/../../etc" 493 (-1) (-1)) ∧ Clean "/run/m/../../etc" = "/etc".
Proof. split; reflexivity. Qed.

(** The passes run on each other's results: a source with a template in it is
    expanded again. *)
Example value_expanded_again :
  format_with "option" "dir={{ source 0 }}"
    [mkActive (mkMount "bind" "{{ mount 0 }}" "" []) "/mnt/0"] = Ok "dir=/mnt/0".
Proof. reflexivity. Qed.

Module MountDemo.

Definition layers : list ActiveMount :=
  [mkActive (mkMount "erofs" "/dev/vda" "" []) "/m/0"; mkActive (mkMount "erofs" "/dev/vdb" "" []) "/m/1"].

Lemma format_equals_reference_witness :
  applyFormatSubstitution
    (print_mount (mkTemplate "overlay" [Lit "overlay"] [] [[Lit "lowerdir="; POverlay 0 1]])) layers =
  Ok (mkMount "overlay" "overlay" "" ["lowerdir=/m/0:/m/1"]).
Proof.
  apply (format_equals_reference
    (mkTemplate "overlay" [Lit "overlay"] [] [[Lit "lowerdir="; POverlay 0 1]]) layers).
  - split_and!; repeat constructor; vm_compute; congruence.
  - repeat constructor.
  - reflexivity.
Defined.

End MountDemo.
