(* ===== verification/Config.v ===== *)
(** * Configuration

    Models internal/config (config.go, validation.go), internal/paths/paths.go
    and the parts of internal/shim/resources/hotplug.go that make the
    configuration of the hotplug controllers from it.  The file system and the
    decoding of JSON are parameters; iteration over a Go map is in any order.
    The values that error texts print with a precision are left out. *)

From S2P Require Import Prelude GoStrings GoTime CpuHotplug MemHotplug MountUtil.
From Stdlib Require Import SpecFloat.

Module Config.
Import GoTime MountUtil (fmt_q).

(** ** config.go *)

Record PathsConfig := mkPaths
  { ShareDir : string; StateDir : string; LogDir : string; QEMUPath : string; QEMUSharePath : string }.
Record RuntimeConfig := mkRuntime { VMM : string }.
Record TimeoutsConfig := mkTimeouts
  { VMStart : string; DeviceDetection : string; ShutdownGrace : string; EventReconnect : string;
    TaskClientRetry : string; IOWait : string; QMPCommand : string }.
Record HotplugConfig := mkHotplug
  { MonitorInterval : string; ScaleUpCooldown : string; ScaleDownCooldown : string;
    ScaleUpThreshold : float64; ScaleDownThreshold : float64;
    ScaleUpStability : Z; ScaleDownStability : Z; EnableScaleDown : bool }.
Record MemHotplugConfig := mkMemHotplug
  { mem_Hotplug : HotplugConfig; OOMSafetyMarginMB : Z; IncrementSizeMB : Z }.
Record CPUHotplugConfig := mkCPUHotplug { cpu_Hotplug : HotplugConfig; ScaleUpThrottleLimit : float64 }.
Record Config := mkConfig
  { Paths : PathsConfig; Runtime : RuntimeConfig; Timeouts : TimeoutsConfig;
    CPUHotplug : CPUHotplugConfig; MemHotplug : MemHotplugConfig }.

(** The field of a timeout, by its name. *)
Definition timeout_field (t : TimeoutsConfig) (name : string) : option string :=
  if String.eqb name "vm_start" then Some (VMStart t)
  else if String.eqb name "device_detection" then Some (DeviceDetection t)
  else if String.eqb name "shutdown_grace" then Some (ShutdownGrace t)
  else if String.eqb name "event_reconnect" then Some (EventReconnect t)
  else if String.eqb name "task_client_retry" then Some (TaskClientRetry t)
  else if String.eqb name "io_wait" then Some (IOWait t)
  else if String.eqb name "qmp_command" then Some (QMPCommand t)
  else None.

(** [TimeoutsConfig.Duration]. *)
Definition timeout_Duration (t : TimeoutsConfig) (name : string) : outcome Duration :=
  match timeout_field t name with
  | None => Panic ("unknown timeout field: " +:+ name)
  | Some s => match ParseDuration s with
              | None => Panic ("invalid duration for " +:+ name +:+ ": " +:+ s)
              | Some d => Return d
              end
  end.

Definition defaultConfig : Config :=
  mkConfig (mkPaths "/usr/share/spinbox" "/var/lib/spinbox" "/var/log/spinbox" "" "")
    (mkRuntime "qemu")
    (mkTimeouts "10s" "5s" "2s" "2s" "1s" "30s" "5s")
    (mkCPUHotplug (mkHotplug "5s" "10s" "30s" (f64_of_Z 80) (f64_of_Z 50) 2 6 true) (f64_of_Z 5))
    (mkMemHotplug (mkHotplug "10s" "30s" "60s" (f64_of_Z 85) (f64_of_Z 60) 3 6 false) 128 128).

(** [setDefault] at the types it is used with. *)
Definition set_string (v dflt : string) : string := if String.eqb v "" then dflt else v.
Definition set_int (v dflt : Z) : Z := if v =? 0 then dflt else v.
Definition set_float (v dflt : float64) : float64 := if SFeqb v (S754_zero false) then dflt else v.

(** [EnableScaleDown] has no default. *)
Definition applyHotplugDefaults (c d : HotplugConfig) : HotplugConfig :=
  mkHotplug (set_string (MonitorInterval c) (MonitorInterval d))
    (set_string (ScaleUpCooldown c) (ScaleUpCooldown d))
    (set_string (ScaleDownCooldown c) (ScaleDownCooldown d))
    (set_float (ScaleUpThreshold c) (ScaleUpThreshold d))
    (set_float (ScaleDownThreshold c) (ScaleDownThreshold d))
    (set_int (ScaleUpStability c) (ScaleUpStability d))
    (set_int (ScaleDownStability c) (ScaleDownStability d)) (EnableScaleDown c).

Definition applyDefaults (c : Config) : Config :=
  let d := defaultConfig in
  mkConfig
    (mkPaths (set_string (ShareDir (Paths c)) (ShareDir (Paths d)))
       (set_string (StateDir (Paths c)) (StateDir (Paths d)))
       (set_string (LogDir (Paths c)) (LogDir (Paths d)))
       (QEMUPath (Paths c)) (QEMUSharePath (Paths c)))
    (mkRuntime (set_string (VMM (Runtime c)) (VMM (Runtime d))))
    (mkTimeouts (set_string (VMStart (Timeouts c)) (VMStart (Timeouts d)))
       (set_string (DeviceDetection (Timeouts c)) (DeviceDetection (Timeouts d)))
       (set_string (ShutdownGrace (Timeouts c)) (ShutdownGrace (Timeouts d)))
       (set_string (EventReconnect (Timeouts c)) (EventReconnect (Timeouts d)))
       (set_string (TaskClientRetry (Timeouts c)) (TaskClientRetry (Timeouts d)))
       (set_string (IOWait (Timeouts c)) (IOWait (Timeouts d)))
       (set_string (QMPCommand (Timeouts c)) (QMPCommand (Timeouts d))))
    (mkCPUHotplug (applyHotplugDefaults (cpu_Hotplug (CPUHotplug c)) (cpu_Hotplug (CPUHotplug d)))
       (set_float (ScaleUpThrottleLimit (CPUHotplug c)) (ScaleUpThrottleLimit (CPUHotplug d))))
    (mkMemHotplug (applyHotplugDefaults (mem_Hotplug (MemHotplug c)) (mem_Hotplug (MemHotplug d)))
       (set_int (OOMSafetyMarginMB (MemHotplug c)) (OOMSafetyMarginMB (MemHotplug d)))
       (set_int (IncrementSizeMB (MemHotplug c)) (IncrementSizeMB (MemHotplug d)))).

(** ** validation.go *)

(** The file system: what [os.Stat] tells, and the directories made. *)
Record fileInfo := mkInfo { IsDir : bool; Mode : Z }.
Class ConfFS (W : Type) := {
  EvalSymlinks : string → W → result string;
  os_Stat : string → W → result fileInfo;
  os_MkdirAll : string → W → option error * W;
  Access_W : string → W → bool;
  os_ReadFile : string → W → result string;
  os_Getenv : string → W → string;
  json_Unmarshal : string → result Config }.

Definition IsNotExist (e : error) : bool := errors_Is e ErrNotExist.

Definition timeout_fields (t : TimeoutsConfig) : list (string * string) :=
  [("vm_start", VMStart t); ("device_detection", DeviceDetection t); ("shutdown_grace", ShutdownGrace t);
   ("event_reconnect", EventReconnect t); ("task_client_retry", TaskClientRetry t); ("io_wait", IOWait t);
   ("qmp_command", QMPCommand t)].

(** The first error in the order of the list. *)
Fixpoint first_error (check : string → string → option error) (l : list (string * string)) : option error :=
  match l with
  | [] => None
  | (name, val) :: l' => match check name val with Some e => Some e | None => first_error check l' end
  end.

Definition check_timeout (name val : string) : option error :=
  match ParseDuration val with
  | None => Some (ErrNew (name +:+ ": invalid duration " +:+ fmt_q val))
  | Some d =>
      if d <=? 0 then Some (ErrNew (name +:+ ": must be positive"))
      else if Hour <? d then Some (ErrNew (name +:+ ": too large, max is 1h"))
      else None
  end.

Definition hotplug_durations (h : HotplugConfig) : list (string * string) :=
  [("monitor_interval", MonitorInterval h); ("scale_up_cooldown", ScaleUpCooldown h);
   ("scale_down_cooldown", ScaleDownCooldown h)].

Definition check_duration (prefix name val : string) : option error :=
  match ParseDuration val with
  | None => Some (ErrNew (prefix +:+ "." +:+ name +:+ ": invalid duration " +:+ fmt_q val))
  | Some _ => None
  end.

(** [x <= 0 || x > 100] and the like on floats. *)
Definition f_zero : float64 := f64_of_Z 0.
Definition f_hundred : float64 := f64_of_Z 100.
Definition bad_threshold (x : float64) : bool := f64_le x f_zero || f64_lt f_hundred x.

Section validation.
Context `{MapOrder}.

Definition validateTimeouts (t : TimeoutsConfig) : option error :=
  first_error check_timeout (map_order (timeout_fields t)).

Definition validateHotplug (h : HotplugConfig) (prefix : string) : option error :=
  match first_error (check_duration prefix) (map_order (hotplug_durations h)) with
  | Some e => Some e
  | None =>
      if bad_threshold (ScaleUpThreshold h) then Some (ErrNew (prefix +:+ ".scale_up_threshold: must be 0-100"))
      else if bad_threshold (ScaleDownThreshold h) then Some (ErrNew (prefix +:+ ".scale_down_threshold: must be 0-100"))
      else if f64_le (ScaleUpThreshold h) (ScaleDownThreshold h) then
        Some (ErrNew (prefix +:+ ": scale_down_threshold must be < scale_up_threshold"))
      else if ScaleUpStability h <=? 0 then
        Some (ErrNew (prefix +:+ ".scale_up_stability: must be > 0, got " +:+ fmt_d (ScaleUpStability h)))
      else if ScaleDownStability h <=? 0 then
        Some (ErrNew (prefix +:+ ".scale_down_stability: must be > 0, got " +:+ fmt_d (ScaleDownStability h)))
      else None
  end.

Definition validateCPUHotplug (c : Config) : option error :=
  match validateHotplug (cpu_Hotplug (CPUHotplug c)) "cpu_hotplug" with
  | Some e => Some e
  | None =>
      let l := ScaleUpThrottleLimit (CPUHotplug c) in
      if f64_lt l f_zero || f64_lt f_hundred l then Some (ErrNew "scale_up_throttle_limit: must be 0-100")
      else None
  end.

Definition validateMemHotplug (c : Config) : option error :=
  match validateHotplug (mem_Hotplug (MemHotplug c)) "memory_hotplug" with
  | Some e => Some e
  | None =>
      let m := MemHotplug c in
      if OOMSafetyMarginMB m <=? 0 then
        Some (ErrNew ("oom_safety_margin_mb: must be > 0, got " +:+ fmt_d (OOMSafetyMarginMB m)))
      else if IncrementSizeMB m <=? 0 then
        Some (ErrNew ("increment_size_mb: must be > 0, got " +:+ fmt_d (IncrementSizeMB m)))
      else if negb (Z.rem (IncrementSizeMB m) 128 =? 0) then
        Some (ErrNew ("increment_size_mb: must be 128MB-aligned, got " +:+ fmt_d (IncrementSizeMB m)))
      else None
  end.

Definition validateRuntime (c : Config) : option error :=
  if negb (String.eqb (VMM (Runtime c)) "qemu") then
    Some (ErrNew ("vmm must be " +:+ fmt_q "qemu" +:+ ", got " +:+ fmt_q (VMM (Runtime c))))
  else None.

(** *** Paths *)
Context {W : Type} `{ConfFS W}.
Local Open Scope m_scope.

Definition io {A} (f : W → A * W) : M W A := λ w, Return (f w).
Definition ask {A} (f : W → A) : M W A := m_get f.

Definition canonicalizePath (path : string) : M W (result string) :=
  let cleaned := Clean path in
  r ← ask (EvalSymlinks cleaned);
  m_ret (match r with
         | Ok resolved => Ok resolved
         | Err e => if IsNotExist e then Ok cleaned
                    else Err (ErrWrap ("failed to resolve path " +:+ path) e)
         end).

Definition validateDirExists (path name : string) : M W (option error) :=
  r ← canonicalizePath path;
  match r with
  | Err e => m_ret (Some (ErrWrap name e))
  | Ok canonical =>
      i ← ask (os_Stat canonical);
      m_ret (match i with
             | Err e => if IsNotExist e then Some (ErrNew (name +:+ ": directory does not exist: " +:+ canonical))
                        else Some (ErrWrap (name +:+ ": cannot access") e)
             | Ok info => if negb (IsDir info) then Some (ErrNew (name +:+ ": not a directory: " +:+ canonical))
                          else None
             end)
  end.

Definition ensureDirWritable (path name : string) : M W (option error) :=
  r ← canonicalizePath path;
  match r with
  | Err e => m_ret (Some (ErrWrap name e))
  | Ok canonical =>
      i ← ask (os_Stat canonical);
      e ← (match i with
           | Err e =>
               if IsNotExist e then
                 e ← io (os_MkdirAll canonical);
                 m_ret (match e with
                        | Some e => Some (ErrWrap (name +:+ ": cannot create directory " +:+ canonical) e)
                        | None => None end)
               else m_ret (Some (ErrWrap (name +:+ ": cannot access " +:+ canonical) e))
           | Ok info => m_ret (if negb (IsDir info) then Some (ErrNew (name +:+ ": not a directory: " +:+ canonical))
                               else None)
           end);
      match e with
      | Some e => m_ret (Some e)
      | None =>
          a ← ask (Access_W canonical);
          m_ret (if a then None else Some (ErrNew (name +:+ ": not writable: " +:+ canonical)))
      end
  end.

Definition validateExecutable (path name : string) : M W (option error) :=
  r ← canonicalizePath path;
  match r with
  | Err e => m_ret (Some (ErrWrap name e))
  | Ok canonical =>
      i ← ask (os_Stat canonical);
      m_ret (match i with
             | Err e => if IsNotExist e then Some (ErrNew (name +:+ ": file not found: " +:+ canonical))
                        else Some (ErrWrap (name +:+ ": cannot access") e)
             | Ok info => if IsDir info then Some (ErrNew (name +:+ ": is a directory, not executable: " +:+ canonical))
                          else if Z.land (Mode info) 73 =? 0 then
                            Some (ErrNew (name +:+ ": not executable: " +:+ canonical))
                          else None
             end)
  end.

(** [if err != nil { return err }]. *)
Definition and_then (m k : M W (option error)) : M W (option error) :=
  e ← m; match e with Some e => m_ret (Some e) | None => k end.

(** A file of the share directory. *)
Definition require_file (path what hint : string) : M W (option error) :=
  i ← ask (os_Stat path);
  m_ret (match i with
         | Ok _ => None
         | Err e => if IsNotExist e then Some (ErrNew (what +:+ " not found at " +:+ path +:+ hint))
                    else Some (ErrWrap ("cannot access " +:+ what) e)
         end).

Definition not_empty (v name : string) : M W (option error) :=
  m_ret (if String.eqb v "" then Some (ErrNew (name +:+ " cannot be empty")) else None).

(** internal/paths *)
Definition KernelPath (p : PathsConfig) : string := filepath_Join [ShareDir p; "kernel"; "spinbox-kernel-x86_64"].
Definition InitrdPath (p : PathsConfig) : string := filepath_Join [ShareDir p; "kernel"; "spinbox-initrd"].

Definition validatePaths (c : Config) : M W (option error) :=
  let p := Paths c in
  and_then (not_empty (ShareDir p) "share_dir") (
  and_then (validateDirExists (ShareDir p) "share_dir") (
  and_then (require_file (KernelPath p) "kernel" " (run 'task build:kernel')") (
  and_then (require_file (InitrdPath p) "initrd" " (run 'task build:initrd')") (
  and_then (not_empty (StateDir p) "state_dir") (
  and_then (ensureDirWritable (StateDir p) "state_dir") (
  and_then (not_empty (LogDir p) "log_dir") (
  and_then (ensureDirWritable (LogDir p) "log_dir") (
  and_then (if String.eqb (QEMUPath p) "" then m_ret None else validateExecutable (QEMUPath p) "qemu_path") (
  if String.eqb (QEMUSharePath p) "" then m_ret None
  else validateDirExists (QEMUSharePath p) "qemu_share_path"))))))))).

Definition within_section (name : string) (e : option error) : option error :=
  match e with Some e => Some (ErrWrap name e) | None => None end.

Definition Validate (c : Config) : M W (option error) :=
  and_then (e ← validatePaths c; m_ret (within_section "paths" e)) (
  and_then (m_ret (within_section "runtime" (validateRuntime c))) (
  and_then (m_ret (within_section "timeouts" (validateTimeouts (Timeouts c)))) (
  and_then (m_ret (within_section "cpu_hotplug" (validateCPUHotplug c))) (
  m_ret (within_section "memory_hotplug" (validateMemHotplug c)))))).

(** ** Loading *)

Definition ConfigEnvVar : string := "SPINBOX_CONFIG".
Definition DefaultConfigPath : string := "/etc/spinbox/config.json".

Definition LoadFrom (path : string) : M W (result Config) :=
  r ← ask (os_ReadFile path);
  match r with
  | Err e =>
      if IsNotExist e then m_ret (Err (ErrNew ("config file not found at " +:+ path +:+
        ". Please create a config file (see examples/config.json) or set " +:+ ConfigEnvVar +:+ " environment variable")))
      else m_ret (Err (ErrWrap ("failed to read config file " +:+ path) e))
  | Ok data =>
      match json_Unmarshal data with
      | Err e => m_ret (Err (ErrWrap ("failed to parse config file " +:+ path) e))
      | Ok cfg0 =>
          let cfg := applyDefaults cfg0 in
          e ← Validate cfg;
          m_ret (match e with
                 | Some e => Err (ErrWrap ("invalid configuration in " +:+ path) e)
                 | None => Ok cfg
                 end)
      end
  end.

Definition Load : M W (result Config) :=
  p ← ask (os_Getenv ConfigEnvVar);
  LoadFrom (if String.eqb p "" then DefaultConfigPath else p).

End validation.

(** [Get]: the first result is kept for the life of the process. *)
Definition Get {W} `{MapOrder} `{ConfFS W} : M (option (result Config) * W) (result Config) := λ '(cache, w),
  match cache with
  | Some r => Return (r, (cache, w))
  | None => match Load w with
            | Return (r, w') => Return (r, (Some r, w'))
            | Panic msg => Panic msg
            end
  end.

(** ** internal/paths: the QEMU binary and its firmware *)

Section paths.
Context {W : Type} `{ConfFS W}.

Definition stat_is (dir : bool) (path : string) (w : W) : bool :=
  match EvalSymlinks path w with
  | Err _ => false
  | Ok resolved => match os_Stat resolved w with Err _ => false | Ok i => Bool.eqb (IsDir i) dir end
  end.
Definition fileExists : string → W → bool := stat_is false.
Definition dirExists : string → W → bool := stat_is true.

(** The first candidate that exists. *)
Definition discover (ok : string → W → bool) (candidates : list string) (fallback : string) (w : W) : string :=
  default fallback (head (filter (λ p, ok p w = true) candidates)).

Definition discoverQemuPath (shareDir : string) : W → string :=
  discover fileExists [filepath_Join [shareDir; "bin"; "qemu-system-x86_64"]; "/usr/bin/qemu-system-x86_64";
                       "/usr/local/bin/qemu-system-x86_64"] "/usr/bin/qemu-system-x86_64".
Definition discoverQemuSharePath (shareDir : string) : W → string :=
  discover dirExists [filepath_Join [shareDir; "qemu"]; "/usr/share/qemu"; "/usr/local/share/qemu"] "/usr/share/qemu".

Definition QemuPath (p : PathsConfig) (w : W) : string :=
  if negb (String.eqb (QEMUPath p) "") then QEMUPath p else discoverQemuPath (ShareDir p) w.
Definition QemuSharePath (p : PathsConfig) (w : W) : string :=
  if negb (String.eqb (QEMUSharePath p) "") then QEMUSharePath p else discoverQemuSharePath (ShareDir p) w.

End paths.

(** ** The controllers' configuration: shim/resources/hotplug.go *)

Definition with_duration {A} (what s : string) (k : Duration → result A) : result A :=
  match ParseDuration s with
  | None => Err (ErrNew ("invalid " +:+ what +:+ ": time: invalid duration " +:+ fmt_q s))
  | Some d => k d
  end.

Definition cpuConfig (cfg : Config) : result CpuHotplug.Config :=
  let c := CPUHotplug cfg in let h := cpu_Hotplug c in
  with_duration "monitor_interval" (MonitorInterval h) (λ interval,
  with_duration "scale_up_cooldown" (ScaleUpCooldown h) (λ up,
  with_duration "scale_down_cooldown" (ScaleDownCooldown h) (λ down,
  Ok (CpuHotplug.mkConfig interval up down (ScaleUpThreshold h) (ScaleDownThreshold h)
        (ScaleUpThrottleLimit c) (ScaleUpStability h) (ScaleDownStability h) (EnableScaleDown h))))).

(** [MaxSlots] is not set. *)
Definition memConfig (cfg : Config) : result MemHotplug.Config :=
  let c := MemHotplug cfg in let h := mem_Hotplug c in
  with_duration "monitor_interval" (MonitorInterval h) (λ interval,
  with_duration "scale_up_cooldown" (ScaleUpCooldown h) (λ up,
  with_duration "scale_down_cooldown" (ScaleDownCooldown h) (λ down,
  Ok (MemHotplug.mkConfig interval up down (ScaleUpThreshold h) (ScaleDownThreshold h)
        (OOMSafetyMarginMB c) (wrap64 (wrap64 (IncrementSizeMB c * 1024) * 1024))
        (ScaleUpStability h) (ScaleDownStability h) (EnableScaleDown h) 0)))).

(** [time.NewTicker], with which the monitor loop of a controller starts. *)
Definition NewTicker (d : Duration) : outcome () :=
  if d <=? 0 then Panic "non-positive interval for NewTicker" else Return tt.

End Config.

Import GoTime Config.

(** ** Floats *)

(** Not a NaN, which JSON cannot express. *)
Definition number (x : float64) : Prop := x ≠ S754_nan.

Lemma SFcompare_swap x y :
  number x → number y →
  ∃ c, SFcompare x y = Some c ∧ SFcompare y x = Some (CompOpp c).
Proof.
  intros Hx Hy.
  destruct x as [s1|s1| |s1 m1 e1], y as [s2|s2| |s2 m2 e2]; try done;
    try (destruct s1, s2; by eexists); try (destruct s1; by eexists); try (destruct s2; by eexists).
  simpl. destruct s1, s2; try (by eexists); rewrite (Z.compare_antisym e1 e2);
    destruct (e1 ?= e2)%Z; simpl; try (by eexists);
    rewrite <-(Pos.compare_cont_antisym m1 m2 Eq : CompOpp _ = Pos.compare_cont Eq m2 m1);
    destruct (Pos.compare_cont Eq m1 m2); by eexists.
Qed.

Lemma f64_not_le x y : number x → number y → f64_le x y = false → f64_lt y x = true.
Proof.
  intros Hx Hy. destruct (SFcompare_swap x y Hx Hy) as (c & E1 & E2).
  unfold f64_le, f64_lt, SFleb, SFltb. rewrite E1, E2. by destruct c.
Qed.
Lemma f64_not_lt x y : number x → number y → f64_lt x y = false → f64_le y x = true.
Proof.
  intros Hx Hy. destruct (SFcompare_swap x y Hx Hy) as (c & E1 & E2).
  unfold f64_le, f64_lt, SFleb, SFltb. rewrite E1, E2. by destruct c.
Qed.

(** ** What a validated configuration is *)

Definition valid_timeout (s : string) : Prop := ∃ d, ParseDuration s = Some d ∧ 0 < d ≤ Hour.

Record valid_hotplug (h : HotplugConfig) : Prop := mkValidHotplug
  { vh_durations : ∀ name s, (name, s) ∈ hotplug_durations h → is_Some (ParseDuration s);
    vh_down : f64_lt f_zero (ScaleDownThreshold h) = true;
    vh_order : f64_lt (ScaleDownThreshold h) (ScaleUpThreshold h) = true;
    vh_up : f64_le (ScaleUpThreshold h) f_hundred = true;
    vh_stability : 0 < ScaleUpStability h ∧ 0 < ScaleDownStability h }.

Record valid (c : Config) : Prop := mkValid
  { va_vmm : VMM (Runtime c) = "qemu";
    va_timeouts : ∀ name s, (name, s) ∈ timeout_fields (Timeouts c) → valid_timeout s;
    va_cpu : valid_hotplug (cpu_Hotplug (CPUHotplug c));
    va_throttle : f64_le f_zero (ScaleUpThrottleLimit (CPUHotplug c)) = true ∧
                  f64_le (ScaleUpThrottleLimit (CPUHotplug c)) f_hundred = true;
    va_mem : valid_hotplug (mem_Hotplug (MemHotplug c));
    va_margin : 0 < OOMSafetyMarginMB (MemHotplug c);
    va_increment : 0 < IncrementSizeMB (MemHotplug c) ∧ (128 | IncrementSizeMB (MemHotplug c)) }.

(** The numbers of a configuration. *)
Definition numbers (c : Config) : Prop :=
  number (ScaleUpThreshold (cpu_Hotplug (CPUHotplug c))) ∧ number (ScaleDownThreshold (cpu_Hotplug (CPUHotplug c))) ∧
  number (ScaleUpThrottleLimit (CPUHotplug c)) ∧
  number (ScaleUpThreshold (mem_Hotplug (MemHotplug c))) ∧ number (ScaleDownThreshold (mem_Hotplug (MemHotplug c))).

Section config.
Context `{MapOrder} {W : Type} `{ConfFS W}.

Lemma first_error_None check l :
  first_error check l = None ↔ ∀ name val, (name, val) ∈ l → check name val = None.
Proof.
  induction l as [|[n v] l IH]; simpl.
  - split; [|done]. by intros _ name val ?%elem_of_nil.
  - destruct (check n v) eqn:Ec.
    + split; [done|]. intros Hall. specialize (Hall n v (list_elem_of_here _ _)). congruence.
    + rewrite IH. split.
      * intros Hall name val [[= -> ->]|?]%elem_of_cons; auto.
      * intros Hall name val Hin. apply Hall. by right.
Qed.

Lemma check_timeout_None name s : check_timeout name s = None ↔ valid_timeout s.
Proof.
  unfold check_timeout, valid_timeout. destruct (ParseDuration s) as [d|]; [|split; [done|by intros (? & ? & _)]].
  destruct (Z.leb_spec d 0), (Z.ltb_spec Hour d); (split; [try done|intros (d' & [= <-] & ?); try done; lia]).
  intros _. exists d. split; [done|lia].
Qed.

Lemma validateTimeouts_None t :
  validateTimeouts t = None ↔ ∀ name s, (name, s) ∈ timeout_fields t → valid_timeout s.
Proof.
  unfold validateTimeouts. rewrite first_error_None. split; intros Hall name s Hin.
  - apply (check_timeout_None name), Hall. by apply map_order_elem.
  - apply check_timeout_None. eapply Hall. by apply map_order_elem.
Qed.

Lemma number_limits : number f_zero ∧ number f_hundred.
Proof. split; by vm_compute. Qed.

Lemma validated_durations h prefix :
  validateHotplug h prefix = None → ∀ name s, (name, s) ∈ hotplug_durations h → is_Some (ParseDuration s).
Proof.
  unfold validateHotplug. destruct (first_error _ _) eqn:Ef; [done|]. intros _ name s Hin.
  rewrite first_error_None in Ef. specialize (Ef name s). rewrite map_order_elem in Ef. specialize (Ef Hin).
  unfold check_duration in Ef. by destruct (ParseDuration s).
Qed.

Lemma validateHotplug_valid h prefix :
  number (ScaleUpThreshold h) → number (ScaleDownThreshold h) →
  validateHotplug h prefix = None → valid_hotplug h.
Proof.
  intros Nu Nd Hall. pose proof (validated_durations _ _ Hall) as Hd. revert Hall. unfold validateHotplug. destruct (first_error _ _) eqn:Ef; [done|].
  unfold bad_threshold. intros Hv.
  destruct (f64_le (ScaleUpThreshold h) f_zero || _) eqn:E1; [done|].
  destruct (f64_le (ScaleDownThreshold h) f_zero || _) eqn:E2; [done|].
  destruct (f64_le (ScaleUpThreshold h) (ScaleDownThreshold h)) eqn:E3; [done|].
  destruct (Z.leb_spec (ScaleUpStability h) 0); [done|]. destruct (Z.leb_spec (ScaleDownStability h) 0); [done|].
  apply orb_false_iff in E1 as [? ?], E2 as [? ?]. destruct number_limits.
  constructor; [done|by apply f64_not_le|by apply f64_not_le|by apply f64_not_lt|done].
Qed.

Lemma and_then_None (m k : M W (option error)) w w' :
  and_then m k w = Return (None, w') → ∃ w1, m w = Return (None, w1) ∧ k w1 = Return (None, w').
Proof.
  unfold and_then, m_bind. destruct (m w) as [[[e|] w1]|]; [done|eauto|done].
Qed.

Lemma Validate_valid c w w' : numbers c → Validate c w = Return (None, w') → valid c.
Proof.
  intros (N1 & N2 & N3 & N4 & N5) Hv. unfold Validate in Hv.
  apply and_then_None in Hv as (w1 & _ & Hv). apply and_then_None in Hv as (w2 & Er & Hv).
  apply and_then_None in Hv as (w3 & Et & Hv). apply and_then_None in Hv as (w4 & Ec & Em).
  unfold m_ret in *.
  assert (Hs : ∀ name e (w w' : W), Return (within_section name e, w) = Return (None, w') → e = None)
    by (intros ? [?|] ? ?; [done|done]).
  apply Hs in Er, Et, Ec, Em. clear Hs.
  unfold validateRuntime in Er. destruct (String.eqb_spec (VMM (Runtime c)) "qemu"); [|done].
  unfold validateCPUHotplug in Ec. destruct (validateHotplug (cpu_Hotplug (CPUHotplug c)) _) eqn:Eh; [done|].
  destruct (_ || _) eqn:El; [done|]. apply orb_false_iff in El as [? ?].
  unfold validateMemHotplug in Em. destruct (validateHotplug (mem_Hotplug (MemHotplug c)) _) eqn:Eh'; [done|].
  destruct (Z.leb_spec (OOMSafetyMarginMB (MemHotplug c)) 0); [done|].
  destruct (Z.leb_spec (IncrementSizeMB (MemHotplug c)) 0); [done|].
  destruct (Z.eqb_spec (Z.rem (IncrementSizeMB (MemHotplug c)) 128) 0) as [Hr|]; [|done].
  destruct number_limits.
  constructor; [done|by apply validateTimeouts_None|by eapply validateHotplug_valid| |by eapply validateHotplug_valid|done|].
  - split; by apply f64_not_lt.
  - split; [done|]. apply Z.rem_divide in Hr; [done|lia].
Qed.

(** ** Loading *)

Lemma set_float_number v d : number v → number d → number (set_float v d).
Proof. unfold set_float. by case_match. Qed.
Lemma applyDefaults_numbers c : numbers c → numbers (applyDefaults c).
Proof. intros (? & ? & ? & ? & ?). split_and!; apply set_float_number; try done; by vm_compute. Qed.

Lemma set_string_idem v d : set_string (set_string v d) d = set_string v d.
Proof. unfold set_string. destruct (String.eqb v "") eqn:E; [by case_match|by rewrite E]. Qed.
Lemma set_int_idem v d : set_int (set_int v d) d = set_int v d.
Proof. unfold set_int. destruct (v =? 0) eqn:E; [by case_match|by rewrite E]. Qed.
Lemma set_float_idem v d : set_float (set_float v d) d = set_float v d.
Proof. unfold set_float. destruct (SFeqb v (S754_zero false)) eqn:E; [by case_match|by rewrite E]. Qed.

Lemma applyDefaults_idem c : applyDefaults (applyDefaults c) = applyDefaults c.
Proof.
  unfold applyDefaults, applyHotplugDefaults.
  cbn [Paths Runtime Timeouts CPUHotplug MemHotplug ShareDir StateDir LogDir QEMUPath QEMUSharePath VMM
       VMStart DeviceDetection ShutdownGrace EventReconnect TaskClientRetry IOWait QMPCommand
       cpu_Hotplug mem_Hotplug MonitorInterval ScaleUpCooldown ScaleDownCooldown ScaleUpThreshold ScaleDownThreshold
       ScaleUpStability ScaleDownStability EnableScaleDown ScaleUpThrottleLimit OOMSafetyMarginMB IncrementSizeMB].
  by rewrite !set_string_idem, !set_int_idem, !set_float_idem.
Qed.

Hypothesis json_numbers : ∀ data c, json_Unmarshal data = Ok c → numbers c.

Lemma LoadFrom_Ok path w w' cfg :
  LoadFrom path w = Return (Ok cfg, w') →
  numbers cfg ∧ Validate cfg w = Return (None, w') ∧ applyDefaults cfg = cfg.
Proof.
  unfold LoadFrom, ask. unfold m_bind at 1, m_get. destruct (os_ReadFile path w) as [data|e]; [|by case_match].
  destruct (json_Unmarshal data) as [c0|e] eqn:Ej; [|done]. unfold m_bind.
  destruct (Validate (applyDefaults c0) w) as [[[e|] w1]|] eqn:Ev; intros Hl; try done. injection Hl as <- <-.
  split; [by eapply applyDefaults_numbers, json_numbers|]. split; [done|apply applyDefaults_idem].
Qed.

Lemma timeout_field_elem t name s : timeout_field t name = Some s → (name, s) ∈ timeout_fields t.
Proof.
  unfold timeout_field, timeout_fields. intros Hn.
  repeat match type of Hn with
  | (if String.eqb ?a ?b then _ else _) = _ => destruct (String.eqb_spec a b); [simplify_eq; set_solver|]
  end. done.
Qed.

(** C21: a configuration that is loaded is well formed, whatever the file says and
    in whatever order maps are gone through: the backend is QEMU, every timeout
    is a duration of at most an hour, so that looking one up never panics, the
    thresholds of both controllers are ordered within (0, 100], the counters and
    margins positive, the memory increment a positive multiple of 128 MB, and no
    field is left for a default. *)
Theorem loaded_config_valid path w w' cfg :
  LoadFrom path w = Return (Ok cfg, w') →
  valid cfg ∧ applyDefaults cfg = cfg ∧
  ∀ name, is_Some (timeout_field (Timeouts cfg) name) →
    ∃ d, timeout_Duration (Timeouts cfg) name = Return d ∧ 0 < d ≤ Hour.
Proof.
  intros (Hn & Hv & Ha)%LoadFrom_Ok. apply Validate_valid in Hv as Hc; [|done]. split; [done|]. split; [done|].
  intros name [s Hs]. destruct (va_timeouts _ Hc name s (timeout_field_elem _ _ _ Hs)) as (d & Hd & ?).
  exists d. unfold timeout_Duration. by rewrite Hs, Hd.
Qed.

(** ** The controllers *)

Lemma hotplug_parses h :
  (∀ name s, (name, s) ∈ hotplug_durations h → is_Some (ParseDuration s)) →
  is_Some (ParseDuration (MonitorInterval h)) ∧ is_Some (ParseDuration (ScaleUpCooldown h)) ∧
    is_Some (ParseDuration (ScaleDownCooldown h)).
Proof.
  intros Hv. split_and!; [apply (Hv "monitor_interval")|apply (Hv "scale_up_cooldown")|
    apply (Hv "scale_down_cooldown")]; unfold hotplug_durations; rewrite !elem_of_cons; auto.
Qed.

Lemma increment_bytes n : 0 < n < 2 ^ 42 → wrap64 (wrap64 (n * 1024) * 1024) = n * 2 ^ 20.
Proof. intros Hn. unwrap64. lia. Qed.

(** A loaded configuration, with an increment below 2^42 MB, starts both
    controllers in their invariants: the CPU controller of a VM with its boot
    vCPUs is within its limits, and the memory controller of a VM without
    hot-plugged memory satisfies the invariant that its ticks keep. *)
Theorem loaded_config_starts_controllers path w w' cfg
    {V} (limit : Z) (cpus : V → gset Z) {U} (base : Z) (dimms : U → gmap Z Z) v u boot max :
  LoadFrom path w = Return (Ok cfg, w') → IncrementSizeMB (MemHotplug cfg) < 2 ^ 42 →
  0 < boot → boot < max → max ≤ limit < 2 ^ 62 →
  cpus v = list_to_set (seqZ 0 boot) → 0 ≤ base → dimms u = ∅ →
  ∃ cc mc, cpuConfig cfg = Ok cc ∧ memConfig cfg = Ok mc ∧
    (∃ c, CpuHotplug.NewController boot max cc = Some c ∧ within_limits limit cpus c v) ∧
    (∀ hot, base < hot < 2 ^ 62 →
       ∃ c, MemHotplug.NewController base hot mc = Some c ∧ mem_inv base dimms c u).
Proof.
  intros (Hn & Hv & _)%LoadFrom_Ok Hinc Hb Hbm Hlim Hcpus Hbase Hd. apply Validate_valid in Hv; [|done].
  destruct (hotplug_parses _ (vh_durations _ (va_cpu _ Hv))) as ([d1 E1] & [d2 E2] & [d3 E3]).
  destruct (hotplug_parses _ (vh_durations _ (va_mem _ Hv))) as ([d4 E4] & [d5 E5] & [d6 E6]).
  unfold cpuConfig, memConfig, with_duration. rewrite E1, E2, E3, E4, E5, E6.
  eexists _, _. split; [reflexivity|]. split; [reflexivity|]. split.
  - unfold CpuHotplug.NewController. destruct (Z.leb_spec max boot); [lia|]. eexists. split; [reflexivity|].
    unfold within_limits. simpl. rewrite Hcpus, size_list_to_set by apply NoDup_seqZ. rewrite length_seqZ.
    split_and!; [lia|lia|lia|lia|..].
    + apply elem_of_list_to_set, elem_of_seqZ. lia.
    + intros id Hid%elem_of_list_to_set%elem_of_seqZ. lia.
  - intros hot Hhot. unfold MemHotplug.NewController. destruct (Z.leb_spec hot base); [lia|]. simpl.
    eexists. split; [reflexivity|]. pose proof (va_increment _ Hv) as [Hi _].
    constructor; simpl; rewrite ?Hd; [done|lia|rewrite increment_bytes by lia; lia|set_solver|..].
    + intros slot sz. by rewrite lookup_empty.
    + unfold MemHotplug.dimm_sum. rewrite map_fold_empty. lia.
Qed.
(** ** An interval of zero *)

Definition with_interval (d : string) (h : HotplugConfig) : HotplugConfig :=
  mkHotplug d (ScaleUpCooldown h) (ScaleDownCooldown h) (ScaleUpThreshold h) (ScaleDownThreshold h)
    (ScaleUpStability h) (ScaleDownStability h) (EnableScaleDown h).
Definition with_intervals (d : string) (c : Config) : Config :=
  mkConfig (Paths c) (Runtime c) (Timeouts c)
    (mkCPUHotplug (with_interval d (cpu_Hotplug (CPUHotplug c))) (ScaleUpThrottleLimit (CPUHotplug c)))
    (mkMemHotplug (with_interval d (mem_Hotplug (MemHotplug c))) (OOMSafetyMarginMB (MemHotplug c))
       (IncrementSizeMB (MemHotplug c))).

Lemma interval_unchecked d h prefix :
  is_Some (ParseDuration d) → validateHotplug h prefix = None → validateHotplug (with_interval d h) prefix = None.
Proof.
  intros [z Hd]. unfold validateHotplug. destruct (first_error _ (map_order (hotplug_durations h))) eqn:Ef; [done|].
  replace (first_error _ (map_order (hotplug_durations (with_interval d h)))) with (@None error); [done|].
  symmetry. rewrite first_error_None in *. intros name s Hin. rewrite map_order_elem in Hin.
  unfold hotplug_durations in Hin. simpl in Hin.
  apply elem_of_cons in Hin as [[= -> ->]|Hin]; [unfold check_duration; by rewrite Hd|].
  apply Ef. rewrite map_order_elem. by right.
Qed.

Lemma and_then_mono (m : M W (option error)) (k k' : M W (option error)) w w' :
  (∀ w, k w = Return (None, w') → k' w = Return (None, w')) →
  and_then m k w = Return (None, w') → and_then m k' w = Return (None, w').
Proof. intros Hk. unfold and_then, m_bind. destruct (m w) as [[[e|] w1]|]; [done|apply Hk|done]. Qed.

(** The interval of the controllers is checked to be a duration, but not to
    be positive: any accepted configuration is still accepted with the interval
    0s, and then the monitor loops of both controllers panic when they make
    their ticker. *)
Theorem zero_interval_panics c w w' :
  Validate c w = Return (None, w') →
  let c0 := with_intervals "0s" c in
  Validate c0 w = Return (None, w') ∧
  ∃ cc mc, cpuConfig c0 = Ok cc ∧ memConfig c0 = Ok mc ∧
    NewTicker (CpuHotplug.MonitorInterval cc) = Panic "non-positive interval for NewTicker" ∧
    NewTicker (MemHotplug.MonitorInterval mc) = Panic "non-positive interval for NewTicker".
Proof.
  intros Hv c0.
  assert (Hp : is_Some (ParseDuration "0s")) by (by eexists).
  assert (Hc : validateHotplug (cpu_Hotplug (CPUHotplug c)) "cpu_hotplug" = None ∧
               validateHotplug (mem_Hotplug (MemHotplug c)) "memory_hotplug" = None).
  { unfold Validate in Hv. do 3 (apply and_then_None in Hv as (? & _ & Hv)).
    apply and_then_None in Hv as (? & Ec & Em). unfold m_ret, validateCPUHotplug, validateMemHotplug in *.
    destruct (validateHotplug (cpu_Hotplug _) _); [done|]. by destruct (validateHotplug (mem_Hotplug _) _). }
  destruct Hc as [Hc Hm]. pose proof (interval_unchecked "0s" _ _ Hp Hc) as Hc'.
  pose proof (interval_unchecked "0s" _ _ Hp Hm) as Hm'. split.
  - revert Hv. unfold Validate. do 3 (apply and_then_mono; intros ?).
    unfold validateCPUHotplug, validateMemHotplug. subst c0. simpl. by rewrite Hc, Hm, Hc', Hm'.
  - destruct (hotplug_parses _ (validated_durations _ _ Hc)) as (_ & [d2 E2] & [d3 E3]).
    destruct (hotplug_parses _ (validated_durations _ _ Hm)) as (_ & [d5 E5] & [d6 E6]).
    unfold cpuConfig, memConfig, with_duration. subst c0. simpl. rewrite E2, E3, E5, E6. by eexists _, _.
Qed.
End config.

(** ** A host with a configuration file that sets nothing *)

Module ConfigDemo.

Definition zero_hotplug : HotplugConfig :=
  mkHotplug "" "" "" (S754_zero false) (S754_zero false) 0 0 false.
Definition zero_config : Config :=
  mkConfig (mkPaths "" "" "" "" "") (mkRuntime "") (mkTimeouts "" "" "" "" "" "" "")
    (mkCPUHotplug zero_hotplug (S754_zero false)) (mkMemHotplug zero_hotplug 0 0).

#[export] Instance order0 : MapOrder := {| map_order l := l; map_order_perm l := Permutation_refl l |}.
#[export] Instance fs0 : ConfFS () := {|
  EvalSymlinks p _ := Ok p;
  os_Stat _ _ := Ok (mkInfo true 493);
  os_MkdirAll _ w := (None, w);
  Access_W _ _ := true;
  os_ReadFile _ _ := Ok "{}";
  os_Getenv _ _ := "";
  json_Unmarshal _ := Ok zero_config |}.

Lemma numbers0 : ∀ (data : string) c, json_Unmarshal data = Ok c → numbers c.
Proof. intros data c [= <-]. split_and!; discriminate. Qed.

Lemma load0 : LoadFrom DefaultConfigPath () = Return (Ok (applyDefaults zero_config), ()).
Proof. vm_compute. reflexivity. Qed.

(** The defaults are not those of [defaultConfig] throughout: scaling down is
    off when the file does not say. *)
Example scale_down_default :
  EnableScaleDown (cpu_Hotplug (CPUHotplug (applyDefaults zero_config))) = false ∧
  EnableScaleDown (cpu_Hotplug (CPUHotplug defaultConfig)) = true.
Proof. split; reflexivity. Qed.

Lemma loaded_config_valid_witness :
  valid (applyDefaults zero_config) ∧
  timeout_Duration (Timeouts (applyDefaults zero_config)) "io_wait" = Return (30 * Second).
Proof.
  split; [|vm_compute; reflexivity]. apply (loaded_config_valid numbers0 DefaultConfigPath () () _ load0).
Defined.

Lemma loaded_config_starts_controllers_witness :
  ∃ cc mc, cpuConfig (applyDefaults zero_config) = Ok cc ∧ memConfig (applyDefaults zero_config) = Ok mc.
Proof.
  destruct (loaded_config_starts_controllers numbers0 DefaultConfigPath () () (applyDefaults zero_config)
    4 (λ _ : (), list_to_set (seqZ 0 2)) 1024 (λ _ : (), (∅ : gmap Z Z)) () () 2 4 load0)
    as (cc & mc & E1 & E2 & _); [vm_compute; reflexivity|lia|lia|lia|reflexivity|lia|reflexivity|].
  exists cc, mc. split; [exact E1|exact E2].
Defined.

Lemma zero_interval_panics_witness :
  Validate (with_intervals "0s" defaultConfig) () = Return (None, ()).
Proof. apply (zero_interval_panics defaultConfig () ()). vm_compute. reflexivity. Defined.

End ConfigDemo.
