(* ===== verification/DiskMounts.v ===== *)
(** * Disks and mounts of a container's root file system

    Models internal/shim/platform/mounts/linux.go, which turns the mounts of a
    create request into disks of the VM and mounts for the guest, and
    internal/host/erofs/vmdk.go, which describes several images as one disk.
    The guest side is MountUtil.v and the VM is that of QemuInstance.v. *)

From S2P Require Import Prelude GoStrings QemuCmd QemuInstance MountUtil.
From Stdlib Require Import Ascii.

Module DiskMounts.
Import MountUtil.

(** The verb [%c] on a byte: a code point below 256 in UTF-8. *)
Definition fmt_c (b : Z) : string :=
  if b <? 128 then String (ascii_of_N (Z.to_N b)) ""
  else String (ascii_of_N (Z.to_N (192 + b / 64)))
         (String (ascii_of_N (Z.to_N (128 + b mod 64))) "").

Definition maxIDLen : nat := 36.
Definition truncateID (prefix id : string) : string :=
  let tag := prefix +:+ "-" +:+ id in
  if (maxIDLen <? String.length tag)%nat then str_take maxIDLen tag else tag.

Record diskOptions := mkDiskOptions
  { do_name : string; do_source : string; do_readOnly : bool; do_vmdk : bool }.

(** [os.Stat]: the size of a file. *)
Class HostFiles (W : Type) := { stat_Size : string → W → result Z }.

Definition filterOptions (options : list string) : list string :=
  filter (λ o, o ≠ "loop") options.

Definition dev (disks : Z) : string := "/dev/vd" +:+ fmt_c disks.
Definition disk_name (disks : Z) (id : string) : string :=
  truncateID ("disk-" +:+ fmt_d disks) id.
Definition next_disk (disks : Z) : Z := (disks + 1) mod 256.

(** What a handler returns: the mounts and the disks, or an error. *)
Definition handled : Type := result (list Mount * list diskOptions).

(** The file of the disk, and whether it is a VMDK. *)
Definition erofs_source {W} `{!HostFiles W} (w : W) (source : string) : string * bool :=
  if HasSuffix source "fsmeta.erofs" then
    let vmdkPath := TrimSuffix source "fsmeta.erofs" +:+ "merged.vmdk" in
    match stat_Size vmdkPath w with
    | Ok size => if 0 <? size then (vmdkPath, true) else (source, false)
    | Err _ => (source, false)
    end
  else (source, HasSuffix source ".vmdk").

Definition handleEROFS {W} `{!HostFiles W} (w : W) (id : string) (disks : Z) (mnt : Mount) :
    handled * Z :=
  let '(source', isVMDK) := erofs_source w (mnt_Source mnt) in
  let guestOptions := filter (λ o, HasPrefix o "device=" = false) (mnt_Options mnt) in
  (Ok ([mkMount "erofs" (dev disks) (mnt_Target mnt) (filterOptions guestOptions)],
       [mkDiskOptions (disk_name disks id) source' true isVMDK]),
   next_disk disks).

Definition handleExt4 (id : string) (disks : Z) (mnt : Mount) : handled * Z :=
  let readOnly := bool_decide (Exists (λ o, o = "ro" ∨ o = "readonly") (mnt_Options mnt)) in
  (Ok ([mkMount "ext4" (dev disks) (mnt_Target mnt) (filterOptions (mnt_Options mnt))],
       [mkDiskOptions (disk_name disks id) (mnt_Source mnt) readOnly false]),
   next_disk disks).

(** [-1] for an index that was not found. *)
Record overlayAnalysis := mkAnalysis
  { workdirIdx : Z; upperdirIdx : Z; hasLowerTmpl : bool; needTransform : bool; overlayEnd : Z }.

(** [overlayRe.FindStringSubmatch]: the groups of the first match. *)
Fixpoint find_overlay (s : string) : option (string * string) :=
  match match_overlay s with
  | Some (d1, d2, _) => Some (d1, d2)
  | None => match s with EmptyString => None | String _ s' => find_overlay s' end
  end.

(** [strconv.Atoi] on digits, its error ignored: the largest int if out of
    range. *)
Definition atoi_lax (s : string) : Z := default max_int64 (Atoi s).

Definition analyze_option (i : Z) (opt : string) (r : overlayAnalysis) : overlayAnalysis :=
  let tmpl := Contains opt "{{" in
  if HasPrefix opt "upperdir=" then
    mkAnalysis (workdirIdx r) i (hasLowerTmpl r) (negb tmpl || needTransform r) (overlayEnd r)
  else if HasPrefix opt "workdir=" then
    mkAnalysis i (upperdirIdx r) (hasLowerTmpl r) (negb tmpl || needTransform r) (overlayEnd r)
  else if HasPrefix opt "lowerdir=" && tmpl then
    mkAnalysis (workdirIdx r) (upperdirIdx r) true (needTransform r)
      (match find_overlay opt with
       | Some (d1, d2) => Z.max (atoi_lax d1) (atoi_lax d2)
       | None => overlayEnd r
       end)
  else r.

Fixpoint analyze_from (i : Z) (options : list string) (r : overlayAnalysis) : overlayAnalysis :=
  match options with
  | [] => r
  | opt :: options' => analyze_from (i + 1) options' (analyze_option i opt r)
  end.

Definition analyzeOverlayOptions (options : list string) : overlayAnalysis :=
  analyze_from 0 options (mkAnalysis (-1) (-1) false false (-1)).

Definition upper_tmpl (i : Z) : string := "{{ mount " +:+ fmt_d i +:+ " }}/upper".
Definition work_tmpl (i : Z) : string := "{{ mount " +:+ fmt_d i +:+ " }}/work".

(** The options with the paths in the file system mounted at [i]. *)
Definition transform_option (a : overlayAnalysis) (tmpfsIndex i : Z) (opt : string) : string :=
  if i =? upperdirIdx a then "upperdir=" +:+ upper_tmpl tmpfsIndex
  else if i =? workdirIdx a then "workdir=" +:+ work_tmpl tmpfsIndex
  else opt.
Definition mkdir_options (i : Z) : list string :=
  [mkdir_prefix +:+ upper_tmpl i; mkdir_prefix +:+ work_tmpl i].

Definition handleOverlay (mnt : Mount) : handled :=
  let analysis := analyzeOverlayOptions (mnt_Options mnt) in
  if hasLowerTmpl analysis && needTransform analysis && (0 <=? upperdirIdx analysis) &&
     (0 <=? workdirIdx analysis) && (0 <=? overlayEnd analysis) then
    let tmpfsIndex := overlayEnd analysis +i 1 in
    let newOpts := imap (λ i, transform_option analysis tmpfsIndex (Z.of_nat i)) (mnt_Options mnt) ++
                   mkdir_options tmpfsIndex in
    Ok ([mkMount "tmpfs" "tmpfs" "" ["mode=0755"];
         mkMount "format/mkdir/overlay" (mnt_Source mnt) (mnt_Target mnt) newOpts], [])
  else Ok ([mnt], []).

Definition is_erofs (t : string) : bool := String.eqb t "erofs" || String.eqb t "format/erofs".
Definition is_overlay (t : string) : bool :=
  String.eqb t "overlay" || String.eqb t "format/overlay" || String.eqb t "format/mkdir/overlay".

Definition transformMount {W} `{!HostFiles W} (w : W) (id : string) (disks : Z) (mnt : Mount) :
    handled * Z :=
  let t := mnt_Type mnt in
  if is_erofs t then handleEROFS w id disks mnt
  else if String.eqb t "ext4" then handleExt4 id disks mnt
  else if is_overlay t then (handleOverlay mnt, disks)
  else if HasPrefix t "mkfs/" || HasPrefix t "format/" then
    (Err (ErrWrap ("mount type " +:+ fmt_q t +:+ " requires mount manager")
            (ErrSentinel ErrNotImplemented)), disks)
  else (Ok ([mnt], []), disks).

(** The loop over the mounts. *)
Fixpoint transform_all {W} `{!HostFiles W} (w : W) (id : string) (disks : Z) (ms : list Mount) :
    handled :=
  match ms with
  | [] => Ok ([], [])
  | mnt :: ms' =>
      match transformMount w id disks mnt with
      | (Err e, _) => Err e
      | (Ok (m1, d1), disks') =>
          match transform_all w id disks' ms' with
          | Err e => Err e
          | Ok (m2, d2) => Ok (m1 ++ m2, d1 ++ d2)
          end
      end
  end.

Definition count_type (t : string) (ms : list Mount) : Z :=
  len (filter (λ m, mnt_Type m = t) ms).
(** The index of the last mount of a type, or [-1]. *)
Fixpoint last_index (t : string) (i : Z) (ms : list Mount) : Z :=
  match ms with
  | [] => -1
  | m :: ms' =>
      let r := last_index t (i + 1) ms' in
      if r =? -1 then if String.eqb (mnt_Type m) t then i else -1 else r
  end.

Definition overlay_mount (erofsEndIndex ext4Index : Z) : Mount :=
  mkMount "format/mkdir/overlay" "overlay" ""
    (["lowerdir={{ overlay 0 " +:+ fmt_d erofsEndIndex +:+ " }}";
      "upperdir=" +:+ upper_tmpl ext4Index; "workdir=" +:+ work_tmpl ext4Index] ++
     mkdir_options ext4Index).

Definition generateOverlayIfNeeded (mounts : list Mount) : list Mount :=
  if len mounts <? 2 then mounts
  else if bool_decide (Exists (λ m, Contains (mnt_Type m) "overlay" = true) mounts) then mounts
  else
    let erofsCount := count_type "erofs" mounts in
    let ext4Index := last_index "ext4" 0 mounts in
    if (erofsCount =? 0) || negb (ext4Index =? len mounts - 1) then mounts
    else mounts ++ [overlay_mount (erofsCount - 1) ext4Index].

(** [vmi.AddDisk] with the options read-only and VMDK. *)
Class AddDisks (V : Type) := { AddDisk : string → string → bool → bool → V → option error * V }.

Fixpoint addDisksToVM {V} `{!AddDisks V} (disks : list diskOptions) (v : V) : option error * V :=
  match disks with
  | [] => (None, v)
  | d :: disks' =>
      match AddDisk (do_name d) (do_source d) (do_readOnly d) (do_vmdk d) v with
      | (Some e, v') => (Some e, v')
      | (None, v') => addDisksToVM disks' v'
      end
  end.

(** [byte('a')]. *)
Definition first_disk : Z := 97.
Definition maxDisks : Z := 10.

Definition transformMounts {W V} `{!HostFiles W, !AddDisks V} (w : W) (id : string)
    (ms : list Mount) (v : V) : result (list Mount) * V :=
  match transform_all w id first_disk ms with
  | Err e => (Err e, v)
  | Ok (am, addDisks) =>
      if maxDisks <? len addDisks then
        (Err (ErrWrap ("exceeded maximum virtio disk count: " +:+ fmt_d (len addDisks) +:+ " > 10")
                (ErrSentinel ErrNotImplemented)), v)
      else
        match addDisksToVM addDisks v with
        | (Some e, v') => (Err e, v')
        | (None, v') => (Ok (generateOverlayIfNeeded am), v')
        end
  end.

(** [Setup]: the mounts for the guest; there is no cleanup function. *)
Definition Setup {W V} `{!HostFiles W, !AddDisks V} (w : W) (id : string) (rootfs : list Mount)
    (v : V) : result (list Mount) * V :=
  transformMounts w id rootfs v.

(** ** vmdk.go *)

Definition max2GbExtentSectors : Z := Z.shiftr 0x80000000 9.
Definition sectorsPerTrack : Z := 63.
Definition numberHeads : Z := 16.

(** The lines of an extent list: sectors and offset in a file. *)
Record extent := mkExtent { ext_count : Z; ext_file : string; ext_offset : Z }.

(** [None] when the fuel runs out; the numbers are uint64. *)
Fixpoint vmdkDescAddExtent (fuel : nat) (sectors : Z) (filename : string) (offset : Z) :
    option (list extent) :=
  match fuel with
  | O => None
  | S fuel' =>
      if 0 <? sectors then
        let count := Z.min sectors max2GbExtentSectors in
        l ← vmdkDescAddExtent fuel' (wrapu64 (sectors - count)) filename (wrapu64 (offset + count));
        Some (mkExtent count filename offset :: l)
      else Some []
  end.

Definition extent_fuel (sectors : Z) : nat := Z.to_nat (sectors / max2GbExtentSectors) + 2.

(** The extents of the devices and the number of sectors. *)
Fixpoint vmdk_extents {W} `{!HostFiles W} (w : W) (devices : list string) (total : Z) :
    result (list extent * Z) :=
  match devices with
  | [] => Ok ([], total)
  | d :: devices' =>
      match stat_Size d w with
      | Err e =>
          (* [os.IsNotExist] *)
          if errors_Is e ErrNotFound then Err (ErrNew ("device " +:+ fmt_q d +:+ " does not exist"))
          else Err (ErrWrap ("failed to stat device " +:+ fmt_q d) e)
      | Ok size =>
          if size =? 0 then Err (ErrNew ("device " +:+ fmt_q d +:+ " has zero size"))
          else
            let sectors := Z.shiftr (wrapu64 size) 9 in
            if sectors =? 0 then
              Err (ErrNew ("device " +:+ fmt_q d +:+ " is too small (less than 512 bytes)"))
            else
              match vmdkDescAddExtent (extent_fuel sectors) sectors d 0 with
              | None => Err (ErrNew "out of fuel")
              | Some l =>
                  match vmdk_extents w devices' (wrapu64 (total + sectors)) with
                  | Err e => Err e
                  | Ok (l', total') => Ok (l ++ l', total')
                  end
              end
      end
  end.

(** The extents and the number of cylinders of the descriptor; the fixed lines
    around them are left out. *)
Definition DumpVMDKDescriptor {W} `{!HostFiles W} (w : W) (devices : list string) :
    result (list extent * Z) :=
  match vmdk_extents w devices 0 with
  | Err e => Err e
  | Ok (l, totalSectors) =>
      Ok (l, wrapu64 (totalSectors + sectorsPerTrack * numberHeads - 1) /
             (sectorsPerTrack * numberHeads))
  end.

End DiskMounts.

(** ** Disks and device names *)

Import MountUtil DiskMounts.

(** The mounts that become a disk. *)
Definition on_disk (m : Mount) : Prop := is_erofs (mnt_Type m) = true ∨ mnt_Type m = "ext4".
#[global] Instance on_disk_dec m : Decision (on_disk m).
Proof. unfold on_disk. apply _. Defined.

(** The mounts of the guest on a device. *)
Definition on_device (m : Mount) : Prop := mnt_Type m = "erofs" ∨ mnt_Type m = "ext4".
#[global] Instance on_device_dec m : Decision (on_device m).
Proof. unfold on_device. apply _. Defined.

Section transform.
Context {W : Type} `{HF : !HostFiles W} (w : W) (id : string).

(** The disk and the guest's mount of [m] as device [d]. *)
Definition transformed (d : Z) (m : Mount) : list Mount * list diskOptions :=
  match (transformMount w id d m).1 with Ok x => x | Err _ => ([], []) end.
Definition disk_of (d : Z) (m : Mount) : list diskOptions := (transformed d m).2.
Definition guest_of (d : Z) (m : Mount) : list Mount := (transformed d m).1.

(** What is known of one mount. *)
Lemma transformMount_disk d m :
  on_disk m →
  ∃ t opts src ro vmdk,
    transformMount w id d m =
      (Ok ([mkMount t (dev d) (mnt_Target m) opts],
           [mkDiskOptions (disk_name d id) src ro vmdk]), next_disk d) ∧
    (t = "erofs" ∨ t = "ext4").
Proof.
  intros [He|He]; unfold transformMount.
  - rewrite He. unfold handleEROFS. destruct (erofs_source _ _) as [src vmdk].
    eexists _, _, _, _, _. split; [done|by left].
  - rewrite He. cbn. eexists _, _, _, _, _. split; [done|by right].
Qed.

Lemma transformMount_other d m :
  ¬ on_disk m →
  match transformMount w id d m with
  | (Err _, _) => True
  | (Ok (ms, ds), d') => d' = d ∧ ds = [] ∧ filter on_device ms = []
  end.
Proof.
  intros Hn. unfold transformMount. destruct (is_erofs _) eqn:E1; [by destruct Hn; left|].
  destruct (String.eqb_spec (mnt_Type m) "ext4") as [E2|E2]; [by destruct Hn; right|].
  assert (Hm : filter on_device [m] = []).
  { rewrite filter_cons_False, filter_nil; [done|]. intros [E|E]; [|done]. rewrite E in E1. done. }
  destruct (is_overlay _).
  - unfold handleOverlay. destruct (_ && _); (split_and!; [done|done|]); [|done].
    rewrite !filter_cons_False, filter_nil; [done|..]; by intros [?|?].
  - by destruct (_ || _).
Qed.

(** The [k]-th mount on a disk is the [k]-th disk, and the guest finds it under
    the [k]-th letter. *)
Lemma transform_all_disks d ms am ds :
  transform_all w id d ms = Ok (am, ds) → 0 ≤ d → d + len ds ≤ 255 →
  filter on_device am = concat (imap (λ k m, guest_of (d + Z.of_nat k) m) (filter on_disk ms)) ∧
  ds = concat (imap (λ k m, disk_of (d + Z.of_nat k) m) (filter on_disk ms)) ∧
  length ds = length (filter on_disk ms).
Proof.
  revert d am ds. induction ms as [|m ms IH]; intros d am ds; simpl.
  { by intros [= <- <-]. }
  destruct (decide (on_disk m)) as [Hd|Hd].
  - destruct (transformMount_disk d m Hd) as (t & opts & src & ro & vmdk & E & Ht).
    assert (Eg : guest_of d m = [mkMount t (dev d) (mnt_Target m) opts]) by (unfold guest_of, transformed; by rewrite E).
    assert (Ed : disk_of d m = [mkDiskOptions (disk_name d id) src ro vmdk]) by (unfold disk_of, transformed; by rewrite E).
    rewrite E. destruct (transform_all w id (next_disk d) ms) as [[m2 d2]|] eqn:E2; [|done].
    intros [= <- <-] H0 Hlen. unfold len in Hlen. simpl in Hlen.
    assert (En : next_disk d = d + 1) by (unfold next_disk; apply Z.mod_small; lia). rewrite En in E2.
    destruct (IH _ _ _ E2) as (I1 & I2 & I3); [lia|unfold len; lia|].
    rewrite (filter_cons_True on_disk) by done. simpl.
    rewrite (filter_cons_True on_device) by (destruct Ht as [->| ->]; [by left|by right]).
    rewrite Z.add_0_r, Eg, Ed, I1, I2. rewrite I2 in I3. split_and!; [..|by rewrite <-I3];
      simpl; do 2 f_equal; apply imap_ext; intros k x _; simpl; f_equal; lia.
  - pose proof (transformMount_other d m Hd) as Ho. destruct (transformMount w id d m) as [[[m1 d1]|] d'] eqn:E; [|done].
    destruct Ho as (-> & -> & Hf). destruct (transform_all w id d ms) as [[m2 d2]|] eqn:E2; [|done].
    intros [= <- <-] H0 Hlen. rewrite filter_app, Hf. rewrite filter_cons_False by done. by apply IH.
Qed.
End transform.

(** ** Names *)

Lemma str_take_app n p r :
  (String.length p ≤ n)%nat → str_take n (p +:+ r) = p +:+ str_take (n - String.length p) r.
Proof.
  revert n. induction p as [|a p IH]; intros n Hn.
  - simpl. by rewrite Nat.sub_0_r.
  - destruct n as [|n]; [simpl in Hn; lia|].
    change (String a (str_take n (p +:+ r)) = String a (p +:+ str_take (n - String.length p) r)).
    rewrite IH; [done|simpl in Hn; lia].
Qed.

Lemma byte_digits d : 0 ≤ d < 256 → (String.length (fmt_d d) ≤ 3)%nat.
Proof.
  intros Hd.
  assert (Forall (λ d, String.length (fmt_d d) ≤ 3)%nat (seqZ 0 256)) as Hall.
  { apply (bool_decide_unpack _). vm_compute. exact I. }
  rewrite Forall_forall in Hall. apply Hall, elem_of_seqZ. lia.
Qed.

(** A name begins with the number of its disk, up to the dash. *)
Lemma disk_name_shape d id :
  0 ≤ d < 256 → ∃ rest, disk_name d id = ("disk-" +:+ fmt_d d +:+ "-") +:+ rest.
Proof.
  intros Hd. pose proof (byte_digits d Hd). unfold disk_name, truncateID.
  assert (Et : ("disk-" +:+ fmt_d d) +:+ "-" +:+ id = ("disk-" +:+ fmt_d d +:+ "-") +:+ id).
  { by rewrite !append_assoc. }
  rewrite Et. destruct (_ <? _)%nat; [|by exists id]. rewrite str_take_app; [by eexists|].
  rewrite !append_length. simpl. unfold maxIDLen. lia.
Qed.

Lemma disk_name_inj d1 d2 id1 id2 :
  0 ≤ d1 < 256 → 0 ≤ d2 < 256 → disk_name d1 id1 = disk_name d2 id2 → d1 = d2.
Proof.
  intros H1 H2 E. destruct (disk_name_shape d1 id1 H1) as [r1 E1].
  destruct (disk_name_shape d2 id2 H2) as [r2 E2]. rewrite E1, E2, !append_assoc in E.
  apply append_inj_l in E. apply fmt_d_inj.
  destruct (fmt_d_digits d1) as (Hd1 & _); [lia|]. destruct (fmt_d_digits d2) as (Hd2 & _); [lia|].
  pose proof (span_digits_app (fmt_d d1) "-" r1 Hd1 eq_refl) as S1.
  pose proof (span_digits_app (fmt_d d2) "-" r2 Hd2 eq_refl) as S2.
  change (String "-" r1) with ("-" +:+ r1) in S1. change (String "-" r2) with ("-" +:+ r2) in S2.
  rewrite E, S2 in S1. by injection S1.
Qed.

Lemma disk_name_length d id : (String.length (disk_name d id) ≤ maxIDLen)%nat.
Proof.
  unfold disk_name, truncateID. destruct (Nat.ltb_spec maxIDLen (String.length (("disk-" +:+ fmt_d d) +:+ "-" +:+ id)));
    [apply str_take_length|done].
Qed.

(** ** The disks of the VM *)

Section setup.
Context {W V : Type} `{HF : !HostFiles W, AV : !AddDisks V} (w : W) (id : string).

(** The name, the file and the mode of a disk, and the device of the guest. *)
Record placed := mkPlaced { pl_disk : diskOptions; pl_mount : Mount }.

Lemma placed_disk d m :
  on_disk m → ∃ p, disk_of w id d m = [pl_disk p] ∧ guest_of w id d m = [pl_mount p] ∧
    do_name (pl_disk p) = disk_name d id ∧ mnt_Source (pl_mount p) = dev d.
Proof.
  intros Hd. destruct (transformMount_disk w id d m Hd) as (t & opts & src & ro & vmdk & E & _).
  unfold disk_of, guest_of, transformed. rewrite E. by eexists (mkPlaced _ _).
Qed.

Lemma placed_disks d ms :
  Forall on_disk ms → ∃ ps,
    concat (imap (λ k m, disk_of w id (d + Z.of_nat k) m) ms) = pl_disk <$> ps ∧
    concat (imap (λ k m, guest_of w id (d + Z.of_nat k) m) ms) = pl_mount <$> ps ∧
    do_name ∘ pl_disk <$> ps = (λ k, disk_name k id) <$> seqZ d (len ms) ∧
    mnt_Source ∘ pl_mount <$> ps = dev <$> seqZ d (len ms).
Proof.
  intros Hms. revert d. induction Hms as [|m ms Hm Hms IH]; intros d; [by exists []|].
  destruct (placed_disk d m Hm) as (p & E1 & E2 & E3 & E4). destruct (IH (d + 1)) as (ps & I1 & I2 & I3 & I4).
  exists (p :: ps). simpl. rewrite Z.add_0_r, E1, E2.
  assert (seqZ d (len (m :: ms)) = d :: seqZ (d + 1) (len ms)) as ->.
  { unfold len. simpl. rewrite seqZ_cons by lia. do 2 f_equal; lia. }
  csimpl. rewrite E3, E4, <-I1, <-I2, <-I3, <-I4.
  split_and!; [f_equal..|done|done]; f_equal; apply imap_ext; intros k x _; simpl; f_equal; lia.
Qed.

Lemma addDisks_ok ds v v' :
  addDisksToVM ds v = (None, v') →
  v' = foldl (λ v d, (AddDisk (do_name d) (do_source d) (do_readOnly d) (do_vmdk d) v).2) v ds.
Proof.
  revert v. induction ds as [|d ds IH]; intros v; simpl; [by intros [= <-]|].
  destruct (AddDisk _ _ _ _ v) as [[e|] v1]; [done|]. apply IH.
Qed.


End setup.

(** ** From the request to the guest's root file system *)

(** The mount point of component [k]. *)
Definition mp (mdir : string) (k : Z) : string := mdir +:+ "/" +:+ fmt_d k.

(** The overlay the guest mounts over [n] layers and a writable disk. *)
Definition root_overlay (mdir : string) (n : Z) : Mount :=
  mkMount "overlay" "overlay" ""
    ["lowerdir=" +:+ strings_Join (mp mdir <$> seqZ 0 n) ":";
     "upperdir=" +:+ mp mdir n +:+ "/upper"; "workdir=" +:+ mp mdir n +:+ "/work"].

(** A directory for mount points that no template or option can break. *)
Record good_dir (mdir : string) : Prop := mkGood
  { gd_clean : abs_clean mdir; gd_plain : plain mdir; gd_colon : str_all (not_char ":") mdir = true }.

Section overlay.
Context (mdir : string) (n : Z) (Hn : 1 ≤ n < max_int64) (Hdir : good_dir mdir)
  (active : list ActiveMount) (Hpl : Forall plain_mount active)
  (Hmp : MountPoint <$> active = mp mdir <$> seqZ 0 (n + 1)).

Lemma active_mp k : 0 ≤ k ≤ n → MountPoint <$> active !! Z.to_nat k = Some (mp mdir k).
Proof.
  intros Hk. rewrite <-list_lookup_fmap, Hmp, list_lookup_fmap, lookup_seqZ_lt by lia. simpl.
  do 2 f_equal. lia.
Qed.

Lemma format_mount pre post :
  plain pre → plain post →
  format_with "option" (pre +:+ "{{ mount " +:+ fmt_d n +:+ " }}" +:+ post) active =
    Ok (pre +:+ mp mdir n +:+ post).
Proof.
  intros Hpre Hpost.
  replace (pre +:+ "{{ mount " +:+ fmt_d n +:+ " }}" +:+ post)
    with (print [Lit pre; PMount n; Lit post]).
  - apply format_reference; [repeat constructor; (done || lia)|done|].
    cbn [eval foldr eval_piece]. rewrite active_mp by lia. simpl. by rewrite append_nil_r.
  - simpl. by rewrite append_nil_r, !append_assoc.
Qed.

Lemma format_upper pre :
  plain pre → format_with "option" (pre +:+ upper_tmpl n) active = Ok (pre +:+ mp mdir n +:+ "/upper").
Proof. intros Hp. exact (format_mount pre "/upper" Hp eq_refl). Qed.
Lemma format_work pre :
  plain pre → format_with "option" (pre +:+ work_tmpl n) active = Ok (pre +:+ mp mdir n +:+ "/work").
Proof. intros Hp. exact (format_mount pre "/work" Hp eq_refl). Qed.

Lemma overlay_dirs_active : overlay_dirs active 0 (n - 1) = Some (mp mdir <$> seqZ 0 n).
Proof.
  unfold overlay_dirs. destruct (Z.ltb_spec (n - 1) 0); [lia|]. replace (n - 1 - 0 + 1) with n by lia.
  apply mapM_Some. apply Forall2_fmap_r. apply Forall_Forall2_diag, Forall_forall.
  intros k Hk%elem_of_seqZ. apply active_mp. lia.
Qed.

Lemma format_lower :
  format_with "option" ("lowerdir={{ overlay 0 " +:+ fmt_d (n - 1) +:+ " }}") active =
    Ok ("lowerdir=" +:+ strings_Join (mp mdir <$> seqZ 0 n) ":").
Proof.
  replace ("lowerdir={{ overlay 0 " +:+ fmt_d (n - 1) +:+ " }}")
    with (print [Lit "lowerdir="; POverlay 0 (n - 1)]).
  - apply format_reference; [repeat constructor; (done || lia)|done|].
    cbn [eval foldr eval_piece]. rewrite overlay_dirs_active. simpl. by rewrite append_nil_r.
  - simpl. by rewrite append_nil_r.
Qed.

Lemma format_plain what s : plain s → format_with what s active = Ok s.
Proof.
  intros Hs. replace s with (print [Lit s]) at 1 by (simpl; apply append_nil_r).
  apply format_reference; [by repeat constructor|done|]. simpl. by rewrite append_nil_r.
Qed.

Lemma mp_colon k : 0 ≤ k → str_all (not_char ":") (mp mdir k) = true.
Proof.
  intros Hk. unfold mp. rewrite !str_all_app, (gd_colon _ Hdir). simpl.
  destruct (fmt_d_digits k Hk) as (Hd & _). eapply str_all_impl; [|exact Hd].
  intros a. by destruct a as [[] [] [] [] [] [] [] []].
Qed.

Lemma mkdir_mp post :
  str_all (not_char ":") post = true →
  parseMkdirOption (mkdir_prefix +:+ mp mdir n +:+ post) mdir = Ok (mkMkdir (mp mdir n +:+ post) 493 (-1) (-1)).
Proof.
  intros Hp. pose proof (mp_colon n ltac:(lia)) as Hc. unfold mp in *. rewrite !append_assoc.
  apply mkdir_path_accepted. rewrite <-!append_assoc, str_all_app, append_assoc. by rewrite Hc.
Qed.

Lemma resolve_overlay :
  resolve mdir (overlay_mount (n - 1) n) active =
    Ok (root_overlay mdir n,
        [mkMkdir (mp mdir n +:+ "/upper") 493 (-1) (-1); mkMkdir (mp mdir n +:+ "/work") 493 (-1) (-1)]).
Proof.
  unfold resolve, overlay_mount. cbn [mnt_Type mnt_Source mnt_Target mnt_Options].
  change (CutPrefix "format/mkdir/overlay" "format/") with (Some "mkdir/overlay"). cbv iota.
  unfold applyFormatSubstitution, mkdir_options.
  cbn [mnt_Type mnt_Source mnt_Target mnt_Options app format_options].
  rewrite format_lower, !format_upper, !format_work, !format_plain by done.
  cbn [mnt_Type mnt_Source mnt_Target mnt_Options].
  change (CutPrefix "mkdir/overlay" "mkdir/") with (Some "overlay"). cbv iota.
  assert (Hh : ∀ x, HasPrefix (mkdir_prefix +:+ x) "X-containerd.mkdir." = true).
  { intros x. apply (HasPrefix_app "X-containerd.mkdir." ("path=" +:+ x)). }
  cbn [processMkdirOptions]. rewrite !Hh, !mkdir_mp by done. done.
Qed.

End overlay.

(** ** The layers of a request *)

Section layers.
Context {W V : Type} `{HF : !HostFiles W, AV : !AddDisks V} (w : W) (id : string).

(** The file and the mode of the disk of [m], and its type in the guest. *)
Definition file_of (m : Mount) : string :=
  if is_erofs (mnt_Type m) then (erofs_source w (mnt_Source m)).1 else mnt_Source m.
Definition readonly_of (m : Mount) : bool :=
  is_erofs (mnt_Type m) || bool_decide (Exists (λ o, o = "ro" ∨ o = "readonly") (mnt_Options m)).
Definition guest_type (m : Mount) : string := if is_erofs (mnt_Type m) then "erofs" else "ext4".

Lemma transform_on_disk d m :
  on_disk m → ∃ g o, transformMount w id d m = (Ok ([g], [o]), next_disk d) ∧
    mnt_Type g = guest_type m ∧ mnt_Source g = dev d ∧ mnt_Target g = mnt_Target m ∧
    do_source o = file_of m ∧ do_readOnly o = readonly_of m ∧ do_name o ≠ "".
Proof.
  assert (Hname : disk_name d id ≠ "") by (unfold disk_name, truncateID; by destruct (_ <? _)%nat).
  intros [He|He]; unfold transformMount, guest_type, file_of, readonly_of.
  - rewrite He. unfold handleEROFS. destruct (erofs_source _ _). by eexists _, _.
  - rewrite He. by eexists _, _.
Qed.

Lemma transform_all_on_disk d ms :
  0 ≤ d → d + len ms ≤ 255 → Forall on_disk ms →
  ∃ gs ds, transform_all w id d ms = Ok (gs, ds) ∧ mnt_Type <$> gs = guest_type <$> ms ∧
    mnt_Source <$> gs = dev <$> seqZ d (len ms) ∧ mnt_Target <$> gs = mnt_Target <$> ms ∧
    (λ o, (do_source o, do_readOnly o)) <$> ds = (λ m, (file_of m, readonly_of m)) <$> ms ∧
    Forall (λ o, do_name o ≠ "") ds.
Proof.
  intros H0 Hlen Hms. revert d H0 Hlen. induction Hms as [|m ms Hm Hms IH]; intros d H0 Hlen; simpl.
  { by exists [], []. }
  destruct (transform_on_disk d m Hm) as (g & o & -> & G1 & G2 & G3 & O1 & O2 & O3). unfold len in Hlen. simpl in Hlen.
  assert (next_disk d = d + 1) as -> by (apply Z.mod_small; lia).
  destruct (IH (d + 1)) as (gs & ds & -> & I1 & I2 & I3 & I4 & I5); [lia|unfold len; lia|].
  exists (g :: gs), (o :: ds). split; [done|]. csimpl. rewrite G1, G2, G3, O1, O2, I1, I2, I3, I4.
  split_and!; [done| |done|done|by constructor].
  unfold len. simpl. rewrite (seqZ_cons d) by lia. csimpl. do 3 f_equal; lia.
Qed.

Lemma transform_all_length d ms gs ds :
  Forall on_disk ms → transform_all w id d ms = Ok (gs, ds) → length ds = length ms.
Proof.
  intros Hms. revert d gs ds. induction Hms as [|m ms Hm Hms IH]; intros d gs ds; simpl; [by intros [= <- <-]|].
  destruct (transform_on_disk d m Hm) as (g & o & -> & _).
  destruct (transform_all _ _ _ ms) as [[gs' ds']|] eqn:E; [|done]. intros [= <- <-]. simpl. by rewrite (IH _ _ _ E).
Qed.

(** The pattern that gets an overlay. *)
Definition pattern (gs : list Mount) (n : nat) : Prop :=
  mnt_Type <$> gs = replicate n "erofs" ++ ["ext4"].

Lemma count_pattern gs n : pattern gs n → count_type "erofs" gs = Z.of_nat n.
Proof.
  unfold pattern, count_type, len. revert n. induction gs as [|g gs IH]; intros [|n]; simpl; [done|done| |].
  - intros [= E Hgs%fmap_nil_inv]. subst. rewrite filter_cons_False, filter_nil; [done|]. by rewrite E.
  - intros [= E Hgs]. rewrite filter_cons_True by done. simpl. specialize (IH n Hgs). lia.
Qed.

Lemma last_pattern gs n i : 0 ≤ i → pattern gs n → last_index "ext4" i gs = i + Z.of_nat n.
Proof.
  unfold pattern. revert n i. induction gs as [|g gs IH]; intros [|n] i Hi; simpl; [done|done| |].
  - intros [= E Hgs%fmap_nil_inv]. subst. simpl. rewrite E. simpl. lia.
  - intros [= E Hgs]. rewrite (IH n) by (done || lia). destruct (Z.eqb_spec (i + 1 + Z.of_nat n) (-1)); lia.
Qed.

Lemma generate_pattern gs n :
  (1 ≤ n)%nat → pattern gs n →
  generateOverlayIfNeeded gs = gs ++ [overlay_mount (Z.of_nat n - 1) (Z.of_nat n)].
Proof.
  intros Hn Hp. assert (Hl : length gs = (n + 1)%nat).
  { apply (f_equal length) in Hp. by rewrite length_fmap, length_app, length_replicate in Hp. }
  unfold generateOverlayIfNeeded. rewrite (count_pattern gs n Hp), (last_pattern gs n 0) by done.
  unfold len. rewrite Hl. destruct (Z.ltb_spec (Z.of_nat (n + 1)) 2); [lia|].
  rewrite bool_decide_false; [|].
  - destruct (Z.eqb_spec (Z.of_nat n) 0); [lia|]. destruct (Z.eqb_spec (0 + Z.of_nat n) (Z.of_nat (n + 1) - 1)); [|lia].
    simpl. by rewrite Z.add_0_l.
  - rewrite Exists_exists. intros (g & Hg & Hc). apply (list_elem_of_fmap_2 mnt_Type) in Hg. unfold pattern in Hp.
    rewrite Hp in Hg. apply elem_of_app in Hg as [[Hg _]%elem_of_replicate|Hg%list_elem_of_singleton];
      by rewrite Hg in Hc.
Qed.

(** What [Setup] makes of layers and a writable disk. *)
Lemma Setup_layers layers upper v am v' :
  layers ≠ [] → Forall (λ m, is_erofs (mnt_Type m) = true) layers → mnt_Type upper = "ext4" →
  Setup w id (layers ++ [upper]) v = (Ok am, v') →
  let n := length layers in
  (n ≤ 9)%nat ∧ ∃ gs, am = gs ++ [overlay_mount (Z.of_nat n - 1) (Z.of_nat n)] ∧ pattern gs n ∧
    mnt_Source <$> gs = dev <$> seqZ first_disk (Z.of_nat n + 1) ∧
    mnt_Target <$> gs = mnt_Target <$> layers ++ [upper] ∧
    ∃ ds, addDisksToVM ds v = (None, v') ∧ Forall (λ o, do_name o ≠ "") ds ∧
      (λ o, (do_source o, do_readOnly o)) <$> ds = (λ m, (file_of m, readonly_of m)) <$> layers ++ [upper].
Proof.
  intros Hne Hl Hu HS n.
  assert (Hd : Forall on_disk (layers ++ [upper])).
  { apply Forall_app. split; [|constructor; [by right|done]]. eapply Forall_impl; [exact Hl|]. by left. }
  unfold Setup, transformMounts in HS.
  assert (Hlen : length (layers ++ [upper]) = (n + 1)%nat) by (rewrite length_app; simpl; lia).
  destruct (transform_all w id first_disk (layers ++ [upper])) as [[gs ds]|] eqn:Et; [|done].
  pose proof (transform_all_length _ _ _ _ Hd Et) as Hds.
  destruct (Z.ltb_spec maxDisks (len ds)) as [|Hmax]; [done|]. unfold len, maxDisks in Hmax.
  destruct (addDisksToVM ds v) as [[e|] v1] eqn:Ea; [done|]. injection HS as <- <-. split; [lia|].
  destruct (transform_all_on_disk first_disk (layers ++ [upper])) as (gs' & ds' & Et' & G1 & G2 & G3 & G4 & G5);
    [done|unfold first_disk, len; lia|done|]. rewrite Et in Et'. injection Et' as <- <-.
  assert (Hpat : pattern gs n).
  { unfold pattern. rewrite G1, fmap_app. f_equal; [|simpl; unfold guest_type; by rewrite Hu].
    subst n. clear -Hl. induction Hl as [|m ms Hm _ IH]; [done|]. csimpl. rewrite IH. unfold guest_type. by rewrite Hm. }
  exists gs. split_and!; [apply generate_pattern; [|done]|done| |done|by exists ds].
  - subst n. destruct layers; [done|simpl; lia].
  - rewrite G2. unfold len. rewrite Hlen. do 2 f_equal. lia.
Qed.
End layers.

(** ** The guest *)

Lemma plain_dev d : 0 ≤ d < 123 → plain (dev d).
Proof.
  intros Hd. assert (Forall (λ d, plain (dev d)) (seqZ 0 123)) as Hall.
  { apply (bool_decide_unpack _). vm_compute. exact I. }
  rewrite Forall_forall in Hall. apply Hall, elem_of_seqZ. lia.
Qed.

Lemma targets_mp rootfs mdir n :
  good_dir mdir → targets rootfs mdir 0 (n + 2) = (mp mdir <$> seqZ 0 (Z.of_nat n + 1)) ++ [rootfs].
Proof.
  intros Hd. unfold targets. f_equal. replace (Z.of_nat (n + 2) - 1) with (Z.of_nat n + 1) by lia.
  apply list_fmap_ext. intros i k Hk. apply lookup_seqZ in Hk as [-> _].
  apply filepath_Join_clean; [apply Hd|apply normal_fmt_d; lia].
Qed.

Section guest.
Context {W V G : Type} `{HF : !HostFiles W, AV : !AddDisks V, OM : !MountOps G} (w : W) (id : string).
Notation ST := (st G).

(** A list of components that are mounted as they are, then an overlay. *)
Context (mdir : string) (n : nat) (gs : list Mount) (Hdir : good_dir mdir) (Hn : (1 ≤ n ≤ 9)%nat)
  (Hpat : pattern gs n) (Hsrc : mnt_Source <$> gs = dev <$> seqZ first_disk (Z.of_nat n + 1))
  (Htgt : Forall plain (mnt_Target <$> gs)).

Lemma length_gs : length gs = (n + 1)%nat.
Proof. apply (f_equal length) in Hpat. by rewrite length_fmap, length_app, length_replicate in Hpat. Qed.

Lemma resolve_layer g before : g ∈ gs → resolve mdir g before = Ok (g, []).
Proof.
  intros Hg. apply (list_elem_of_fmap_2 mnt_Type) in Hg. unfold pattern in Hpat. rewrite Hpat in Hg.
  unfold resolve.
  apply elem_of_app in Hg as [[Hg _]%elem_of_replicate|Hg%list_elem_of_singleton]; rewrite Hg; cbn; by rewrite Hg.
Qed.

Lemma plain_layers parts :
  am_Mount <$> parts = gs → MountPoint <$> parts = mp mdir <$> seqZ 0 (Z.of_nat n + 1) →
  Forall plain_mount parts.
Proof.
  intros Hm Hp. apply Forall_lookup. intros i a Ha. split_and!.
  - assert (Hs : (mnt_Source <$> (am_Mount <$> parts)) !! i = Some (mnt_Source (am_Mount a)))
      by (by rewrite !list_lookup_fmap, Ha).
    rewrite Hm, Hsrc, list_lookup_fmap in Hs. apply fmap_Some in Hs as (d & [-> Hd]%lookup_seqZ & ->).
    apply plain_dev. unfold first_disk. lia.
  - rewrite Forall_lookup in Htgt. apply (Htgt i). by rewrite <-Hm, !list_lookup_fmap, Ha.
  - assert (Hs : (MountPoint <$> parts) !! i = Some (MountPoint a)) by (by rewrite list_lookup_fmap, Ha).
    rewrite Hp, list_lookup_fmap in Hs. apply fmap_Some in Hs as (d & [-> Hd]%lookup_seqZ & ->).
    unfold mp. repeat apply plain_app; [apply Hdir|done|apply plain_digits; lia].
Qed.

(** The components mounted so far are the first of [gs]. *)
Lemma resolved_layers ov new ev :
  resolved mdir (gs ++ [ov]) [] new ev → am_Mount <$> take (n + 1) new = take (length new) gs.
Proof.
  intros Hr. pose proof length_gs as Hl. apply list_eq. intros i. rewrite list_lookup_fmap.
  destruct (decide (i < n + 1)%nat) as [Hi|Hi].
  - rewrite lookup_take_lt by done. destruct (new !! i) as [a|] eqn:Ha; simpl.
    + destruct (lookup_lt_is_Some_2 gs i) as [g Hg]; [lia|]. apply lookup_lt_Some in Ha as Hin.
      rewrite lookup_take_lt by done. destruct (Hr i g a) as (specs & Hre & _); [by apply lookup_app_l_Some|done|].
      rewrite resolve_layer in Hre by (by eapply list_elem_of_lookup_2). by simplify_eq.
    + apply lookup_ge_None in Ha. by rewrite lookup_take_ge.
  - rewrite lookup_take_ge by lia. symmetry. apply lookup_ge_None. rewrite length_take. lia.
Qed.

Let ov := overlay_mount (Z.of_nat n - 1) (Z.of_nat n).
Let root := root_overlay mdir (Z.of_nat n).

(** After the layers the overlay can be resolved. *)
Lemma resolve_root parts :
  am_Mount <$> parts = gs → MountPoint <$> parts = mp mdir <$> seqZ 0 (Z.of_nat n + 1) →
  resolve mdir ov parts = Ok (root, [mkMkdir (mp mdir (Z.of_nat n) +:+ "/upper") 493 (-1) (-1);
                                     mkMkdir (mp mdir (Z.of_nat n) +:+ "/work") 493 (-1) (-1)]).
Proof.
  intros Hm Hp. apply resolve_overlay; [|done|by apply plain_layers|done].
  split; [lia|]. unfold max_int64. lia.
Qed.

Lemma guest_mounts rootfs (s : ST) :
  adds (All rootfs mdir (gs ++ [ov])) s (λ r ev,
    match r with
    | Ok (Some active) => ∃ parts, active = parts ++ [mkActive root rootfs] ∧
        MountPoint <$> parts = mp mdir <$> seqZ 0 (Z.of_nat n + 1) ∧ am_Mount <$> parts = gs ∧
        EvMkdir (mp mdir (Z.of_nat n) +:+ "/upper") ∈ ev ∧ EvMkdir (mp mdir (Z.of_nat n) +:+ "/work") ∈ ev
    | Ok None => False
    | Err _ => call_fails
    end).
Proof.
  pose proof length_gs as Hl. eapply adds_mono; [apply All_returns; by destruct gs|].
  assert (Hlen : length (gs ++ [ov]) = (n + 2)%nat) by (rewrite length_app; simpl; lia).
  intros [[active|]|e] ev (new & HN); simpl; [|done|].
  - destruct HN as (-> & _ & Htg & Hres). rewrite Hlen, targets_mp in Htg by done.
    assert (Hnew : length new = (n + 2)%nat).
    { apply (f_equal length) in Htg. rewrite length_app, !length_fmap, length_seqZ in Htg. simpl in Htg. lia. }
    pose proof (resolved_layers ov new ev Hres) as Hm. rewrite (take_ge gs) in Hm by lia.
    assert (Hmp : MountPoint <$> take (n + 1) new = mp mdir <$> seqZ 0 (Z.of_nat n + 1)).
    { rewrite fmap_take, Htg, take_app_length'; [done|]. rewrite length_fmap, length_seqZ. lia. }
    destruct (lookup_lt_is_Some_2 new (n + 1)) as [a Ha]; [lia|].
    destruct (Hres (n + 1)%nat ov a) as (specs & Hre & Hsp);
      [rewrite lookup_app_r by lia; by replace (n + 1 - length gs)%nat with 0%nat by lia|done|].
    rewrite app_nil_l in Hre. unfold ov in Hre. rewrite resolve_root in Hre by done. injection Hre as Era <-.
    exists (take (n + 1) new). split_and!; [|done|done|exact (Hsp _ (list_elem_of_here _ _))|
      exact (Hsp _ (list_elem_of_further _ _ _ (list_elem_of_here _ _)))].
    rewrite <-(take_drop (n + 1) new) at 1. f_equal. rewrite (drop_S new a) by done.
    rewrite drop_ge by lia. f_equal. destruct a as [am pt]. simpl in *. f_equal; [done|].
    apply (f_equal (λ l, l !! (n + 1)%nat)) in Htg. rewrite list_lookup_fmap, Ha in Htg. simpl in Htg.
    rewrite lookup_app_r in Htg by (rewrite length_fmap, length_seqZ; lia).
    rewrite length_fmap, length_seqZ in Htg. replace (n + 1 - Z.to_nat (Z.of_nat n + 1))%nat with 0%nat in Htg by lia.
    simpl in Htg. congruence.
  - destruct HN as [_ [|(m & Hm & Hre & Hres & Htg)]]; [done|]. exfalso.
    rewrite Hlen, targets_mp in Htg by done. apply lookup_lt_Some in Hm as Hmlt. rewrite Hlen in Hmlt.
    pose proof (resolved_layers ov new ev Hres) as Hla.
    destruct (decide (length new = n + 1)%nat) as [En|En].
    + rewrite lookup_app_r in Hm by lia. replace (length new - length gs)%nat with 0%nat in Hm by lia.
      injection Hm as <-. rewrite app_nil_l in Hre. rewrite !take_ge in Hla by lia.
      unfold ov in Hre. rewrite resolve_root in Hre; [done|done|].
      rewrite Htg, En, take_app_length'; [done|]. rewrite length_fmap, length_seqZ. lia.
    + rewrite lookup_app_l in Hm by lia. rewrite resolve_layer in Hre; [done|]. by eapply list_elem_of_lookup_2.
Qed.

End guest.

(** ** The whole way *)

(** The VM is a QEMU instance; the disks all have names, so that the identifier
    made from the file's metadata is not used. *)
#[global] Instance qemu_disks : AddDisks Qemu.Instance := {|
  AddDisk name source ro _ q := QemuInstance.AddDisk (Err (ErrNew "no metadata")) name source ro q |}.

Lemma addDisks_qemu ds q q' :
  Forall (λ o, do_name o ≠ "") ds → addDisksToVM ds q = (None, q') →
  (λ d, (Qemu.Path d, Qemu.Readonly d)) <$> Qemu.disks q' =
    ((λ d, (Qemu.Path d, Qemu.Readonly d)) <$> Qemu.disks q) ++ ((λ o, (do_source o, do_readOnly o)) <$> ds).
Proof.
  intros Hn. revert q. induction Hn as [|o ds Ho Hn IH]; intros q; simpl.
  { intros [= <-]. by rewrite app_nil_r. }
  unfold QemuInstance.AddDisk. destruct (negb _); [done|]. apply String.eqb_neq in Ho as ->. simpl.
  intros E%IH. rewrite E. simpl. rewrite fmap_app, <-app_assoc. done.
Qed.

(** C5: the root file system of a container, from the request to the guest.
    For read-only layers followed by a writable disk the shim gives the VM
    exactly their files, in order, the layers read-only; the guest mounts device
    [k], which is disk [k] of the VM, at the [k]-th directory, makes the upper
    and work directories on the writable disk, and mounts at the root an overlay
    of all layers in the order of the request, unless a call of the system
    fails. *)
Theorem rootfs_assembled {W G} `{!HostFiles W, !MountOps G} (w : W) id layers upper q am q'
    rootfs mdir (s : st G) :
  layers ≠ [] → Forall (λ m, is_erofs (mnt_Type m) = true) layers → mnt_Type upper = "ext4" →
  Forall plain (mnt_Target <$> layers ++ [upper]) → good_dir mdir →
  Setup w id (layers ++ [upper]) q = (Ok am, q') →
  let n := Z.of_nat (length layers) in
  (λ d, (Qemu.Path d, Qemu.Readonly d)) <$> Qemu.disks q' =
    ((λ d, (Qemu.Path d, Qemu.Readonly d)) <$> Qemu.disks q) ++
    ((λ m, (file_of w m, readonly_of m)) <$> layers ++ [upper]) ∧
  ∃ r s' ev, All rootfs mdir am s = Return (r, s') ∧ trace s' = trace s ++ ev ∧
    match r with
    | Ok (Some active) => ∃ parts, active = parts ++ [mkActive (root_overlay mdir n) rootfs] ∧
        MountPoint <$> parts = mp mdir <$> seqZ 0 (n + 1) ∧
        mnt_Source ∘ am_Mount <$> parts = dev <$> seqZ first_disk (n + 1) ∧
        EvMkdir (mp mdir n +:+ "/upper") ∈ ev ∧ EvMkdir (mp mdir n +:+ "/work") ∈ ev
    | Ok None => False
    | Err _ => call_fails (W:=G)
    end.
Proof.
  intros Hne Hl Hu Ht Hdir HS n.
  destruct (Setup_layers w id layers upper q am q' Hne Hl Hu HS)
    as (Hn9 & gs & -> & Hpat & Hsrc & Htgt & ds & Hadd & Hnames & Hds).
  split; [by rewrite (addDisks_qemu ds q q'), Hds|].
  assert (Hn : (1 ≤ length layers ≤ 9)%nat) by (destruct layers; [done|simpl in *; lia]).
  pose proof (guest_mounts mdir (length layers) gs Hdir Hn Hpat Hsrc ltac:(by rewrite Htgt) rootfs s) as Hg.
  apply wpp_False in Hg as (r & s' & E & ev & Htr & HR). exists r, s', ev. split_and!; [done|done|].
  destruct r as [[active|]|e]; [|done|done]. destruct HR as (parts & -> & H1 & H2 & H3 & H4).
  exists parts. split_and!; [done|done| |done|done]. by rewrite list_fmap_compose, H2.
Qed.

(** ** VMDK descriptors *)

(** [l] describes [n] sectors of [f] from [o] on, without gaps, in extents
    that are not empty and within the limit. *)
Fixpoint covers (f : string) (o n : Z) (l : list extent) : Prop :=
  match l with
  | [] => n = 0
  | e :: l' => ext_file e = f ∧ ext_offset e = o ∧ 0 < ext_count e ≤ max2GbExtentSectors ∧
      covers f (o + ext_count e) (n - ext_count e) l'
  end.

Lemma max_extent : max2GbExtentSectors = 4194304.
Proof. reflexivity. Qed.

Lemma vmdkDescAddExtent_covers fuel sectors f o :
  0 ≤ sectors → 0 ≤ o → o + sectors < 2 ^ 64 → sectors ≤ (Z.of_nat fuel - 1) * max2GbExtentSectors →
  ∃ l, vmdkDescAddExtent fuel sectors f o = Some l ∧ covers f o sectors l.
Proof.
  rewrite max_extent. revert sectors o.
  induction fuel as [|fuel IH]; intros sectors o Hs Ho Hsum Hf; [lia|]. cbn [vmdkDescAddExtent].
  destruct (Z.ltb_spec 0 sectors) as [Hp|Hp]; [|exists []; split; [done|simpl; lia]].
  rewrite max_extent. rewrite !wrapu64_id by lia.
  destruct (Z.min_spec sectors 4194304) as [[Hm ->]|[Hm ->]].
  - destruct (IH (sectors - sectors) (o + sectors)) as (l & -> & Hc); [lia..|].
    eexists. split; [done|]. simpl. rewrite max_extent. split_and!; try done; lia.
  - destruct (IH (sectors - 4194304) (o + 4194304)) as (l & -> & Hc); [lia..|].
    eexists. split; [done|]. simpl. rewrite max_extent. split_and!; try done; lia.
Qed.

Lemma extent_fuel_enough s : 0 ≤ s → s ≤ (Z.of_nat (extent_fuel s) - 1) * max2GbExtentSectors.
Proof.
  intros Hs. unfold extent_fuel. rewrite max_extent.
  pose proof (Z.div_pos s 4194304 Hs ltac:(lia)). pose proof (Z.mul_succ_div_gt s 4194304 ltac:(lia)). lia.
Qed.

Section vmdk.
Context {W : Type} `{HF : !HostFiles W} (w : W).

(** The devices with their sizes in sectors. *)
Definition sized (d : string) (n : Z) : Prop :=
  ∃ size, stat_Size d w = Ok size ∧ 512 ≤ size < 2 ^ 63 ∧ n = size / 512.
Definition total (ns : list Z) : Z := foldr Z.add 0 ns.

Lemma total_nonneg ds ns : Forall2 sized ds ns → 0 ≤ total ns.
Proof.
  induction 1 as [|d n ds ns (size & _ & Hsz & ->) _ IH]; simpl; [lia|].
  pose proof (Z.div_pos size 512). lia.
Qed.

Lemma vmdk_extents_covers ds ns t :
  Forall2 sized ds ns → 0 ≤ t → t + total ns < 2 ^ 64 →
  ∃ ls, vmdk_extents w ds t = Ok (concat ls, t + total ns) ∧
    Forall2 (λ dn l, covers dn.1 0 dn.2 l) (zip ds ns) ls.
Proof.
  intros Hds. revert t. induction Hds as [|d n ds ns (size & Hst & Hsz & ->) Hds IH]; intros t Ht Hsum; simpl.
  { exists []. rewrite Z.add_0_r. by split. }
  rewrite Hst. destruct (Z.eqb_spec size 0); [lia|]. rewrite wrapu64_id by lia.
  rewrite Z.shiftr_div_pow2 by lia. change (2 ^ 9) with 512.
  assert (Hn : 1 ≤ size / 512 < 2 ^ 54).
  { split; [apply Z.div_le_lower_bound; lia|apply Z.div_lt_upper_bound; lia]. }
  destruct (Z.eqb_spec (size / 512) 0); [lia|]. simpl in Hsum.
  pose proof (total_nonneg _ _ Hds).
  destruct (vmdkDescAddExtent_covers (extent_fuel (size / 512)) (size / 512) d 0) as (l & -> & Hc);
    [lia..|apply extent_fuel_enough; lia|].
  destruct (IH (t + size / 512)) as (ls & E & Hls); [lia..|]. rewrite wrapu64_id by lia. rewrite E.
  exists (l :: ls). split; [simpl; do 2 f_equal; lia|]. by constructor.
Qed.

(** The VMDK descriptor describes its devices exactly: for devices of at
    least one sector the loops end, the extents of each device cover all of its
    whole sectors in order and without gaps, none is empty or larger than the
    2 GiB an extent may have, and the geometry has the least number of
    cylinders that holds all sectors. *)
Theorem vmdk_describes_devices ds ns :
  Forall2 sized ds ns → total ns < 2 ^ 63 →
  ∃ ls cyls, DumpVMDKDescriptor w ds = Ok (concat ls, cyls) ∧
    Forall2 (λ dn l, covers dn.1 0 dn.2 l) (zip ds ns) ls ∧
    (cyls - 1) * (sectorsPerTrack * numberHeads) < total ns ≤ cyls * (sectorsPerTrack * numberHeads).
Proof.
  intros Hds Ht. pose proof (total_nonneg _ _ Hds).
  destruct (vmdk_extents_covers ds ns 0 Hds) as (ls & E & Hls); [lia..|].
  unfold DumpVMDKDescriptor. rewrite E. eexists ls, _. split; [done|]. split; [done|].
  rewrite Z.add_0_l. change (sectorsPerTrack * numberHeads) with 1008. rewrite wrapu64_id by lia.
  pose proof (Z.div_mod (total ns + 1008 - 1) 1008 ltac:(lia)).
  pose proof (Z.mod_pos_bound (total ns + 1008 - 1) 1008 ltac:(lia)). lia.
Qed.

End vmdk.

(** ** Examples *)

Module DiskDemo.

#[local] Instance files : HostFiles () :=
  {| stat_Size p _ := if String.eqb p "/l/big" then Ok 3000000000 else Err (ErrSentinel ErrNotFound) |}.
#[local] Instance calls : MountOps () := {|
  os_MkdirAll _ _ w := (None, w);
  os_Chown _ _ _ w := (None, w);
  mount_Mount _ _ w := (None, w);
  mount_UnmountAll _ w := (None, w) |}.

Definition vm : Qemu.Instance :=
  Qemu.mkInstance (Qemu.config QemuCmdDemo.q) Qemu.vmStateNew None None None None None None None false
    "ns" [] [] None.

Definition layers : list Mount :=
  [mkMount "erofs" "/l/new" "" ["ro"; "loop"]; mkMount "format/erofs" "/l/old" "" ["ro"]].
Definition upper : Mount := mkMount "ext4" "/l/rw" "" ["rw"; "loop"].

Definition vm_after : Qemu.Instance := (Setup tt "c1" (layers ++ [upper]) vm).2.
Definition guest : list Mount :=
  match (Setup tt "c1" (layers ++ [upper]) vm).1 with Ok am => am | Err _ => [] end.

Lemma demo_dir : good_dir "/run/b/mounts".
Proof.
  split; [|done|done]. exists ["run"; "b"; "mounts"]. split; [done|]. split; [|done].
  repeat constructor; done.
Qed.


Lemma rootfs_assembled_witness :
  Qemu.Path <$> Qemu.disks vm_after = ["/l/new"; "/l/old"; "/l/rw"] ∧
  ∃ s' parts, All "/run/b/rootfs" "/run/b/mounts" guest (mkSt tt []) =
      Return (Ok (Some (parts ++ [mkActive (mkMount "overlay" "overlay" ""
        ["lowerdir=/run/b/mounts/0:/run/b/mounts/1"; "upperdir=/run/b/mounts/2/upper";
         "workdir=/run/b/mounts/2/work"]) "/run/b/rootfs"])), s').
Proof.
  destruct (rootfs_assembled tt "c1" layers upper vm guest vm_after "/run/b/rootfs" "/run/b/mounts" (mkSt tt []))
    as [_ (r & s' & ev & HA & _ & HR)].
  - discriminate.
  - repeat constructor.
  - reflexivity.
  - repeat constructor.
  - exact demo_dir.
  - vm_compute. reflexivity.
  - split; [vm_compute; reflexivity|]. exists s'. destruct r as [[active|]|e].
    + destruct HR as (parts & -> & _). exists parts. exact HA.
    + destruct HR.
    + exfalso. destruct HR as [(? & ? & ? & H)|[(? & ? & ? & ? & H)|(? & ? & ? & H)]]; by apply H.
Defined.

Lemma vmdk_describes_devices_witness :
  ∃ ls cyls, DumpVMDKDescriptor tt ["/l/big"] = Ok (concat ls, cyls) ∧
    (cyls - 1) * 1008 < 5859375 ≤ cyls * 1008.
Proof.
  destruct (vmdk_describes_devices tt ["/l/big"] [5859375]) as (ls & cyls & H1 & _ & H3).
  - repeat constructor. exists 3000000000. split; [reflexivity|]. split; [lia|reflexivity].
  - vm_compute. reflexivity.
  - exists ls, cyls. split; [exact H1|exact H3].
Defined.

(** A component in front of the layers shifts their indices: the overlay takes
    it for the first layer and leaves the last layer out. *)
Example overlay_takes_wrong_layers :
  mnt_Options <$> last (generateOverlayIfNeeded
    [mkMount "bind" "/data" "" []; mkMount "erofs" "/dev/vda" "" []; mkMount "ext4" "/dev/vdb" "" []]) =
  Some ["lowerdir={{ overlay 0 0 }}"; "upperdir={{ mount 2 }}/upper"; "workdir={{ mount 2 }}/work";
        "X-containerd.mkdir.path={{ mount 2 }}/upper"; "X-containerd.mkdir.path={{ mount 2 }}/work"].
Proof. vm_compute. reflexivity. Qed.

End DiskDemo.
