(* ===== verification/ShimTask.v ===== *)
(** * The task service of the shim

    Models internal/shim/task/service.go and create.go, the supervisor
    configuration (internal/shim/supervisor/supervisor.go) and the start of the
    hotplug controllers (internal/shim/resources/hotplug.go).  A handler is a
    program of the state monad [M] over the service, the world and a trace of
    what it set up and released.  The state machine and the cleanup
    orchestrator are those of Lifecycle.v, the VM and the connection manager
    those of VmManager.v, the controllers those of CpuHotplug.v and
    MemHotplug.v; the guest, mounts, networking and the forwarders are
    interfaces.  A handler runs without interruption, except that a goroutine
    it starts is only recorded ([EvExitRequested], [EvStream]) and runs as a
    step of its own. *)

From S2P Require Import Prelude GoStrings Lifecycle CpuHotplug MemHotplug VmManager Resources QemuCmd MountUtil.
From Stdlib Require Import Ascii.

(** ** supervisor.go *)

Module Supervisor.

Definition AnnotationEnabled : string := "io.spin.supervisor.enabled".
Definition AnnotationWorkspaceID : string := "io.spin.supervisor.workspace_id".
Definition AnnotationSecret : string := "io.spin.supervisor.secret".
Definition AnnotationMetadataAddr : string := "io.spin.supervisor.metadata_addr".
Definition AnnotationControlPlane : string := "io.spin.supervisor.control_plane".
Definition AnnotationBinaryPath : string := "io.spin.supervisor.binary_path".
Definition DefaultMetadataAddr : string := "169.254.169.254:80".
Definition DefaultBinaryPath : string := "/usr/local/bin/spin-supervisor".
Definition BundleFileName : string := "spin-supervisor".

Record Config := mkConfig
  { Enabled : bool; WorkspaceID : string; Secret : string; MetadataAddr : string;
    ControlPlane : string; BinaryPath : string; BinaryContent : string }.

Definition or_default (s d : string) : string := if String.eqb s "" then d else s.

(** A missing annotation reads as the empty string. *)
Definition FromAnnotations (annotations : gmap string string) : option Config :=
  let a k := default "" (annotations !! k) in
  if negb (String.eqb (a AnnotationEnabled) "true") then None
  else Some (mkConfig true (a AnnotationWorkspaceID) (a AnnotationSecret)
               (or_default (a AnnotationMetadataAddr) DefaultMetadataAddr)
               (a AnnotationControlPlane)
               (or_default (a AnnotationBinaryPath) DefaultBinaryPath) "").

Definition missing (key : string) : error :=
  ErrNew ("supervisor: missing required annotation " +:+ key).

Definition Validate (c : Config) : option error :=
  if negb (Enabled c) then None
  else if String.eqb (WorkspaceID c) "" then Some (missing AnnotationWorkspaceID)
  else if String.eqb (Secret c) "" then Some (missing AnnotationSecret)
  else if String.eqb (ControlPlane c) "" then Some (missing AnnotationControlPlane)
  else None.

(** [readFile] is [os.ReadFile]. *)
Definition LoadBinary (readFile : string → result string) (c : Config) : result Config :=
  if negb (Enabled c) then Ok c
  else
    let cleanPath := Clean (BinaryPath c) in
    if negb (IsAbs cleanPath) then
      Err (ErrNew ("supervisor: binary path must be absolute: " +:+ BinaryPath c))
    else
      match readFile cleanPath with
      | Err e => Err (ErrWrap ("supervisor: failed to read binary from " +:+ cleanPath) e)
      | Ok data => Ok (mkConfig (Enabled c) (WorkspaceID c) (Secret c) (MetadataAddr c)
                         (ControlPlane c) (BinaryPath c) data)
      end.

Definition InitArgs (c : Config) : list string :=
  if negb (Enabled c) then []
  else ["spin.workspace_id=" +:+ WorkspaceID c; "spin.secret=" +:+ Secret c;
        "spin.metadata_addr=" +:+ MetadataAddr c; "spin.control_plane=" +:+ ControlPlane c].

End Supervisor.

Module ShimTask.
#[local] Open Scope m_scope.

(** ** Data *)

Record Stdio := mkStdio { Stdin : string; Stdout : string; Stderr : string; Terminal : bool }.

(** An [IOForwarder] is its address, [None] the nil interface. *)
Record processIOState := mkPio { host : Stdio; forwarder : option Z }.
Record taskIO := mkTaskIO { io_init : processIOState; io_exec : gmap string processIOState }.

(** [mountCleanup] is the address of the closure, [None] for nil. *)
Record container := mkContainer { pid : Z; io : option taskIO; mountCleanup : option Z }.

Record Bundle := mkBundle
  { spec : Resources.Spec; annotations : gmap string string; extraFiles : gmap string string }.

Record CreateTaskRequest := mkCreate
  { ID : string; cr_Bundle : string; Rootfs : list MountUtil.Mount; cr_io : Stdio;
    Checkpoint : string; ParentCheckpoint : string }.

Record DeleteResponse := mkDeleted { dr_Pid : Z; dr_ExitStatus : Z; dr_ExitedAt : Time }.

Record StateResponse := mkState
  { sr_Status : Z; sr_Pid : Z; sr_io : Stdio; sr_ExitStatus : Z; sr_ExitedAt : Time }.
Definition Status_CREATED : Z := 1.

(** What the events channel carries: an envelope of the guest or the
    TaskDelete event of the shim.  [env_exit] holds the container and process
    of a TaskExit event. *)
Record Envelope := mkEnvelope
  { env_Topic : string; env_exit : option (string * string); env_data : Z }.
Inductive shimEvent :=
  | EvEnvelope (e : Envelope)
  | EvTaskDelete (id : string) (r : DeleteResponse).

(** RPCs that are passed on to the guest unchanged. *)
Inductive rpc := ResizePty | Kill | Pids | CloseIO_ | Update | Wait | Stats.

(** What the handlers set up and release. *)
Inductive event :=
  | EvForwarder (f : Z) | EvFwdStart (f : Z) | EvFwdShutdown (f : Z) | EvCloseStdin (f : Z)
  | EvCpuStart (c : Z) | EvCpuStop (c : Z) | EvMemStart (c : Z) | EvMemStop (c : Z)
  | EvMounts (f : Z) | EvMountCleanup (f : Z)
  | EvNetSetup (id : string) | EvNetRelease (id : string) | EvNetClose
  | EvVM (a : Z) | EvVMShutdown (a : Z)
  | EvDialed (c : Z) | EvClientClose (c : Z) | EvStream (c : Z) | EvWaited (f : Z)
  | EvExitRequested (reason : string) | EvExit.

#[global] Instance event_eq_dec : EqDecision event.
Proof. solve_decision. Defined.

Record controllers := mkControllers
  { cpuHotplugControllers : gmap string Z; memoryHotplugControllers : gmap string Z;
    (* the controller objects by address; a no-op memory controller is [None] *)
    cpuObjs : gmap Z CpuHotplug.Controller; memObjs : gmap Z (option MemHotplug.Controller) }.

(** [sent] holds all that was ever sent; [closed] tells whether the channel is
    closed. *)
Record eventsState := mkEvents { sent : list shimEvent; eventsClosed : bool; closed : bool }.

(** [nextRef] is the next free address. *)
Record service := mkService
  { stateMachine : StateMachine.t; vmLifecycle : VmManager.Manager;
    connManager : ConnManager.t;
    cont : option container; containerID : string;
    ctls : controllers; events : eventsState;
    inflight : Z; initStarted : bool; nextRef : Z }.

(** [NewTaskService]. *)
Definition NewTaskService : service :=
  mkService StateMachine.NewStateMachine VmManager.NewManager ConnManager.NewConnectionManager
    None "" (mkControllers ∅ ∅ ∅ ∅) (mkEvents [] false false) 0 false 0.

Definition set_sm (x : StateMachine.t) (s : service) : service :=
  mkService x (vmLifecycle s) (connManager s) (cont s) (containerID s) (ctls s) (events s)
    (inflight s) (initStarted s) (nextRef s).
Definition set_vm (x : VmManager.Manager) (s : service) : service :=
  mkService (stateMachine s) x (connManager s) (cont s) (containerID s) (ctls s) (events s)
    (inflight s) (initStarted s) (nextRef s).
Definition set_conn (x : ConnManager.t) (s : service) : service :=
  mkService (stateMachine s) (vmLifecycle s) x (cont s) (containerID s) (ctls s) (events s)
    (inflight s) (initStarted s) (nextRef s).
Definition set_cont (x : option container) (s : service) : service :=
  mkService (stateMachine s) (vmLifecycle s) (connManager s) x (containerID s) (ctls s) (events s)
    (inflight s) (initStarted s) (nextRef s).
Definition set_cid (x : string) (s : service) : service :=
  mkService (stateMachine s) (vmLifecycle s) (connManager s) (cont s) x (ctls s) (events s)
    (inflight s) (initStarted s) (nextRef s).
Definition set_ctls (x : controllers) (s : service) : service :=
  mkService (stateMachine s) (vmLifecycle s) (connManager s) (cont s) (containerID s) x (events s)
    (inflight s) (initStarted s) (nextRef s).
Definition set_events (x : eventsState) (s : service) : service :=
  mkService (stateMachine s) (vmLifecycle s) (connManager s) (cont s) (containerID s) (ctls s) x
    (inflight s) (initStarted s) (nextRef s).
Definition set_inflight (x : Z) (s : service) : service :=
  mkService (stateMachine s) (vmLifecycle s) (connManager s) (cont s) (containerID s) (ctls s)
    (events s) x (initStarted s) (nextRef s).
Definition set_initStarted (x : bool) (s : service) : service :=
  mkService (stateMachine s) (vmLifecycle s) (connManager s) (cont s) (containerID s) (ctls s)
    (events s) (inflight s) x (nextRef s).
Definition set_next (x : Z) (s : service) : service :=
  mkService (stateMachine s) (vmLifecycle s) (connManager s) (cont s) (containerID s) (ctls s)
    (events s) (inflight s) (initStarted s) x.

Definition set_io (i : option taskIO) (c : container) : container :=
  mkContainer (pid c) i (mountCleanup c).
Definition set_exec (x : gmap string processIOState) (i : taskIO) : taskIO :=
  mkTaskIO (io_init i) x.

(** What [Recv] of the event stream returns: an event, one of the errors that
    mean a closed stream ([io.EOF], [ErrShutdown], [ErrClosed]), another
    error. *)
Inductive recv := RecvEvent (e : Envelope) | RecvClosed | RecvError.

(** ** What the service calls *)

Class TaskOps (W : Type) := {
  (* lifecycle.CheckKVM, transform.LoadForCreate, the host *)
  checkKVM : W → option error;
  loadForCreate : string → W → result Bundle * W;
  numCPU : W → Z;
  meminfo : W → result (list string);
  readFile : string → W → result string;
  marshalSpec : Bundle → result string;
  (* vm.Instance *)
  inst_Start : Z → Qemu.StartOpts → W → option error * W;
  inst_QMPClient : Z → W → option Z;
  inst_CPUHotplugger : Z → W → result Z;
  (* config.Get and the conversion of its durations *)
  cpuHotplugConfig : W → result CpuHotplug.Config;
  memHotplugConfig : W → result MemHotplug.Config;
  (* platformMounts.Manager: whether there is a cleanup, and the mounts *)
  mounts_Setup : Z → string → list MountUtil.Mount → W → result (bool * list MountUtil.Mount) * W;
  mount_cleanup : Z → W → option error * W;
  (* platformNetwork.Manager and network.NetworkManager *)
  net_Setup : Z → string → string → W → result (option Qemu.NetworkConfig) * W;
  net_Release : string → W → option error * W;
  net_Close : W → option error * W;
  (* io.go: the stdio of the guest, and the forwarder's methods *)
  forwardIOWithIDs : Z → string → string → Stdio → W → result Stdio * W;
  fwd_Start : Z → W → option error * W;
  fwd_Shutdown : Z → W → option error * W;
  fwd_CloseStdin : Z → W → W;
  fwd_WaitForComplete : Z → W → W;
  (* the guest, on a client *)
  events_Stream : Z → W → option error * W;
  stream_Recv : Z → W → recv * W;
  sleepWithJitter : Duration → W → W;
  bundle_Create : Z → string → gmap string string → W → result string * W;
  guest_Create : Z → string → string → list MountUtil.Mount → Stdio → W → result Z * W;
  guest_Start : Z → string → string → W → result Z * W;
  guest_Delete : Z → string → string → W → result DeleteResponse * W;
  guest_Exec : Z → string → string → Stdio → W → option error * W;
  guest_State : Z → string → string → W → result StateResponse * W;
  guest_Connect : Z → string → W → result Z * W;
  guest_rpc : rpc → Z → string → string → W → result Z * W;
  getpid : Z }.

Record st (W : Type) := mkSt { svc : service; world : W; trace : list event }.
Arguments mkSt {W}. Arguments svc {W}. Arguments world {W}. Arguments trace {W}.

Section service.
Context {W : Type} `{!VmManager.Ops W, !TaskOps W}.
Notation ST := (st W).

Definition call {A} (f : W → A * W) : M ST A :=
  λ s, let '(a, w) := f (world s) in Return (a, mkSt (svc s) w (trace s)).
Definition ask {A} (f : W → A) : M ST A := m_get (λ s, f (world s)).
Definition emit (e : event) : M ST () := m_modify (λ s, mkSt (svc s) (world s) (trace s ++ [e])).
Definition get {A} (f : service → A) : M ST A := m_get (λ s, f (svc s)).
Definition upd (f : service → service) : M ST () :=
  m_modify (λ s, mkSt (f (svc s)) (world s) (trace s)).

(** [new(T)]. *)
Definition alloc : M ST Z :=
  r ← get nextRef; upd (set_next (r + 1)) ≫= λ _, m_ret r.

(** An operation of the state machine. *)
Definition on_sm {A} (f : StateMachine.t → A * StateMachine.t) : M ST A :=
  sm ← get stateMachine;
  let '(a, sm') := f sm in upd (set_sm sm') ≫= λ _, m_ret a.
Definition SetIntentionalShutdown (v : bool) : M ST () :=
  on_sm (λ sm, (tt, StateMachine.SetIntentionalShutdown v sm)).

(** [errgrpc.ToGRPCf]. *)
Definition ToGRPCf {A} (c : sentinel) (msg : string) : result A := Err (ErrWrap msg (ErrSentinel c)).

(** The verb [%q] on a string of printable characters. *)
Definition fmt_q (s : string) : string :=
  let q := String (ascii_of_N 34) EmptyString in q +:+ s +:+ q.

(** [errors.Join], by its text. *)
Definition errors_Join (es : list error) : option error :=
  match es with
  | [] => None
  | _ => Some (ErrNew (strings_Join (error_text <$> es) (String (ascii_of_N 10) EmptyString)))
  end.

(** ** Calls with an effect that the trace records *)

Definition nil_deref := VmManager.nil_deref.

Definition forwarder_Shutdown (f : option Z) : M ST (option error) :=
  match f with
  | None => m_panic nil_deref
  | Some f => e ← call (fwd_Shutdown f); emit (EvFwdShutdown f) ≫= λ _, m_ret e
  end.

Definition ReleaseNetworkResources (id : string) : M ST (option error) :=
  e ← call (net_Release id); emit (EvNetRelease id) ≫= λ _, m_ret e.

Definition run_mountCleanup (f : option Z) : M ST (option error) :=
  match f with
  | None => m_ret None
  | Some f => e ← call (mount_cleanup f); emit (EvMountCleanup f) ≫= λ _, m_ret e
  end.

Definition vm_Shutdown : M ST (option error) := λ s,
  let m := vmLifecycle (svc s) in
  match VmManager.Shutdown m (world s) with
  | Panic msg => Panic msg
  | Return (e, m', w') =>
      Return (e, mkSt (set_vm m' (svc s)) w'
                   (trace s ++ match m with VmManager.Inst a => [EvVMShutdown a] | _ => [] end))
  end.

Definition set_cpuObjs (x : gmap Z CpuHotplug.Controller) (c : controllers) : controllers :=
  mkControllers (cpuHotplugControllers c) (memoryHotplugControllers c) x (memObjs c).
Definition set_memObjs (x : gmap Z (option MemHotplug.Controller)) (c : controllers) : controllers :=
  mkControllers (cpuHotplugControllers c) (memoryHotplugControllers c) (cpuObjs c) x.
Definition set_cpuMap (x : gmap string Z) (c : controllers) : controllers :=
  mkControllers x (memoryHotplugControllers c) (cpuObjs c) (memObjs c).
Definition set_memMap (x : gmap string Z) (c : controllers) : controllers :=
  mkControllers (cpuHotplugControllers c) x (cpuObjs c) (memObjs c).

(** [Stop] of a controller, by its address. *)
Definition cpu_Stop (c : Z) : M ST () :=
  cs ← get ctls;
  match cpuObjs cs !! c with
  | None => m_panic nil_deref
  | Some o =>
      match CpuHotplug.Stop o with
      | Panic msg => m_panic msg
      | Return o' => upd (set_ctls (set_cpuObjs (<[c := o']> (cpuObjs cs)) cs)) ≫= λ _,
          emit (EvCpuStop c)
      end
  end.

(** A call of the memory controller's [Stop] that never returns is a panic of
    the model. *)
Definition mem_Stop (c : Z) : M ST () :=
  cs ← get ctls;
  match memObjs cs !! c with
  | None => m_panic nil_deref
  | Some None => emit (EvMemStop c)
  | Some (Some o) =>
      match MemHotplug.Stop o with
      | None => m_panic "all goroutines are asleep - deadlock!"
      | Some o' => upd (set_ctls (set_memObjs (<[c := Some o']> (memObjs cs)) cs)) ≫= λ _,
          emit (EvMemStop c)
      end
  end.

(** ** Shutdown *)

(** Go's maps are ranged over in no fixed order; [map_to_list] is one. *)
Definition stopAllHotplugControllers : M ST (option error) :=
  cs ← get ctls;
  let cpuControllers := (map_to_list (cpuHotplugControllers cs)).*2 in
  let memControllers := (map_to_list (memoryHotplugControllers cs)).*2 in
  upd (set_ctls (set_cpuMap ∅ (set_memMap ∅ cs))) ≫= λ _,
  m_for cpu_Stop cpuControllers ≫= λ _,
  m_for mem_Stop memControllers ≫= λ _, m_ret None.

Definition io_forwarders (i : taskIO) : list (option Z) :=
  forwarder (io_init i) :: (forwarder ∘ snd <$> map_to_list (io_exec i)).

Fixpoint shutdown_forwarders (fs : list (option Z)) (errs : list error) : M ST (list error) :=
  match fs with
  | [] => m_ret errs
  | f :: fs' =>
      e ← forwarder_Shutdown f;
      shutdown_forwarders fs' (match e with Some e => errs ++ [e] | None => errs end)
  end.

Definition shutdownAllIO : M ST (option error) :=
  c ← get cont;
  let forwarders := match c with
                    | Some (mkContainer _ (Some i) _) => io_forwarders i
                    | _ => []
                    end in
  errs ← shutdown_forwarders forwarders [];
  m_ret (errors_Join errs).

Definition extractMountCleanup : M ST (option Z) :=
  c ← get cont;
  match c with
  | None => m_ret None
  | Some c =>
      upd (set_cont (Some (mkContainer (pid c) (io c) None))) ≫= λ _, m_ret (mountCleanup c)
  end.

Definition closeEvents : M ST (option error) :=
  upd (λ s, set_events (mkEvents (sent (events s)) true true) s) ≫= λ _, m_ret None.

Definition conn_Close : M ST (option error) :=
  upd (λ s, set_conn (ConnManager.Close (connManager s)) s) ≫= λ _, m_ret None.

(** A phase of the orchestrator; it acts on a state that a panic may have
    ended. *)
Definition phase (m : M ST (option error)) : Cleanup.CleanupFunc (outcome ST) := λ o,
  match o with
  | Panic msg => (None, Panic msg)
  | Return s => match m s with
                | Return (e, s') => (e, Return s')
                | Panic msg => (None, Panic msg)
                end
  end.

Definition orchestrate
    (f : outcome ST → Cleanup.ShutdownResult * Cleanup.CleanupOrchestrator (outcome ST) * outcome ST) :
    M ST Cleanup.ShutdownResult := λ s,
  match f (Return s) with
  | (r, _, Return s') => Return (r, s')
  | (_, _, Panic msg) => Panic msg
  end.

Definition buildCleanupPhases (containerID : string) : M ST (Cleanup.CleanupPhases (outcome ST)) :=
  mountCleanup ← extractMountCleanup;
  m_ret (Cleanup.mkPhases
    (Some (phase stopAllHotplugControllers))
    (Some (phase shutdownAllIO))
    (Some (phase conn_Close))
    (Some (phase vm_Shutdown))
    (Some (phase (if String.eqb containerID "" then m_ret None
                  else ReleaseNetworkResources containerID)))
    (Some (phase (run_mountCleanup mountCleanup)))
    (Some (phase closeEvents))).

Definition shutdown : M ST (option Cleanup.ShutdownResult) :=
  on_sm (StateMachine.ForceTransition StateMachine.StateShuttingDown) ≫= λ _,
  cid ← get containerID;
  phases ← buildCleanupPhases cid;
  result ← orchestrate (Cleanup.Execute (Cleanup.NewCleanupOrchestrator phases));
  upd (set_initStarted false) ≫= λ _,
  call net_Close ≫= λ _, emit EvNetClose ≫= λ _,
  m_ret (Cleanup.AsError result).

(** ** Events *)

(** A send on a closed channel panics, and [send] recovers. *)
Definition send (evt : shimEvent) : M ST () :=
  e ← get events;
  if eventsClosed e then m_ret tt
  else if closed e then m_ret tt
  else upd (set_events (mkEvents (sent e ++ [evt]) (eventsClosed e) (closed e))).

(** ** The client of the guest *)

Definition taskClientRetryTimeout : Duration := 1 * Second.
Definition dial_fuel : nat :=
  Z.to_nat (taskClientRetryTimeout / VmManager.vsockRetryInitialBackoff) + 3.

(** [vmLM.DialClientWithRetry], the dial function of the connection manager. *)
Definition dialRetry (m : VmManager.Manager) : outcome W → result Z * outcome W := λ o,
  match o with
  | Panic msg => (Err (ErrNew msg), Panic msg)
  | Return w =>
      match VmManager.DialClientWithRetry dial_fuel m taskClientRetryTimeout w with
      | Some (Return (r, w')) => (r, Return w')
      | Some (Panic msg) => (Err (ErrNew msg), Panic msg)
      | None => (Err (ErrNew "out of fuel"), Panic "out of fuel")
      end
  end.

Definition getTaskClient : M ST (result Z) := λ s,
  match ConnManager.GetClient (dialRetry (vmLifecycle (svc s))) (connManager (svc s))
          (Return (world s)) with
  | (r, cm, Return w) => Return (r, mkSt (set_conn cm (svc s)) w (trace s))
  | (_, _, Panic msg) => Panic msg
  end.

(** A handler that asks the guest. *)
Definition with_client {A} (k : Z → M ST (result A)) : M ST (result A) :=
  vmc ← getTaskClient;
  match vmc with Err e => m_ret (Err e) | Ok vmc => k vmc end.

(** [ResizePty], [Kill], [Pids], [Update], [Wait] and [Stats]. *)
Definition forward_rpc (r : rpc) (id execID : string) : M ST (result Z) :=
  with_client (λ vmc, call (guest_rpc r vmc id execID)).

(** [Pause], [Resume] and [Checkpoint]. *)
Definition Pause : M ST (result Z) :=
  m_ret (ToGRPCf ErrNotImplemented
    "pause is not supported: VM-based runtime cannot checkpoint CPU/memory state").
Definition Resume : M ST (result Z) :=
  m_ret (ToGRPCf ErrNotImplemented
    "resume is not supported: VM-based runtime cannot restore CPU/memory state").
Definition Checkpoint_ : M ST (result Z) :=
  m_ret (ToGRPCf ErrNotImplemented
    "checkpoint is not supported: VM-based runtime cannot snapshot process state").

Definition Start (id execID : string) : M ST (result Z) :=
  with_client (λ vmc,
    resp ← call (guest_Start vmc id execID);
    match resp with
    | Err e => m_ret (Err e)
    | Ok p =>
        (if String.eqb execID "" then upd (set_initStarted true) else m_ret tt) ≫= λ _,
        m_ret (Ok p)
    end).

(** The container and its I/O, if the request names the shim's container. *)
Definition container_of (id : string) (s : service) : option container :=
  if String.eqb (containerID s) id then cont s else None.

Definition CloseIO (id execID : string) (stdin : bool) : M ST (result Z) :=
  (if stdin then
     c ← get (container_of id);
     let f := match c with
              | Some (mkContainer _ (Some i) _) =>
                  if String.eqb execID "" then Some (forwarder (io_init i))
                  else forwarder <$> io_exec i !! execID
              | _ => None
              end in
     match f with
     | None => m_ret tt
     | Some None => m_panic nil_deref
     | Some (Some f) => call (λ w, (tt, fwd_CloseStdin f w)) ≫= λ _, emit (EvCloseStdin f)
     end
   else m_ret tt) ≫= λ _,
  with_client (λ vmc, call (guest_rpc CloseIO_ vmc id execID)).

Definition set_sr_io (i : Stdio) (r : StateResponse) : StateResponse :=
  mkState (sr_Status r) (sr_Pid r) i (sr_ExitStatus r) (sr_ExitedAt r).

(** The host's paths replace those of the guest; an exec keeps its terminal
    flag. *)
Definition host_paths (execID : string) (i : taskIO) (r : StateResponse) : StateResponse :=
  if String.eqb execID "" then set_sr_io (host (io_init i)) r
  else match io_exec i !! execID with
       | Some p => set_sr_io (mkStdio (Stdin (host p)) (Stdout (host p)) (Stderr (host p))
                                (Terminal (sr_io r))) r
       | None => r
       end.

Definition no_io : Stdio := mkStdio "" "" "" false.

Definition State (id execID : string) : M ST (result StateResponse) :=
  started ← get initStarted;
  c ← get cont;
  match (if String.eqb execID "" && negb started then c else None) with
  | Some c =>
      m_ret (Ok (mkState Status_CREATED (pid c)
                   (match io c with Some i => host (io_init i) | None => no_io end) 0 0))
  | None =>
      with_client (λ vmc,
        r ← call (guest_State vmc id execID);
        match r with
        | Err e => m_ret (Err e)
        | Ok r =>
            c ← get cont;
            m_ret (Ok (match c with
                       | Some (mkContainer _ (Some i) _) => host_paths execID i r
                       | _ => r
                       end))
        end)
  end.

(** The pids of the shim and of the task. *)
Definition Connect (id : string) : M ST (result (Z * Z)) :=
  c ← get (container_of id);
  match c with
  | Some c' =>
      if negb (pid c' =? 0) then m_ret (Ok (getpid, pid c'))
      else with_client (λ vmc,
             r ← call (guest_Connect vmc id);
             m_ret (match r with Err e => Err e | Ok p => Ok (getpid, p) end))
  | None =>
      with_client (λ vmc,
        r ← call (guest_Connect vmc id);
        m_ret (match r with Err e => Err e | Ok p => Ok (getpid, p) end))
  end.

(** ** Exec *)

Definition put_exec (execID : string) (p : processIOState) (c : container) : container :=
  let i := match io c with
           | Some i => i
           | None => mkTaskIO (mkPio no_io None) ∅
           end in
  set_io (Some (set_exec (<[execID := p]> (io_exec i)) i)) c.

(** The clean-up after the guest refused the exec. *)
Definition exec_failed (id execID : string) : M ST () :=
  c ← get (container_of id);
  match c with
  | Some (mkContainer _ (Some i) _ as c) =>
      match io_exec i !! execID with
      | Some p =>
          forwarder_Shutdown (forwarder p) ≫= λ _,
          upd (set_cont (Some (set_io (Some (set_exec (delete execID (io_exec i)) i)) c)))
      | None => m_ret tt
      end
  | _ => m_ret tt
  end.

Definition with_instance {A} (k : VmManager.iface → M ST (result A)) : M ST (result A) :=
  vm ← get vmLifecycle;
  match VmManager.Instance_ vm with Err e => m_ret (Err e) | Ok vmi => k vmi end.

(** A method call on a [vm.Instance]. *)
Definition on_inst {A} (vmi : VmManager.iface) (k : Z → M ST A) : M ST A :=
  match vmi with VmManager.Inst a => k a | _ => m_panic nil_deref end.

(** [forwardIOWithIDs] and the forwarder it makes.  A nil instance is only
    dereferenced when a stream is opened, but no caller has one. *)
Definition make_forwarder (vmi : VmManager.iface) (id execID : string) (rio : Stdio) :
    M ST (result (Stdio * Z)) :=
  on_inst vmi (λ a,
    r ← call (forwardIOWithIDs a id execID rio);
    match r with
    | Err e => m_ret (Err e)
    | Ok cio => f ← alloc; emit (EvForwarder f) ≫= λ _, m_ret (Ok (cio, f))
    end).

Definition Exec (id execID : string) (rio : Stdio) : M ST (result ()) :=
  with_client (λ vmc,
  with_instance (λ vmi,
    r ← make_forwarder vmi id execID rio;
    match r with
    | Err e => m_ret (Err e)
    | Ok (cio, execForwarder) =>
        c ← get (container_of id);
        match c with
        | None =>
            forwarder_Shutdown (Some execForwarder) ≫= λ _,
            m_ret (ToGRPCf ErrNotFound ("container " +:+ fmt_q id +:+ " not found"))
        | Some c =>
            let p := mkPio (mkStdio (Stdin rio) (Stdout rio) (Stderr rio) false)
                       (Some execForwarder) in
            upd (set_cont (Some (put_exec execID p c))) ≫= λ _,
            e ← call (guest_Exec vmc id execID cio);
            match e with
            | Some e => exec_failed id execID ≫= λ _, m_ret (Err e)
            | None =>
                call (fwd_Start execForwarder) ≫= λ _, emit (EvFwdStart execForwarder) ≫= λ _,
                m_ret (Ok tt)
            end
        end
    end)).

(** ** Delete *)

Record deleteCleanup := mkDeleteCleanup
  { ioForwarders : list (option Z); cpuController : option Z; memController : option Z;
    dc_mountCleanup : option Z; needNetworkClean : bool; needVMShutdown : bool }.

Definition cleanupOnDeleteFailure (id : string) : M ST () :=
  SetIntentionalShutdown true ≫= λ _,
  phases ← buildCleanupPhases id;
  orchestrate (Cleanup.ExecutePartial Cleanup.PhaseIOShutdown
                 (Cleanup.NewCleanupOrchestrator phases)) ≫= λ _, m_ret tt.

(** The part under [containerMu]. *)
Definition collect_container (id execID : string) : M ST deleteCleanup :=
  let nothing := mkDeleteCleanup [] None None None false false in
  c ← get (container_of id);
  match c with
  | None => m_ret nothing
  | Some c =>
      if negb (String.eqb execID "") then
        match io c with
        | Some i =>
            match io_exec i !! execID with
            | Some p =>
                upd (set_cont (Some (set_io (Some (set_exec (delete execID (io_exec i)) i)) c))) ≫= λ _,
                m_ret (mkDeleteCleanup [forwarder p] None None None false false)
            | None => m_ret nothing
            end
        | None => m_ret nothing
        end
      else
        upd (λ s, set_cont None (set_cid "" s)) ≫= λ _,
        m_ret (mkDeleteCleanup (match io c with Some i => io_forwarders i | None => [] end)
                 None None (mountCleanup c) true true)
  end.

Definition collectDeleteCleanup (id execID : string) : M ST deleteCleanup :=
  d ← collect_container id execID;
  if String.eqb execID "" then
    cs ← get ctls;
    upd (set_ctls (set_cpuMap (delete id (cpuHotplugControllers cs))
                     (set_memMap (delete id (memoryHotplugControllers cs)) cs))) ≫= λ _,
    m_ret (mkDeleteCleanup (ioForwarders d) (cpuHotplugControllers cs !! id)
             (memoryHotplugControllers cs !! id) (dc_mountCleanup d) (needNetworkClean d)
             (needVMShutdown d))
  else m_ret d.

Definition opt_do {A} (o : option A) (f : A → M ST ()) : M ST () :=
  match o with Some a => f a | None => m_ret tt end.

Definition runDeleteCleanup (id : string) (d : deleteCleanup) : M ST () :=
  shutdown_forwarders (ioForwarders d) [] ≫= λ _,
  opt_do (cpuController d) cpu_Stop ≫= λ _,
  opt_do (memController d) mem_Stop ≫= λ _,
  if needVMShutdown d then
    SetIntentionalShutdown true ≫= λ _,
    let phases := Cleanup.mkPhases None None None
      (Some (phase vm_Shutdown))
      (Some (phase (if negb (needNetworkClean d) then m_ret None
                    else ReleaseNetworkResources id)))
      (Some (phase (run_mountCleanup (dc_mountCleanup d)))) None in
    orchestrate (Cleanup.ExecutePartial Cleanup.PhaseVMShutdown
                   (Cleanup.NewCleanupOrchestrator phases)) ≫= λ _,
    emit (EvExitRequested "container deleted")
  else m_ret tt.

(** [TryStartDeleting] with the refusal by state. *)
Definition start_deleting : M ST (option error) :=
  started ← on_sm StateMachine.TryStartDeleting;
  if started : bool then m_ret None
  else
    state ← get (StateMachine.State ∘ stateMachine);
    let refuse c msg := m_ret (Some (ErrWrap msg (ErrSentinel c))) in
    match state with
    | StateMachine.StateCreating =>
        refuse ErrFailedPrecondition "cannot delete while container creation is in progress"
    | StateMachine.StateShuttingDown => refuse ErrFailedPrecondition "shim is shutting down"
    | StateMachine.StateDeleting => refuse ErrAlreadyExists "delete already in progress"
    | _ => refuse ErrFailedPrecondition
             ("cannot delete in state: " +:+ StateMachine.String state)
    end.

(** [s.inflight.Add(1)] with the deferred [s.inflight.Add(-1)]. *)
Definition counted {A} (m : M ST A) : M ST A :=
  upd (λ s, set_inflight (inflight s +i 1) s) ≫= λ _,
  a ← m;
  upd (λ s, set_inflight (inflight s -i 1) s) ≫= λ _, m_ret a.

Definition delete_body (id execID : string) : M ST (result DeleteResponse) :=
  with_client (λ vmc,
    r ← call (guest_Delete vmc id execID);
    match r with
    | Err e =>
        (if String.eqb execID "" then cleanupOnDeleteFailure id else m_ret tt) ≫= λ _,
        m_ret (Err e)
    | Ok resp =>
        (if String.eqb execID "" then send (EvTaskDelete id resp) else m_ret tt) ≫= λ _,
        d ← collectDeleteCleanup id execID;
        runDeleteCleanup id d ≫= λ _, m_ret (Ok resp)
    end).

Definition Delete (id execID : string) : M ST (result DeleteResponse) :=
  counted (
    refused ← (if String.eqb execID "" then start_deleting else m_ret None);
    match refused with
    | Some e => m_ret (Err e)
    | None => delete_body id execID
    end).

(** ** Shutdown and exit *)

Definition Shutdown : M ST () :=
  counted (SetIntentionalShutdown true ≫= λ _, emit (EvExitRequested "shutdown rpc")).

(** The goroutine of [EvExitRequested], with a shutdown service whose callback
    [shutdown] finishes in time; the waits only delay the exit. *)
Definition requestShutdownAndExit : M ST () :=
  cid ← get containerID;
  (if negb (String.eqb cid "") then ReleaseNetworkResources cid else m_ret None) ≫= λ _,
  shutdown ≫= λ _, emit EvExit.

(** ** The event stream *)

Definition TaskExitEventTopic : string := "/tasks/exit".
Definition eventStreamShutdownDelay : Duration := 2 * Second.
Definition eventStreamReconnectTimeout : Duration := 2 * Second.

Definition getIOForwarder (cid execID : string) (s : service) : option Z :=
  match cont s with
  | Some (mkContainer _ (Some i) _) =>
      if negb (String.eqb (containerID s) cid) then None
      else if String.eqb execID "" then forwarder (io_init i)
      else match io_exec i !! execID with Some p => forwarder p | None => None end
  | _ => None
  end.

(** The wait of at most 30 seconds is one call. *)
Definition waitForIOBeforeExit (ev : Envelope) : M ST () :=
  match env_exit ev with
  | None => m_ret tt
  | Some (cid, id) =>
      f ← get (getIOForwarder cid (if negb (String.eqb id cid) then id else ""));
      match f with
      | None => m_ret tt
      | Some f => call (λ w, (tt, fwd_WaitForComplete f w)) ≫= λ _, emit (EvWaited f)
      end
  end.

Definition forward_event (ev : Envelope) : M ST () :=
  (if String.eqb (env_Topic ev) TaskExitEventTopic then waitForIOBeforeExit ev else m_ret tt) ≫= λ _,
  send (EvEnvelope ev).

(** [s.vmLifecycle.DialClientWithRetry]. *)
Definition vm_DialClientWithRetry (maxWait : Duration) : M ST (result Z) := λ s,
  let fuel := (Z.to_nat (maxWait / VmManager.vsockRetryInitialBackoff) + 3)%nat in
  match VmManager.DialClientWithRetry fuel (vmLifecycle (svc s)) maxWait (world s) with
  | Some (Return (r, w)) =>
      Return (r, mkSt (svc s) w (trace s ++ match r with Ok c => [EvDialed c] | Err _ => [] end))
  | Some (Panic msg) => Panic msg
  | None => Panic "out of fuel"
  end.

Definition initialBackoff : Duration := 50 * Millisecond.
Definition maxBackoff : Duration := 500 * Millisecond.

(** The loop of [reconnectEventStream]; the outer option is [None] when the
    fuel runs out. *)
Fixpoint reconnect_loop (fuel : nat) (deadline : Time) (backoff : Duration) :
    M ST (option (option Z)) :=
  match fuel with
  | O => m_ret None
  | S fuel' =>
      t ← call VmManager.now;
      if negb (t <? deadline) then m_ret (Some None)
      else
        intentional ← get (StateMachine.IsIntentionalShutdown ∘ stateMachine);
        if intentional : bool then m_ret (Some None)
        else
          let retry :=
            call (λ w, (tt, sleepWithJitter backoff w)) ≫= λ _,
            reconnect_loop fuel' deadline (Z.min (backoff *i 2) maxBackoff) in
          r ← vm_DialClientWithRetry eventStreamReconnectTimeout;
          match r with
          | Err _ => retry
          | Ok newClient =>
              e ← call (events_Stream newClient);
              match e with
              | Some _ => emit (EvClientClose newClient) ≫= λ _, retry
              | None => m_ret (Some (Some newClient))
              end
          end
  end.

Definition reconnectEventStream (fuel : nat) : M ST (option (option Z)) :=
  t ← call VmManager.now;
  reconnect_loop fuel (t + eventStreamReconnectTimeout) initialBackoff.

(** The end of the goroutine: give the guest time for its last logs, then
    exit. *)
Definition stream_lost : M ST () :=
  call (λ w, (tt, VmManager.sleep eventStreamShutdownDelay w)) ≫= λ _, requestShutdownAndExit.

(** The goroutine of [startEventForwarder] for at most [n] calls of [Recv];
    whether it ended. *)
Fixpoint event_loop (fuel n : nat) (client : Z) : M ST bool :=
  match n with
  | O => m_ret false
  | S n' =>
      r ← call (stream_Recv client);
      match r with
      | RecvEvent ev => forward_event ev ≫= λ _, event_loop fuel n' client
      | _ =>
          intentional ← get (StateMachine.IsIntentionalShutdown ∘ stateMachine);
          if intentional : bool then m_ret true
          else match r with
               | RecvClosed =>
                   nc ← reconnectEventStream fuel;
                   match nc with
                   | Some (Some c) => event_loop fuel n' c
                   | _ => stream_lost ≫= λ _, m_ret true
                   end
               | _ => stream_lost ≫= λ _, m_ret true
               end
      end
  end.

(** ** Create *)

Definition AddExtraFile (name data : string) (b : Bundle) : result Bundle :=
  let cleaned := Clean name in
  if String.eqb name "" then Err (ErrNew "file name cannot be empty")
  else if String.eqb name "config.json" then Err (ErrNew "cannot override config.json")
  else if negb (String.eqb cleaned name) || negb (String.eqb (filepath_Base name) name) ||
          String.eqb cleaned ".." || String.eqb cleaned "." then
    Err (ErrNew ("file name " +:+ fmt_q name +:+
                 " must not contain path separators or relative components"))
  else Ok (mkBundle (spec b) (annotations b) (<[name := data]> (extraFiles b))).

Definition Files (b : Bundle) : result (gmap string string) :=
  match marshalSpec b with
  | Err e => Err (ErrWrap "failed to marshal spec" e)
  | Ok specBytes => Ok (<["config.json" := specBytes]> (extraFiles b))
  end.

Definition cleanupStep : Type := string * M ST (option error).

(** [rollback]: the steps in reverse order, errors ignored. *)
Definition rollback (steps : list cleanupStep) : M ST () :=
  m_for (λ step, snd step ≫= λ _, m_ret tt) (reverse steps).

(** The parts of [createState] that are set by [setupVMInstance]. *)
Record createState := mkCreateState
  { cs_bundle : Bundle; resourceCfg : Resources.VMResourceConfig; vmInstance : VmManager.iface;
    cs_mountCleanup : option Z; cs_mounts : list MountUtil.Mount;
    netConfig : option Qemu.NetworkConfig; netnsPath : string;
    supervisorCfg : option Supervisor.Config }.

Definition validateCreateRequest (r : CreateTaskRequest) : M ST (option error) :=
  if negb (String.eqb (Checkpoint r) "") || negb (String.eqb (ParentCheckpoint r) "") then
    m_ret (Some (ErrWrap "checkpoints not supported" (ErrSentinel ErrNotImplemented)))
  else
    started ← on_sm StateMachine.TryStartCreating;
    if negb started then
      state ← get (StateMachine.State ∘ stateMachine);
      let refuse c msg := m_ret (Some (ErrWrap msg (ErrSentinel c))) in
      match state with
      | StateMachine.StateDeleting =>
          refuse ErrAlreadyExists "shim is deleting container; requires fresh shim per container"
      | StateMachine.StateShuttingDown => refuse ErrFailedPrecondition "shim is shutting down"
      | _ => refuse ErrAlreadyExists "container creation already in progress"
      end
    else
      c ← get cont;
      vm ← get vmLifecycle;
      if is_ok (VmManager.Instance_ vm) || bool_decide (is_Some c) then
        on_sm StateMachine.MarkCreationFailed ≫= λ _,
        m_ret (Some (ErrWrap "shim already running a container; requires fresh shim per container"
                       (ErrSentinel ErrAlreadyExists)))
      else if ContainsAny (ID r) "/\" then
        on_sm StateMachine.MarkCreationFailed ≫= λ _,
        m_ret (Some (ErrWrap ("container ID contains invalid path separators: " +:+ fmt_q (ID r))
                       (ErrSentinel ErrInvalidArgument)))
      else m_ret None.

(** The supervisor's configuration, or the error of [Validate]. *)
Definition load_supervisor (b : Bundle) : M ST (result (option Supervisor.Config)) :=
  match Supervisor.FromAnnotations (annotations b) with
  | None => m_ret (Ok None)
  | Some cfg =>
      match Supervisor.Validate cfg with
      | Some e => m_ret (Err e)
      | None =>
          rf ← ask (λ w path, readFile path w);
          m_ret (Ok (match Supervisor.LoadBinary rf cfg with
                     | Err _ => None
                     | Ok cfg' => Some cfg'
                     end))
      end
  end.

Definition CreateVM (id bundle : string) : M ST (result VmManager.iface) := λ s,
  let '(r, m, w) := VmManager.CreateVM id bundle (vmLifecycle (svc s)) (world s) in
  Return (r, mkSt (set_vm m (svc s)) w
               (trace s ++ match r with Ok (VmManager.Inst a) => [EvVM a] | _ => [] end)).

Definition ComputeConfig (b : Bundle) : M ST Resources.VMResourceConfig :=
  n ← ask numCPU; mi ← ask meminfo;
  match Resources.ComputeConfig n mi (spec b) with
  | Some (Return (cfg, _)) => m_ret cfg
  | Some (Panic msg) => m_panic msg
  | None => m_panic "out of fuel"
  end.

(** The mounts and the network, after the VM was created; the error, if any,
    comes with the cleanups registered so far. *)
Definition setup_devices (r : CreateTaskRequest) (b : Bundle) (cfg : Resources.VMResourceConfig)
    (sup : option Supervisor.Config) (vmi : VmManager.iface) :
    M ST (result createState * list cleanupStep) :=
  on_inst vmi (λ a,
  m ← call (mounts_Setup a (ID r) (Rootfs r));
  match m with
  | Err e => m_ret (Err e, [])
  | Ok (has_cleanup, mounts) =>
      mc ← (if has_cleanup : bool then f ← alloc; emit (EvMounts f) ≫= λ _, m_ret (Some f)
            else m_ret None);
      let steps := [("mounts", run_mountCleanup mc)] in
      let netnsPath := "/var/run/netns/" +:+ ID r in
      n ← call (net_Setup a (ID r) netnsPath);
      match n with
      | Err e => m_ret (Err e, steps)
      | Ok netCfg =>
          emit (EvNetSetup (ID r)) ≫= λ _,
          m_ret (Ok (mkCreateState b cfg vmi mc mounts netCfg netnsPath sup),
                 steps ++ [("network", ReleaseNetworkResources (ID r))])
      end
  end).

Definition setupVMInstance (r : CreateTaskRequest) : M ST (result createState * list cleanupStep) :=
  kvm ← ask checkKVM;
  match kvm with
  | Some e => m_ret (Err e, [])
  | None =>
      b ← call (loadForCreate (cr_Bundle r));
      match b with
      | Err e => m_ret (Err e, [])
      | Ok b =>
          cfg ← ComputeConfig b;
          sup ← load_supervisor b;
          match sup with
          | Err e => m_ret (Err e, [])
          | Ok sup =>
              v ← CreateVM (ID r) (cr_Bundle r);
              match v with
              | Err e => m_ret (Err e, [])
              | Ok vmi => setup_devices r b cfg sup vmi
              end
          end
      end
  end.

(** [vm.WithNetworkConfig], [WithNetworkNamespace] and [WithInitArgs]. *)
Definition startOpts (cs : createState) : Qemu.StartOpts :=
  Qemu.mkStartOpts
    (match supervisorCfg cs with Some c => Supervisor.InitArgs c | None => [] end)
    (netConfig cs) (netnsPath cs).

(** [s.vmLifecycle.Client] and [DialClient]. *)
Definition vm_call {A} (f : VmManager.Manager → W → outcome (A * W)) : M ST A := λ s,
  match f (vmLifecycle (svc s)) (world s) with
  | Return (a, w) => Return (a, mkSt (svc s) w (trace s))
  | Panic msg => Panic msg
  end.

Definition startVM (cs : createState) : M ST (option error) :=
  on_inst (vmInstance cs) (λ a,
  e ← call (inst_Start a (startOpts cs));
  match e with
  | Some e => m_ret (Some e)
  | None =>
      SetIntentionalShutdown false ≫= λ _,
      vmc ← vm_call VmManager.Client;
      match vmc with
      | Err e => m_ret (Some e)
      | Ok c =>
          e ← call (events_Stream c);
          match e with
          | Some e => m_ret (Some e)
          | None => emit (EvStream c) ≫= λ _, m_ret None
          end
      end
  end).

(** The supervisor's binary goes into the bundle. *)
Definition inject_supervisor (cs : createState) : result Bundle :=
  match supervisorCfg cs with
  | Some c =>
      if negb (String.eqb (Supervisor.BinaryContent c) "") then
        AddExtraFile Supervisor.BundleFileName (Supervisor.BinaryContent c) (cs_bundle cs)
      else Ok (cs_bundle cs)
  | None => Ok (cs_bundle cs)
  end.

(** The pid and the forwarder of the init process. *)
Definition createTaskInVM (r : CreateTaskRequest) (cs : createState) : M ST (result (Z * Z)) :=
  match inject_supervisor cs with
  | Err e => m_ret (Err e)
  | Ok b =>
      c ← vm_call VmManager.DialClient;
      match c with
      | Err e => m_ret (Err e)
      | Ok rpcClient =>
          emit (EvDialed rpcClient) ≫= λ _,
          match Files b with
          | Err e => m_ret (Err e)
          | Ok bundleFiles =>
              br ← call (bundle_Create rpcClient (ID r) bundleFiles);
              match br with
              | Err e => m_ret (Err e)
              | Ok guestBundle =>
                  f ← make_forwarder (vmInstance cs) (ID r) "" (cr_io r);
                  match f with
                  | Err e => m_ret (Err e)
                  | Ok (cio, ioForwarder) =>
                      resp ← call (guest_Create rpcClient (ID r) guestBundle (cs_mounts cs) cio);
                      match resp with
                      | Err e =>
                          forwarder_Shutdown (Some ioForwarder) ≫= λ _, m_ret (Err e)
                      | Ok p =>
                          call (fwd_Start ioForwarder) ≫= λ _,
                          emit (EvFwdStart ioForwarder) ≫= λ _, m_ret (Ok (p, ioForwarder))
                      end
                  end
              end
          end
      end
  end.

(** [parseHotplugConfig]: the defaults unless the configuration is readable. *)
Definition parseHotplugConfig {A} (defaults : A) (r : result A) : A :=
  match r with Err _ => defaults | Ok cfg => cfg end.

(** The address of the controller, [None] for nil. *)
Definition StartCPUHotplug (vmi : VmManager.iface) (cfg : Resources.VMResourceConfig) :
    M ST (option Z) :=
  if Resources.MaxCPUs cfg <=? Resources.BootCPUs cfg then m_ret None
  else on_inst vmi (λ a,
    q ← ask (inst_QMPClient a);
    match q with
    | None => m_ret None
    | Some _ =>
        conf ← ask cpuHotplugConfig;
        h ← ask (inst_CPUHotplugger a);
        match h with
        | Err _ => m_ret None
        | Ok _ =>
            match CpuHotplug.NewController (Resources.BootCPUs cfg) (Resources.MaxCPUs cfg)
                    (parseHotplugConfig CpuHotplug.DefaultConfig conf) with
            | None => m_ret None (* not reached: the maximum is above the boot vCPUs *)
            | Some o =>
                c ← alloc;
                upd (λ s, set_ctls (set_cpuObjs (<[c := CpuHotplug.Start o]> (cpuObjs (ctls s)))
                                      (ctls s)) s) ≫= λ _,
                emit (EvCpuStart c) ≫= λ _, m_ret (Some c)
            end
        end
    end).

Definition StartMemoryHotplug (vmi : VmManager.iface) (cfg : Resources.VMResourceConfig) :
    M ST (option Z) :=
  on_inst vmi (λ a,
    q ← ask (inst_QMPClient a);
    match q with
    | None => m_ret None
    | Some _ =>
        conf ← ask memHotplugConfig;
        let o := MemHotplug.NewController (Resources.MemorySize cfg)
                   (Resources.MemoryHotplugSize cfg)
                   (parseHotplugConfig MemHotplug.DefaultConfig conf) in
        c ← alloc;
        upd (λ s, set_ctls (set_memObjs (<[c := MemHotplug.Start <$> o]> (memObjs (ctls s)))
                              (ctls s)) s) ≫= λ _,
        emit (EvMemStart c) ≫= λ _, m_ret (Some c)
    end).

Definition finalizeCreate (r : CreateTaskRequest) (cs : createState) (p f : Z) : M ST () :=
  let c := mkContainer p (Some (mkTaskIO (mkPio (cr_io r) (Some f)) ∅)) (cs_mountCleanup cs) in
  upd (λ s, set_cid (ID r) (set_cont (Some c) s)) ≫= λ _,
  cpuCtrl ← StartCPUHotplug (vmInstance cs) (resourceCfg cs);
  opt_do cpuCtrl (λ c, upd (λ s, set_ctls
    (set_cpuMap (<[ID r := c]> (cpuHotplugControllers (ctls s))) (ctls s)) s)) ≫= λ _,
  memCtrl ← StartMemoryHotplug (vmInstance cs) (resourceCfg cs);
  opt_do memCtrl (λ c, upd (λ s, set_ctls
    (set_memMap (<[ID r := c]> (memoryHotplugControllers (ctls s))) (ctls s)) s)).

(** Phases 2 to 4, each undone on failure. *)
Definition create_phases (r : CreateTaskRequest) : M ST (result (createState * (Z * Z))) :=
  x ← setupVMInstance r;
  let '(cs, steps) := x in
  match cs with
  | Err e => rollback steps ≫= λ _, m_ret (Err e)
  | Ok cs =>
      e ← startVM cs;
      match e with
      | Some e => rollback steps ≫= λ _, m_ret (Err e)
      | None =>
          resp ← createTaskInVM r cs;
          match resp with
          | Err e => rollback steps ≫= λ _, m_ret (Err e)
          | Ok x => m_ret (Ok (cs, x))
          end
      end
  end.

Definition Create (r : CreateTaskRequest) : M ST (result Z) :=
  e ← validateCreateRequest r;
  match e with
  | Some e => m_ret (Err e)
  | None =>
      x ← create_phases r;
      match x with
      | Err e => on_sm StateMachine.MarkCreationFailed ≫= λ _, m_ret (Err e)
      | Ok (cs, (p, f)) =>
          finalizeCreate r cs p f ≫= λ _,
          on_sm StateMachine.MarkCreated ≫= λ _, m_ret (Ok p)
      end
  end.

(** ** Runs of the service *)

(** The requests of containerd, and the steps of the shim's goroutines. *)
Inductive request :=
  | RCreate (r : CreateTaskRequest)
  | RStart (id execID : string)
  | RDelete (id execID : string)
  | RExec (id execID : string) (rio : Stdio)
  | RState (id execID : string)
  | RConnect (id : string)
  | RCloseIO (id execID : string) (stdin : bool)
  | RForward (r : rpc) (id execID : string)
  | RShutdown
  | GEvent (ev : Envelope)
  | GShutdown
  | GExit.

Definition ignore {A} (m : M ST A) : M ST () := m ≫= λ _, m_ret tt.

Definition handle (r : request) : M ST () :=
  match r with
  | RCreate r => ignore (Create r)
  | RStart id e => ignore (Start id e)
  | RDelete id e => ignore (Delete id e)
  | RExec id e rio => ignore (Exec id e rio)
  | RState id e => ignore (State id e)
  | RConnect id => ignore (Connect id)
  | RCloseIO id e b => ignore (CloseIO id e b)
  | RForward r id e => ignore (forward_rpc r id e)
  | RShutdown => Shutdown
  | GEvent ev => forward_event ev
  | GShutdown => ignore shutdown
  | GExit => requestShutdownAndExit
  end.

(** A step that does not panic; a panic ends the process. *)
Definition step (s s' : ST) : Prop := ∃ r, handle r s = Return (tt, s').

Definition init_st (w : W) : ST := mkSt NewTaskService w [].

End service.
End ShimTask.
