(* ===== verification/ShimRun.v ===== *)
(** * What the shim holds and releases

    The invariant of the task service (ShimTask.v): the resources
    set up and not yet released are exactly those the service's state names.
    With the rules for its programs and the cleanups of shutdown and deletion;
    the theorems are in ShimService.v. *)

From S2P Require Import Prelude GoStrings Lifecycle CpuHotplug MemHotplug VmManager Resources QemuCmd ShimTask.
Import ShimTask.

(** ** Resources *)

(** A forwarder, a CPU and a memory controller, a mount cleanup, the network of
    a container, a VM. *)
Inductive res :=
  | RFwd (f : Z) | RCpu (c : Z) | RMem (c : Z) | RMnt (f : Z) | RNet (id : string) | RVm (a : Z).

#[global] Instance res_eq_dec : EqDecision res.
Proof. solve_decision. Defined.
#[global] Instance res_countable : Countable res.
Proof.
  refine (inj_countable'
    (λ r, match r with
          | RFwd f => inl (0%nat, f) | RCpu c => inl (1%nat, c) | RMem c => inl (2%nat, c)
          | RMnt f => inl (3%nat, f) | RVm a => inl (4%nat, a) | RNet id => inr id
          end)
    (λ x, match x with
          | inl (0%nat, f) => RFwd f | inl (1%nat, c) => RCpu c | inl (2%nat, c) => RMem c
          | inl (3%nat, f) => RMnt f | inl (_, a) => RVm a | inr id => RNet id
          end) _).
  by intros [].
Defined.

(** Releasing a forwarder or a network again is harmless; the others must be
    released once. *)
Definition exact (r : res) : bool :=
  match r with RFwd _ | RNet _ => false | _ => true end.

Definition acquires (e : event) : option res :=
  match e with
  | EvForwarder f => Some (RFwd f) | EvCpuStart c => Some (RCpu c) | EvMemStart c => Some (RMem c)
  | EvMounts f => Some (RMnt f) | EvNetSetup id => Some (RNet id) | EvVM a => Some (RVm a)
  | _ => None
  end.
Definition releases (e : event) : option res :=
  match e with
  | EvFwdShutdown f => Some (RFwd f) | EvCpuStop c => Some (RCpu c) | EvMemStop c => Some (RMem c)
  | EvMountCleanup f => Some (RMnt f) | EvNetRelease id => Some (RNet id)
  | EvVMShutdown a => Some (RVm a)
  | _ => None
  end.

(** What is held after an event; [None] if it was acquired while held or
    released, though [exact], while not held. *)
Definition held_step (o : option (gset res)) (e : event) : option (gset res) :=
  match o with
  | None => None
  | Some H =>
      match acquires e with
      | Some r => if bool_decide (r ∈ H) then None else Some ({[r]} ∪ H)
      | None =>
          match releases e with
          | Some r => if exact r && negb (bool_decide (r ∈ H)) then None else Some (H ∖ {[r]})
          | None => Some H
          end
      end
  end.
Definition held (t : list event) : option (gset res) := foldl held_step (Some ∅) t.

Lemma held_snoc t e : held (t ++ [e]) = held_step (held t) e.
Proof. unfold held. by rewrite foldl_snoc. Qed.

Lemma held_acquire t e r H :
  held t = Some H → acquires e = Some r → r ∉ H → held (t ++ [e]) = Some ({[r]} ∪ H).
Proof. intros E Ea Hr. rewrite held_snoc, E. simpl. rewrite Ea. by case_bool_decide. Qed.

Lemma held_release t e r H :
  held t = Some H → acquires e = None → releases e = Some r → (exact r = true → r ∈ H) →
  held (t ++ [e]) = Some (H ∖ {[r]}).
Proof.
  intros E Ea Er Hr. rewrite held_snoc, E. simpl. rewrite Ea, Er.
  destruct (exact r); simpl; [|done]. rewrite bool_decide_true by auto. done.
Qed.

Lemma held_neutral t e :
  acquires e = None → releases e = None → held (t ++ [e]) = held t.
Proof. intros Ea Er. rewrite held_snoc. unfold held_step. rewrite Ea, Er. by destruct (held t). Qed.

(** ** What the service's state names *)

Definition recorded (c : container) (f : Z) : Prop :=
  match io c with Some i => Some f ∈ io_forwarders i | None => False end.

Definition owned (s : service) (r : res) : Prop :=
  match r with
  | RFwd f => ∃ c, cont s = Some c ∧ recorded c f
  | RCpu c => ∃ k, cpuHotplugControllers (ctls s) !! k = Some c
  | RMem c => ∃ k, memoryHotplugControllers (ctls s) !! k = Some c
  | RMnt f => ∃ c, cont s = Some c ∧ mountCleanup c = Some f
  | RNet id => ∃ c, cont s = Some c ∧ containerID s = id
  | RVm a => vmLifecycle s = VmManager.Inst a
  end.

Definition ref_below (n : Z) (r : res) : Prop :=
  match r with RFwd x | RCpu x | RMem x | RMnt x => x < n | _ => True end.

(** The shape of the service between two requests. *)
Record wf (s : service) : Prop := mkWf
  { wf_id : cont s = None → containerID s = "";
    wf_cpu : ∀ k c, cpuHotplugControllers (ctls s) !! k = Some c →
      k = containerID s ∧ is_Some (cont s) ∧
      ∃ o, cpuObjs (ctls s) !! c = Some o ∧ CpuHotplug.stopCh o = OpenChan;
    wf_mem : ∀ k c, memoryHotplugControllers (ctls s) !! k = Some c →
      k = containerID s ∧ is_Some (cont s) ∧
      ∃ o, memObjs (ctls s) !! c = Some o ∧
        ∀ o', o = Some o' → MemHotplug.started o' = true;
    wf_io : ∀ c, cont s = Some c → ∃ i, io c = Some i ∧ None ∉ io_forwarders i }.

Definition seen (b : bool) (r : res) : Prop := ∀ f, r = RFwd f → b = true.

(** The invariant, with resources [X] held by the running handler.  With [b]
    false, nothing is said of forwarders. *)
Record Inv (b : bool) (X : list res) (s : service) (t : list event) : Prop := mkInv
  { inv_wf : wf s;
    inv_held : ∃ H, held t = Some H ∧
      (∀ r, r ∈ H → seen b r → owned s r ∨ r ∈ X) ∧
      (∀ r, exact r = true → owned s r ∨ r ∈ X → r ∈ H) ∧
      (∀ r, r ∈ H → ref_below (nextRef s) r) }.

(** ** Steps of the invariant *)

(** Resources change hands without an event. *)
Lemma Inv_move b X X' s s' t :
  Inv b X s t → wf s' → nextRef s ≤ nextRef s' →
  (∀ r, seen b r → owned s r ∨ r ∈ X → owned s' r ∨ r ∈ X') →
  (∀ r, exact r = true → owned s' r ∨ r ∈ X' → owned s r ∨ r ∈ X) →
  Inv b X' s' t.
Proof.
  intros [Hwf (H & Hh & H1 & H2 & H3)] Hwf' Hn Hto Hfrom. split; [done|]. exists H. split; [done|].
  split; [|split]; [by eauto|by eauto|]. intros r Hr. specialize (H3 r Hr). destruct r; simpl in *; lia || done.
Qed.

(** Fields that name no resource. *)
Lemma Inv_frame b X s s' t :
  cont s' = cont s → containerID s' = containerID s → ctls s' = ctls s →
  vmLifecycle s' = vmLifecycle s → nextRef s' = nextRef s →
  Inv b X s t → Inv b X s' t.
Proof.
  intros E1 E2 E3 E4 E5 HI. assert (HO : ∀ r, owned s' r ↔ owned s r).
  { intros []; simpl; by rewrite ?E1, ?E2, ?E3, ?E4. }
  eapply Inv_move; [done| |lia| |].
  - destruct (inv_wf _ _ _ _ HI). split; rewrite ?E1, ?E2, ?E3, ?E4; done.
  - intros r _. by rewrite HO.
  - intros r _. by rewrite HO.
Qed.

Lemma Inv_neutral b X s t e :
  acquires e = None → releases e = None → Inv b X s t → Inv b X s (t ++ [e]).
Proof.
  intros Ea Er [Hwf (H & Hh & HR)]. split; [done|]. exists H. by rewrite held_neutral.
Qed.

(** A new resource goes to the running handler. *)
Lemma Inv_acquire b X s t e r :
  Inv b X s t → acquires e = Some r → (∀ H, held t = Some H → r ∉ H) → ref_below (nextRef s) r →
  Inv b (r :: X) s (t ++ [e]).
Proof.
  intros [Hwf (H & Hh & H1 & H2 & H3)] Ea Hr Hb. split; [done|]. exists ({[r]} ∪ H).
  split; [by eapply held_acquire; eauto|]. split; [|split].
  - intros r'. rewrite elem_of_union, elem_of_singleton, elem_of_cons. intros [->|Hr'] Hs; [by auto|].
    destruct (H1 r' Hr' Hs); auto.
  - intros r' He. rewrite elem_of_union, elem_of_singleton, elem_of_cons. intros [?|[?|?]]; eauto.
  - intros r'. rewrite elem_of_union, elem_of_singleton. intros [->|?]; eauto.
Qed.

Lemma wf_next n s : wf s → wf (set_next n s).
Proof. by intros []. Qed.

(** The same for an object with a fresh address. *)
Lemma Inv_new b X s t e r :
  Inv b X s t → acquires e = Some r → ref_below (nextRef s + 1) r → ¬ ref_below (nextRef s) r →
  Inv b (r :: X) (set_next (nextRef s + 1) s) (t ++ [e]).
Proof.
  intros HI Ea Hb Hnb. apply Inv_acquire; [|done| |done].
  - eapply Inv_move; [done|apply wf_next, HI|simpl; lia| |]; intros []; auto.
  - intros H Hh Hr. destruct HI as [_ (H' & Hh' & _ & _ & H3)]. simplify_eq. by apply Hnb, H3.
Qed.

(** A release. *)
Lemma Inv_release b X X' s s' t e r :
  Inv b X s t → acquires e = None → releases e = Some r → wf s' → nextRef s ≤ nextRef s' →
  (exact r = true → owned s r ∨ r ∈ X) →
  (∀ r', seen b r' → r' ≠ r → owned s r' ∨ r' ∈ X → owned s' r' ∨ r' ∈ X') →
  (∀ r', exact r' = true → owned s' r' ∨ r' ∈ X' → r' ≠ r ∧ (owned s r' ∨ r' ∈ X)) →
  Inv b X' s' (t ++ [e]).
Proof.
  intros [Hwf (H & Hh & H1 & H2 & H3)] Ea Er Hwf' Hn Hown Hto Hfrom. split; [done|].
  exists (H ∖ {[r]}). split; [by apply held_release; eauto|]. split; [|split].
  - intros r'. rewrite elem_of_difference, elem_of_singleton. intros [Hr' Hne] Hs. eauto.
  - intros r' He Ho. destruct (Hfrom r' He Ho). rewrite elem_of_difference, elem_of_singleton. eauto.
  - intros r'. rewrite elem_of_difference. intros [Hr' _]. specialize (H3 r' Hr').
    destruct r'; simpl in *; lia || done.
Qed.

(** The running handler releases what it holds. *)
Lemma Inv_release_local b X s t e r :
  Inv b (r :: X) s t → acquires e = None → releases e = Some r → ¬ owned s r ∨ exact r = false →
  (exact r = true → r ∉ X) → Inv b X s (t ++ [e]).
Proof.
  intros HI Ea Er Hno HX. eapply Inv_release; [done|done|done|by apply HI|done| | |].
  - intros _. right. by left.
  - intros r' _ Hne. rewrite elem_of_cons. intros [?|[->|?]]; auto. done.
  - intros r' He Ho. split; [|rewrite elem_of_cons; naive_solver].
    intros ->. destruct Ho as [Ho|Ho]; [|by apply HX]. destruct Hno as [?|?]; [done|congruence].
Qed.

Lemma Inv_forget b X s t r : Inv b (r :: X) s t → ¬ seen b r → exact r = false → Inv b X s t.
Proof.
  intros HI Hs He. eapply Inv_move; [done|apply HI|done| |].
  - intros r' Hs'. rewrite elem_of_cons. intros [?|[->|?]]; auto. done.
  - intros r' _. rewrite elem_of_cons. naive_solver.
Qed.

(** ** Proof rules for the service's programs *)

Section rules.
Context {W : Type} `{!VmManager.Ops W, !TaskOps W}.
Notation ST := (st W).
Implicit Types (P : Prop) (s : ST).

Lemma wpp_call {A} P (f : W → A * W) (Q : A → ST → Prop) s :
  (∀ a w, f (world s) = (a, w) → Q a (mkSt (svc s) w (trace s))) → wpp P (call f) Q s.
Proof. intros HQ. unfold wpp, call. destruct (f (world s)) as [a w] eqn:E. eauto. Qed.
Lemma wpp_ask {A} P (f : W → A) (Q : A → ST → Prop) s :
  Q (f (world s)) s → wpp P (ask f) Q s.
Proof. done. Qed.
Lemma wpp_getf {A} P (f : service → A) (Q : A → ST → Prop) s :
  Q (f (svc s)) s → wpp P (get f) Q s.
Proof. done. Qed.
Lemma wpp_upd P f (Q : () → ST → Prop) s :
  Q tt (mkSt (f (svc s)) (world s) (trace s)) → wpp P (upd f) Q s.
Proof. done. Qed.
Lemma wpp_emit P e (Q : () → ST → Prop) s :
  Q tt (mkSt (svc s) (world s) (trace s ++ [e])) → wpp P (emit e) Q s.
Proof. done. Qed.
Lemma wpp_alloc P (Q : Z → ST → Prop) s :
  Q (nextRef (svc s)) (mkSt (set_next (nextRef (svc s) + 1) (svc s)) (world s) (trace s)) →
  wpp P alloc Q s.
Proof. done. Qed.
Lemma wpp_on_sm {A} P (f : StateMachine.t → A * StateMachine.t) (Q : A → ST → Prop) s :
  (∀ a sm, f (stateMachine (svc s)) = (a, sm) →
     Q a (mkSt (set_sm sm (svc s)) (world s) (trace s))) → wpp P (on_sm f) Q s.
Proof.
  intros HQ. unfold on_sm. apply wpp_bind, wpp_getf.
  destruct (f (stateMachine (svc s))) as [a sm] eqn:E. by apply HQ.
Qed.

(** The phases of the orchestrator as a program. *)
Definition to_phase (x : string * option (M ST (option error))) : Cleanup.cleanupPhase (outcome ST) :=
  Cleanup.mkPhase x.1 (phase <$> x.2) false.

Fixpoint run_phases (ps : list (string * option (M ST (option error))))
    (r : Cleanup.ShutdownResult) : M ST Cleanup.ShutdownResult :=
  match ps with
  | [] => m_ret r
  | (_, None) :: ps' => run_phases ps' r
  | (n, Some m) :: ps' => m_bind m (λ e, run_phases ps' (Cleanup.Add n e r))
  end.

Lemma executeLoop_panic ps r msg : ∃ ps' r',
  Cleanup.executeLoop (to_phase <$> ps) r (Panic msg) = (ps', r', Panic msg).
Proof.
  revert r. induction ps as [|[n [m|]] ps IH]; intros r; csimpl; [eauto| |].
  - destruct (IH r) as (? & ? & E). rewrite E. eauto.
  - destruct (IH r) as (? & ? & E). rewrite E. eauto.
Qed.

Lemma executeLoop_run ps r s :
  ∃ ps' r', Cleanup.executeLoop (to_phase <$> ps) r (Return s) =
    (ps', r', match run_phases ps r s with Return (_, s') => Return s' | Panic m => Panic m end) ∧
    ∀ r2 s', run_phases ps r s = Return (r2, s') → r' = r2.
Proof.
  revert r s. induction ps as [|[n [m|]] ps IH]; intros r s; csimpl.
  - eexists _, _. split; [done|]. by intros ?? [= <- <-].
  - unfold m_bind, phase at 1. destruct (m s) as [[e s1]|msg] eqn:E; simpl.
    + destruct (IH (Cleanup.Add n e r) s1) as (ps' & r' & -> & Hr). simpl. eauto.
    + destruct (executeLoop_panic ps r msg) as (ps' & r' & ->). simpl. eexists _, _. split; done.
  - destruct (IH r s) as (ps' & r' & -> & Hr). simpl. eauto.
Qed.

Lemma wpp_orchestrate P n ps (Q : Cleanup.ShutdownResult → ST → Prop) s :
  wpp P (run_phases (drop n ps) []) Q s →
  wpp P (orchestrate (Cleanup.executeFrom n (to_phase <$> ps))) Q s.
Proof.
  intros HQ. unfold wpp, orchestrate, Cleanup.executeFrom in *. rewrite <-fmap_drop.
  destruct (executeLoop_run (drop n ps) [] s) as (ps' & r' & -> & Hr).
  destruct (run_phases (drop n ps) [] s) as [[r2 s']|msg] eqn:E; [|done].
  by rewrite (Hr r2 s').
Qed.

(** ** The invariant on states *)

Definition I (b : bool) (X : list res) (s : ST) : Prop := Inv b X (svc s) (trace s).

Lemma I_frame b X s f w :
  I b X s → cont (f (svc s)) = cont (svc s) → containerID (f (svc s)) = containerID (svc s) →
  ctls (f (svc s)) = ctls (svc s) → vmLifecycle (f (svc s)) = vmLifecycle (svc s) →
  nextRef (f (svc s)) = nextRef (svc s) → I b X (mkSt (f (svc s)) w (trace s)).
Proof. intros HI ?????. by eapply Inv_frame, HI. Qed.

End rules.

(** Symbolic execution of a program. *)
Ltac wpp_step :=
  match goal with
  | |- wpp _ (m_bind _ _) _ _ => apply wpp_bind
  | |- wpp _ (m_ret _) _ _ => apply wpp_ret
  | |- wpp _ (get _) _ _ => apply wpp_getf
  | |- wpp _ (upd _) _ _ => apply wpp_upd
  | |- wpp _ (emit _) _ _ => apply wpp_emit
  | |- wpp _ (ask _) _ _ => apply wpp_ask
  | |- wpp _ alloc _ _ => apply wpp_alloc
  | |- wpp _ (call _) _ _ => apply wpp_call; intros
  | |- wpp _ (on_sm _) _ _ => apply wpp_on_sm; intros
  | |- wpp _ (SetIntentionalShutdown _) _ _ => unfold SetIntentionalShutdown
  end.
Ltac wpp_go := repeat (wpp_step; cbn beta iota zeta; cbn [svc world trace]).

Create HintDb shim.
#[export] Hint Resolve Inv_neutral : shim.

(** ** The resources of a service as a list *)

Definition cpus_of (s : service) : list res :=
  RCpu <$> (map_to_list (cpuHotplugControllers (ctls s))).*2.
Definition mems_of (s : service) : list res :=
  RMem <$> (map_to_list (memoryHotplugControllers (ctls s))).*2.
Definition fwds_of (fs : list (option Z)) : list res := omap (fmap RFwd) fs.
Definition cont_fwds (s : service) : list (option Z) :=
  match cont s with
  | Some (mkContainer _ (Some i) _) => io_forwarders i
  | _ => []
  end.
Definition vms_of (s : service) : list res :=
  match vmLifecycle s with VmManager.Inst a => [RVm a] | _ => [] end.
Definition nets_of (s : service) : list res :=
  match cont s with Some _ => [RNet (containerID s)] | None => [] end.
Definition mnts_of (o : option Z) : list res := match o with Some f => [RMnt f] | None => [] end.
Definition cont_mount (s : service) : option Z :=
  match cont s with Some c => mountCleanup c | None => None end.

Definition owned_list (s : service) : list res :=
  cpus_of s ++ mems_of s ++ fwds_of (cont_fwds s) ++ vms_of s ++ nets_of s ++ mnts_of (cont_mount s).

Lemma elem_of_vals {A} (R : Z → A) (HR : Inj (=) (=) R) (m : gmap string Z) c :
  R c ∈ R <$> (map_to_list m).*2 ↔ ∃ k, m !! k = Some c.
Proof.
  rewrite list_elem_of_fmap. split.
  - intros (c' & ->%(inj R) & [[k x] [-> ?%elem_of_map_to_list]]%list_elem_of_fmap). eauto.
  - intros [k ?]. exists c. split; [done|]. apply list_elem_of_fmap. exists (k, c).
    split; [done|]. by apply elem_of_map_to_list.
Qed.

Lemma elem_of_fwds fs f : RFwd f ∈ fwds_of fs ↔ Some f ∈ fs.
Proof.
  unfold fwds_of. rewrite list_elem_of_omap. split; [by intros ([?|] & ? & [= <-])|].
  intros. by exists (Some f).
Qed.

(** The constructors of the parts tell them apart. *)
Ltac not_res :=
  match goal with
  | H : ?r ∈ RCpu <$> _ |- _ => apply list_elem_of_fmap in H as (? & [=] & _)
  | H : ?r ∈ RMem <$> _ |- _ => apply list_elem_of_fmap in H as (? & [=] & _)
  | H : ?r ∈ fwds_of _ |- _ =>
      unfold fwds_of in H; apply list_elem_of_omap in H as ([?|] & _ & ?); simplify_eq/=
  | H : ?r ∈ vms_of _ |- _ => exfalso; unfold vms_of in H; case_match; set_solver
  | H : ?r ∈ nets_of _ |- _ => exfalso; unfold nets_of in H; case_match; set_solver
  | H : ?r ∈ mnts_of _ |- _ => exfalso; unfold mnts_of in H; case_match; set_solver
  end.

Lemma owned_list_spec s r : owned s r ↔ r ∈ owned_list s.
Proof.
  unfold owned_list, cpus_of, mems_of. rewrite !elem_of_app.
  assert (Inj (=) (=) RCpu) by (by intros ?? [= ->]).
  assert (Inj (=) (=) RMem) by (by intros ?? [= ->]).
  destruct r as [f|c|c|f|id|a]; simpl.
  - rewrite elem_of_fwds. unfold cont_fwds, recorded. split.
    + intros (c & -> & Hc). destruct c as [p [i|] m]; simpl in *; [auto|done].
    + intros [?|[?|[Hf|[?|[?|?]]]]]; try not_res. destruct (cont s) as [[p [i|] m]|]; [|set_solver..].
      eexists. split; [done|exact Hf].
  - rewrite <-(elem_of_vals RCpu) by done. split; [by left|].
    intros [?|[?|[?|[?|[?|?]]]]]; [done|not_res..].
  - rewrite <-(elem_of_vals RMem) by done. split; [by right; left|].
    intros [?|[?|[?|[?|[?|?]]]]]; [not_res|done|not_res..].
  - unfold cont_mount. split.
    + intros (c & -> & Hm). rewrite Hm. set_solver.
    + intros [?|[?|[?|[?|[?|Hm]]]]]; try not_res. destruct (cont s) as [c|]; [|set_solver].
      exists c. split; [done|]. destruct (mountCleanup c); set_solver.
  - split.
    + intros (c & E & <-). unfold nets_of. rewrite E. set_solver.
    + intros [?|[?|[?|[?|[Hn|?]]]]]; try not_res. unfold nets_of in Hn.
      destruct (cont s) as [c|]; [|set_solver]. exists c. set_solver.
  - split.
    + intros E. unfold vms_of. rewrite E. set_solver.
    + intros [?|[?|[?|[Hn|[?|?]]]]]; try not_res. unfold vms_of in Hn.
      destruct (vmLifecycle s); set_solver.
Qed.

(** A service that names nothing: its resources are all in the hands of the
    running handler. *)
Definition void (n : Z) : service := set_next n NewTaskService.

Lemma wf_void n : wf (void n).
Proof. split; try done; intros; set_solver. Qed.
Lemma owned_void n r : ¬ owned (void n) r.
Proof. destruct r; set_solver. Qed.
#[export] Hint Resolve wf_void owned_void : shim.

Lemma Inv_open b X s t : Inv b X s t → Inv b (owned_list s ++ X) (void (nextRef s)) t.
Proof.
  intros HI. eapply Inv_move; [done|auto with shim|done| |]; intros r _; rewrite elem_of_app.
  - rewrite owned_list_spec. tauto.
  - intros [?%owned_void|?]; [done|]. by rewrite owned_list_spec.
Qed.

Lemma Inv_close b X s t n :
  wf s → n ≤ nextRef s → Inv b (owned_list s ++ X) (void n) t → Inv b X s t.
Proof.
  intros Hwf Hn HI. eapply Inv_move; [done|done|done| |]; intros r _; rewrite elem_of_app.
  - intros [?%owned_void|?]; [done|]. by rewrite owned_list_spec.
  - rewrite owned_list_spec. tauto.
Qed.

Lemma Inv_sub b X X' n t :
  Inv b X (void n) t → (∀ r, seen b r → r ∈ X → r ∈ X') →
  (∀ r, exact r = true → r ∈ X' → r ∈ X) → Inv b X' (void n) t.
Proof.
  intros HI H1 H2. eapply Inv_move; [done|auto with shim|done| |];
    intros r ? [?%owned_void|?]; eauto; done.
Qed.

Lemma Inv_give b X n t e r :
  Inv b (r :: X) (void n) t → acquires e = None → releases e = Some r →
  (exact r = true → r ∉ X) → Inv b X (void n) (t ++ [e]).
Proof. intros. eapply Inv_release_local; eauto with shim. Qed.

(** ** The parts of a cleanup *)

Section cleanup.
Context {W : Type} `{OW : !VmManager.Ops W, OT : !TaskOps W}.
Notation ST := (st W).
Implicit Types (P : Prop) (s : ST).

Lemma wpp_shutdown_forwarders P b X n fs errs (Q : list error → ST → Prop) s :
  None ∉ fs → Inv b (fwds_of fs ++ X) (void n) (trace s) →
  (∀ es w t, Inv b X (void n) t → Q es (mkSt (svc s) w t)) →
  wpp P (shutdown_forwarders fs errs) Q s.
Proof.
  revert errs s. induction fs as [|[f|] fs IH]; intros errs s Hn HI HQ; simpl.
  - apply wpp_ret. destruct s. by apply HQ.
  - apply wpp_bind. unfold forwarder_Shutdown. wpp_go. apply IH; simpl.
    + set_solver.
    + eapply Inv_give; [exact HI|done|done|done].
    + done.
  - set_solver.
Qed.

Lemma wpp_cpu_Stop P b X n c o (Q : () → ST → Prop) s :
  cpuObjs (ctls (svc s)) !! c = Some o → CpuHotplug.stopCh o = OpenChan →
  Inv b (RCpu c :: X) (void n) (trace s) → RCpu c ∉ X →
  (∀ cs t, cpuHotplugControllers cs = cpuHotplugControllers (ctls (svc s)) →
     memoryHotplugControllers cs = memoryHotplugControllers (ctls (svc s)) →
     memObjs cs = memObjs (ctls (svc s)) →
     Inv b X (void n) t → Q tt (mkSt (set_ctls cs (svc s)) (world s) t)) →
  wpp P (cpu_Stop c) Q s.
Proof.
  intros Ho Hc HI HX HQ. unfold cpu_Stop. wpp_go. rewrite Ho. unfold CpuHotplug.Stop. rewrite Hc.
  simpl. wpp_go. apply HQ; try done. by eapply Inv_give.
Qed.

Lemma wpp_mem_Stop P b X n c o (Q : () → ST → Prop) s :
  memObjs (ctls (svc s)) !! c = Some o → (∀ o', o = Some o' → MemHotplug.started o' = true) →
  Inv b (RMem c :: X) (void n) (trace s) → RMem c ∉ X →
  (∀ cs t, cpuHotplugControllers cs = cpuHotplugControllers (ctls (svc s)) →
     memoryHotplugControllers cs = memoryHotplugControllers (ctls (svc s)) →
     Inv b X (void n) t → Q tt (mkSt (set_ctls cs (svc s)) (world s) t)) →
  wpp P (mem_Stop c) Q s.
Proof.
  intros Ho Hc HI HX HQ. unfold mem_Stop. wpp_go. rewrite Ho.
  assert (HG : Inv b X (void n) (trace s ++ [EvMemStop c])) by by eapply Inv_give.
  destruct o as [o|].
  - unfold MemHotplug.Stop. rewrite (Hc o eq_refl).
    destruct (MemHotplug.stopCh o); wpp_go; by apply HQ.
  - wpp_go. specialize (HQ (ctls (svc s)) _ eq_refl eq_refl HG). destruct (svc s). exact HQ.
Qed.

Lemma wpp_vm_Shutdown P b X n (Q : option error → ST → Prop) s :
  (vmLifecycle (svc s) = VmManager.NilInstance → P) →
  Inv b (vms_of (svc s) ++ X) (void n) (trace s) → (∀ a, RVm a ∉ X) →
  (∀ e w t, Inv b X (void n) t → Q e (mkSt (set_vm VmManager.NilIface (svc s)) w t)) →
  wpp P vm_Shutdown Q s.
Proof.
  intros HP HI HX HQ. unfold wpp, vm_Shutdown, vms_of in *.
  destruct (vmLifecycle (svc s)) as [| |a]; simpl.
  - by rewrite app_nil_r; apply HQ.
  - auto.
  - destruct (VmManager.inst_Shutdown a (world s)) as [e w]. apply HQ.
    by eapply Inv_give; [exact HI|done|done|auto].
Qed.

Lemma wpp_ReleaseNetworkResources P b X n id (Q : option error → ST → Prop) s :
  Inv b (RNet id :: X) (void n) (trace s) →
  (∀ e w t, Inv b X (void n) t → Q e (mkSt (svc s) w t)) →
  wpp P (ReleaseNetworkResources id) Q s.
Proof.
  intros HI HQ. unfold ReleaseNetworkResources. wpp_go. apply HQ. by eapply Inv_give.
Qed.

Lemma wpp_run_mountCleanup P b X n mc (Q : option error → ST → Prop) s :
  Inv b (mnts_of mc ++ X) (void n) (trace s) → (∀ f, RMnt f ∉ X) →
  (∀ e w t, Inv b X (void n) t → Q e (mkSt (svc s) w t)) →
  wpp P (run_mountCleanup mc) Q s.
Proof.
  intros HI HX HQ. destruct mc as [f|]; simpl; wpp_go.
  - apply HQ. eapply Inv_give; [exact HI|done|done|auto].
  - destruct s. by apply HQ.
Qed.

(** At most one controller is registered, under the container's name. *)
Lemma keyed_map (m : gmap string Z) k :
  (∀ k' c, m !! k' = Some c → k' = k) →
  m = ∅ ∨ ∃ c, m = {[k := c]}.
Proof.
  intros Hk. destruct (m !! k) as [c|] eqn:E.
  - right. exists c. apply map_eq. intros k'. destruct (decide (k' = k)) as [->|Hne].
    + by rewrite E, lookup_singleton_eq.
    + rewrite lookup_singleton_ne by done. destruct (m !! k') eqn:E'; [|done]. by apply Hk in E'.
  - left. apply map_eq. intros k'. rewrite lookup_empty. destruct (m !! k') as [c|] eqn:E'; [|done].
    pose proof (Hk _ _ E'). congruence.
Qed.

Definition no_maps (cs : controllers) : Prop :=
  cpuHotplugControllers cs = ∅ ∧ memoryHotplugControllers cs = ∅.

Lemma wpp_stop_cpus P b X n k (m : gmap string Z) (Q : () → ST → Prop) s :
  (∀ k' c, m !! k' = Some c → k' = k ∧
     ∃ o, cpuObjs (ctls (svc s)) !! c = Some o ∧ CpuHotplug.stopCh o = OpenChan) →
  Inv b ((RCpu <$> (map_to_list m).*2) ++ X) (void n) (trace s) → (∀ c, RCpu c ∉ X) →
  (∀ cs t, cpuHotplugControllers cs = cpuHotplugControllers (ctls (svc s)) →
     memoryHotplugControllers cs = memoryHotplugControllers (ctls (svc s)) →
     memObjs cs = memObjs (ctls (svc s)) →
     Inv b X (void n) t → Q tt (mkSt (set_ctls cs (svc s)) (world s) t)) →
  wpp P (m_for cpu_Stop (map_to_list m).*2) Q s.
Proof.
  intros Hm HI HX HQ. destruct (keyed_map m k) as [->|[c ->]]; [naive_solver| |].
  - rewrite map_to_list_empty in *. wpp_go. specialize (HQ (ctls (svc s)) (trace s)).
    destruct s as [[] w t]. by apply HQ.
  - rewrite map_to_list_singleton in *. simpl in *. wpp_go.
    destruct (Hm k c) as (_ & o & Ho & Hc); [by rewrite lookup_singleton_eq|].
    eapply wpp_cpu_Stop; eauto.
Qed.

Lemma wpp_stop_mems P b X n k (m : gmap string Z) (Q : () → ST → Prop) s :
  (∀ k' c, m !! k' = Some c → k' = k ∧ ∃ o, memObjs (ctls (svc s)) !! c = Some o ∧
     ∀ o', o = Some o' → MemHotplug.started o' = true) →
  Inv b ((RMem <$> (map_to_list m).*2) ++ X) (void n) (trace s) → (∀ c, RMem c ∉ X) →
  (∀ cs t, cpuHotplugControllers cs = cpuHotplugControllers (ctls (svc s)) →
     memoryHotplugControllers cs = memoryHotplugControllers (ctls (svc s)) →
     Inv b X (void n) t → Q tt (mkSt (set_ctls cs (svc s)) (world s) t)) →
  wpp P (m_for mem_Stop (map_to_list m).*2) Q s.
Proof.
  intros Hm HI HX HQ. destruct (keyed_map m k) as [->|[c ->]]; [naive_solver| |].
  - rewrite map_to_list_empty in *. wpp_go. specialize (HQ (ctls (svc s)) (trace s)).
    destruct s as [[] w t]. by apply HQ.
  - rewrite map_to_list_singleton in *. simpl in *. wpp_go.
    destruct (Hm k c) as (_ & o & Ho & Hc); [by rewrite lookup_singleton_eq|].
    eapply wpp_mem_Stop; eauto.
Qed.

Lemma wpp_stopAll P b X n (Q : option error → ST → Prop) s :
  wf (svc s) → Inv b (cpus_of (svc s) ++ mems_of (svc s) ++ X) (void n) (trace s) →
  (∀ c, RCpu c ∉ X ∧ RMem c ∉ X) →
  (∀ cs t, no_maps cs → Inv b X (void n) t → Q None (mkSt (set_ctls cs (svc s)) (world s) t)) →
  wpp P stopAllHotplugControllers Q s.
Proof.
  intros Hwf HI HX HQ. unfold stopAllHotplugControllers. wpp_go.
  eapply wpp_stop_cpus; [..|intros cs t E1 E2 E3 HI'].
  - intros k c Hk. apply (wf_cpu _ Hwf) in Hk as (Hk & _ & Ho). by split; [apply Hk|].
  - exact HI.
  - intros c. unfold mems_of. pose proof (HX c). rewrite elem_of_app. intros [?|?]; [not_res|naive_solver].
  - wpp_go. eapply wpp_stop_mems; [..|intros cs' t' E1' E2' HI''].
    + intros k c Hk. apply (wf_mem _ Hwf) in Hk as (Hk & _ & Ho). simpl. rewrite E3. by split; [apply Hk|].
    + exact HI'.
    + intros c. apply HX.
    + wpp_go. apply HQ; [|done]. simpl in *. split; congruence.
Qed.

End cleanup.

(** ** shutdown *)

Definition clear_mount (c : container) : container := mkContainer (pid c) (io c) None.

(** The service after the phases from I/O shutdown on. *)
Record shut_from_io (s s' : service) : Prop := mkShutIO
  { sh_vm : vmLifecycle s' = VmManager.NilIface;
    sh_cont : cont s' = clear_mount <$> cont s;
    sh_id : containerID s' = containerID s;
    sh_next : nextRef s' = nextRef s;
    sh_conn : ConnManager.closed (connManager s') = true;
    sh_events : eventsClosed (events s') = true ∧ closed (events s') = true;
    sh_sent : sent (events s') = sent (events s) }.

(** The network stays when another container is named, or none. *)
Definition unreleased (id : string) (s : service) : list res :=
  if String.eqb id "" || negb (String.eqb id (containerID s)) then nets_of s else [].

Lemma Close_closed m : ConnManager.closed (ConnManager.Close m) = true.
Proof. unfold ConnManager.Close. repeat case_match; done. Qed.

Lemma wf_forwarders s : wf s → None ∉ cont_fwds s.
Proof.
  intros Hwf. unfold cont_fwds. destruct (cont s) as [c|] eqn:E; [|set_solver].
  destruct (wf_io _ Hwf c E) as (i & Ei & Hi). destruct c as [p io m]; simpl in *. by subst.
Qed.

Section shutdown.
Context {W : Type} `{OW : !VmManager.Ops W, OT : !TaskOps W}.
Notation ST := (st W).
Implicit Types (P : Prop) (s : ST).

Lemma wpp_extractMountCleanup P (Q : option Z → ST → Prop) s :
  Q (cont_mount (svc s))
    (mkSt (set_cont (clear_mount <$> cont (svc s)) (svc s)) (world s) (trace s)) →
  wpp P extractMountCleanup Q s.
Proof.
  intros HQ. unfold extractMountCleanup. wpp_go. unfold cont_mount in HQ.
  destruct s as [[? ? ? [c|]] w t]; simpl in *; by wpp_go.
Qed.

Lemma wpp_shutdownAllIO P b X n (Q : option error → ST → Prop) s :
  None ∉ cont_fwds (svc s) → Inv b (fwds_of (cont_fwds (svc s)) ++ X) (void n) (trace s) →
  (∀ e w t, Inv b X (void n) t → Q e (mkSt (svc s) w t)) →
  wpp P shutdownAllIO Q s.
Proof.
  intros Hn HI HQ. unfold shutdownAllIO. wpp_go.
  eapply wpp_shutdown_forwarders; [exact Hn|exact HI|]. intros. wpp_go. auto.
Qed.

(** The phases after the controllers, for the resources of the container. *)
Definition io_phases (cid : string) (mc : option Z) : list (string * option (M ST (option error))) :=
  [(Cleanup.PhaseIOShutdown, Some shutdownAllIO);
   (Cleanup.PhaseConnClose, Some conn_Close);
   (Cleanup.PhaseVMShutdown, Some vm_Shutdown);
   (Cleanup.PhaseNetworkCleanup,
     Some (if String.eqb cid "" then m_ret None else ReleaseNetworkResources cid));
   (Cleanup.PhaseMountCleanup, Some (run_mountCleanup mc));
   (Cleanup.PhaseEventClose, Some closeEvents)].

Lemma wpp_io_phases P b X n cid mc r (Q : Cleanup.ShutdownResult → ST → Prop) s :
  None ∉ cont_fwds (svc s) → (vmLifecycle (svc s) = VmManager.NilInstance → P) →
  Inv b (fwds_of (cont_fwds (svc s)) ++ vms_of (svc s) ++ nets_of (svc s) ++ mnts_of mc ++ X)
    (void n) (trace s) →
  (∀ a, RVm a ∉ X) → (∀ f, RMnt f ∉ X) →
  (∀ r' w t, Inv b (unreleased cid (svc s) ++ X) (void n) t →
     Q r' (mkSt (set_events (mkEvents (sent (events (svc s))) true true)
             (set_vm VmManager.NilIface
                (set_conn (ConnManager.Close (connManager (svc s))) (svc s)))) w t)) →
  wpp P (run_phases (io_phases cid mc) r) Q s.
Proof.
  intros Hn HP HI Hvm Hmnt HQ. simpl.
  apply wpp_bind. eapply wpp_shutdownAllIO; [done|exact HI|]. intros e1 w1 t1 HI1.
  unfold conn_Close. wpp_go.
  eapply wpp_vm_Shutdown; [exact HP|exact HI1| |].
  { intros a. rewrite !elem_of_app. intros [?|[?|?]]; [not_res|not_res|by eapply Hvm]. }
  intros e2 w2 t2 HI2. wpp_go.
  assert (HN : ∀ e w t, Inv b (unreleased cid (svc s) ++ mnts_of mc ++ X) (void n) t →
    wpp P (run_phases [(Cleanup.PhaseMountCleanup, Some (run_mountCleanup mc));
      (Cleanup.PhaseEventClose, Some closeEvents)] e) Q
      (mkSt (set_vm VmManager.NilIface (set_conn (ConnManager.Close (connManager (svc s))) (svc s)))
         w t)).
  { intros e w t HI3. simpl. wpp_go. eapply (wpp_run_mountCleanup P b (unreleased cid (svc s) ++ X) n).
    - eapply Inv_sub; [exact HI3|set_solver..].
    - intros f. unfold unreleased. case_match; rewrite elem_of_app; intros [?|?%Hmnt]; try done;
        [not_res|set_solver].
    - intros. unfold closeEvents. wpp_go. auto. }
  unfold unreleased in *. destruct (String.eqb cid "") eqn:Ecid; [by apply wpp_ret, HN|]. simpl in *.
  destruct (String.eqb_spec cid (containerID (svc s))) as [->|Hne]; simpl in *.
  - eapply (wpp_ReleaseNetworkResources P b (mnts_of mc ++ X) n); [|intros; by apply HN].
    unfold nets_of in HI2. destruct (cont (svc s)); [exact HI2|].
    eapply Inv_sub; [exact HI2|set_solver|].
    intros r' He. rewrite elem_of_cons. intros [->|?]; [done|set_solver].
  - eapply (wpp_ReleaseNetworkResources P b (nets_of (svc s) ++ mnts_of mc ++ X) n);
      [|intros; by apply HN].
    eapply Inv_sub; [exact HI2|set_solver|].
    intros r' He. rewrite elem_of_cons. intros [->|?]; [done|set_solver].
Qed.

Lemma shut_parts (s : service) :
  cont_fwds (set_cont (clear_mount <$> cont s) s) = cont_fwds s ∧
  nets_of (set_cont (clear_mount <$> cont s) s) = nets_of s ∧
  vms_of (set_cont (clear_mount <$> cont s) s) = vms_of s.
Proof. unfold cont_fwds, nets_of, vms_of. simpl. by destruct (cont s) as [[p [i|] m]|]. Qed.

(** Phases from I/O shutdown on, with the controllers left running. *)
Lemma wpp_partial_cleanup P b n cid (Q : Cleanup.ShutdownResult → ST → Prop) s :
  wf (svc s) → (vmLifecycle (svc s) = VmManager.NilInstance → P) →
  Inv b (owned_list (svc s)) (void n) (trace s) →
  (∀ r s', shut_from_io (svc s) (svc s') → ctls (svc s') = ctls (svc s) →
     stateMachine (svc s') = stateMachine (svc s) →
     Inv b (cpus_of (svc s) ++ mems_of (svc s) ++ unreleased cid (svc s)) (void n) (trace s') →
     Q r s') →
  wpp P (m_bind (buildCleanupPhases cid) (λ phases,
    orchestrate (Cleanup.ExecutePartial Cleanup.PhaseIOShutdown
                   (Cleanup.NewCleanupOrchestrator phases)))) Q s.
Proof.
  intros Hwf HP HI HQ. unfold buildCleanupPhases. wpp_go. apply wpp_extractMountCleanup. wpp_go.
  set (mc := cont_mount (svc s)).
  apply (wpp_orchestrate P 1 ((Cleanup.PhaseHotplugStop, Some stopAllHotplugControllers)
           :: io_phases cid mc)).
  change (drop 1 (_ :: io_phases cid mc)) with (io_phases cid mc).
  destruct (shut_parts (svc s)) as (E1 & E2 & E3).
  eapply (wpp_io_phases P b (cpus_of (svc s) ++ mems_of (svc s)) n); simpl svc; rewrite ?E1, ?E2, ?E3.
  - by apply wf_forwarders.
  - exact HP.
  - eapply Inv_sub; [exact HI|unfold owned_list, mc; set_solver..].
  - intros a. unfold cpus_of, mems_of. rewrite elem_of_app. intros [?|?]; not_res.
  - intros a. unfold cpus_of, mems_of. rewrite elem_of_app. intros [?|?]; not_res.
  - intros r w t HI'. unfold unreleased in HI'. rewrite E2 in HI'. apply HQ.
    + by split; simpl; try apply Close_closed.
    + done.
    + done.
    + eapply Inv_sub; [exact HI'|unfold unreleased; set_solver..].
Qed.

Lemma wf_clear_mount (s : service) : wf s → wf (set_cont (clear_mount <$> cont s) s).
Proof.
  intros [w1 w2 w3 w4]. split; simpl.
  - by rewrite fmap_None.
  - intros k c Hk. destruct (w2 k c Hk) as (? & ? & ?). by rewrite fmap_is_Some.
  - intros k c Hk. destruct (w3 k c Hk) as (? & ? & ?). by rewrite fmap_is_Some.
  - intros c (c0 & Ec & ->)%fmap_Some. exact (w4 c0 Ec).
Qed.

(** All phases. *)
Lemma wpp_full_cleanup P b n cid (Q : Cleanup.ShutdownResult → ST → Prop) s :
  wf (svc s) → (vmLifecycle (svc s) = VmManager.NilInstance → P) →
  Inv b (owned_list (svc s)) (void n) (trace s) →
  (∀ r s', shut_from_io (svc s) (svc s') → no_maps (ctls (svc s')) →
     stateMachine (svc s') = stateMachine (svc s) →
     Inv b (unreleased cid (svc s)) (void n) (trace s') → Q r s') →
  wpp P (m_bind (buildCleanupPhases cid) (λ phases,
    orchestrate (Cleanup.Execute (Cleanup.NewCleanupOrchestrator phases)))) Q s.
Proof.
  intros Hwf HP HI HQ. unfold buildCleanupPhases. wpp_go. apply wpp_extractMountCleanup. wpp_go.
  set (mc := cont_mount (svc s)).
  apply (wpp_orchestrate P 0 ((Cleanup.PhaseHotplugStop, Some stopAllHotplugControllers)
           :: io_phases cid mc)).
  destruct (shut_parts (svc s)) as (E1 & E2 & E3).
  change (run_phases (drop 0 (?x :: io_phases cid mc)) []) with
    (m_bind stopAllHotplugControllers (λ e, run_phases (io_phases cid mc)
       (Cleanup.Add Cleanup.PhaseHotplugStop e []))). apply wpp_bind.
  eapply (wpp_stopAll P b (fwds_of (cont_fwds (svc s)) ++ vms_of (svc s) ++ nets_of (svc s) ++ mnts_of mc) n).
  { by apply wf_clear_mount. }
  { exact HI. }
  { intros c. rewrite !elem_of_app. split; intros [?|[?|[?|?]]]; not_res. }
  intros cs t Hcs HI'.
  eapply (wpp_io_phases P b [] n); simpl svc.
  - change (None ∉ cont_fwds (set_cont (clear_mount <$> cont (svc s)) (svc s))). rewrite E1.
    by apply wf_forwarders.
  - exact HP.
  - rewrite app_nil_r.
    change (Inv b (fwds_of (cont_fwds (set_cont (clear_mount <$> cont (svc s)) (svc s))) ++
      vms_of (set_cont (clear_mount <$> cont (svc s)) (svc s)) ++
      nets_of (set_cont (clear_mount <$> cont (svc s)) (svc s)) ++ mnts_of mc) (void n) t).
    by rewrite E1, E2, E3.
  - set_solver.
  - set_solver.
  - intros r w t' HI''. apply HQ.
    + by split; simpl; try apply Close_closed.
    + done.
    + done.
    + rewrite app_nil_r in HI''.
      change (Inv b (unreleased cid (set_cont (clear_mount <$> cont (svc s)) (svc s))) (void n) t') in HI''.
      unfold unreleased in *. by rewrite E2 in HI''.
Qed.

Lemma cpus_of_empty (s : service) : no_maps (ctls s) → cpus_of s = [] ∧ mems_of s = [].
Proof. intros [E1 E2]. unfold cpus_of, mems_of. by rewrite E1, E2, map_to_list_empty. Qed.

(** The invariant holds again after a cleanup. *)
Lemma Inv_shut b cid (s s' : service) t :
  wf s' → shut_from_io s s' →
  Inv b (cpus_of s' ++ mems_of s' ++ unreleased cid s) (void (nextRef s)) t → Inv b [] s' t.
Proof.
  intros Hwf [Evm Ec Eid En _ _ _] HI. eapply Inv_move; [exact HI|done|by rewrite En| |].
  - intros r _ [?%owned_void|Hr]; [done|]. left. rewrite !elem_of_app in Hr. destruct Hr as [Hr|[Hr|Hr]].
    + apply owned_list_spec. unfold owned_list. set_solver.
    + apply owned_list_spec. unfold owned_list. set_solver.
    + unfold unreleased, nets_of in Hr. destruct (_ || _); [|set_solver].
      destruct (cont s) as [c|]; [|set_solver]. apply list_elem_of_singleton in Hr as ->.
      simpl. rewrite Ec, Eid. by eexists.
  - intros r He [Hr|Hr]; [|set_solver]. right. apply owned_list_spec in Hr.
    unfold owned_list in Hr. rewrite !elem_of_app in Hr.
    destruct Hr as [Hr|[Hr|[Hr|[Hr|[Hr|Hr]]]]]; [set_solver|set_solver|..].
    + exfalso. unfold fwds_of in Hr. apply list_elem_of_omap in Hr as ([?|] & _ & ?); by simplify_eq/=.
    + exfalso. unfold vms_of in Hr. rewrite Evm in Hr. set_solver.
    + exfalso. unfold nets_of in Hr. case_match; set_solver.
    + exfalso. unfold cont_mount in Hr. rewrite Ec in Hr. destruct (cont s); simpl in Hr; set_solver.
Qed.

Lemma wf_shut (s s' : service) :
  wf s → shut_from_io s s' → ctls s' = ctls s ∨ no_maps (ctls s') → wf s'.
Proof.
  intros [w1 w2 w3 w4] [_ Ec Eid _ _ _ _] Hc. split.
  - rewrite Ec, Eid, fmap_None. done.
  - intros k c. rewrite Ec, Eid, fmap_is_Some. destruct Hc as [->|[-> _]]; [apply w2|done].
  - intros k c. rewrite Ec, Eid, fmap_is_Some. destruct Hc as [->|[_ ->]]; [apply w3|done].
  - intros c. rewrite Ec. intros (c0 & E & ->)%fmap_Some. exact (w4 c0 E).
Qed.

(** What [shutdown] leaves behind. *)
Record shut (s s' : service) : Prop := mkShut
  { shut_io : shut_from_io s s'; shut_maps : no_maps (ctls s');
    shut_state : StateMachine.state (stateMachine s') = StateMachine.StateShuttingDown }.

Lemma wpp_shutdown P b (Q : option Cleanup.ShutdownResult → ST → Prop) s :
  I b [] s → (vmLifecycle (svc s) = VmManager.NilInstance → P) →
  (∀ r s', shut (svc s) (svc s') → I b [] s' →
     Inv b (unreleased (containerID (svc s)) (svc s)) (void (nextRef (svc s))) (trace s') → Q r s') →
  wpp P shutdown Q s.
Proof.
  intros HI HP HQ. unfold shutdown. apply wpp_bind, wpp_on_sm. intros a sm Esm.
  apply wpp_bind, wpp_getf. apply wpp_assoc, wpp_bind.
  assert (HI1 : Inv b [] (set_sm sm (svc s)) (trace s)) by (by eapply Inv_frame, HI).
  apply (wpp_full_cleanup P b (nextRef (svc s))); [by apply HI1|exact HP| |].
  { apply Inv_open in HI1. by rewrite app_nil_r in HI1. }
  intros r s' Hsh Hmaps Esm' HI'. wpp_go. destruct Hsh as [h1 h2 h3 h4 h5 h6 h7].
  assert (Hsh : shut_from_io (svc s) (set_initStarted false (svc s'))) by by split.
  assert (HI2 : Inv b (unreleased (containerID (svc s)) (svc s)) (void (nextRef (svc s)))
                  (trace s' ++ [EvNetClose])) by (by apply Inv_neutral).
  apply HQ.
  - split; [done|done|]. simpl. rewrite Esm'. by injection Esm as <- <-.
  - eapply (Inv_shut b (containerID (svc s))); [|exact Hsh|].
    + eapply wf_shut; [apply HI|exact Hsh|by right].
    + simpl svc. destruct (cpus_of_empty _ Hmaps) as [E1 E2].
      change (Inv b (cpus_of (svc s') ++ mems_of (svc s') ++ unreleased (containerID (svc s)) (svc s))
        (void (nextRef (svc s))) (trace s' ++ [EvNetClose])). by rewrite E1, E2.
  - exact HI2.
Qed.

End shutdown.

(** ** Delete *)

Lemma container_of_Some id (s : service) c :
  container_of id s = Some c ↔ containerID s = id ∧ cont s = Some c.
Proof. unfold container_of. destruct (String.eqb_spec (containerID s) id); naive_solver. Qed.

(** The controllers registered for the container. *)
Lemma keyed_vals (m : gmap string Z) k :
  (∀ k' c, m !! k' = Some c → k' = k) →
  (map_to_list m).*2 = match m !! k with Some c => [c] | None => [] end ∧ delete k m = ∅.
Proof.
  intros Hk. destruct (keyed_map m k Hk) as [->|[c ->]].
  - by rewrite map_to_list_empty, lookup_empty, delete_empty.
  - by rewrite map_to_list_singleton, lookup_singleton_eq, delete_singleton_eq.
Qed.

(** The service after its container was deleted. *)
Record deleted (s s' : service) : Prop := mkDeleted'
  { del_cont : cont s' = None; del_id : containerID s' = ""; del_maps : no_maps (ctls s');
    del_vm : vmLifecycle s' = VmManager.NilIface; del_next : nextRef s' = nextRef s;
    del_state : StateMachine.state (stateMachine s') = StateMachine.state (stateMachine s);
    del_events : events s' = events s; del_inflight : inflight s' = inflight s }.

Lemma wf_deleted s s' : deleted s s' → wf s'.
Proof.
  intros [Ec Eid [E1 E2] _ _ _ _ _]. split.
  - done.
  - intros k c. by rewrite E1, lookup_empty.
  - intros k c. by rewrite E2, lookup_empty.
  - intros c. by rewrite Ec.
Qed.

Lemma Inv_deleted b s s' t :
  deleted s s' → Inv b [] (void (nextRef s)) t → Inv b [] s' t.
Proof.
  intros Hd HI. pose proof (wf_deleted _ _ Hd) as Hwf. destruct Hd as [Ec Eid [E1 E2] Ev En _ _ _].
  apply (Inv_close _ _ _ _ (nextRef s)); [done|by rewrite En|].
  unfold owned_list, cpus_of, mems_of, cont_fwds, vms_of, nets_of, cont_mount.
  by rewrite E1, E2, Ec, Ev, map_to_list_empty.
Qed.

Lemma elem_of_io_forwarders x i :
  x ∈ io_forwarders i ↔
  x = forwarder (io_init i) ∨ ∃ k p, io_exec i !! k = Some p ∧ forwarder p = x.
Proof.
  unfold io_forwarders. rewrite elem_of_cons, list_elem_of_fmap. split; (intros [?|Hx]; [by left|right]).
  - destruct Hx as ([k p] & -> & ?%elem_of_map_to_list). eauto.
  - destruct Hx as (k & p & Hk & <-). exists (k, p). split; [done|]. by apply elem_of_map_to_list.
Qed.

(** The container with other I/O. *)
Definition with_exec (m : gmap string processIOState) (i : taskIO) (c : container) : container :=
  set_io (Some (set_exec m i)) c.

Lemma wf_with_exec s c i m :
  wf s → cont s = Some c → None ∉ io_forwarders (set_exec m i) →
  wf (set_cont (Some (with_exec m i c)) s).
Proof.
  intros [w1 w2 w3 w4] Ec Hn. split; simpl.
  - done.
  - intros k c' Hk. destruct (w2 k c' Hk) as (? & _ & ?). eauto.
  - intros k c' Hk. destruct (w3 k c' Hk) as (? & _ & ?). eauto.
  - intros c' [= <-]. by eexists.
Qed.

(** What else the service names does not depend on the forwarders. *)
Lemma owned_with_exec s c i m r :
  cont s = Some c → (∀ f, r ≠ RFwd f) →
  owned (set_cont (Some (with_exec m i c)) s) r ↔ owned s r.
Proof.
  intros Ec Hr. destruct r; simpl; rewrite ?Ec; try done.
  - by destruct (Hr f).
  - split; intros (c' & [= <-] & E); by eexists.
  - split; intros (c' & [= <-] & E); by eexists.
Qed.

Section delete.
Context {W : Type} `{OW : !VmManager.Ops W, OT : !TaskOps W}.
Notation ST := (st W).
Implicit Types (P : Prop) (s : ST).

Lemma wpp_opt_cpu_Stop P b X n (o : option Z) (Q : () → ST → Prop) s :
  (∀ c, o = Some c →
     ∃ o', cpuObjs (ctls (svc s)) !! c = Some o' ∧ CpuHotplug.stopCh o' = OpenChan) →
  Inv b ((RCpu <$> match o with Some c => [c] | None => [] end) ++ X) (void n) (trace s) →
  (∀ c, RCpu c ∉ X) →
  (∀ cs t, cpuHotplugControllers cs = cpuHotplugControllers (ctls (svc s)) →
     memoryHotplugControllers cs = memoryHotplugControllers (ctls (svc s)) →
     memObjs cs = memObjs (ctls (svc s)) →
     Inv b X (void n) t → Q tt (mkSt (set_ctls cs (svc s)) (world s) t)) →
  wpp P (opt_do o cpu_Stop) Q s.
Proof.
  intros Ho HI HX HQ. destruct o as [c|]; simpl.
  - destruct (Ho c eq_refl) as (o' & E & Hc).
    eapply wpp_cpu_Stop; [exact E|exact Hc|exact HI|apply HX|exact HQ].
  - wpp_go. specialize (HQ (ctls (svc s)) (trace s)). destruct s as [[] w t]. by apply HQ.
Qed.

Lemma wpp_opt_mem_Stop P b X n (o : option Z) (Q : () → ST → Prop) s :
  (∀ c, o = Some c → ∃ o', memObjs (ctls (svc s)) !! c = Some o' ∧
     ∀ o2, o' = Some o2 → MemHotplug.started o2 = true) →
  Inv b ((RMem <$> match o with Some c => [c] | None => [] end) ++ X) (void n) (trace s) →
  (∀ c, RMem c ∉ X) →
  (∀ cs t, cpuHotplugControllers cs = cpuHotplugControllers (ctls (svc s)) →
     memoryHotplugControllers cs = memoryHotplugControllers (ctls (svc s)) →
     Inv b X (void n) t → Q tt (mkSt (set_ctls cs (svc s)) (world s) t)) →
  wpp P (opt_do o mem_Stop) Q s.
Proof.
  intros Ho HI HX HQ. destruct o as [c|]; simpl.
  - destruct (Ho c eq_refl) as (o' & E & Hc).
    eapply wpp_mem_Stop; [exact E|exact Hc|exact HI|apply HX|exact HQ].
  - wpp_go. specialize (HQ (ctls (svc s)) (trace s)). destruct s as [[] w t]. by apply HQ.
Qed.

(** The VM, the network and the mounts, in that order. *)
Lemma wpp_delete_phases P b n id mc (Q : () → ST → Prop) s :
  (vmLifecycle (svc s) = VmManager.NilInstance → P) →
  Inv b (vms_of (svc s) ++ RNet id :: mnts_of mc) (void n) (trace s) →
  (∀ w t, Inv b [] (void n) t →
     Q tt (mkSt (set_vm VmManager.NilIface (set_sm (StateMachine.SetIntentionalShutdown true
             (stateMachine (svc s))) (svc s))) w (t ++ [EvExitRequested "container deleted"]))) →
  wpp P (runDeleteCleanup id (mkDeleteCleanup [] None None mc true true)) Q s.
Proof.
  intros HP HI HQ. unfold runDeleteCleanup. simpl. wpp_go.
  injection H as <- <-.
  apply (wpp_orchestrate P 3 [(Cleanup.PhaseHotplugStop, None); (Cleanup.PhaseIOShutdown, None);
    (Cleanup.PhaseConnClose, None); (Cleanup.PhaseVMShutdown, Some vm_Shutdown);
    (Cleanup.PhaseNetworkCleanup, Some (ReleaseNetworkResources id));
    (Cleanup.PhaseMountCleanup, Some (run_mountCleanup mc)); (Cleanup.PhaseEventClose, None)]).
  simpl. wpp_go.
  eapply wpp_vm_Shutdown; [exact HP|exact HI| |].
  { intros a. rewrite elem_of_cons. intros [?|?]; [done|not_res]. }
  intros e1 w1 t1 HI1. wpp_go. eapply wpp_ReleaseNetworkResources; [exact HI1|].
  intros e2 w2 t2 HI2. wpp_go. eapply (wpp_run_mountCleanup P b []); [by rewrite app_nil_r|set_solver|].
  intros e3 w3 t3 HI3. wpp_go. by apply HQ.
Qed.

Lemma wpp_delete_container P b id c (Q : () → ST → Prop) s :
  I b [] s → container_of id (svc s) = Some c →
  (vmLifecycle (svc s) = VmManager.NilInstance → P) →
  (∀ s', deleted (svc s) (svc s') → I b [] s' →
     Inv b [] (void (nextRef (svc s))) (trace s') →
     (∃ t, trace s' = t ++ [EvExitRequested "container deleted"]) → Q tt s') →
  wpp P (m_bind (collectDeleteCleanup id "") (runDeleteCleanup id)) Q s.
Proof.
  intros HI Hc HP HQ. pose proof (inv_wf _ _ _ _ HI) as Hwf.
  pose proof (proj1 (container_of_Some _ _ _) Hc) as [Eid Ec].
  assert (Hkc : ∀ k' c, cpuHotplugControllers (ctls (svc s)) !! k' = Some c → k' = id).
  { intros k' c' Hk. rewrite <-Eid. by apply (wf_cpu _ Hwf) in Hk as [? _]. }
  assert (Hkm : ∀ k' c, memoryHotplugControllers (ctls (svc s)) !! k' = Some c → k' = id).
  { intros k' c' Hk. rewrite <-Eid. by apply (wf_mem _ Hwf) in Hk as [? _]. }
  pose proof (wf_forwarders _ Hwf) as Hf. apply Inv_open in HI. rewrite app_nil_r in HI.
  unfold owned_list, cpus_of, mems_of, cont_fwds, nets_of, cont_mount in *. rewrite Ec, Eid in *.
  apply keyed_vals in Hkc as [Ev Ed]. apply keyed_vals in Hkm as [Ev' Ed']. rewrite Ev, Ev' in HI.
  destruct (wf_io _ Hwf c Ec) as (i & Ei & _). destruct c as [p io m]. simpl in Ei. subst io.
  unfold collectDeleteCleanup, collect_container. wpp_go. rewrite Hc.
  cbn [negb String.eqb ShimTask.io mountCleanup]. wpp_go. unfold runDeleteCleanup.
  cbn [ioForwarders cpuController memController needVMShutdown needNetworkClean dc_mountCleanup].
  set (oc := cpuHotplugControllers (ctls (svc s)) !! id) in *.
  set (om := memoryHotplugControllers (ctls (svc s)) !! id) in *.
  set (rest := vms_of (svc s) ++ RNet id :: mnts_of m).
  set (mems := (RMem <$> match om with Some c => [c] | None => [] end) ++ rest).
  set (cpus := (RCpu <$> match oc with Some c => [c] | None => [] end) ++ mems).
  apply wpp_bind. apply (wpp_shutdown_forwarders P b cpus (nextRef (svc s))); [exact Hf| |].
  { eapply Inv_sub; [exact HI|unfold cpus, mems, rest; set_solver..]. }
  intros es w1 t1 HI1. apply wpp_bind. apply (wpp_opt_cpu_Stop P b mems (nextRef (svc s))).
  { intros c Eoc. by destruct (wf_cpu _ Hwf id c Eoc) as (_ & _ & ?). }
  { exact HI1. }
  { intros c. unfold mems, rest. rewrite !elem_of_app, elem_of_cons.
    intros [?|[?|[?|?]]]; [not_res|not_res|done|not_res]. }
  intros cs2 t2 E1 E2 E3 HI2. apply wpp_bind. apply (wpp_opt_mem_Stop P b rest (nextRef (svc s))).
  { intros c Eom. simpl. rewrite E3. by destruct (wf_mem _ Hwf id c Eom) as (_ & _ & ?). }
  { exact HI2. }
  { intros c. unfold rest. rewrite elem_of_app, elem_of_cons. intros [?|[?|?]]; [not_res|done|not_res]. }
  intros cs3 t3 E1' E2' HI3. apply (wpp_delete_phases P b (nextRef (svc s)) id m).
  { exact HP. }
  { exact HI3. }
  intros w4 t4 HI4. simpl in *.
  match goal with |- Q tt ?x => assert (Hd : deleted (svc s) (svc x)) end.
  { split; try done. simpl. split; congruence. }
  assert (HI5 : Inv b [] (void (nextRef (svc s))) (t4 ++ [EvExitRequested "container deleted"]))
    by by apply Inv_neutral.
  apply HQ; [done| |done|by eexists]. by eapply Inv_deleted.
Qed.

(** The forwarder of an exec is shut down and forgotten. *)
Lemma Inv_drop_exec b (s : service) c i execID p f t :
  Inv b [] s t → cont s = Some c → io c = Some i → io_exec i !! execID = Some p →
  forwarder p = Some f →
  Inv b [] (set_cont (Some (with_exec (delete execID (io_exec i)) i c)) s) (t ++ [EvFwdShutdown f]).
Proof.
  intros HI Ec Ei Ep Ef. pose proof (inv_wf _ _ _ _ HI) as Hwf.
  destruct (wf_io _ Hwf c Ec) as (i' & Ei' & Hn). assert (i' = i) as -> by congruence.
  eapply (Inv_release _ _ _ _ _ _ _ (RFwd f)); [exact HI|done|done| |done|done| |].
  - apply wf_with_exec; [done|done|]. rewrite elem_of_io_forwarders in *. simpl.
    intros [?|(k & p' & Hk & Hp')]; [by apply Hn; left|]. apply lookup_delete_Some in Hk as [_ Hk].
    apply Hn. right. eauto.
  - intros r _ Hne [Hr|Hr]; [left|set_solver]. destruct r as [f'| | | | |];
      try (by apply owned_with_exec).
    simpl in *. rewrite Ec in Hr. destruct Hr as (c' & [= <-] & Hr). unfold recorded in Hr. rewrite Ei in Hr.
    eexists. split; [done|]. unfold recorded. simpl. rewrite elem_of_io_forwarders in *. simpl.
    destruct Hr as [?|(k & p' & Hk & Hp')]; [by left|right]. exists k, p'. split; [|done].
    apply lookup_delete_Some. split; [|done]. intros ->. simplify_eq.
  - intros r He [Hr|Hr]; [|set_solver]. split; [by intros ->|]. left.
    apply owned_with_exec in Hr; [done|done|by intros f' ->].
Qed.

Lemma wpp_delete_exec P b id execID (Q : () → ST → Prop) s :
  I b [] s → execID ≠ "" → (∀ s', I b [] s' → Q tt s') →
  wpp P (m_bind (collectDeleteCleanup id execID) (runDeleteCleanup id)) Q s.
Proof.
  intros HI Hne HQ. unfold collectDeleteCleanup, collect_container. wpp_go.
  apply String.eqb_neq in Hne. rewrite Hne. simpl.
  assert (Hdone : wpp P (runDeleteCleanup id (mkDeleteCleanup [] None None None false false)) Q s).
  { unfold runDeleteCleanup. simpl. wpp_go. by apply HQ. }
  destruct (container_of id (svc s)) as [c|] eqn:Ec; [|by wpp_go].
  apply container_of_Some in Ec as [_ Ec].
  destruct (wf_io _ (inv_wf _ _ _ _ HI) c Ec) as (i & Ei & Hn). rewrite Ei.
  destruct (io_exec i !! execID) as [p|] eqn:Ep; [|by wpp_go].
  destruct (forwarder p) as [f|] eqn:Ef.
  2:{ destruct Hn. rewrite elem_of_io_forwarders. right. eauto. }
  wpp_go. unfold runDeleteCleanup. simpl. wpp_go. apply HQ. by eapply Inv_drop_exec.
Qed.

(** Nothing happens when the request names another container. *)
Lemma wpp_delete_other P b id (Q : () → ST → Prop) s :
  I b [] s → container_of id (svc s) = None →
  (∀ s', I b [] s' → Q tt s') →
  wpp P (m_bind (collectDeleteCleanup id "") (runDeleteCleanup id)) Q s.
Proof.
  intros HI Hc HQ. unfold collectDeleteCleanup, collect_container. wpp_go. rewrite Hc. simpl. wpp_go.
  pose proof (inv_wf _ _ _ _ HI) as Hwf. unfold container_of in Hc.
  assert (Hk : ∀ k, k = id → k = containerID (svc s) → ¬ is_Some (cont (svc s))).
  { intros k -> E. rewrite <-E, String.eqb_refl in Hc. rewrite Hc. by intros [? [=]]. }
  assert (E1 : cpuHotplugControllers (ctls (svc s)) !! id = None).
  { apply eq_None_not_Some. intros [c Hl]. apply (wf_cpu _ Hwf) in Hl as (? & ? & _). by eapply Hk. }
  assert (E2 : memoryHotplugControllers (ctls (svc s)) !! id = None).
  { apply eq_None_not_Some. intros [c Hl]. apply (wf_mem _ Hwf) in Hl as (? & ? & _). by eapply Hk. }
  rewrite E1, E2, !delete_id by done. unfold runDeleteCleanup. simpl. wpp_go. apply HQ.
  unfold I in *. destruct s as [[? ? ? ? ? []] w t]. exact HI.
Qed.

End delete.
