(* ===== verification/ShimService.v ===== *)
(** * The runs of the shim's task service

    Every handler of ShimTask.v preserves the invariant of ShimRun.v, so it
    holds in every reachable state; from it follow the theorems on shutdown,
    deletion and creation, and the ways in which creation, deletion and exec
    go wrong.  The witnesses run the service on a small world. *)

From S2P Require Import Prelude GoStrings Lifecycle CpuHotplug MemHotplug VmManager Resources QemuCmd.
From S2P Require Import ShimTask ShimRun.
Import ShimTask.

(** ** The handlers preserve the invariant *)

Section handlers.
Context {W : Type} `{OW : !VmManager.Ops W, OT : !TaskOps W}.
Notation ST := (st W).
Implicit Types (P : Prop) (s : ST).

(** The manager's VM does not make the shim panic, or [P]. *)
Definition safe P (m : VmManager.Manager) : Prop :=
  (m = VmManager.NilInstance → P) ∧
  ∀ s msg, vmLifecycle (svc s) = m → getTaskClient s = Panic msg → P.

Lemma safe_True m : safe True m.
Proof. done. Qed.

Lemma wpp_with_client {A} P b (k : Z → M ST (result A)) (Q : result A → ST → Prop) s :
  I b [] s → safe P (vmLifecycle (svc s)) →
  (∀ e s', I b [] s' → Q (Err e) s') →
  (∀ c cm w, I b [] (mkSt (set_conn cm (svc s)) w (trace s)) →
     wpp P (k c) Q (mkSt (set_conn cm (svc s)) w (trace s))) →
  wpp P (with_client k) Q s.
Proof.
  intros HI [_ HP] He Hk. unfold with_client. apply wpp_bind. unfold wpp at 1.
  destruct (getTaskClient s) as [[r s1]|msg] eqn:E; [|by eapply HP].
  unfold getTaskClient in E.
  destruct (ConnManager.GetClient _ _ _) as [[r' cm] [w|msg]]; simplify_eq.
  assert (HI1 : I b [] (mkSt (set_conn cm (svc s)) w (trace s))) by by apply I_frame.
  destruct r as [c|e]; [by apply Hk|]. wpp_go. by apply He.
Qed.

(** A query of the guest. *)
Lemma wpp_ask_guest {A} P b (f : Z → W → result A * W) (Q : result A → ST → Prop) s :
  I b [] s → safe P (vmLifecycle (svc s)) → (∀ r s', I b [] s' → Q r s') →
  wpp P (with_client (λ c, call (f c))) Q s.
Proof.
  intros HI HP HQ. eapply wpp_with_client; [done|done|by auto|]. intros. wpp_go. by apply HQ.
Qed.

Lemma wpp_Start P b id execID (Q : result Z → ST → Prop) s :
  I b [] s → safe P (vmLifecycle (svc s)) → (∀ r s', I b [] s' → Q r s') →
  wpp P (Start id execID) Q s.
Proof.
  intros HI HP HQ. eapply wpp_with_client; [done|done|by auto|]. intros c cm w HI1. wpp_go.
  destruct a as [p|e]; [|by wpp_go; apply HQ].
  destruct (String.eqb execID ""); wpp_go; apply HQ; [|done]. by eapply Inv_frame, HI.
Qed.

Lemma wpp_State P b id execID (Q : result StateResponse → ST → Prop) s :
  I b [] s → safe P (vmLifecycle (svc s)) → (∀ r s', I b [] s' → Q r s') →
  wpp P (State id execID) Q s.
Proof.
  intros HI HP HQ. unfold State. wpp_go. case_match; [by wpp_go; apply HQ|].
  eapply wpp_with_client; [done|done|by auto|]. intros c cm w HI1. wpp_go.
  destruct a; wpp_go; by apply HQ.
Qed.

Lemma wpp_Connect P b id (Q : result (Z * Z) → ST → Prop) s :
  I b [] s → safe P (vmLifecycle (svc s)) → (∀ r s', I b [] s' → Q r s') →
  wpp P (Connect id) Q s.
Proof.
  intros HI HP HQ. unfold Connect. wpp_go.
  assert (HG : wpp P (with_client (λ vmc, m_bind (call (guest_Connect vmc id)) (λ r,
    m_ret (match r with Err e => Err e | Ok p => Ok (getpid, p) end)))) Q s).
  { eapply wpp_with_client; [done|done|by auto|]. intros. wpp_go. by apply HQ. }
  destruct (container_of id (svc s)); [|done]. destruct (negb _); [|done]. wpp_go. by apply HQ.
Qed.

Lemma wpp_CloseIO P b id execID stdin (Q : result Z → ST → Prop) s :
  I b [] s → safe P (vmLifecycle (svc s)) → (∀ r s', I b [] s' → Q r s') →
  wpp P (CloseIO id execID stdin) Q s.
Proof.
  intros HI HP HQ. unfold CloseIO. apply wpp_bind.
  assert (HG : ∀ w t, Inv b [] (svc s) t →
    wpp P (with_client (λ vmc, call (guest_rpc CloseIO_ vmc id execID))) Q (mkSt (svc s) w t)).
  { intros w t HI1. by apply (wpp_ask_guest P b). }
  destruct stdin; [|by destruct s; wpp_go; apply HG]. wpp_go.
  destruct (container_of id (svc s)) as [c|] eqn:Ec; [|by destruct s; wpp_go; apply HG].
  apply container_of_Some in Ec as [_ Ec].
  destruct (wf_io _ (inv_wf _ _ _ _ HI) c Ec) as (i & Ei & Hn). destruct c as [p io m]. simpl in Ei. subst io.
  assert (HF : ∀ f, f ∈ io_forwarders i → wpp P
    (match f with None => m_panic nil_deref
     | Some f => m_bind (call (λ w, (tt, fwd_CloseStdin f w))) (λ _, emit (EvCloseStdin f)) end)
    (λ _ s, wpp P (with_client (λ vmc, call (guest_rpc CloseIO_ vmc id execID))) Q s) s).
  { intros [f|] Hf; [|done]. wpp_go. by apply HG, Inv_neutral. }
  destruct (String.eqb execID ""); simpl.
  - apply HF, elem_of_io_forwarders. by left.
  - destruct (io_exec i !! execID) as [q|] eqn:Eq; simpl; [|by destruct s; wpp_go; apply HG].
    apply HF, elem_of_io_forwarders. right. eauto.
Qed.

Lemma wpp_send P b evt (Q : () → ST → Prop) s :
  I b [] s → (∀ s', I b [] s' → Q tt s') → wpp P (send evt) Q s.
Proof.
  intros HI HQ. unfold send. wpp_go. destruct (eventsClosed _); [by wpp_go; apply HQ|].
  destruct (closed _); wpp_go; apply HQ; [done|]. by eapply Inv_frame, HI.
Qed.

Lemma wpp_forward_event P b ev (Q : () → ST → Prop) s :
  I b [] s → (∀ s', I b [] s' → Q tt s') → wpp P (forward_event ev) Q s.
Proof.
  intros HI HQ. unfold forward_event. apply wpp_bind.
  assert (HS : ∀ s, I b [] s → wpp P (send (EvEnvelope ev)) Q s) by (intros; by eapply wpp_send).
  destruct (String.eqb _ _); [|by wpp_go; apply HS]. unfold waitForIOBeforeExit.
  destruct (env_exit ev) as [[cid id]|]; [|by wpp_go; apply HS]. wpp_go.
  destruct (getIOForwarder _ _ _); wpp_go; apply HS; [|done]. by apply Inv_neutral.
Qed.

Lemma wpp_counted {A} P b (m : M ST A) (Q : A → ST → Prop) s :
  I b [] s →
  (∀ s1, I b [] s1 → svc s1 = set_inflight (inflight (svc s) +i 1) (svc s) →
     trace s1 = trace s → world s1 = world s →
     wpp P m (λ a s', Q a (mkSt (set_inflight (inflight (svc s') -i 1) (svc s')) (world s') (trace s')))
       s1) →
  wpp P (counted m) Q s.
Proof.
  intros HI Hm. unfold counted. wpp_go. eapply wpp_mono; [apply Hm; try done; by eapply Inv_frame, HI|].
  intros a s' HQ. by wpp_go.
Qed.

Lemma wpp_Shutdown P b (Q : () → ST → Prop) s :
  I b [] s → (∀ s', I b [] s' → Q tt s') → wpp P Shutdown Q s.
Proof.
  intros HI HQ. eapply wpp_counted; [done|]. intros s1 HI1 _ _ _. wpp_go. apply HQ.
  apply Inv_neutral; [done|done|]. by eapply Inv_frame, HI1.
Qed.

Lemma wpp_cleanupOnDeleteFailure P b id (Q : () → ST → Prop) s :
  I b [] s → (vmLifecycle (svc s) = VmManager.NilInstance → P) →
  (∀ s', shut_from_io (svc s) (svc s') → ctls (svc s') = ctls (svc s) → I b [] s' →
     stateMachine (svc s') = StateMachine.SetIntentionalShutdown true (stateMachine (svc s)) →
     Inv b (cpus_of (svc s) ++ mems_of (svc s) ++ unreleased id (svc s)) (void (nextRef (svc s)))
       (trace s') → Q tt s') →
  wpp P (cleanupOnDeleteFailure id) Q s.
Proof.
  intros HI HP HQ. unfold cleanupOnDeleteFailure, SetIntentionalShutdown.
  apply wpp_bind, wpp_on_sm. intros a sm Esm. apply wpp_assoc, wpp_bind.
  assert (HI1 : Inv b [] (set_sm sm (svc s)) (trace s)) by (by eapply Inv_frame, HI).
  apply (wpp_partial_cleanup P b (nextRef (svc s))); [by apply HI1|exact HP| |].
  { apply Inv_open in HI1. by rewrite app_nil_r in HI1. }
  intros r s' [h1 h2 h3 h4 h5 h6 h7] Hctl Hsm HI'. wpp_go.
  assert (Hsh : shut_from_io (svc s) (svc s')) by by split.
  apply HQ; [done|done| |by injection Esm as <- <-; rewrite Hsm|exact HI']. eapply (Inv_shut b id); [|exact Hsh|].
  - eapply wf_shut; [apply HI|exact Hsh|by left].
  - unfold cpus_of, mems_of in *. simpl in *. rewrite Hctl. exact HI'.
Qed.

Lemma Inv_soft b X (s : service) t e r :
  Inv b X s t → acquires e = None → releases e = Some r → exact r = false → Inv b X s (t ++ [e]).
Proof.
  intros HI Ea Er He. eapply Inv_release; [exact HI|done|exact Er|apply HI|done|by rewrite He| |].
  - by auto.
  - intros r' He' ?. split; [|done]. intros ->. congruence.
Qed.

Lemma wpp_start_deleting P b (Q : option error → ST → Prop) s :
  I b [] s →
  (∀ e sm, I b [] (mkSt (set_sm sm (svc s)) (world s) (trace s)) →
     StateMachine.TryStartDeleting (stateMachine (svc s)) = (bool_decide (e = None), sm) →
     Q e (mkSt (set_sm sm (svc s)) (world s) (trace s))) →
  wpp P start_deleting Q s.
Proof.
  intros HI HQ. unfold start_deleting. wpp_go.
  assert (HI1 : I b [] (mkSt (set_sm sm (svc s)) (world s) (trace s))) by (by eapply Inv_frame, HI).
  destruct a.
  - wpp_go. by apply HQ.
  - wpp_go. repeat case_match; wpp_go; by apply HQ.
Qed.

Lemma wpp_delete_body P b id execID (Q : result DeleteResponse → ST → Prop) s :
  I b [] s → safe P (vmLifecycle (svc s)) → (∀ r s', I b [] s' → Q r s') →
  wpp P (delete_body id execID) Q s.
Proof.
  intros HI HP HQ. eapply wpp_with_client; [done|done|by auto|]. intros c cm w HI1. wpp_go.
  destruct a as [resp|e].
  - assert (HD : ∀ s', I b [] s' → vmLifecycle (svc s') = vmLifecycle (svc s) →
      wpp P (m_bind (m_bind (collectDeleteCleanup id execID) (runDeleteCleanup id))
        (λ _, m_ret (Ok resp))) Q s').
    { intros s' HI' Ev. apply wpp_bind. destruct (decide (execID = "")) as [->|Hne].
      - destruct (container_of id (svc s')) eqn:Ec.
        + eapply wpp_delete_container; [done|done|rewrite Ev; apply HP|]. intros. wpp_go. by apply HQ.
        + eapply wpp_delete_other; [done|done|]. intros. wpp_go. by apply HQ.
      - eapply wpp_delete_exec; [done|done|]. intros. wpp_go. by apply HQ. }
    apply wpp_bind. destruct (String.eqb execID ""); [|by wpp_step; apply wpp_assoc, HD].
    unfold send. wpp_go. destruct (eventsClosed _); [by wpp_step; apply wpp_assoc, HD|].
    destruct (closed _); [by wpp_step; apply wpp_assoc, HD|]. apply wpp_upd, wpp_assoc, HD; [|done].
    by eapply Inv_frame, HI1.
  - destruct (String.eqb execID ""); [|by wpp_go; apply HQ]. apply wpp_bind.
    eapply wpp_cleanupOnDeleteFailure; [exact HI1|apply HP|]. intros. wpp_go. by apply HQ.
Qed.

Lemma wpp_Delete P b id execID (Q : result DeleteResponse → ST → Prop) s :
  I b [] s → safe P (vmLifecycle (svc s)) → (∀ r s', I b [] s' → Q r s') →
  wpp P (Delete id execID) Q s.
Proof.
  intros HI HP HQ. eapply wpp_counted; [done|]. intros s1 HI1 E1 _ _. apply wpp_bind.
  assert (HF : ∀ r s', I b [] s' → Q r (mkSt (set_inflight (inflight (svc s') -i 1) (svc s'))
                                  (world s') (trace s'))).
  { intros r s' HI'. apply HQ. by eapply Inv_frame, HI'. }
  destruct (String.eqb execID "").
  - eapply wpp_start_deleting; [done|]. intros [e|] sm HI2 _; [exact (HF (Err e) _ HI2)|].
    eapply wpp_delete_body; [done|simpl; rewrite E1; exact HP|done].
  - wpp_go. eapply wpp_delete_body; [done|rewrite E1; exact HP|done].
Qed.

Lemma wpp_requestShutdownAndExit P b (Q : () → ST → Prop) s :
  I b [] s → (vmLifecycle (svc s) = VmManager.NilInstance → P) →
  (∀ s', I b [] s' → Q tt s') → wpp P requestShutdownAndExit Q s.
Proof.
  intros HI HP HQ. unfold requestShutdownAndExit. apply wpp_bind, wpp_getf, wpp_bind.
  assert (HS : ∀ s', I b [] s' → svc s' = svc s →
    wpp P (m_bind shutdown (λ _, emit EvExit)) Q s').
  { intros s' HI' E. apply wpp_bind. eapply wpp_shutdown; [exact HI'|by rewrite E|].
    intros r s2 _ HI2 _. wpp_go. apply HQ. by apply Inv_neutral. }
  destruct (negb _); [|by apply wpp_ret, HS]. unfold ReleaseNetworkResources.
  apply wpp_bind, wpp_call. intros e w _. apply wpp_bind, wpp_emit, wpp_ret, HS; [|done].
  by eapply Inv_soft.
Qed.

Lemma wpp_make_forwarder P b X a id execID rio (Q : result (Stdio * Z) → ST → Prop) s :
  I b X s →
  (∀ e w, Q (Err e) (mkSt (svc s) w (trace s))) →
  (∀ cio f w, let s' := mkSt (set_next (nextRef (svc s) + 1) (svc s)) w (trace s ++ [EvForwarder f]) in
     I b (RFwd f :: X) s' → Q (Ok (cio, f)) s') →
  wpp P (make_forwarder (VmManager.Inst a) id execID rio) Q s.
Proof.
  intros HI He HQ. unfold make_forwarder, on_inst. wpp_go. destruct a0 as [cio|e]; wpp_go; [|by apply He].
  apply HQ. apply Inv_new; [done|done|simpl; lia..].
Qed.

(** No exec of the container has this name. *)
Definition exec_fresh (id execID : string) (s : service) : Prop :=
  ∀ c i, container_of id s = Some c → io c = Some i → io_exec i !! execID = None.

Lemma Inv_put_exec b (s : service) c i execID p f t :
  Inv b [RFwd f] s t → cont s = Some c → io c = Some i → forwarder p = Some f →
  (b = true → io_exec i !! execID = None) →
  Inv b [] (set_cont (Some (with_exec (<[execID := p]> (io_exec i)) i c)) s) t.
Proof.
  intros HI Ec Ei Ef Hb. pose proof (inv_wf _ _ _ _ HI) as Hwf.
  destruct (wf_io _ Hwf c Ec) as (i' & Ei' & Hn). assert (i' = i) as -> by congruence.
  eapply Inv_move; [exact HI| |done| |].
  - apply wf_with_exec; [done|done|]. rewrite elem_of_io_forwarders in *. simpl.
    intros [?|(k & p' & Hk & Hp')]; [by apply Hn; left|].
    apply lookup_insert_Some in Hk as [[_ <-]|[_ Hk]]; [congruence|]. apply Hn. right. eauto.
  - intros r Hs Hr. left. destruct r as [f'| | | | |];
      try (apply owned_with_exec; [done|done|]; destruct Hr; [done|set_solver]).
    eexists. split; [done|]. unfold recorded. simpl. rewrite elem_of_io_forwarders. simpl.
    destruct Hr as [(c' & Ec' & Hr)|Hr].
    + assert (c' = c) as -> by congruence. unfold recorded in Hr. rewrite Ei in Hr.
      rewrite elem_of_io_forwarders in Hr. destruct Hr as [?|(k & p' & Hk & Hp')]; [by left|right].
      exists k, p'. split; [|done]. rewrite lookup_insert_ne; [done|]. intros ->.
      rewrite Hb in Hk by (by apply (Hs f')). done.
    + apply list_elem_of_singleton in Hr as [= ->]. right. exists execID, p.
      by rewrite lookup_insert_eq.
  - intros r He [Hr|Hr]; [|set_solver]. left.
    apply owned_with_exec in Hr; [done|done|by intros f' ->].
Qed.

Lemma wpp_exec_failed P b id execID (Q : () → ST → Prop) s :
  I b [] s → (∀ s', I b [] s' → Q tt s') → wpp P (exec_failed id execID) Q s.
Proof.
  intros HI HQ. unfold exec_failed. wpp_go.
  destruct (container_of id (svc s)) as [c|] eqn:Ec; [|by wpp_go; apply HQ].
  apply container_of_Some in Ec as [_ Ec].
  destruct (wf_io _ (inv_wf _ _ _ _ HI) c Ec) as (i & Ei & Hn). destruct c as [p io m]. simpl in Ei. subst io.
  destruct (io_exec i !! execID) as [q|] eqn:Eq; [|by wpp_go; apply HQ].
  destruct (forwarder q) as [f|] eqn:Ef.
  2:{ destruct Hn. rewrite elem_of_io_forwarders. right. eauto. }
  unfold forwarder_Shutdown. wpp_go. apply HQ. by eapply (Inv_drop_exec b _ _ i).
Qed.

Lemma wpp_Exec P b id execID rio (Q : result () → ST → Prop) s :
  I b [] s → safe P (vmLifecycle (svc s)) → (b = true → exec_fresh id execID (svc s)) →
  (∀ r s', I b [] s' → Q r s') →
  wpp P (Exec id execID rio) Q s.
Proof.
  intros HI HP Hfresh HQ. eapply wpp_with_client; [done|done|by auto|]. intros c cm w HI1.
  unfold with_instance. wpp_go. cbn [vmLifecycle set_conn].
  destruct (vmLifecycle (svc s)) as [| |a]; cbn [VmManager.Instance_].
  { wpp_go. by apply HQ. }
  { apply wpp_bind, wpp_panic. by apply HP. }
  apply wpp_bind. eapply wpp_make_forwarder; [exact HI1|intros; wpp_go; by apply HQ|].
  intros cio f w1 s1 HI2. wpp_go.
  destruct (container_of id (svc s1)) as [c0|] eqn:Ec.
  - pose proof (proj1 (container_of_Some _ _ _) Ec) as [Eid Ec'].
    destruct (wf_io _ (inv_wf _ _ _ _ HI2) c0 Ec') as (i & Ei & _). wpp_go.
    assert (HI3 : Inv b [] (set_cont (Some (put_exec execID
      (mkPio (mkStdio (Stdin rio) (Stdout rio) (Stderr rio) false) (Some f)) c0)) (svc s1)) (trace s1)).
    { unfold put_exec. rewrite Ei. eapply Inv_put_exec; [exact HI2|done|done|done|].
      intros Hb. by apply (Hfresh Hb c0). }
    destruct a0 as [e|]; wpp_go.
    + eapply wpp_exec_failed; [exact HI3|]. intros. wpp_go. by apply HQ.
    + apply HQ. apply Inv_neutral; [done|done|]. exact HI3.
  - unfold forwarder_Shutdown. wpp_go. apply HQ. eapply Inv_release_local; [exact HI2|done|done|by right|done].
Qed.

End handlers.

(** ** Create *)

(** The service while a container is created: only the VM, the connection and
    the addresses change. *)
Record creating (s s' : service) : Prop := mkCreating
  { cre_cont : cont s' = None; cre_id : containerID s' = containerID s;
    cre_ctls : ctls s' = ctls s; cre_events : events s' = events s;
    cre_state : StateMachine.state (stateMachine s') = StateMachine.state (stateMachine s);
    cre_started : initStarted s' = initStarted s; cre_inflight : inflight s' = inflight s }.

Lemma creating_refl s : cont s = None → creating s s.
Proof. by split. Qed.
Lemma creating_trans s1 s2 s3 : creating s1 s2 → creating s2 s3 → creating s1 s3.
Proof. intros [] []. split; congruence. Qed.

Section create.
Context {W : Type} `{OW : !VmManager.Ops W, OT : !TaskOps W}.
Notation ST := (st W).
Implicit Types (P : Prop) (s : ST).

(** [ComputeConfig] returns on every bundle that loads, or [P]. *)
Definition config_ok P (r : CreateTaskRequest) : Prop :=
  ∀ w b w', loadForCreate (cr_Bundle r) w = (Ok b, w') →
    P ∨ ∃ cfg info, Resources.ComputeConfig (numCPU w') (meminfo w') (spec b) = Some (Return (cfg, info)).

Lemma wpp_validate P r (Q : option error → ST → Prop) s :
  (∀ e, Q (Some e) s) →
  (cont (svc s) = None → vmLifecycle (svc s) = VmManager.NilIface →
   StateMachine.state (stateMachine (svc s)) = StateMachine.StateIdle →
   Q None (mkSt (set_sm (StateMachine.mk StateMachine.StateCreating
             (StateMachine.intentionalShutdown (stateMachine (svc s)))) (svc s)) (world s) (trace s))) →
  wpp P (validateCreateRequest r) Q s.
Proof.
  intros He HQ. unfold validateCreateRequest. destruct (_ || _); [by wpp_go|].
  destruct s as [[[st int] vm cm c cid cs ev inf started n] w t]. unfold on_sm. wpp_go. simpl.
  unfold StateMachine.TryStartCreating, StateMachine.CompareAndSwap. simpl.
  destruct (decide (st = StateMachine.StateIdle)) as [->|Hne].
  - rewrite bool_decide_true by done. wpp_go. simpl.
    destruct vm; simpl; wpp_go; try apply He. destruct c; simpl; wpp_go; [apply He|].
    destruct (ContainsAny _ _); wpp_go; [apply He|]. by apply HQ.
  - rewrite bool_decide_false by done. simpl. wpp_go. simpl. by destruct st; wpp_go; apply He.
Qed.

(** The steps of a rollback with what they release. *)
Inductive rollback_for (id : string) : list (cleanupStep (W := W)) → list res → Prop :=
  | rb_none : rollback_for id [] []
  | rb_mounts mc : rollback_for id [("mounts", run_mountCleanup mc)] (mnts_of mc)
  | rb_network mc : rollback_for id
      [("mounts", run_mountCleanup mc); ("network", ReleaseNetworkResources id)]
      (RNet id :: mnts_of mc).

Lemma wpp_rollback P b id steps X (Q : () → ST → Prop) s :
  rollback_for id steps X → I b X s → cont (svc s) = None →
  (∀ w t, Inv b [] (svc s) t → Q tt (mkSt (svc s) w t)) →
  wpp P (rollback steps) Q s.
Proof.
  intros Hrb HI Hc HQ. pose proof (inv_wf _ _ _ _ HI) as Hwf. apply Inv_open in HI.
  assert (Hm : ∀ f, RMnt f ∉ owned_list (svc s)).
  { intros f. rewrite <-owned_list_spec. simpl. rewrite Hc. by intros (? & [=] & _). }
  assert (HQ' : ∀ w t, Inv b (owned_list (svc s)) (void (nextRef (svc s))) t → Q tt (mkSt (svc s) w t)).
  { intros w t HI'. apply HQ. eapply Inv_close; [done|done|]. by rewrite app_nil_r. }
  unfold rollback. destruct Hrb as [|mc|mc]; cbn [reverse app rev_append m_for].
  - rewrite app_nil_r in HI. wpp_go. destruct s. by apply HQ'.
  - simpl. wpp_go. eapply (wpp_run_mountCleanup P b (owned_list (svc s))); [|done|].
    + eapply Inv_sub; [exact HI|set_solver..].
    + intros. wpp_go. by apply HQ'.
  - unfold reverse. simpl. apply wpp_bind, wpp_bind.
    eapply (wpp_ReleaseNetworkResources P b (mnts_of mc ++ owned_list (svc s))).
    { eapply Inv_sub; [exact HI|set_solver..]. }
    intros e w t HI1. wpp_go. eapply (wpp_run_mountCleanup P b (owned_list (svc s))); [exact HI1|done|].
    intros. wpp_go. by apply HQ'.
Qed.

Lemma wf_set_vm m (s : service) : wf s → wf (set_vm m s).
Proof. by intros []. Qed.

Lemma Inv_no_vm b X (s : service) m t :
  Inv b X s t → vmLifecycle s = VmManager.NilIface → (∀ a, m ≠ VmManager.Inst a) →
  Inv b X (set_vm m s) t.
Proof.
  intros HI Ev Hm. eapply Inv_move; [exact HI|apply wf_set_vm, HI|done| |].
  - intros [] _ [Ho|?]; auto. simpl in Ho. congruence.
  - intros [] _ [Ho|?]; auto. simpl in Ho. by destruct (Hm a).
Qed.

Lemma Inv_new_vm b X (s : service) a t :
  Inv b X s t → vmLifecycle s = VmManager.NilIface → RVm a ∉ X →
  Inv b X (set_vm (VmManager.Inst a) s) (t ++ [EvVM a]).
Proof.
  intros HI Ev HX. eapply (Inv_move _ (RVm a :: X) X s); [|apply wf_set_vm, HI|done| |].
  - apply Inv_acquire; [done|done| |done]. intros H Hh Hr.
    destruct HI as [_ (H' & Hh' & H1 & _ & _)]. simplify_eq.
    destruct (H1 _ Hr) as [Ho|?]; [by intros f [=]| |done]. simpl in Ho. congruence.
  - intros r _. rewrite elem_of_cons. destruct r; simpl; rewrite ?Ev; naive_solver.
  - intros r _. rewrite elem_of_cons. destruct r; simpl; rewrite ?Ev; naive_solver.
Qed.

Lemma wpp_CreateVM P b id bundle (Q : result VmManager.iface → ST → Prop) s :
  I b [] s → vmLifecycle (svc s) = VmManager.NilIface →
  (∀ e m w, (∀ a, m ≠ VmManager.Inst a) → I b [] (mkSt (set_vm m (svc s)) w (trace s)) →
     Q (Err e) (mkSt (set_vm m (svc s)) w (trace s))) →
  (∀ a w, let s' := mkSt (set_vm (VmManager.Inst a) (svc s)) w (trace s ++ [EvVM a]) in
     I b [] s' → Q (Ok (VmManager.Inst a)) s') →
  wpp P (CreateVM id bundle) Q s.
Proof.
  intros HI Ev He HQ. unfold wpp, CreateVM, VmManager.CreateVM. rewrite Ev.
  assert (He' : ∀ e m w, (∀ a, m ≠ VmManager.Inst a) →
    Q (Err e) (mkSt (set_vm m (svc s)) w (trace s ++ []))).
  { intros e m w Hm. rewrite app_nil_r. apply He; [done|]. by apply Inv_no_vm. }
  destruct (VmManager.mkdirAll _ _) as [[e|] w1]; [by apply He'|].
  unfold VmManager.NewInstance. destruct (VmManager.findQemu w1) as [e|]; [by apply He'|].
  destruct (VmManager.mkdirState _ _) as [[e|] w2]; [by apply He'|].
  destruct (VmManager.newInstance w2) as [[a|e] w3]; [|by apply He'].
  apply HQ. apply Inv_new_vm; [done|done|set_solver].
Qed.

(** [setupVMInstance] on an idle shim. *)
Lemma wpp_setup_devices P b r bd cfg sup a (Q : result createState * list cleanupStep → ST → Prop) s :
  I b [] s → cont (svc s) = None →
  (∀ x s' X, creating (svc s) (svc s') → vmLifecycle (svc s') = vmLifecycle (svc s) →
     rollback_for (ID r) x.2 X → I b X s' →
     (∀ cs, x.1 = Ok cs → vmInstance cs = VmManager.Inst a ∧ X = RNet (ID r) :: mnts_of (cs_mountCleanup cs)) →
     Q x s') →
  wpp P (setup_devices r bd cfg sup (VmManager.Inst a)) Q s.
Proof.
  intros HI Hc HQ. unfold setup_devices, on_inst. wpp_go. destruct a0 as [[has mounts]|e].
  2:{ wpp_go. eapply HQ; [by apply creating_refl|done|constructor|exact HI|done]. }
  apply wpp_bind.
  assert (HN : ∀ mc s1, creating (svc s) (svc s1) → vmLifecycle (svc s1) = vmLifecycle (svc s) →
    I b (mnts_of mc) s1 → wpp P (m_bind (call (net_Setup a (ID r) ("/var/run/netns/" +:+ ID r))) (λ n,
      match n with
      | Err e => m_ret (Err e, [("mounts", run_mountCleanup mc)])
      | Ok netCfg => m_bind (emit (EvNetSetup (ID r))) (λ _,
          m_ret (Ok (mkCreateState bd cfg (VmManager.Inst a) mc mounts netCfg
                       ("/var/run/netns/" +:+ ID r) sup),
                 [("mounts", run_mountCleanup mc)] ++ [("network", ReleaseNetworkResources (ID r))]))
      end)) Q s1).
  { intros mc s1 Hcr Ev HI1. wpp_go. destruct a0 as [netCfg|e]; wpp_go.
    - eapply HQ; [done|done|constructor| |by intros cs [= <-]]. apply Inv_acquire; [exact HI1|done| |done].
      intros H' Hh Hr. destruct HI1 as [_ (H2 & Hh2 & H3 & _)]. simplify_eq.
      destruct (H3 _ Hr) as [Ho|Ho]; [by intros f [=]| |].
      + destruct Ho as (c & Ec & _). destruct Hcr. congruence.
      + unfold mnts_of in Ho. destruct mc; set_solver.
    - eapply HQ; [done|done|constructor|exact HI1|done]. }
  destruct has.
  - apply wpp_bind, wpp_alloc, wpp_bind, wpp_emit, wpp_ret, HN; [by split|done|].
    apply Inv_new; [exact HI|done|simpl; lia..].
  - apply wpp_ret, HN; [by split|done|exact HI].
Qed.

(** A created state is backed by the manager's VM. *)
Definition backed (s : service) (cs : createState) (id : string) (X : list res) : Prop :=
  ∃ a, vmLifecycle s = VmManager.Inst a ∧ vmInstance cs = VmManager.Inst a ∧
    X = RNet id :: mnts_of (cs_mountCleanup cs).

Lemma wpp_ComputeConfig P bd (Q : Resources.VMResourceConfig → ST → Prop) s :
  (P ∨ ∃ cfg info, Resources.ComputeConfig (numCPU (world s)) (meminfo (world s)) (spec bd) =
         Some (Return (cfg, info))) →
  (∀ cfg, Q cfg s) → wpp P (ComputeConfig bd) Q s.
Proof.
  intros Hok HQ. unfold ComputeConfig. wpp_go.
  destruct (Resources.ComputeConfig _ _ _) as [[[cfg info]|msg]|]; wpp_go; [apply HQ| |];
    apply wpp_panic; naive_solver.
Qed.

Lemma wpp_load_supervisor P bd (Q : result (option Supervisor.Config) → ST → Prop) s :
  (∀ r, Q r s) → wpp P (load_supervisor bd) Q s.
Proof. intros HQ. unfold load_supervisor. repeat case_match; wpp_go; apply HQ. Qed.

Lemma wpp_setupVMInstance P b r (Q : result createState * list cleanupStep → ST → Prop) s :
  config_ok P r → I b [] s → cont (svc s) = None → vmLifecycle (svc s) = VmManager.NilIface →
  (∀ x s' X, creating (svc s) (svc s') → rollback_for (ID r) x.2 X → I b X s' →
     (∀ cs, x.1 = Ok cs → backed (svc s') cs (ID r) X) → Q x s') →
  wpp P (setupVMInstance r) Q s.
Proof.
  intros Hcfg HI Hc Ev HQ.
  assert (HE : ∀ e s', creating (svc s) (svc s') → I b [] s' → Q (Err e, []) s').
  { intros e s' Hcr HI'. eapply HQ; [done|constructor|exact HI'|done]. }
  unfold setupVMInstance. wpp_go.
  destruct (checkKVM _) as [e|]; [by wpp_go; apply HE; [apply creating_refl|]|].
  wpp_go. destruct a as [bd|e]; [|by wpp_go; apply HE; [apply creating_refl|]].
  apply wpp_bind, wpp_ComputeConfig; [by eapply Hcfg|]. intros cfg.
  apply wpp_bind, wpp_load_supervisor. intros [sup|e]; [|by wpp_go; apply HE; [apply creating_refl|]].
  apply wpp_bind. eapply wpp_CreateVM; [exact HI|done| |].
  { intros e m w' _ HI'. wpp_go. apply HE; [by split|done]. }
  intros a w' s' HI'. eapply wpp_setup_devices; [exact HI'|done|].
  intros x s2 X Hcr Ev2 Hrb HI2 Hok. eapply HQ; [|done|done|].
  - eapply creating_trans; [|exact Hcr]. by split.
  - intros cs Ex. destruct (Hok cs Ex) as [? ->]. exists a. by rewrite Ev2.
Qed.

Lemma wpp_startVM P b X r cs (Q : option error → ST → Prop) s :
  I b X s → cont (svc s) = None → backed (svc s) cs r X →
  (∀ e s', creating (svc s) (svc s') → vmLifecycle (svc s') = vmLifecycle (svc s) →
     nextRef (svc s') = nextRef (svc s) → I b X s' → Q e s') →
  wpp P (startVM cs) Q s.
Proof.
  intros HI Hc (a & Ev & Ea & _) HQ. unfold startVM, on_inst. rewrite Ea. wpp_go.
  destruct a0 as [e|]; [by wpp_go; apply HQ; [apply creating_refl|..]|]. wpp_go.
  injection H0 as <- <-. unfold wpp at 1, vm_call, VmManager.Client. simpl. rewrite Ev.
  set (sm := StateMachine.SetIntentionalShutdown false (stateMachine (svc s))).
  assert (HI1 : Inv b X (set_sm sm (svc s)) (trace s)) by by eapply Inv_frame, HI.
  destruct (VmManager.inst_Client a w) as [[c|e] w1]; [|by wpp_go; apply HQ; [split|..]].
  wpp_go. destruct a0 as [e|]; wpp_go; apply HQ; try done; try by split. by apply Inv_neutral.
Qed.

Lemma wpp_createTaskInVM P b X r cs (Q : result (Z * Z) → ST → Prop) s :
  I b X s → cont (svc s) = None → backed (svc s) cs (ID r) X →
  (∀ e s', creating (svc s) (svc s') → I b X s' → Q (Err e) s') →
  (∀ p f s', creating (svc s) (svc s') → vmLifecycle (svc s') = vmLifecycle (svc s) →
     I b (RFwd f :: X) s' → Q (Ok (p, f)) s') →
  wpp P (createTaskInVM r cs) Q s.
Proof.
  intros HI Hc (a & Ev & Ea & _) HE HQ. unfold createTaskInVM.
  destruct (inject_supervisor cs) as [bd|e]; [|by wpp_go; apply HE; [apply creating_refl|]].
  apply wpp_bind. unfold wpp at 1, vm_call, VmManager.DialClient. rewrite Ev.
  destruct (VmManager.inst_DialClient a (world s)) as [[c|e] w1]; [|by wpp_go; apply HE; [split|]].
  assert (HI1 : Inv b X (svc s) (trace s ++ [EvDialed c])) by by apply Inv_neutral.
  wpp_go. destruct (Files bd) as [fs|e]; [|by wpp_go; apply HE; [split|]]. wpp_go.
  destruct a0 as [gb|e]; [|by wpp_go; apply HE; [split|]]. rewrite Ea. apply wpp_bind.
  eapply wpp_make_forwarder; [exact HI1|intros; wpp_go; by apply HE; [split|]|].
  intros cio f w2 s2 HI2. wpp_go. destruct a0 as [p|e].
  - wpp_go. apply HQ; [by split|done|]. by apply Inv_neutral.
  - unfold forwarder_Shutdown. wpp_go. apply HE; [by split|].
    eapply Inv_release_local; [exact HI2|done|done|by right|done].
Qed.

(** Only the controllers and the addresses change. *)
Record same_but_ctls (s s' : service) : Prop := mkSame
  { sb_cont : cont s' = cont s; sb_id : containerID s' = containerID s;
    sb_vm : vmLifecycle s' = vmLifecycle s; sb_sm : stateMachine s' = stateMachine s;
    sb_events : events s' = events s; sb_started : initStarted s' = initStarted s;
    sb_inflight : inflight s' = inflight s }.

(** A new CPU controller is registered for the container. *)
Lemma Inv_add_cpu b (s : service) o t :
  Inv b [] s t → is_Some (cont s) → cpuHotplugControllers (ctls s) = ∅ →
  CpuHotplug.stopCh o = OpenChan →
  Inv b [] (set_ctls (mkControllers {[containerID s := nextRef s]} (memoryHotplugControllers (ctls s))
              (<[nextRef s := o]> (cpuObjs (ctls s))) (memObjs (ctls s)))
              (set_next (nextRef s + 1) s)) (t ++ [EvCpuStart (nextRef s)]).
Proof.
  intros HI Hc Em Ho. pose proof (inv_wf _ _ _ _ HI) as Hwf.
  eapply (Inv_move _ [RCpu (nextRef s)] _ (set_next (nextRef s + 1) s));
    [apply Inv_new; [exact HI|done|simpl; lia..]| |done| |].
  - destruct Hwf as [w1 w2 w3 w4]. split; simpl; try done.
    intros k c [<- <-]%lookup_singleton_Some. split; [done|]. split; [done|]. exists o.
    by rewrite lookup_insert_eq.
  - intros [] _ Hr; simpl in *; rewrite ?Em in Hr; set_unfold; try naive_solver.
    destruct Hr as [[k Hk]|[[= ->]|?]]; [by rewrite lookup_empty in Hk| |done].
    left. exists (containerID s). by rewrite lookup_singleton_eq.
  - intros [] _ Hr; simpl in *; rewrite ?Em; set_unfold; try naive_solver.
    destruct Hr as [[k [_ <-]%lookup_singleton_Some]|?]; naive_solver.
Qed.

Lemma Inv_add_mem b (s : service) o t :
  Inv b [] s t → is_Some (cont s) → memoryHotplugControllers (ctls s) = ∅ →
  (∀ o', o = Some o' → MemHotplug.started o' = true) →
  Inv b [] (set_ctls (mkControllers (cpuHotplugControllers (ctls s)) {[containerID s := nextRef s]}
              (cpuObjs (ctls s)) (<[nextRef s := o]> (memObjs (ctls s))))
              (set_next (nextRef s + 1) s)) (t ++ [EvMemStart (nextRef s)]).
Proof.
  intros HI Hc Em Ho. pose proof (inv_wf _ _ _ _ HI) as Hwf.
  eapply (Inv_move _ [RMem (nextRef s)] _ (set_next (nextRef s + 1) s));
    [apply Inv_new; [exact HI|done|simpl; lia..]| |done| |].
  - destruct Hwf as [w1 w2 w3 w4]. split; simpl; try done.
    intros k c [<- <-]%lookup_singleton_Some. split; [done|]. split; [done|]. exists o.
    by rewrite lookup_insert_eq.
  - intros [] _ Hr; simpl in *; rewrite ?Em in Hr; set_unfold; try naive_solver.
    destruct Hr as [[k Hk]|[[= ->]|?]]; [by rewrite lookup_empty in Hk| |done].
    left. exists (containerID s). by rewrite lookup_singleton_eq.
  - intros [] _ Hr; simpl in *; rewrite ?Em; set_unfold; try naive_solver.
    destruct Hr as [[k [_ <-]%lookup_singleton_Some]|?]; naive_solver.
Qed.

Lemma wpp_start_cpu P b a cfg id (Q : () → ST → Prop) s :
  I b [] s → containerID (svc s) = id → is_Some (cont (svc s)) → cpuHotplugControllers (ctls (svc s)) = ∅ →
  (∀ s', I b [] s' → same_but_ctls (svc s) (svc s') →
     memoryHotplugControllers (ctls (svc s')) = memoryHotplugControllers (ctls (svc s)) → Q tt s') →
  wpp P (m_bind (StartCPUHotplug (VmManager.Inst a) cfg) (λ cpuCtrl,
    opt_do cpuCtrl (λ c, upd (λ v, set_ctls
      (set_cpuMap (<[id := c]> (cpuHotplugControllers (ctls v))) (ctls v)) v)))) Q s.
Proof.
  intros HI <- Hc Em HQ. assert (HN : Q tt s) by by apply HQ.
  unfold StartCPUHotplug, on_inst. destruct (_ <=? _) eqn:Ele; [by wpp_go|]. wpp_go.
  destruct (inst_QMPClient _ _); [|by wpp_go]. wpp_go.
  destruct (inst_CPUHotplugger _ _); [|by wpp_go]. unfold CpuHotplug.NewController. rewrite Ele. wpp_go.
  simpl. wpp_go. apply HQ; [|done|done]. simpl. rewrite Em.
  by apply (Inv_add_cpu b (svc s)).
Qed.

Lemma wpp_start_mem P b a cfg id (Q : () → ST → Prop) s :
  I b [] s → containerID (svc s) = id → is_Some (cont (svc s)) → memoryHotplugControllers (ctls (svc s)) = ∅ →
  (∀ s', I b [] s' → same_but_ctls (svc s) (svc s') → Q tt s') →
  wpp P (m_bind (StartMemoryHotplug (VmManager.Inst a) cfg) (λ memCtrl,
    opt_do memCtrl (λ c, upd (λ v, set_ctls
      (set_memMap (<[id := c]> (memoryHotplugControllers (ctls v))) (ctls v)) v)))) Q s.
Proof.
  intros HI <- Hc Em HQ. assert (HN : Q tt s) by by apply HQ.
  unfold StartMemoryHotplug, on_inst. wpp_go. destruct (inst_QMPClient _ _); [|by wpp_go]. wpp_go.
  simpl. wpp_go. apply HQ; [|done]. simpl. rewrite Em. apply (Inv_add_mem b (svc s)); [done..|].
  intros o' (o & Eo & ->)%fmap_Some. unfold MemHotplug.Start, MemHotplug.NewController in *.
  by case_match; simplify_eq.
Qed.

(** The container of a request, with its pid and forwarder. *)
Definition new_container (r : CreateTaskRequest) (mc : option Z) (p f : Z) : container :=
  mkContainer p (Some (mkTaskIO (mkPio (cr_io r) (Some f)) ∅)) mc.

Lemma no_maps_of_wf (s : service) : wf s → cont s = None → no_maps (ctls s).
Proof.
  intros Hwf Hc. split; apply map_eq; intros k; rewrite lookup_empty; apply eq_None_not_Some; intros [c Hk].
  - apply (wf_cpu _ Hwf) in Hk as (_ & [? ?] & _). congruence.
  - apply (wf_mem _ Hwf) in Hk as (_ & [? ?] & _). congruence.
Qed.

Lemma Inv_new_container b (s : service) r mc p f t :
  Inv b (RFwd f :: RNet (ID r) :: mnts_of mc) s t → cont s = None →
  Inv b [] (set_cid (ID r) (set_cont (Some (new_container r mc p f)) s)) t.
Proof.
  intros HI Hc. destruct (no_maps_of_wf _ (inv_wf _ _ _ _ HI) Hc) as [E1 E2].
  eapply Inv_move; [exact HI| |done| |].
  - split; simpl; rewrite ?E1, ?E2; try done. intros c [= <-]. eexists. split; [done|].
    unfold io_forwarders. simpl. rewrite map_to_list_empty. set_solver.
  - intros res _ [Hr|Hr]; left.
    + destruct res; simpl in *; rewrite ?E1, ?E2, ?Hc in *; naive_solver.
    + rewrite !elem_of_cons in Hr. destruct Hr as [->|[->|Hr]]; simpl.
      * eexists. split; [done|]. by left.
      * by eexists.
      * destruct mc as [m|]; [|set_solver]. apply list_elem_of_singleton in Hr as ->. by eexists.
  - intros res He [Hr|Hr]; [|set_solver]. destruct res; simpl in *; try done; rewrite ?E1, ?E2 in *.
    + auto.
    + auto.
    + destruct Hr as (c & [= <-] & Hm). simpl in Hm. subst mc. set_solver.
    + auto.
Qed.

(** The service with its container. *)
Record created (r : CreateTaskRequest) (p : Z) (s s' : service) : Prop := mkCreated
  { crd_cont : ∃ mc f, cont s' = Some (new_container r mc p f);
    crd_id : containerID s' = ID r;
    crd_vm : ∃ a, vmLifecycle s' = VmManager.Inst a;
    crd_events : events s' = events s }.

Lemma wpp_finalizeCreate P b r cs p f X (Q : () → ST → Prop) s :
  I b (RFwd f :: X) s → backed (svc s) cs (ID r) X → cont (svc s) = None →
  (∀ s', I b [] s' → created r p (svc s) (svc s') → stateMachine (svc s') = stateMachine (svc s) →
     Q tt s') →
  wpp P (finalizeCreate r cs p f) Q s.
Proof.
  intros HI (a & Ev & Ea & ->) Hc HQ. destruct (no_maps_of_wf _ (inv_wf _ _ _ _ HI) Hc) as [E1 E2].
  unfold finalizeCreate. rewrite Ea. apply wpp_bind, wpp_upd, wpp_assoc, wpp_bind.
  eapply wpp_start_cpu; [by eapply Inv_new_container|done|by eexists|done|].
  intros s1 HI1 [h1 h2 h3 h4 h5 h6 h7] Emem.
  eapply wpp_start_mem; [done|done|by rewrite h1; eexists|by rewrite Emem|].
  intros s2 HI2 [k1 k2 k3 k4 k5 k6 k7]. apply HQ; [done| |by rewrite k4, h4].
  split; [|by rewrite k2, h2|by exists a; rewrite k3, h3|by rewrite k5, h5].
  exists (cs_mountCleanup cs), f. by rewrite k1, h1.
Qed.

Lemma wpp_create_phases P b r (Q : result (createState * (Z * Z)) → ST → Prop) s :
  config_ok P r → I b [] s → cont (svc s) = None → vmLifecycle (svc s) = VmManager.NilIface →
  (∀ e s', creating (svc s) (svc s') → I b [] s' → Q (Err e) s') →
  (∀ cs p f s' X, creating (svc s) (svc s') → backed (svc s') cs (ID r) X →
     I b (RFwd f :: X) s' → Q (Ok (cs, (p, f))) s') →
  wpp P (create_phases r) Q s.
Proof.
  intros Hcfg HI Hc Ev HE HQ. unfold create_phases. apply wpp_bind.
  eapply wpp_setupVMInstance; [done..|]. intros [x steps] s1 X Hcr Hrb HI1 Hok. simpl in *.
  assert (HR : ∀ e s', creating (svc s) (svc s') → I b X s' →
    wpp P (m_bind (rollback steps) (λ _, m_ret (Err e))) Q s').
  { intros e s' Hcr' HI'. apply wpp_bind. eapply wpp_rollback; [done|done|apply Hcr'|].
    intros w t HI2. wpp_go. by apply HE. }
  destruct x as [cs|e]; [|by apply HR]. specialize (Hok cs eq_refl).
  apply wpp_bind. eapply wpp_startVM; [done|apply Hcr|done|]. intros e s2 Hcr2 Ev2 _ HI2.
  assert (Hcr' : creating (svc s) (svc s2)) by by eapply creating_trans.
  destruct e as [e|]; [by apply HR|]. apply wpp_bind.
  assert (Hok2 : backed (svc s2) cs (ID r) X).
  { destruct Hok as (a & ? & ?). exists a. by rewrite Ev2. }
  eapply wpp_createTaskInVM; [done|apply Hcr'|done| |].
  - intros e s3 Hcr3 HI3. apply HR; [by eapply creating_trans|done].
  - intros p f s3 Hcr3 Ev3 HI3. wpp_go. eapply HQ; [by eapply creating_trans| |exact HI3].
    destruct Hok2 as (a & ? & ?). exists a. by rewrite Ev3.
Qed.

Lemma wpp_Create P b r (Q : result Z → ST → Prop) s :
  config_ok P r → I b [] s →
  (∀ e, Q (Err e) s) →
  (∀ e s', cont (svc s) = None → vmLifecycle (svc s) = VmManager.NilIface →
     StateMachine.state (stateMachine (svc s)) = StateMachine.StateIdle →
     creating (svc s) (svc s') → I b [] s' → Q (Err e) s') →
  (∀ p s', cont (svc s) = None → created r p (svc s) (svc s') → I b [] s' →
     StateMachine.state (stateMachine (svc s')) = StateMachine.StateRunning → Q (Ok p) s') →
  wpp P (Create r) Q s.
Proof.
  intros Hcfg HI Hrefuse HE HQ. unfold Create. apply wpp_bind.
  eapply wpp_validate; [by intros; wpp_go|]. intros Hc Ev Est. apply wpp_bind.
  eapply wpp_create_phases; [done|by eapply Inv_frame, HI|done|done| |].
  - intros e s' Hcr HI'. apply wpp_bind, wpp_on_sm. intros a sm Esm. wpp_go.
    destruct Hcr as [c1 c2 c3 c4 c5 c6 c7]. simpl in *.
    unfold StateMachine.MarkCreationFailed, StateMachine.CompareAndSwap in Esm.
    rewrite bool_decide_true in Esm by done. simplify_eq/=.
    apply HE; [done|done|done| |by eapply Inv_frame, HI'].
    split; simpl; congruence.
  - intros cs p f s' X Hcr Hok HI'. apply wpp_bind.
    eapply wpp_finalizeCreate; [done|done|apply Hcr|]. intros s2 HI2 [d1 d2 d3 d4] Esm2.
    apply wpp_bind, wpp_on_sm. intros a sm Esm. wpp_go. destruct Hcr as [c1 c2 c3 c4 c5 c6 c7]. simpl in *.
    unfold StateMachine.MarkCreated, StateMachine.CompareAndSwap in Esm.
    rewrite Esm2, bool_decide_true in Esm by done. simplify_eq/=.
    apply HQ; [done| |by eapply Inv_frame, HI2|done]. split; [done|done|done|].
    simpl. by rewrite d4, c4.
Qed.
End create.

(** ** Runs *)

(** An exec request with a name that is in use. *)
Definition fresh_request (r : request) (s : service) : Prop :=
  match r with RExec id e _ => exec_fresh id e s | _ => True end.

Section runs.
Context {W : Type} `{OW : !VmManager.Ops W, OT : !TaskOps W}.
Notation ST := (st W).
Implicit Types (s : ST) (w : W).

(** A step of the service that does not reuse the name of an exec. *)
Definition fresh_step (s s' : ST) : Prop :=
  ∃ r, fresh_request r (svc s) ∧ handle r s = Return (tt, s').

Lemma I_init b w : I b [] (init_st w).
Proof.
  split; [by apply (wf_void 0)|]. exists ∅. split; [done|]. split; [set_solver|].
  split; [|set_solver]. intros r _ [Ho|?]; [|set_solver]. by apply (owned_void 0) in Ho.
Qed.

Lemma wpp_handle b r s :
  I b [] s → (b = true → fresh_request r (svc s)) → wpp True (handle r) (λ _, I b []) s.
Proof.
  intros HI Hf. destruct r; unfold handle, ignore;
    try match goal with |- wpp _ (m_bind _ _) _ _ => apply wpp_bind end.
  - apply (wpp_Create True b); try done; intros; wpp_go; try done. by left.
  - by apply (wpp_Start True b).
  - by apply (wpp_Delete True b).
  - by apply (wpp_Exec True b).
  - by apply (wpp_State True b).
  - by apply (wpp_Connect True b).
  - by apply (wpp_CloseIO True b).
  - by apply (wpp_ask_guest True b).
  - by apply (wpp_Shutdown True b).
  - by apply (wpp_forward_event True b).
  - apply (wpp_shutdown True b); try done.
  - by apply (wpp_requestShutdownAndExit True b).
Qed.

Lemma fresh_reachable_I w s : rtc fresh_step (init_st w) s → I true [] s.
Proof.
  apply (rtc_ind_r (λ s, I true [] s)); [apply I_init|]. intros s1 s2 _ (r & Hf & Hr) HI.
  pose proof (wpp_handle true r s1 HI (λ _, Hf)) as Hw. unfold wpp in Hw. by rewrite Hr in Hw.
Qed.

Lemma reachable_I w s : rtc step (init_st w) s → I false [] s.
Proof.
  apply (rtc_ind_r (λ s, I false [] s)); [apply I_init|]. intros s1 s2 _ [r Hr] HI.
  pose proof (wpp_handle false r s1 HI (λ H, match diff_false_true H with end)) as Hw.
  unfold wpp in Hw. by rewrite Hr in Hw.
Qed.


(** Nothing is held. *)
Lemma held_none n t : Inv true [] (void n) t → held t = Some ∅.
Proof.
  intros [_ (H & Hh & H1 & _)]. rewrite Hh. f_equal. apply set_eq. intros r. split; [|set_solver].
  intros Hr. destruct (H1 r Hr) as [Ho|?]; [done| |set_solver]. by apply owned_void in Ho.
Qed.


(** After a deletion the callback has nothing left to release. *)
Lemma shutdown_after_delete s :
  cont (svc s) = None → containerID (svc s) = "" → no_maps (ctls (svc s)) →
  vmLifecycle (svc s) = VmManager.NilIface →
  ∃ r s', shutdown s = Return (r, s') ∧ trace s' = trace s ++ [EvNetClose].
Proof.
  destruct s as [[sm vm cm c cid [m1 m2 o1 o2] ev inf st n] w t]. simpl. intros -> -> [E1 E2] ->.
  simpl in E1, E2. subst m1 m2.
  unfold shutdown, on_sm, buildCleanupPhases, extractMountCleanup, orchestrate, Cleanup.Execute,
    Cleanup.executeFrom, m_bind, get, m_get, upd, m_modify, m_ret. simpl.
  unfold stopAllHotplugControllers, shutdownAllIO, vm_Shutdown, m_bind, get, m_get, upd, m_modify, m_ret.
  simpl. rewrite !map_to_list_empty. simpl. rewrite app_nil_r.
  unfold call, emit, m_modify. simpl. destruct (net_Close w). by eexists _, _.
Qed.

(** While no container is recorded, only a VM can be held. *)
Lemma held_only_vm s H r :
  I true [] s → cont (svc s) = None → held (trace s) = Some H → r ∈ H →
  ∃ a, r = RVm a ∧ vmLifecycle (svc s) = VmManager.Inst a.
Proof.
  intros HI Hc Hh Hr. destruct (no_maps_of_wf _ (inv_wf _ _ _ _ HI) Hc) as [E1 E2].
  destruct HI as [_ (H' & Hh' & H1 & _)]. simplify_eq. destruct (H1 r Hr) as [Ho|?]; [done| |set_solver].
  destruct r; simpl in Ho; rewrite ?Hc, ?E1, ?E2 in Ho; naive_solver.
Qed.


Lemma errors_Is_refl msg c : errors_Is (ErrWrap msg (ErrSentinel c)) c = true.
Proof. simpl. by apply bool_decide_eq_true. Qed.

(** A shim that has a VM creates no container. *)
Lemma Create_refused s r :
  vmLifecycle (svc s) ≠ VmManager.NilIface →
  ∃ e, Create r s = Return (Err e, s) ∧
    (Checkpoint r = "" → ParentCheckpoint r = "" →
     StateMachine.state (stateMachine (svc s)) ≠ StateMachine.StateShuttingDown →
     errors_Is e ErrAlreadyExists = true).
Proof.
  intros Hvm. destruct s as [[[st int] vm cm c cid cs ev inf sd n] w t]. simpl in Hvm.
  unfold Create, validateCreateRequest, m_bind, m_ret.
  destruct (_ || _) eqn:Eck.
  { eexists. split; [done|]. intros E1 E2. rewrite E1, E2 in Eck. done. }
  unfold on_sm, get, m_get, upd, m_modify, m_bind, m_ret, StateMachine.TryStartCreating,
    StateMachine.CompareAndSwap. simpl.
  destruct st; simpl; try (eexists; split; [done|]; intros; by (apply errors_Is_refl || done)).
  destruct vm as [| |a]; [done|..]; simpl; eexists; (split; [done|]); intros; apply errors_Is_refl.
Qed.

(** A creation that fails after its VM was made wedges the shim.  The VM is
    not shut down by the roll-back and stays with the manager, so that, although
    the state machine is idle again, every further creation is refused as
    "already exists" and a deletion is refused because the state is idle: only
    the end of the shim gives up the VM. *)
Theorem failed_create_keeps_vm w s r e s' a :
  rtc fresh_step (init_st w) s → config_ok False r →
  vmLifecycle (svc s) = VmManager.NilIface → Create r s = Return (Err e, s') →
  vmLifecycle (svc s') = VmManager.Inst a →
  (∃ H, held (trace s') = Some H ∧ RVm a ∈ H) ∧
  StateMachine.state (stateMachine (svc s')) = StateMachine.StateIdle ∧
  (∀ r2, Checkpoint r2 = "" → ParentCheckpoint r2 = "" →
    ∃ e2, Create r2 s' = Return (Err e2, s') ∧ errors_Is e2 ErrAlreadyExists = true) ∧
  (∀ id, ∃ e3 s3, Delete id "" s' = Return (Err e3, s3) ∧ trace s3 = trace s').
Proof.
  intros Hr Hcfg Hvm HC Ha. apply fresh_reachable_I in Hr.
  assert (Hp : I true [] s' ∧ StateMachine.state (stateMachine (svc s')) = StateMachine.StateIdle).
  { assert (HW : wpp False (Create r) (λ res s', vmLifecycle (svc s') = vmLifecycle (svc s) ∨
      is_ok res = true ∨ I true [] s' ∧
      StateMachine.state (stateMachine (svc s')) = StateMachine.StateIdle) s).
    { apply (wpp_Create False true); [done|done|by left| |by right; left].
      intros e1 s1 _ _ Hst Hcr HI. right; right. split; [done|]. by rewrite (cre_state _ _ Hcr). }
    unfold wpp in HW. rewrite HC in HW. destruct HW as [?|[?|?]]; [congruence|done|done]. }
  destruct Hp as [HI Hst]. split; [|split; [done|split]].
  - destruct HI as [_ (H & Hh & _ & H2 & _)]. exists H. split; [done|]. apply H2; [done|by left].
  - intros r2 E1 E2. destruct (Create_refused s' r2) as (e2 & Hc & He); [congruence|].
    exists e2. split; [done|]. apply He; try done. congruence.
  - intros id. destruct s' as [[[st int] vm cm c cid cs ev inf sd n] w' t]. simpl in *. subst st.
    by eexists _, _.
Qed.

(** The client of the guest is there or can be dialed in time. *)
Context (clock : W → Time) `{CL : !VmManager.ClockLaws W clock}.

Lemma dial_loop_no_panic fuel m deadline backoff w msg :
  m ≠ VmManager.NilInstance → VmManager.dial_loop fuel m deadline backoff w ≠ Some (Panic msg).
Proof.
  intros Hm. revert backoff w. induction fuel as [|fuel IH]; intros backoff w; [done|]. simpl.
  destruct (VmManager.DialClient m w) as [[[c|e] w1]|msg'] eqn:E; [done| |].
  - destruct (negb _); [done|]. destruct (VmManager.now w1). destruct (_ <? _); [done|]. apply IH.
  - unfold VmManager.DialClient in E. by destruct m.
Qed.

Lemma safe_False m : m ≠ VmManager.NilInstance → safe (W := W) False m.
Proof.
  intros Hm. split; [done|]. intros s msg <-. unfold getTaskClient, ConnManager.GetClient, ConnManager.getOrCreateClient.
  destruct (ConnManager.GetClient_fast _); [done|]. destruct (ConnManager.closed _); [done|].
  destruct (ConnManager.client _); [done|]. unfold dialRetry.
  assert (Ht : is_Some (VmManager.DialClientWithRetry dial_fuel (vmLifecycle (svc s))
                 taskClientRetryTimeout (world s))).
  { unfold VmManager.DialClientWithRetry. destruct (VmManager.law_now (world s)) as [H1 H2].
    destruct (VmManager.now (world s)) as [t w1]. cbn [fst snd] in *. subst t.
    assert (Ef : Z.of_nat dial_fuel = 53) by reflexivity.
    apply (dial_loop_terminates clock); [done|lia|]. rewrite Ef.
    unfold taskClientRetryTimeout, VmManager.vsockRetryInitialBackoff, Second, Millisecond. lia. }
  destruct Ht as [o Eo]. rewrite Eo. destruct o as [[[c|e] w']|msg']; [done|done|].
  exfalso. unfold VmManager.DialClientWithRetry in Eo. destruct (VmManager.now (world s)).
  by eapply dial_loop_no_panic.
Qed.

(** What [Delete] of the container leaves, by its result. *)
Definition delete_post id (s : ST) (r : result DeleteResponse) (s' : ST) : Prop :=
  StateMachine.state (stateMachine (svc s')) = StateMachine.state (stateMachine (svc s)) ∧
  match r with
  | Ok resp =>
      held (trace s') = Some ∅ ∧ cont (svc s') = None ∧ containerID (svc s') = "" ∧
      no_maps (ctls (svc s')) ∧ vmLifecycle (svc s') = VmManager.NilIface ∧
      (eventsClosed (events (svc s)) = false → closed (events (svc s)) = false →
       sent (events (svc s')) = sent (events (svc s)) ++ [EvTaskDelete id resp]) ∧
      last (trace s') = Some (EvExitRequested "container deleted")
  | Err _ =>
      trace s' = trace s ∨
      ∃ H, held (trace s') = Some H ∧ ∀ r, r ∈ H → (∃ c, r = RCpu c) ∨ (∃ c, r = RMem c)
  end.

(** The guest has deleted the container. *)
Lemma wpp_delete_accepted P id c resp cm w s :
  Inv true [] (set_conn cm (svc s)) (trace s) → (vmLifecycle (svc s) = VmManager.NilInstance → P) →
  container_of id (svc s) = Some c →
  wpp P (m_bind (send (EvTaskDelete id resp)) (λ _, m_bind (collectDeleteCleanup id "") (λ d,
    m_bind (runDeleteCleanup id d) (λ _, m_ret (Ok resp))))) (delete_post id s)
    (mkSt (set_conn cm (svc s)) w (trace s)).
Proof.
  intros HI HP Hc. apply wpp_bind. set (s1 := mkSt _ w (trace s)). set (ev := events (svc s)).
  assert (HD : ∀ ev', (eventsClosed ev = false → closed ev = false →
      sent ev' = sent ev ++ [EvTaskDelete id resp]) →
    wpp P (m_bind (collectDeleteCleanup id "") (λ d,
      m_bind (runDeleteCleanup id d) (λ _, m_ret (Ok resp)))) (delete_post id s)
      (mkSt (set_events ev' (svc s1)) (world s1) (trace s1))).
  { intros ev' Hev'. apply wpp_assoc, wpp_bind. eapply (wpp_delete_container P true id c).
    - by eapply Inv_frame, HI.
    - exact Hc.
    - exact HP.
    - intros s2 [d1 d2 d3 d4 d5 d6 d7 d8] _ HI2 [t Ht]. wpp_go. split; [exact d6|].
      split; [by eapply held_none|]. rewrite d7. split_and!; try done. by rewrite Ht, last_snoc. }
  assert (Hs1 : s1 = mkSt (set_events ev (svc s1)) (world s1) (trace s1)).
  { unfold s1, ev. by destruct (svc s). }
  unfold send. apply wpp_bind, wpp_getf. change (events (svc s1)) with ev.
  destruct (eventsClosed ev) eqn:E1; [apply wpp_ret; rewrite Hs1; by apply HD|].
  destruct (closed ev) eqn:E2; [apply wpp_ret; rewrite Hs1; by apply HD|].
  apply wpp_upd, HD. done.
Qed.

Lemma wpp_delete_container_body P id c s :
  I true [] s → safe P (vmLifecycle (svc s)) → container_of id (svc s) = Some c → id ≠ "" →
  wpp P (delete_body id "") (delete_post id s) s.
Proof.
  intros HI HP Hc Hid. unfold delete_body, with_client. apply wpp_bind. unfold wpp at 1.
  destruct (getTaskClient s) as [[r s1]|msg] eqn:E; [|by eapply HP]. unfold getTaskClient in E.
  destruct (ConnManager.GetClient _ _ _) as [[r' cm] [w|msg]]; simplify_eq.
  assert (HI1 : Inv true [] (set_conn cm (svc s)) (trace s)) by by eapply Inv_frame, HI.
  destruct r as [vmc|e]; [|by wpp_go; split; [|left]]. apply wpp_bind, wpp_call. intros [resp|e] w' _.
  - exact (wpp_delete_accepted P id c resp cm w' s HI1 (proj1 HP) Hc).
  - apply wpp_bind. eapply (wpp_cleanupOnDeleteFailure P true); [exact HI1|apply HP|].
    intros s2 Hsh Hctl _ Hsm HI2. wpp_go. split; [by rewrite Hsm|]. right.
    destruct HI2 as [_ (H' & Hh & H1 & _)]. exists H'. split; [done|]. intros r Hr.
    destruct (H1 r Hr) as [Ho|Ho]; [done|by apply owned_void in Ho|].
    apply container_of_Some in Hc as [<- _]. unfold unreleased in Ho. simpl in Ho.
    apply String.eqb_neq in Hid. rewrite Hid, String.eqb_refl in Ho. simpl in Ho.
    rewrite app_nil_r, elem_of_app in Ho. unfold cpus_of, mems_of in Ho.
    destruct Ho as [(x & -> & _)%list_elem_of_fmap|(x & -> & _)%list_elem_of_fmap]; eauto.
Qed.


End runs.

Section failures.
Context {W : Type} `{OW : !VmManager.Ops W, OT : !TaskOps W}.
Notation ST := (st W).
Implicit Types (s : ST) (w : W).

(** A deletion that cannot reach the guest cannot be repeated.  The state
    machine has moved to Deleting, nothing was released and the container is
    still recorded, but every later deletion is answered "delete already in
    progress" and every creation is refused. *)
Theorem unreachable_guest_wedges_delete s id e cm w :
  StateMachine.state (stateMachine (svc s)) = StateMachine.StateRunning →
  ConnManager.GetClient (dialRetry (vmLifecycle (svc s))) (connManager (svc s)) (Return (world s)) =
    (Err e, cm, Return w) →
  ∃ s', Delete id "" s = Return (Err e, s') ∧ trace s' = trace s ∧ cont (svc s') = cont (svc s) ∧
    ctls (svc s') = ctls (svc s) ∧ vmLifecycle (svc s') = vmLifecycle (svc s) ∧
    StateMachine.state (stateMachine (svc s')) = StateMachine.StateDeleting ∧
    (∀ id2, ∃ e2 s2, Delete id2 "" s' = Return (Err e2, s2) ∧
       errors_Is e2 ErrAlreadyExists = true ∧ trace s2 = trace s' ∧ stateMachine (svc s2) = stateMachine (svc s')) ∧
    (∀ r, Checkpoint r = "" → ParentCheckpoint r = "" →
       ∃ e2, Create r s' = Return (Err e2, s') ∧ errors_Is e2 ErrAlreadyExists = true).
Proof.
  destruct s as [[[st int] vm cm0 c cid cs ev inf sd n] w0 t]. simpl. intros -> HG.
  unfold Delete, counted, start_deleting, delete_body, with_client, on_sm, m_bind, upd, m_modify, get, m_get,
    m_ret. simpl.
  unfold getTaskClient at 1. simpl. rewrite HG. simpl.
  eexists. split; [done|]. simpl. split_and!; try done.
  - intros id2. eexists _, _. split; [done|]. split; [apply errors_Is_refl|done].
  - intros r E1 E2. unfold Create, validateCreateRequest, m_bind, m_ret. rewrite E1, E2. simpl.
    eexists. split; [done|]. apply errors_Is_refl.
Qed.

(** An exec request that reuses the name of an exec in progress loses that
    exec's I/O.  The record is overwritten before the guest is asked; when the
    guest refuses, the new forwarder is shut down and the record removed, and
    the forwarder of the first exec is neither recorded nor shut down. *)
Theorem exec_name_reuse_loses_forwarder s id execID rio vmc a c i p f cio w1 e w2 :
  ConnManager.GetClient_fast (connManager (svc s)) = Some vmc →
  vmLifecycle (svc s) = VmManager.Inst a →
  container_of id (svc s) = Some c → io c = Some i → io_exec i !! execID = Some p →
  forwarder p = Some f →
  forwardIOWithIDs a id execID rio (world s) = (Ok cio, w1) →
  guest_Exec vmc id execID cio w1 = (Some e, w2) →
  ∃ s' c' i', Exec id execID rio s = Return (Err e, s') ∧
    trace s' = trace s ++ [EvForwarder (nextRef (svc s)); EvFwdShutdown (nextRef (svc s))] ∧
    cont (svc s') = Some c' ∧ io c' = Some i' ∧ io_exec i' !! execID = None.
Proof.
  destruct s as [[sm vm cm c0 cid cs ev inf sd n] w t]. simpl.
  intros HG -> Hc Ei Ep Ef Hf Hg. unfold container_of in Hc. simpl in Hc.
  destruct (String.eqb cid id) eqn:Eid; [|done]. subst c0.
  unfold Exec, with_client, getTaskClient, ConnManager.GetClient, m_bind, m_ret. simpl. rewrite HG. simpl.
  unfold with_instance, make_forwarder, on_inst, alloc, call, emit, get, m_get, upd, m_modify, m_bind, m_ret.
  simpl. rewrite Hf. simpl. unfold container_of. simpl. rewrite Eid. simpl. rewrite Hg. simpl.
  unfold exec_failed, get, m_get, m_bind, m_ret, container_of. simpl. rewrite Eid.
  unfold put_exec. rewrite Ei. simpl. rewrite lookup_insert_eq. unfold forwarder_Shutdown, call, emit, m_bind, m_modify, m_ret. simpl.
  destruct (fwd_Shutdown n w2). simpl. eexists _, _, _. split; [done|]. simpl.
  split; [by rewrite <-app_assoc|]. split; [done|]. split; [done|].
  simpl. apply lookup_delete_eq.
Qed.

End failures.

(** ** Witnesses: a guest and a VM that do as they are told *)

Module ShimDemo.

(** The time, and whether the VM boots, answers a dial, and accepts an exec. *)
Record world := mkWorld { clock : Z; boots : bool; answers : bool; execs : bool }.

Definition at_ (t : Z) (w : world) : world := mkWorld t (boots w) (answers w) (execs w).

#[global] Instance vm_ops : VmManager.Ops world := {
  VmManager.stateRoot := "/run/spinbox"; VmManager.namespace := "k8s.io";
  VmManager.mkdirAll _ w := (None, w);
  VmManager.findQemu _ := None;
  VmManager.mkdirState _ w := (None, w);
  VmManager.newInstance w := (Ok 7, w);
  VmManager.inst_Client _ w := (Ok 1, w);
  VmManager.inst_DialClient _ w := (if answers w then Ok 2 else Err (ErrNew "no route"), w);
  VmManager.inst_Shutdown _ w := (None, w);
  VmManager.now w := (clock w, w);
  VmManager.sleep d w := at_ (clock w + d) w }.

#[global] Instance vm_laws : VmManager.ClockLaws world clock.
Proof. split; simpl; intros; lia. Qed.

Definition bundle : Bundle := mkBundle None ∅ ∅.

#[global] Instance task_ops : TaskOps world := {
  checkKVM _ := None;
  loadForCreate _ w := (Ok bundle, w);
  numCPU _ := 4;
  meminfo _ := Ok ["MemTotal: 8388608 kB"];
  readFile _ _ := Err (ErrNew "no such file");
  marshalSpec _ := Ok "{}";
  inst_Start _ _ w := (if boots w then None else Some (ErrNew "boot failed"), w);
  inst_QMPClient _ _ := Some 3;
  inst_CPUHotplugger _ _ := Ok 3;
  cpuHotplugConfig _ := Err (ErrNew "no config");
  memHotplugConfig _ := Err (ErrNew "no config");
  mounts_Setup _ _ m w := (Ok (true, m), w);
  mount_cleanup _ w := (None, w);
  net_Setup _ _ _ w := (Ok None, w);
  net_Release _ w := (None, w);
  net_Close w := (None, w);
  forwardIOWithIDs _ _ _ i w := (Ok i, w);
  fwd_Start _ w := (None, w);
  fwd_Shutdown _ w := (None, w);
  fwd_CloseStdin _ w := w;
  fwd_WaitForComplete _ w := w;
  events_Stream _ w := (None, w);
  stream_Recv _ w := (RecvClosed, w);
  sleepWithJitter d w := at_ (clock w + d) w;
  bundle_Create _ _ _ w := (Ok "/run/bundle", w);
  guest_Create _ _ _ _ _ w := (Ok 100, w);
  guest_Start _ _ _ w := (Ok 100, w);
  guest_Delete _ _ _ w := (Ok (mkDeleted 100 0 0), w);
  guest_Exec _ _ _ _ w := (if execs w then None else Some (ErrSentinel ErrAlreadyExists), w);
  guest_State _ _ _ w := (Ok (mkState 2 100 no_io 0 0), w);
  guest_Connect _ _ w := (Ok 100, w);
  guest_rpc _ _ _ _ w := (Ok 0, w);
  getpid := 42 }.

Definition good : world := mkWorld 0 true true true.
Definition req : CreateTaskRequest :=
  mkCreate "web" "/bundle" [] (mkStdio "" "/out" "/err" false) "" "".

Definition after {A} (m : M (st world) A) (s : st world) : st world :=
  match m s with Return (_, s') => s' | Panic _ => s end.

Definition s0 : st world := init_st good.
Definition s1 : st world := after (Create req) s0.
Definition s2 : st world := after (Exec "web" "sh" (mkStdio "" "/o" "" false)) s1.
(** The same with a guest that refuses an exec, and with one that does not
    answer. *)
Definition s3 : st world := mkSt (svc s2) (mkWorld 0 true true false) (trace s2).
Definition s4 : st world := mkSt (svc s1) (mkWorld 0 true false true) (trace s1).
Definition broken : st world := init_st (mkWorld 0 false true true).

Lemma step1 : fresh_step s0 s1.
Proof. exists (RCreate req). split; [done|vm_compute; reflexivity]. Defined.
Lemma step2 : fresh_step s1 s2.
Proof.
  exists (RExec "web" "sh" (mkStdio "" "/o" "" false)). split; [|vm_compute; reflexivity].
  intros c i Hc Hi. vm_compute in Hc. simplify_eq. vm_compute in Hi. by simplify_eq.
Defined.
Lemma run2 : rtc fresh_step (init_st good) s2.
Proof. eapply rtc_l; [apply step1|]. apply rtc_once, step2. Defined.

Lemma demo_config : config_ok False req.
Proof. intros w b w' [= <- <-]. right. by eexists _, _. Defined.





Lemma failed_create_keeps_vm_witness :
  ∃ e s', Create req broken = Return (Err e, s') ∧
    ∃ e2, Create req s' = Return (Err e2, s') ∧ errors_Is e2 ErrAlreadyExists = true.
Proof.
  destruct (Create req broken) as [[[p|e] s']|msg] eqn:E;
    [vm_compute in E; discriminate E| |vm_compute in E; discriminate E].
  exists e, s'. split; [reflexivity|].
  destruct (failed_create_keeps_vm _ broken req e s' 7 (rtc_refl _ _) demo_config eq_refl E) as (_ & _ & HC & _).
  { vm_compute in E. by injection E as <- <-. }
  exact (HC req eq_refl eq_refl).
Defined.

Lemma unreachable_guest_wedges_delete_witness :
  ∃ s s' e, Delete "web" "" s = Return (Err e, s') ∧
    ∃ e2 s2, Delete "web" "" s' = Return (Err e2, s2) ∧ errors_Is e2 ErrAlreadyExists = true.
Proof.
  exists s4.
  edestruct (unreachable_guest_wedges_delete s4 "web")
    as (s' & Hd & _ & _ & _ & _ & _ & HD & _); [by vm_compute|vm_compute; reflexivity|].
  destruct (HD "web") as (e2 & s3 & H1 & H2 & _). exists s'. eexists. split; [exact Hd|].
  exists e2, s3. exact (conj H1 H2).
Defined.

Lemma exec_name_reuse_loses_forwarder_witness :
  ∃ s' c' i', Exec "web" "sh" no_io s3 =
      Return (Err (ErrSentinel ErrAlreadyExists), s') ∧
    cont (svc s') = Some c' ∧ io c' = Some i' ∧ io_exec i' !! "sh" = None.
Proof.
  destruct (container_of "web" (svc s3)) as [c|] eqn:Ec; [|by vm_compute in Ec].
  destruct (io c) as [i|] eqn:Ei; [|vm_compute in Ec; by simplify_eq].
  destruct (io_exec i !! "sh") as [p|] eqn:Ep;
    [|vm_compute in Ec; simplify_eq; vm_compute in Ei; simplify_eq; by vm_compute in Ep].
  destruct (forwarder p) as [f|] eqn:Ef;
    [|vm_compute in Ec; simplify_eq; vm_compute in Ei; simplify_eq; vm_compute in Ep; by simplify_eq].
  destruct (exec_name_reuse_loses_forwarder s3
    "web" "sh" no_io 2 7 c i p f no_io (mkWorld 0 true true false) (ErrSentinel ErrAlreadyExists)
    (mkWorld 0 true true false)) as (s' & c' & i' & H1 & _ & H2 & H3 & H4);
    [vm_compute; reflexivity|vm_compute; reflexivity|exact Ec|exact Ei|exact Ep|exact Ef|reflexivity|reflexivity|].
  exists s', c', i'. exact (conj H1 (conj H2 (conj H3 H4))).
Defined.

End ShimDemo.
