(* ===== verification/ShimIO.v ===== *)
(** * I/O forwarding between the host's paths and the streams of the VM

    Models internal/shim/task/io.go: the choice of a scheme, the streams opened
    in the VM, the files and FIFOs opened on the host, the goroutines that copy
    and how they end, and the forwarder's shutdown.  The bytes copied are not
    modelled.  A goroutine is recorded when it is started ([spawned]) and is a
    list of steps of its own ([output_copy], [stdin_copy]); [url.Parse], the file
    system and the VM's streams are an interface. *)

From S2P Require Import Prelude GoStrings.

Module ShimIO.
#[local] Open Scope m_scope.

(** [stdio.Stdio] and its [IsNull]. *)
Record Stdio := mkStdio { Stdin : string; Stdout : string; Stderr : string; Terminal : bool }.
Definition IsNull (s : Stdio) : bool :=
  String.eqb (Stdin s) "" && String.eqb (Stdout s) "" && String.eqb (Stderr s) "".

(** An open stream, file or end of a FIFO. *)
Inductive handle := HStream (n : Z) | HFifoW (n : Z) | HFifoR (n : Z) | HFile (n : Z) | HStdin (n : Z).

#[global] Instance handle_eq_dec : EqDecision handle.
Proof. solve_decision. Defined.

(** What an output is copied to: a handle, or the [countingWriteCloser]. *)
Inductive writer := WHandle (h : handle) | WCounting.

(** A goroutine: an output with its stream (nil or not) and its writer, or the
    copy of stdin. *)
Inductive goroutine :=
  | GOut (stream : option Z) (w : writer)
  | GIn (stream : option Z) (f : handle).

Inductive event := EvOpen (h : handle) | EvClose (h : handle).

#[global] Instance event_eq_dec : EqDecision event.
Proof. solve_decision. Defined.

Record streams := mkStreams { s_in : option Z; s_out : option Z; s_err : option Z }.

(** [fifoKeepalive]. *)
Record fifoKeepalive := mkKeepalive { k_out : option handle; k_err : option handle }.

(** The [IOForwarder]s: the null object and the direct one. *)
Inductive forwarder :=
  | noopForwarder (guest : Stdio)
  | directForwarder (guest : Stdio) (ss : streams) (keepalive : fifoKeepalive).

Definition GuestStdio (f : forwarder) : Stdio :=
  match f with noopForwarder g => g | directForwarder g _ _ => g end.

(** [forwardIOSetup]. *)
Record forwardIOSetup := mkSetup
  { pio : Stdio; fs_streams : streams; passthrough : bool; usePIOPaths : bool;
    stdoutFilePath : string; stderrFilePath : string }.

Class IOOps (W : Type) := {
  url_Parse : string → result (string * string);    (* the scheme and the path *)
  os_MkdirAll : string → W → option error * W;
  filepath_Dir : string → string;
  StartStream : W → result Z * W;                    (* the stream's number *)
  IsFifo : string → W → result bool;
  OpenFifo : string → bool → W → option error * W;   (* for writing or reading *)
  OpenFile : string → W → option error * W }.

(** The world, the handles opened and closed, the goroutines started; the
    counter [copying], the channel [done] and the shared file of one call of
    [copyStreams]. *)
Record st (W : Type) := mkSt
  { world : W; next : Z; trace : list event; spawned : list goroutine;
    copying : Z; done : chan; sameFile : option (handle * Z) }.
Arguments mkSt {W}. Arguments world {W}. Arguments next {W}. Arguments trace {W}.
Arguments spawned {W}. Arguments copying {W}. Arguments done {W}. Arguments sameFile {W}.

Section io.
Context {W : Type} `{!IOOps W}.
Notation ST := (st W).

Definition call {A} (f : W → A * W) : M ST A := λ s,
  let '(a, w) := f (world s) in
  Return (a, mkSt w (next s) (trace s) (spawned s) (copying s) (done s) (sameFile s)).
Definition emit (e : event) : M ST () := m_modify (λ s,
  mkSt (world s) (next s) (trace s ++ [e]) (spawned s) (copying s) (done s) (sameFile s)).
Definition close_h (h : handle) : M ST () := emit (EvClose h).
(** A fresh handle, open. *)
Definition open_h (k : Z → handle) : M ST Z := λ s,
  Return (next s, mkSt (world s) (next s + 1) (trace s ++ [EvOpen (k (next s))]) (spawned s)
                    (copying s) (done s) (sameFile s)).
Definition spawn (g : goroutine) : M ST () := m_modify (λ s,
  mkSt (world s) (next s) (trace s) (spawned s ++ [g]) (copying s) (done s) (sameFile s)).
Definition set_copying (n : Z) (d : chan) : M ST () := m_modify (λ s,
  mkSt (world s) (next s) (trace s) (spawned s) n d (sameFile s)).
Definition set_same (f : option (handle * Z)) : M ST () := m_modify (λ s,
  mkSt (world s) (next s) (trace s) (spawned s) (copying s) (done s) f).

(** ** createStreams *)

Definition close_opt (k : Z → handle) (o : option Z) : M ST () :=
  match o with Some n => close_h (k n) | None => m_ret tt end.

(** [for i, c := range streams]: a stream that stderr shares with stdout is
    closed once. *)
Definition close_streams (ss : streams) : M ST () :=
  close_opt HStream (s_in ss) ≫= λ _,
  close_opt HStream (s_out ss) ≫= λ _,
  if bool_decide (s_err ss = s_out ss) then m_ret tt else close_opt HStream (s_err ss).

Definition stream_uri (sid : Z) : string := "stream://" +:+ fmt_d sid.

(** [vmi.StartStream]: the number of the stream in the VM and the connection. *)
Definition start_stream : M ST (result (Z * Z)) :=
  r ← call StartStream;
  match r with
  | Err e => m_ret (Err (ErrWrap "failed to start fifo stream" e))
  | Ok sid => c ← open_h HStream; m_ret (Ok (sid, c))
  end.

(** A stream if the path is not empty; the path of the guest. *)
Definition stream_for (path : string) : M ST (result (string * option Z)) :=
  if String.eqb path "" then m_ret (Ok (path, None))
  else
    r ← start_stream;
    m_ret (match r with Err e => Err e | Ok (sid, c) => Ok (stream_uri sid, Some c) end).

Definition createStreams (sio : Stdio) : M ST (result (Stdio * streams)) :=
  i ← stream_for (Stdin sio);
  match i with
  | Err e => m_ret (Err e)
  | Ok (gin, cin) =>
      o ← stream_for (Stdout sio);
      match o with
      | Err e => close_streams (mkStreams cin None None) ≫= λ _, m_ret (Err e)
      | Ok (gout, cout) =>
          if negb (String.eqb (Stderr sio) "") && String.eqb (Stderr sio) (Stdout sio) then
            m_ret (Ok (mkStdio gin gout gout (Terminal sio), mkStreams cin cout cout))
          else
            r ← stream_for (Stderr sio);
            match r with
            | Err e => close_streams (mkStreams cin cout None) ≫= λ _, m_ret (Err e)
            | Ok (gerr, cerr) =>
                m_ret (Ok (mkStdio gin gout gerr (Terminal sio), mkStreams cin cout cerr))
            end
      end
  end.

(** ** setupForwardIO *)

Definition no_streams : streams := mkStreams None None None.

Definition setupStreamScheme (p : Stdio) : M ST (result forwardIOSetup) :=
  r ← createStreams p;
  m_ret (match r with
         | Err e => Err e
         | Ok (sp, ss) => Ok (mkSetup sp ss false false "" "")
         end).

(** The file for stderr, if it is not that of stdout. *)
Definition stderr_file (p : Stdio) (outPath : string) : M ST (result string) :=
  if negb (String.eqb (Stderr p) "") && negb (String.eqb (Stderr p) (Stdout p)) then
    match url_Parse (Stderr p) with
    | Err e => m_ret (Err (ErrWrap "failed to parse stderr uri" e))
    | Ok (scheme, path) =>
        if String.eqb scheme "file" || String.eqb scheme "" then
          if negb (String.eqb path outPath) then
            e ← call (os_MkdirAll (filepath_Dir path));
            m_ret (match e with
                   | Some e => Err (ErrWrap "failed to create parent directory for stderr" e)
                   | None => Ok path
                   end)
          else m_ret (Ok path)
        else m_ret (Ok outPath)
    end
  else m_ret (Ok outPath).

Definition setupFileScheme (p : Stdio) (outPath : string) : M ST (result forwardIOSetup) :=
  e ← call (os_MkdirAll (filepath_Dir outPath));
  match e with
  | Some e => m_ret (Err (ErrWrap "failed to create parent directory for stdout" e))
  | None =>
      ep ← stderr_file p outPath;
      match ep with
      | Err e => m_ret (Err e)
      | Ok errPath =>
          r ← createStreams p;
          m_ret (match r with
                 | Err e => Err e
                 | Ok (sp, ss) => Ok (mkSetup sp ss false true outPath errPath)
                 end)
      end
  end.

Definition setupForwardIO (p : Stdio) : M ST (result forwardIOSetup) :=
  match url_Parse (Stdout p) with
  | Err e => m_ret (Err (ErrWrap "failed to parse stdout uri" e))
  | Ok (scheme0, path) =>
      let scheme := if String.eqb scheme0 "" then "fifo" else scheme0 in
      if String.eqb scheme "stream" then m_ret (Ok (mkSetup p no_streams true false "" ""))
      else if String.eqb scheme "file" then setupFileScheme p path
      else if String.eqb scheme "fifo" || String.eqb scheme "binary" || String.eqb scheme "pipe" then
        setupStreamScheme p
      else m_ret (Err (ErrWrap ("unsupported STDIO scheme " +:+ scheme)
                         (ErrSentinel ErrNotImplemented)))
  end.

(** ** copyStreams *)

(** [copying.Add(-1)]; the last one closes [done]. *)
Definition copy_finished : M ST () :=
  s ← m_get (λ s, (copying s, done s));
  let n := s.1 - 1 in
  if n =? 0 then
    match close s.2 with
    | Panic msg => m_panic msg
    | Return d => set_copying n d
    end
  else set_copying n s.2.

(** [countingWriteCloser.Close]. *)
Definition counting_Close : M ST () :=
  f ← m_get sameFile;
  match f with
  | None => m_panic "invalid memory address or nil pointer dereference"
  | Some (h, n) =>
      set_same (Some (h, n - 1)) ≫= λ _, if 0 <? n - 1 then m_ret tt else close_h h
  end.

Definition writer_Close (w : writer) : M ST () :=
  match w with WHandle h => close_h h | WCounting => counting_Close end.

(** The steps of a goroutine that other goroutines can see: a read of its
    input, the end of a copy, the close of a writer or of a handle. *)
Inductive gstep :=
  | SRead (stream : option Z)
  | SFinished
  | SWriter (w : writer)
  | SHandle (h : handle).

(** Reading from a nil interface panics. *)
Definition run_step (x : gstep) : M ST () :=
  match x with
  | SRead None => m_panic "invalid memory address or nil pointer dereference"
  | SRead (Some _) => m_ret tt
  | SFinished => copy_finished
  | SWriter w => writer_Close w
  | SHandle h => close_h h
  end.

(** The goroutine of [startOutputCopy]; [SRead] stands for all its reads up to
    the end of the input. *)
Definition output_copy (stream : option Z) (w : writer) : list gstep :=
  [SRead stream; SFinished; SWriter w].

(** The goroutine of [startStdinCopy], which ends when a read or a write fails. *)
Definition stdin_copy (stream : option Z) (f : handle) : list gstep :=
  SRead stream :: match stream with Some n => [SHandle (HStream n)] | None => [] end ++ [SHandle f].

Definition steps_of (g : goroutine) : list gstep :=
  match g with GOut s w => output_copy s w | GIn s f => stdin_copy s f end.

(** A schedule of steps. *)
Fixpoint run_steps (l : list gstep) : M ST () :=
  match l with [] => m_ret tt | x :: l => run_step x ≫= λ _, run_steps l end.

(** [fifo.OpenFifo] for one end. *)
Definition open_fifo (name : string) (write : bool) (k : Z → handle) : M ST (result handle) :=
  e ← call (OpenFifo name write);
  match e with
  | Some e =>
      m_ret (Err (ErrWrap ((if write then "containerd-shim: opening w/o fifo "
                            else "containerd-shim: opening r/o fifo ") +:+ name +:+ " failed") e))
  | None => n ← open_h k; m_ret (Ok (k n))
  end.

Definition open_file (name stdout stderr : string) : M ST (result (writer * option handle)) :=
  e ← call (os_MkdirAll (filepath_Dir name));
  match e with
  | Some e => m_ret (Err (ErrWrap ("containerd-shim: creating parent directory for " +:+ name +:+
                                   " failed") e))
  | None =>
      e ← call (OpenFile name);
      match e with
      | Some e => m_ret (Err (ErrWrap ("containerd-shim: opening file " +:+ name +:+ " failed") e))
      | None =>
          n ← open_h HFile;
          if String.eqb stdout stderr then
            set_same (Some (HFile n, 1)) ≫= λ _, m_ret (Ok (WCounting, None))
          else m_ret (Ok (WHandle (HFile n), None))
      end
  end.

(** The writer, and the closer that keeps a FIFO alive. *)
Definition openOutputDestination (name stdout stderr : string) :
    M ST (result (writer * option handle)) :=
  isf ← m_get (λ s, IsFifo name (world s));
  match isf with
  | Err e => m_ret (Err (ErrWrap ("containerd-shim: checking if " +:+ name +:+ " is fifo") e))
  | Ok true =>
      fw ← open_fifo name true HFifoW;
      match fw with
      | Err e => m_ret (Err e)
      | Ok fw =>
          fr ← open_fifo name false HFifoR;
          match fr with
          | Err e => m_ret (Err e)
          | Ok fr => m_ret (Ok (WHandle fw, Some fr))
          end
      end
  | Ok false =>
      sf ← m_get sameFile;
      match sf with
      | Some (h, n) => set_same (Some (h, n + 1)) ≫= λ _, m_ret (Ok (WCounting, None))
      | None => open_file name stdout stderr
      end
  end.

(** One round of the loop over the outputs: the keepalive closer. *)
Definition copy_output (name stdout stderr : string) (stream : option Z) :
    M ST (result (option handle)) :=
  if String.eqb name "" then copy_finished ≫= λ _, m_ret (Ok None)
  else
    r ← openOutputDestination name stdout stderr;
    match r with
    | Err e => m_ret (Err e)
    | Ok (fw, fr) => spawn (GOut stream fw) ≫= λ _, m_ret (Ok fr)
    end.

Definition startStdinCopy (stream : option Z) (stdin : string) : M ST (option error) :=
  if String.eqb stdin "" then m_ret None
  else
    e ← call (OpenFifo stdin false);
    match e with
    | Some e => m_ret (Some (ErrWrap ("containerd-shim: opening " +:+ stdin +:+ " failed") e))
    | None => n ← open_h HStdin; spawn (GIn stream (HStdin n)) ≫= λ _, m_ret None
    end.

Definition copyStreams (ss : streams) (stdin stdout stderr : string) :
    M ST (result fifoKeepalive) :=
  set_copying 2 OpenChan ≫= λ _, set_same None ≫= λ _,
  o ← copy_output stdout stdout stderr (s_out ss);
  match o with
  | Err e => m_ret (Err e)
  | Ok ko =>
      r ← copy_output stderr stdout stderr (s_err ss);
      match r with
      | Err e => m_ret (Err e)
      | Ok ke =>
          e ← startStdinCopy (s_in ss) stdin;
          match e with
          | Some e => m_ret (Err e)
          | None => m_ret (Ok (mkKeepalive ko ke))
          end
      end
  end.

(** ** forwardIOWithIDs *)

Definition no_stderr (s : Stdio) : Stdio :=
  if Terminal s then mkStdio (Stdin s) (Stdout s) "" true else s.

(** The stdio of the guest and the forwarder; the forwarder carries it. *)
Definition forwardIOWithIDs (sio0 : Stdio) : M ST (result forwarder) :=
  let sio := no_stderr sio0 in
  if IsNull sio then m_ret (Ok (noopForwarder sio))
  else
    r ← setupForwardIO sio;
    match r with
    | Err e => m_ret (Err e)
    | Ok setup =>
        if passthrough setup then m_ret (Ok (noopForwarder (pio setup)))
        else
          let outPath := if usePIOPaths setup then stdoutFilePath setup else Stdout sio in
          let errPath := if usePIOPaths setup then stderrFilePath setup else Stderr sio in
          k ← copyStreams (fs_streams setup) (Stdin sio) outPath errPath;
          match k with
          | Err e => close_streams (fs_streams setup) ≫= λ _, m_ret (Err e)
          | Ok k => m_ret (Ok (directForwarder (pio setup) (fs_streams setup) k))
          end
    end.

(** [fifoKeepalive.Close]. *)
Definition keepalive_Close (k : fifoKeepalive) : M ST () :=
  match k_out k with Some h => close_h h | None => m_ret tt end ≫= λ _,
  match k_err k with Some h => close_h h | None => m_ret tt end.

(** [Shutdown], and the forwarder after it; the wait for the copies of the
    outputs or the end of the context is left out.  [Start], [CloseStdin] and
    [WaitForComplete] do nothing in either forwarder. *)
Definition forwarder_Shutdown (f : forwarder) : M ST forwarder :=
  match f with
  | noopForwarder g => m_ret (noopForwarder g)
  | directForwarder g ss k =>
      close_streams ss ≫= λ _, keepalive_Close k ≫= λ _,
      m_ret (directForwarder g ss (mkKeepalive None None))
  end.

Definition WaitForComplete (f : forwarder) : M ST () := m_ret tt.

Definition init_st (w : W) : ST := mkSt w 0 [] [] 0 NilChan None.

End io.
End ShimIO.

(** ** Theorems *)

Import ShimIO.

(** The stream handles of a forwarder, each once. *)
Definition opt_list {A} (o : option A) : list A := match o with Some a => [a] | None => [] end.
Definition stream_list (ss : streams) : list Z :=
  opt_list (s_in ss) ++ opt_list (s_out ss) ++
  if bool_decide (s_err ss = s_out ss) then [] else opt_list (s_err ss).
Definition open_streams (ss : streams) : list event := EvOpen ∘ HStream <$> stream_list ss.

Definition closed_in (t : list event) (h : handle) : Prop := EvClose h ∈ t.
(** Every stream that [t] opens it closes. *)
Definition streams_closed (t : list event) : Prop :=
  ∀ n, EvOpen (HStream n) ∈ t → EvClose (HStream n) ∈ t.
Definition no_stream_event (t : list event) : Prop :=
  ∀ n, EvOpen (HStream n) ∉ t ∧ EvClose (HStream n) ∉ t.

(** A stream for every path. *)
Definition shape (sio : Stdio) (ss : streams) : Prop :=
  (s_in ss = None ↔ Stdin sio = "") ∧ (s_out ss = None ↔ Stdout sio = "") ∧
  (s_err ss = None ↔ Stderr sio = "").

Section rules.
Context {W : Type} `{OI : !IOOps W}.
Notation ST := (st W).
Implicit Types (P : Prop) (s : ST).

(** What happened to the state: the world, new addresses and new events. *)
Definition moved s (w : W) (n : Z) (ev : list event) : ST :=
  mkSt w n (trace s ++ ev) (spawned s) (copying s) (done s) (sameFile s).

Lemma moved_nil s : moved s (world s) (next s) [] = s.
Proof. unfold moved. rewrite app_nil_r. by destruct s. Qed.
Lemma moved_moved s w n ev w' n' ev' :
  moved (moved s w n ev) w' n' ev' = moved s w' n' (ev ++ ev').
Proof. unfold moved. simpl. by rewrite app_assoc. Qed.

Lemma wpp_iocall {A} P (f : W → A * W) (Q : A → ST → Prop) s :
  (∀ a w, f (world s) = (a, w) → Q a (moved s w (next s) [])) → wpp P (call f) Q s.
Proof.
  intros HQ. unfold wpp, call. destruct (f (world s)) as [a w] eqn:E.
  specialize (HQ a w eq_refl). unfold moved in HQ. by rewrite app_nil_r in HQ.
Qed.
Lemma wpp_close_h P h (Q : () → ST → Prop) s :
  Q tt (moved s (world s) (next s) [EvClose h]) → wpp P (close_h h) Q s.
Proof. done. Qed.
Lemma wpp_open_h P k (Q : Z → ST → Prop) s :
  Q (next s) (moved s (world s) (next s + 1) [EvOpen (k (next s))]) → wpp P (open_h k) Q s.
Proof. done. Qed.

Lemma wpp_close_opt P o (Q : () → ST → Prop) s :
  Q tt (moved s (world s) (next s) (EvClose ∘ HStream <$> opt_list o)) →
  wpp P (close_opt HStream o) Q s.
Proof. destruct o; simpl; intros HQ; [done|]. by rewrite moved_nil in HQ. Qed.

Lemma wpp_close_streams P ss (Q : () → ST → Prop) s :
  Q tt (moved s (world s) (next s) (EvClose ∘ HStream <$> stream_list ss)) →
  wpp P (close_streams ss) Q s.
Proof.
  intros HQ. unfold close_streams, stream_list in *. apply wpp_bind, wpp_close_opt, wpp_bind, wpp_close_opt.
  rewrite moved_moved. simpl. rewrite !fmap_app in HQ. destruct (bool_decide _).
  - apply wpp_ret. by rewrite app_nil_r in HQ.
  - apply wpp_close_opt. by rewrite moved_moved, <-app_assoc.
Qed.

Lemma wpp_stream_for P path (Q : result (string * option Z) → ST → Prop) s :
  (∀ e w, Q (Err e) (moved s w (next s) [])) →
  (∀ g o w n, (o = None ↔ path = "") → (∀ c, o = Some c → c = next s ∧ n = next s + 1) →
     (o = None → n = next s) →
     Q (Ok (g, o)) (moved s w n (EvOpen ∘ HStream <$> opt_list o))) →
  wpp P (stream_for path) Q s.
Proof.
  intros HE HQ. unfold stream_for. destruct (String.eqb_spec path "") as [->|Hne].
  - apply wpp_ret. rewrite <-(moved_nil s) at 1. by apply HQ.
  - unfold start_stream. apply wpp_bind, wpp_bind, wpp_iocall. intros [sid|e] w _.
    + apply wpp_bind, wpp_open_h, wpp_ret, wpp_ret. rewrite moved_moved. simpl.
      apply (HQ _ (Some (next s))); [by split|by intros c [= <-]|done].
    + apply wpp_ret, wpp_ret, HE.
Qed.

Lemma open_streams_split i o e :
  (e = o → e = None) →
  open_streams (mkStreams i o e) =
    (EvOpen ∘ HStream <$> opt_list i) ++ (EvOpen ∘ HStream <$> opt_list o) ++
    (EvOpen ∘ HStream <$> opt_list e).
Proof.
  intros He. unfold open_streams, stream_list. simpl. rewrite !fmap_app. case_bool_decide; [|done].
  rewrite He by done. done.
Qed.

Lemma streams_closed_all ss ev :
  (∀ n, EvOpen (HStream n) ∈ ev → n ∈ stream_list ss) →
  streams_closed (ev ++ (EvClose ∘ HStream <$> stream_list ss)).
Proof.
  intros Hev n. rewrite !elem_of_app. intros [Hn|Hn].
  - right. apply list_elem_of_fmap. exists n. split; [done|]. by apply Hev.
  - by apply list_elem_of_fmap in Hn as (? & [=] & _).
Qed.

Lemma elem_of_opens n (l : list Z) : EvOpen (HStream n) ∈ EvOpen ∘ HStream <$> l ↔ n ∈ l.
Proof. rewrite list_elem_of_fmap. split; [by intros (? & [= <-] & ?)|]. intros. by exists n. Qed.

Lemma wpp_createStreams P sio (Q : result (Stdio * streams) → ST → Prop) s :
  (∀ e w n ev, streams_closed ev → Q (Err e) (moved s w n ev)) →
  (∀ g ss w n, shape sio ss → Q (Ok (g, ss)) (moved s w n (open_streams ss))) →
  wpp P (createStreams sio) Q s.
Proof.
  intros HE HQ. unfold createStreams. apply wpp_bind, wpp_stream_for.
  { intros e w. apply wpp_ret, HE. by intros n ?%elem_of_nil. }
  intros gin cin w1 n1 Hin _ _. apply wpp_bind, wpp_stream_for.
  { intros e w. apply wpp_bind, wpp_close_streams, wpp_ret. rewrite !moved_moved. apply HE.
    rewrite ?app_nil_r. apply streams_closed_all. intros n. rewrite elem_of_opens. unfold stream_list. set_solver. }
  intros gout cout w2 n2 Hout Ho1 Ho2. rewrite moved_moved. simpl in *.
  destruct (negb (String.eqb (Stderr sio) "") && String.eqb (Stderr sio) (Stdout sio)) eqn:Eq.
  - apply andb_prop in Eq as [E1 E2]. apply String.eqb_eq in E2. apply wpp_ret.
    replace (_ ++ _) with (open_streams (mkStreams cin cout cout)).
    + apply HQ. split; [done|]. split; [done|]. simpl. by rewrite E2.
    + unfold open_streams, stream_list. simpl. rewrite bool_decide_true by done.
      by rewrite app_nil_r, fmap_app.
  - apply wpp_bind, wpp_stream_for.
    { intros e w. apply wpp_bind, wpp_close_streams, wpp_ret. rewrite !moved_moved, ?app_nil_r. apply HE.
      apply streams_closed_all. intros n. rewrite elem_of_app, !elem_of_opens. unfold stream_list. simpl.
      case_bool_decide; set_solver. }
    intros gerr cerr w3 n3 Herr He1 He2. rewrite moved_moved. apply wpp_ret. simpl in *.
    rewrite <-app_assoc, <-open_streams_split; [by apply HQ|]. intros ->.
    destruct cout as [c|]; [|done]. destruct (Ho1 c eq_refl), (He1 c eq_refl). lia.
Qed.

(** ** setupForwardIO *)

(** What the host paths of a direct forwarder are. *)
Definition outPath (sio : Stdio) (f : forwardIOSetup) : string :=
  if usePIOPaths f then stdoutFilePath f else Stdout sio.
Definition errPath (sio : Stdio) (f : forwardIOSetup) : string :=
  if usePIOPaths f then stderrFilePath f else Stderr sio.

Definition file_scheme (path : string) : Prop :=
  match url_Parse path with Ok (scheme, _) => scheme = "file" | Err _ => False end.

Lemma wpp_stderr_file P p out (Q : result string → ST → Prop) s :
  (∀ r w, (Stderr p = "" → r = Ok out) → Q r (moved s w (next s) [])) →
  wpp P (stderr_file p out) Q s.
Proof.
  intros HQ. assert (H0 : ∀ r, (Stderr p = "" → r = Ok out) → Q r s).
  { intros r Hr. rewrite <-(moved_nil s). by apply HQ. }
  unfold stderr_file. destruct (String.eqb_spec (Stderr p) "") as [|Hne]; [by apply wpp_ret, H0|].
  destruct (_ && _); [|by apply wpp_ret, H0].
  destruct (url_Parse _) as [[scheme path]|]; [|by apply wpp_ret, H0].
  destruct (_ || _); [|by apply wpp_ret, H0]. destruct (negb _); [|by apply wpp_ret, H0].
  apply wpp_bind, wpp_iocall. intros e w _. by apply wpp_ret, HQ.
Qed.

Lemma wpp_setupForwardIO P p (Q : result forwardIOSetup → ST → Prop) s :
  (∀ e w n ev, streams_closed ev → Q (Err e) (moved s w n ev)) →
  (∀ f, passthrough f = true → Q (Ok f) s) →
  (∀ f w n, passthrough f = false → shape p (fs_streams f) →
     (usePIOPaths f = true ↔ file_scheme (Stdout p)) →
     (usePIOPaths f = true → Stderr p = "" →
        (∃ scheme, url_Parse (Stdout p) = Ok (scheme, stdoutFilePath f)) ∧
        stderrFilePath f = stdoutFilePath f) →
     Q (Ok f) (moved s w n (open_streams (fs_streams f)))) →
  wpp P (setupForwardIO p) Q s.
Proof.
  intros HE HP HQ.
  assert (HE0 : ∀ e w, Q (Err e) (moved s w (next s) [])).
  { intros e w. apply HE. by intros n ?%elem_of_nil. }
  assert (HE1 : ∀ e, Q (Err e) s) by (intros e; rewrite <-(moved_nil s); apply HE0).
  unfold setupForwardIO. destruct (url_Parse (Stdout p)) as [[scheme path]|e] eqn:Eu; [|by apply wpp_ret].
  assert (Hfs : file_scheme (Stdout p) ↔ scheme = "file") by (unfold file_scheme; by rewrite Eu).
  cbv zeta. set (sch := if String.eqb scheme "" then "fifo" else scheme).
  destruct (String.eqb sch "stream") eqn:E1; [by apply wpp_ret, HP|].
  destruct (String.eqb sch "file") eqn:E2.
  - apply String.eqb_eq in E2. assert (scheme = "file") as -> by (unfold sch in E2; by case_match).
    unfold setupFileScheme. apply wpp_bind, wpp_iocall. intros [e|] w _; [by apply wpp_ret|].
    apply wpp_bind, wpp_stderr_file. intros [ep|e] w' Hep; rewrite moved_moved; [|by apply wpp_ret].
    apply wpp_bind, wpp_createStreams; intros; rewrite moved_moved; apply wpp_ret.
    + by apply HE.
    + apply HQ; [done|done|by rewrite Hfs|]. simpl. intros _ He. specialize (Hep He). simplify_eq.
      split; [by eexists|done].
  - destruct (_ || _); [|by apply wpp_ret]. unfold setupStreamScheme.
    apply wpp_bind, wpp_createStreams; intros; apply wpp_ret.
    + by apply HE.
    + apply HQ; [done|done| |done]. rewrite Hfs. simpl. split; [done|]. intros ->. by unfold sch in E2.
Qed.

End rules.

(** ** copyStreams *)

(** The outputs among the goroutines, and those that share one file. *)
Definition is_out (g : goroutine) : Z := match g with GOut _ _ => 1 | _ => 0 end.
Definition is_counting (g : goroutine) : Z := match g with GOut _ WCounting => 1 | _ => 0 end.
Definition sumZ {A} (f : A → Z) (l : list A) : Z := foldr (λ x n, f x + n) 0 l.
Definition n_out : list goroutine → Z := sumZ is_out.
Definition n_cnt : list goroutine → Z := sumZ is_counting.
Definition g_stream (g : goroutine) : option Z := match g with GOut s _ | GIn s _ => s end.
Definition g_handles (g : goroutine) : list handle :=
  match g with GOut _ (WHandle h) => [h] | GIn _ h => [h] | _ => [] end.

Lemma sumZ_app {A} (f : A → Z) l k : sumZ f (l ++ k) = sumZ f l + sumZ f k.
Proof. unfold sumZ. induction l as [|x l IH]; simpl; [done|lia]. Qed.
Lemma sumZ_nonneg {A} (f : A → Z) l : (∀ x, 0 ≤ f x) → 0 ≤ sumZ f l.
Proof. intros Hf. unfold sumZ. induction l as [|x l IH]; simpl; [lia|]. specialize (Hf x). lia. Qed.
#[global] Instance sumZ_perm {A} (f : A → Z) : Proper ((≡ₚ) ==> eq) (sumZ f).
Proof. unfold sumZ. induction 1; simpl; lia. Qed.
Lemma sumZ_bind {A B} (f : B → Z) (h : A → Z) (k : A → list B) l :
  (∀ x, sumZ f (k x) = h x) → sumZ f (l ≫= k) = sumZ h l.
Proof.
  intros Hk. induction l as [|x l IH]; [done|]. csimpl. rewrite sumZ_app, IH, Hk. done.
Qed.

Lemma n_out_snoc gs g : n_out (gs ++ [g]) = n_out gs + is_out g.
Proof. unfold n_out. rewrite sumZ_app. simpl. lia. Qed.
Lemma n_cnt_snoc gs g : n_cnt (gs ++ [g]) = n_cnt gs + is_counting g.
Proof. unfold n_cnt. rewrite sumZ_app. simpl. lia. Qed.
Lemma n_out_nonneg gs : 0 ≤ n_out gs.
Proof. apply sumZ_nonneg. by intros []. Qed.
Lemma n_cnt_nonneg gs : 0 ≤ n_cnt gs.
Proof. apply sumZ_nonneg. by intros [? []|]. Qed.

Section copy.
Context {W : Type} `{OI : !IOOps W}.
Notation ST := (st W).
Implicit Types (P : Prop) (s base : ST).

(** [copyStreams] on its way: [k] outputs are still to come, [gs] are the
    goroutines started, [ev] what was opened and [ks] the keepalives. *)
Record progress base (k : Z) (gs : list goroutine) (ev : list event) (ks : list handle) s : Prop :=
  mkProgress
  { pr_trace : trace s = trace base ++ ev;
    pr_spawned : spawned s = spawned base ++ gs;
    pr_copying : copying s = n_out gs + k;
    pr_done : done s = if n_out gs + k =? 0 then ClosedChan else OpenChan;
    pr_same : if n_cnt gs =? 0 then sameFile s = None
              else ∃ h, sameFile s = Some (h, n_cnt gs);
    pr_streams : no_stream_event ev;
    pr_owned : ∀ h, EvOpen h ∈ ev →
      h ∈ ks ∨ (∃ g, g ∈ gs ∧ h ∈ g_handles g) ∨ (∃ c, sameFile s = Some (h, c)) }.

Lemma no_stream_snoc ev h :
  no_stream_event ev → (∀ n, h ≠ HStream n) → no_stream_event (ev ++ [EvOpen h]).
Proof.
  intros Hev Hh n. destruct (Hev n). rewrite !elem_of_app, !list_elem_of_singleton.
  split; intros [?|[= E]]; try done. by apply (Hh n).
Qed.

Lemma progress_call base k gs ev ks s w :
  progress base k gs ev ks s → progress base k gs ev ks (moved s w (next s) []).
Proof. intros []. split; simpl; rewrite ?app_nil_r; done. Qed.

Lemma progress_open base k gs ev ks s h w n :
  progress base k gs ev ks s → (∀ n, h ≠ HStream n) →
  progress base k gs (ev ++ [EvOpen h]) (h :: ks) (moved s w n [EvOpen h]).
Proof.
  intros [p1 p2 p3 p4 p5 p6 p7] Hh. split; simpl; try done.
  - by rewrite p1, app_assoc.
  - by apply no_stream_snoc.
  - intros h'. rewrite elem_of_app, list_elem_of_singleton, elem_of_cons. intros [Ho|[= ->]]; [|by left; left].
    destruct (p7 h' Ho) as [?|?]; [by left; right|by right].
Qed.

Lemma progress_keeps base k gs ev ks ks' s :
  progress base k gs ev ks s → (∀ h, h ∈ ks → h ∈ ks') → progress base k gs ev ks' s.
Proof. intros [] Hk. split; try done. naive_solver. Qed.

(** A goroutine with a handle of its own. *)
Lemma progress_spawn base k gs ev ks s g h :
  progress base (k + is_out g) gs ev (h :: ks) s → is_counting g = 0 → g_handles g = [h] →
  progress base k (gs ++ [g]) ev ks
    (mkSt (world s) (next s) (trace s) (spawned s ++ [g]) (copying s) (done s) (sameFile s)).
Proof.
  intros [p1 p2 p3 p4 p5 p6 p7] Hc Hg. split; simpl; try done.
  - by rewrite p2, app_assoc.
  - rewrite n_out_snoc. lia.
  - rewrite n_out_snoc, p4.
    by replace (n_out gs + is_out g + k) with (n_out gs + (k + is_out g)) by lia.
  - by rewrite n_cnt_snoc, Hc, Z.add_0_r.
  - intros h' Ho. destruct (p7 h' Ho) as [[->|?]%elem_of_cons|[(g' & ? & ?)|?]]; [|by left| |by right; right].
    + right; left. exists g. rewrite Hg. split; [|by left]. apply elem_of_app. right. by left.
    + right; left. exists g'. split; [|done]. apply elem_of_app. by left.
Qed.

(** A goroutine that shares the file. *)
Lemma progress_share base k gs ev ks s stream h :
  progress base (k + 1) gs ev (h :: ks) s → (n_cnt gs ≠ 0 → sameFile s = Some (h, n_cnt gs)) →
  progress base k (gs ++ [GOut stream WCounting]) ev ks
    (mkSt (world s) (next s) (trace s) (spawned s ++ [GOut stream WCounting]) (copying s) (done s)
       (Some (h, n_cnt gs + 1))).
Proof.
  intros [p1 p2 p3 p4 p5 p6 p7] Hs. pose proof (n_cnt_nonneg gs). split; simpl; try done.
  - by rewrite p2, app_assoc.
  - rewrite n_out_snoc. simpl. lia.
  - rewrite n_out_snoc, p4. simpl. by replace (n_out gs + 1 + k) with (n_out gs + (k + 1)) by lia.
  - rewrite n_cnt_snoc. simpl. replace (n_cnt gs + 1 =? 0) with false by (symmetry; apply Z.eqb_neq; lia).
    by exists h.
  - intros h' Ho. destruct (p7 h' Ho) as [[->|?]%elem_of_cons|[(g' & ? & ?)|(c & Ec)]].
    + right; right. by eexists.
    + by left.
    + right; left. exists g'. split; [|done]. apply elem_of_app. by left.
    + right; right. destruct (n_cnt gs =? 0) eqn:E0; [congruence|]. apply Z.eqb_neq in E0.
      rewrite (Hs E0) in Ec. simplify_eq. by eexists.
Qed.

Lemma close_Open : close OpenChan = Return ClosedChan.
Proof. done. Qed.

(** A path without output. *)
Lemma wpp_skip P base k gs ev ks (Q : () → ST → Prop) s :
  0 ≤ k → progress base (k + 1) gs ev ks s → (∀ s', progress base k gs ev ks s' → Q tt s') →
  wpp P copy_finished Q s.
Proof.
  intros Hk [p1 p2 p3 p4 p5 p6 p7] HQ. unfold copy_finished. apply wpp_bind, wpp_get. simpl.
  pose proof (n_out_nonneg gs). rewrite p4, p3.
  replace (n_out gs + (k + 1) =? 0) with false by (symmetry; apply Z.eqb_neq; lia).
  replace (n_out gs + (k + 1) - 1) with (n_out gs + k) by lia.
  destruct (n_out gs + k =? 0) eqn:E; simpl; apply wpp_modify, HQ; split; simpl; rewrite ?E; done.
Qed.

Lemma wpp_open_fifo P name wr k (Q : result handle → ST → Prop) s :
  (∀ e w, Q (Err e) (moved s w (next s) [])) →
  (∀ w, Q (Ok (k (next s))) (moved s w (next s + 1) [EvOpen (k (next s))])) →
  wpp P (open_fifo name wr k) Q s.
Proof.
  intros HE HQ. unfold open_fifo. apply wpp_bind, wpp_iocall. intros [e|] w _; [apply wpp_ret, HE|].
  apply wpp_bind, wpp_open_h, wpp_ret. rewrite moved_moved. apply HQ.
Qed.

(** One output: what its failure leaves open is no stream. *)
Lemma wpp_copy_output P base k gs ev ks name stdout stderr stream (Q : result (option handle) → ST → Prop) s :
  0 ≤ k → progress base (k + 1) gs ev ks s →
  (∀ e s' ev', trace s' = trace base ++ ev' → no_stream_event ev' → Q (Err e) s') →
  (∀ fr gn ev' s', progress base k (gs ++ gn) ev' (opt_list fr ++ ks) s' →
     name = "" ∧ gn = [] ∨ name ≠ "" ∧ (∃ wr, gn = [GOut stream wr]) → Q (Ok fr) s') →
  wpp P (copy_output name stdout stderr stream) Q s.
Proof.
  intros Hk Hp HE HQ. unfold copy_output. destruct (String.eqb_spec name "") as [->|Hname].
  { apply wpp_bind. eapply wpp_skip; [done|done|]. intros s' Hp'. apply wpp_ret.
    eapply (HQ None []); [by rewrite app_nil_r|by left]. }
  assert (HE' : ∀ e k gs ev ks s', progress base k gs ev ks s' → Q (Err e) s').
  { intros e k' gs' ev' ks' s' []. by eapply HE. }
  assert (HG : ∀ fw, name = "" ∧ [GOut stream fw] = [] ∨
                 name ≠ "" ∧ ∃ wr, [GOut stream fw] = [GOut stream wr]) by eauto.
  apply wpp_bind. unfold openOutputDestination. apply wpp_bind, wpp_get.
  destruct (IsFifo name (world s)) as [[|]|e]; [| |apply wpp_ret, wpp_ret; eapply HE', Hp].
  - apply wpp_bind, wpp_open_fifo.
    { intros e w. apply wpp_ret, wpp_ret. eapply HE', progress_call, Hp. }
    intros w. apply (progress_open _ _ _ _ _ _ (HFifoW (next s)) w (next s + 1)) in Hp; [|by intros m].
    apply wpp_bind, wpp_open_fifo.
    { intros e w'. apply wpp_ret, wpp_ret. eapply HE', progress_call, Hp. }
    intros w'. apply (progress_open _ _ _ _ _ _ (HFifoR (next s + 1)) w' (next s + 1 + 1)) in Hp;
      [|by intros m]. apply wpp_ret, wpp_bind, wpp_modify, wpp_ret.
    eapply (HQ (Some _)); [|apply HG]. eapply progress_spawn; [|done|done].
    eapply progress_keeps; [exact Hp|]. simpl. set_solver.
  - apply wpp_bind, wpp_get. destruct (sameFile s) as [[h c]|] eqn:Es.
    + assert (Ec : n_cnt gs ≠ 0 ∧ c = n_cnt gs).
      { destruct Hp as [_ _ _ _ p5 _ _]. rewrite Es in p5. destruct (n_cnt gs =? 0) eqn:E0; [done|].
        apply Z.eqb_neq in E0. destruct p5 as (h' & E5). by simplify_eq. }
      destruct Ec as [Hne ->]. apply wpp_bind, wpp_modify, wpp_ret, wpp_bind, wpp_modify, wpp_ret.
      eapply (HQ None); [|apply HG]. simpl. eapply (progress_share _ _ _ _ _ s); [|by intros].
      eapply progress_keeps; [exact Hp|set_solver].
    + assert (E0 : n_cnt gs = 0).
      { destruct Hp as [_ _ _ _ p5 _ _]. rewrite Es in p5. destruct (n_cnt gs =? 0) eqn:E0; [lia|].
        by destruct p5. }
      unfold open_file. apply wpp_bind, wpp_iocall. intros [e|] w _.
      { apply wpp_ret, wpp_ret. eapply HE', progress_call, Hp. }
      apply wpp_bind, wpp_iocall. intros [e|] w' _.
      { apply wpp_ret, wpp_ret. rewrite moved_moved.
        exact (HE' _ _ _ _ _ _ (progress_call _ _ _ _ _ s w' Hp)). }
      apply wpp_bind, wpp_open_h. rewrite !moved_moved. simpl.
      apply (progress_open _ _ _ _ _ _ (HFile (next s)) w' (next s + 1)) in Hp; [|by intros m].
      destruct (String.eqb stdout stderr).
      * apply wpp_bind, wpp_modify, wpp_ret, wpp_bind, wpp_modify, wpp_ret.
        eapply (HQ None); [|apply HG].
        pose proof (progress_share _ _ _ _ _ _ stream _ Hp ltac:(done)) as Hs. rewrite E0 in Hs. exact Hs.
      * apply wpp_ret, wpp_bind, wpp_modify, wpp_ret. eapply (HQ None); [|apply HG].
        by eapply progress_spawn.
Qed.

Lemma wpp_copyStreams P ss stdin out err (Q : result fifoKeepalive → ST → Prop) s :
  (∀ e s' ev, trace s' = trace s ++ ev → no_stream_event ev → Q (Err e) s') →
  (∀ k gs ev s', progress s 0 gs ev (opt_list (k_out k) ++ opt_list (k_err k)) s' →
     (∀ g, g ∈ gs → g_stream g = s_out ss ∧ out ≠ "" ∨ g_stream g = s_err ss ∧ err ≠ "" ∨
        g_stream g = s_in ss ∧ stdin ≠ "") →
     (err ≠ "" → ∃ wr, GOut (s_err ss) wr ∈ gs) → Q (Ok k) s') →
  wpp P (copyStreams ss stdin out err) Q s.
Proof.
  intros HE HQ. unfold copyStreams. apply wpp_bind, wpp_modify, wpp_bind, wpp_modify, wpp_bind.
  set (s1 := mkSt _ _ _ _ _ _ None).
  assert (Hp : progress s (1 + 1) [] [] [] s1).
  { split; simpl; rewrite ?app_nil_r; try done.
    - intros n. split; apply not_elem_of_nil.
    - by intros h ?%elem_of_nil. }
  eapply (wpp_copy_output P s 1); [lia|exact Hp|intros; by eapply HE|].
  intros ko gn ev1 s2 Hp2 Hg1. apply wpp_bind.
  eapply (wpp_copy_output P s 0); [lia|exact Hp2|intros; by eapply HE|].
  intros ke gn' ev2 s3 Hp3 Hg2. apply wpp_bind.
  assert (HS : ∀ gi ev s', progress s 0 (([] ++ gn) ++ gn' ++ gi) ev (opt_list ke ++ opt_list ko ++ []) s' →
    (∀ g, g ∈ gi → g_stream g = s_in ss ∧ stdin ≠ "") → Q (Ok (mkKeepalive ko ke)) s').
  { intros gi ev s' Hp' Hgi. eapply HQ.
    - eapply progress_keeps; [exact Hp'|set_solver].
    - simpl. intros g [Hg|[Hg|Hg]%elem_of_app]%elem_of_app.
      + left. destruct Hg1 as [[_ ->]|[? [wr ->]]]; [by apply elem_of_nil in Hg|].
        by apply list_elem_of_singleton in Hg as ->.
      + right; left. destruct Hg2 as [[_ ->]|[? [wr ->]]]; [by apply elem_of_nil in Hg|].
        by apply list_elem_of_singleton in Hg as ->.
      + right; right. by apply Hgi.
    - intros Herr. destruct Hg2 as [[? _]|[_ [wr ->]]]; [done|]. exists wr.
      apply elem_of_app. right. by left. }
  unfold startStdinCopy. destruct (String.eqb_spec stdin "") as [->|Hin].
  { apply wpp_ret, wpp_ret. eapply (HS []); [by rewrite app_nil_r|by intros g ?%elem_of_nil]. }
  apply wpp_bind, wpp_iocall. intros [e|] w _.
  { apply wpp_ret, wpp_ret. destruct Hp3 as [p1 _ _ _ _ p6 _]. eapply HE; [|exact p6].
    simpl. by rewrite app_nil_r, p1. }
  apply wpp_bind, wpp_open_h, wpp_bind, wpp_modify, wpp_ret, wpp_ret. rewrite moved_moved. simpl.
  apply (progress_open _ _ _ _ _ _ (HStdin (next s3)) w (next s3 + 1)) in Hp3; [|by intros m].
  eapply (HS [GIn (s_in ss) (HStdin (next s3))]).
  - rewrite app_assoc. eexact (progress_spawn s 0 _ _ _ _ (GIn (s_in ss) (HStdin (next s3))) _ Hp3 eq_refl eq_refl).
  - by intros g ->%list_elem_of_singleton.
Qed.

End copy.

(** ** The goroutines to their end *)

Definition is_fin (x : gstep) : Z := match x with SFinished => 1 | _ => 0 end.
Definition is_cw (x : gstep) : Z := match x with SWriter WCounting => 1 | _ => 0 end.
(** The handles that a step closes by itself. *)
Definition x_handles (x : gstep) : list handle :=
  match x with SWriter (WHandle h) | SHandle h => [h] | _ => [] end.

Lemma fins_of gs : sumZ is_fin (gs ≫= steps_of) = n_out gs.
Proof. apply sumZ_bind. by intros [|[] ]. Qed.
Lemma cws_of gs : sumZ is_cw (gs ≫= steps_of) = n_cnt gs.
Proof. apply sumZ_bind. by intros [? []|[] ]. Qed.

Section schedules.
Context {W : Type} `{OI : !IOOps W}.
Notation ST := (st W).
Implicit Types (P : Prop) (s base : ST).

(** The counters agree with the steps that are left. *)
Definition pending (l : list gstep) s : Prop :=
  copying s = sumZ is_fin l ∧ done s = (if sumZ is_fin l =? 0 then ClosedChan else OpenChan) ∧
  (sumZ is_cw l ≠ 0 → ∃ h, sameFile s = Some (h, sumZ is_cw l)).

(** What the steps [l] close: their own handles, and the shared file. *)
Definition closes (l : list gstep) (same : option (handle * Z)) (ev : list event) : Prop :=
  (∀ x h, x ∈ l → h ∈ x_handles x → EvClose h ∈ ev) ∧
  (∀ h n, sumZ is_cw l ≠ 0 → same = Some (h, n) → EvClose h ∈ ev) ∧
  (∀ h, EvOpen h ∉ ev).

Lemma sumZ_fin_nonneg l : 0 ≤ sumZ is_fin l.
Proof. apply sumZ_nonneg. by intros []. Qed.
Lemma sumZ_cw_nonneg l : 0 ≤ sumZ is_cw l.
Proof. apply sumZ_nonneg. by intros [| |[]|]. Qed.

Lemma wpp_run_step x l (Q : () → ST → Prop) s :
  pending (x :: l) s → x ≠ SRead None →
  (∀ s' ev, pending l s' → trace s' = trace s ++ ev →
     (∀ ev', closes l (sameFile s') ev' → closes (x :: l) (sameFile s) (ev ++ ev')) → Q tt s') →
  wpp False (run_step x) Q s.
Proof.
  intros (Hc & Hd & Hs) Hx HQ. pose proof (sumZ_fin_nonneg l). pose proof (sumZ_cw_nonneg l).
  assert (HC : ∀ ev same same', is_cw x = 0 → same = same' → (∀ h, EvOpen h ∉ ev) →
                (∀ h, h ∈ x_handles x → EvClose h ∈ ev) → ∀ ev', closes l same' ev' → closes (x :: l) same (ev ++ ev')).
  { intros ev same same' Hcw -> Ho Hh ev' (C1 & C2 & C3). split_and!.
    - intros y h [->|Hy]%elem_of_cons Hyh; apply elem_of_app; [left; by apply Hh|right; by eapply C1].
    - intros h n. simpl. rewrite Hcw. intros ? E. apply elem_of_app. right. by eapply C2.
    - intros h [Hin|Hin]%elem_of_app; [by eapply Ho|by eapply C3]. }
  assert (Hnil : ∀ h, EvOpen h ∉ ([] : list event)) by (intros h; apply not_elem_of_nil).
  assert (Hone : ∀ h h', EvOpen h ∉ [EvClose h']) by (by intros h h' ?%list_elem_of_singleton).
  unfold pending in HQ. destruct x as [[n|]| |[h|]|h]; simpl in *; try done.
  - apply wpp_ret. eapply (HQ s []); [done|by rewrite app_nil_r|]. apply HC; [done|done|done|].
    by intros h ?%elem_of_nil.
  - unfold copy_finished. apply wpp_bind, wpp_get. simpl. rewrite Hd, Hc.
    replace (1 + sumZ is_fin l - 1) with (sumZ is_fin l) by lia.
    replace (1 + sumZ is_fin l =? 0) with false by (symmetry; apply Z.eqb_neq; lia).
    destruct (sumZ is_fin l =? 0) eqn:E; simpl; apply wpp_modify; eapply (HQ _ []); simpl;
      rewrite ?E, ?app_nil_r; try done; apply (HC []); try done; by intros h ?%elem_of_nil.
  - apply wpp_close_h. eapply (HQ _ [EvClose h]); simpl; [done|done|].
    apply (HC [EvClose h]); [done|done|done|]. by intros h' ->%list_elem_of_singleton; left.
  - destruct (Hs ltac:(lia)) as (h & Eh). unfold counting_Close. apply wpp_bind, wpp_get. rewrite Eh.
    apply wpp_bind, wpp_modify. replace (1 + sumZ is_cw l - 1) with (sumZ is_cw l) by lia.
    destruct (0 <? sumZ is_cw l) eqn:E.
    + apply Z.ltb_lt in E. apply wpp_ret. eapply (HQ _ []); simpl; [|by rewrite app_nil_r|].
      { split_and!; [done|done|]. intros _. by eexists. }
      intros ev' (C1 & C2 & C3). split_and!; [| |].
      * intros y h' [->|Hy]%elem_of_cons Hyh; [by apply elem_of_nil in Hyh|by eapply C1].
      * intros h' n _ E'. rewrite Eh in E'. simplify_eq. eapply C2; [lia|done].
      * done.
    + apply Z.ltb_ge in E. apply wpp_close_h. eapply (HQ _ [EvClose h]); simpl; [|done|].
      { split_and!; [done|done|]. lia. }
      intros ev' (C1 & C2 & C3). split_and!; [| |].
      * intros y h' [->|Hy]%elem_of_cons Hyh; [by apply elem_of_nil in Hyh|right; by eapply C1].
      * intros h' n _ E'. rewrite Eh in E'. simplify_eq. by left.
      * intros h' [Hin|Hin]%elem_of_cons; [done|by eapply C3].
  - apply wpp_close_h. eapply (HQ _ [EvClose h]); simpl; [done|done|].
    apply (HC [EvClose h]); [done|done|done|]. by intros h' ->%list_elem_of_singleton; left.
Qed.

Lemma wpp_run_steps l s :
  pending l s → SRead None ∉ l →
  wpp False (run_steps l)
    (λ _ s', done s' = ClosedChan ∧ ∃ ev, trace s' = trace s ++ ev ∧ closes l (sameFile s) ev) s.
Proof.
  revert s. induction l as [|x l IH]; intros s Hp Hn; simpl.
  - apply wpp_ret. destruct Hp as (_ & Hd & _). split; [done|]. exists []. rewrite app_nil_r.
    split; [done|]. split; [by intros x h ?%elem_of_nil|]. split; [done|]. intros h. apply not_elem_of_nil.
  - apply not_elem_of_cons in Hn as [Hx Hn]. apply wpp_bind.
    eapply wpp_run_step; [exact Hp|done|]. intros s' ev Hp' Ht HC.
    eapply wpp_mono; [by apply IH|]. simpl. intros _ s2 (Hd & ev' & Ht' & Hcl). split; [done|].
    exists (ev ++ ev'). rewrite Ht', Ht, app_assoc. split; [done|by apply HC].
Qed.

End schedules.

(** ** forwardIOWithIDs *)

Section forward.
Context {W : Type} `{OI : !IOOps W}.
Notation ST := (st W).
Implicit Types (s base : ST).

(** The paths that the host copies to are those with a stream. *)
Definition has_stderr (sio : Stdio) : Prop := file_scheme (Stdout sio) → Stderr sio ≠ "".

(** A direct forwarder made in [s], and the state it leaves: the streams are
    open, and [pr] is what [copyStreams] has started. *)
Record forwarding (sio : Stdio) s ss k gs ev s' : Prop := mkForwarding
  { fw_shape : shape sio ss;
    fw_progress : ∃ s1, trace s1 = trace s ++ open_streams ss ∧ spawned s1 = spawned s ∧
      progress s1 0 gs ev (opt_list (k_out k) ++ opt_list (k_err k)) s';
    fw_reads : ¬ file_scheme "" → has_stderr sio → ∀ g, g ∈ gs → g_stream g ≠ None;
    fw_nil : ∀ path, url_Parse (Stdout sio) = Ok ("file", path) → path ≠ "" → Stderr sio = "" →
      ∃ wr, GOut None wr ∈ gs }.

Lemma wpp_forwardIO sio0 (Q : result forwarder → ST → Prop) s :
  let sio := no_stderr sio0 in
  (∀ e s' ev, trace s' = trace s ++ ev → streams_closed ev → Q (Err e) s') →
  (∀ g, Q (Ok (noopForwarder g)) s) →
  (∀ g ss k gs ev s', forwarding sio s ss k gs ev s' → Q (Ok (directForwarder g ss k)) s') →
  wpp False (forwardIOWithIDs sio0) Q s.
Proof.
  intros sio HE HN HD. unfold forwardIOWithIDs. fold sio. destruct (IsNull sio); [by apply wpp_ret|].
  apply wpp_bind, wpp_setupForwardIO.
  { intros e w n ev Hev. apply wpp_ret. by eapply HE. }
  { intros f ->. apply wpp_ret, HN. }
  intros f w n -> Hsh Huse Hf. fold (outPath sio f) (errPath sio f).
  apply wpp_bind, wpp_copyStreams.
  - intros e s' ev Ht Hev. apply wpp_bind, wpp_close_streams, wpp_ret.
    eapply (HE _ _ ((open_streams (fs_streams f) ++ ev) ++ _)).
    + simpl. rewrite Ht. simpl. by rewrite <-!app_assoc.
    + apply streams_closed_all. intros m [Hm|Hm]%elem_of_app; [by apply elem_of_opens|].
      by destruct (Hev m).
  - intros k gs ev s' Hp Hgs Hgerr. apply wpp_ret. eapply HD. split; [done|eexists; split_and!; [| |exact Hp]; done| |].
    + intros Hn Hh g Hg. destruct Hsh as (Hi & Ho & He).
      unfold outPath, errPath, has_stderr in *. destruct Huse as [Huse _].
      destruct (Hgs g Hg) as [[Es Hne]|[[Es Hne]|[Es Hne]]]; rewrite Es; clear Es.
      * intros E%Ho. destruct (usePIOPaths f); [|done]. apply Hn. rewrite <-E. by apply Huse.
      * intros E%He. destruct (usePIOPaths f); [|done]. by apply Hh; [apply Huse|].
      * by intros E%Hi.
    + intros path Hu Hpath Hse.
      assert (Eu : usePIOPaths f = true) by (apply Huse; unfold file_scheme; by rewrite Hu).
      destruct (Hf Eu Hse) as [[scheme Es] Ee]. rewrite Hu in Es. simplify_eq.
      unfold errPath in Hgerr. rewrite Eu, Ee in Hgerr. destruct (Hgerr Hpath) as [wr Hwr].
      exists wr. by rewrite (proj2 (proj2 (proj2 Hsh)) Hse) in Hwr.
Qed.

Lemma wpp_close_k o (Q : () → ST → Prop) s :
  Q tt (moved s (world s) (next s) (EvClose <$> opt_list o)) →
  wpp False (match o with Some h => close_h h | None => m_ret tt end) Q s.
Proof. destruct o; simpl; intros HQ; [done|]. by rewrite moved_nil in HQ. Qed.

Lemma wpp_forwarder_Shutdown g ss k (Q : forwarder → ST → Prop) s :
  Q (directForwarder g ss (mkKeepalive None None))
    (moved s (world s) (next s) ((EvClose ∘ HStream <$> stream_list ss) ++
       (EvClose <$> opt_list (k_out k) ++ opt_list (k_err k)))) →
  wpp False (forwarder_Shutdown (directForwarder g ss k)) Q s.
Proof.
  intros HQ. unfold forwarder_Shutdown, keepalive_Close.
  apply wpp_bind, wpp_close_streams, wpp_bind, wpp_bind, wpp_close_k, wpp_close_k, wpp_ret.
  rewrite fmap_app in HQ. by rewrite !moved_moved.
Qed.

(** Every handle opened since [base] is closed. *)
Definition all_closed base s : Prop :=
  ∃ ev, trace s = trace base ++ ev ∧ ∀ h, EvOpen h ∈ ev → EvClose h ∈ ev.

(** What a forwarder opened and what its [Shutdown] closes. *)
Definition fw_events ss k (ev ev' : list event) : list event :=
  open_streams ss ++ ev ++ ev' ++ (EvClose ∘ HStream <$> stream_list ss) ++
  (EvClose <$> opt_list (k_out k) ++ opt_list (k_err k)).

Lemma fw_stream_closed ss k ev ev' n :
  n ∈ stream_list ss → EvClose (HStream n) ∈ fw_events ss k ev ev'.
Proof.
  intros Hn. unfold fw_events. rewrite !elem_of_app. right; right; right; left.
  apply list_elem_of_fmap. by exists n.
Qed.
Lemma fw_open_inv ss k ev ev' h :
  (∀ h, EvOpen h ∉ ev') → EvOpen h ∈ fw_events ss k ev ev' →
  (∃ n, h = HStream n ∧ n ∈ stream_list ss) ∨ EvOpen h ∈ ev.
Proof.
  intros Hev'. unfold fw_events, open_streams. rewrite !elem_of_app, !list_elem_of_fmap. simpl.
  intros [(n & [= ->] & ?)|[?|[?|[(? & ? & _)|(? & ? & _)]]]]; [left; by exists n|by right| |done|done].
  by destruct (Hev' h).
Qed.

Lemma streams_closed_fw ss k ev :
  no_stream_event ev → streams_closed (fw_events ss k ev []).
Proof.
  intros Hev n [(m & [= <-] & Hm)|Ho]%fw_open_inv; [by apply fw_stream_closed| |].
  - by destruct (Hev n).
  - by intros h ?%elem_of_nil.
Qed.

Lemma Shutdown_trace g ss k (ev ev' : list event) (t : list event) (Q : forwarder → ST → Prop) s :
  trace s = (t ++ open_streams ss) ++ ev ++ ev' →
  (∀ f s', trace s' = t ++ fw_events ss k ev ev' → Q f s') →
  wpp False (forwarder_Shutdown (directForwarder g ss k)) Q s.
Proof.
  intros Ht HQ. apply wpp_forwarder_Shutdown, HQ. simpl. rewrite Ht. unfold fw_events.
  by rewrite <-!(assoc_L (++)).
Qed.

(** The steps left by [copyStreams]. *)
Lemma progress_pending base gs ev ks s l :
  progress base 0 gs ev ks s → l ≡ₚ gs ≫= steps_of → pending l s.
Proof.
  intros [_ _ p3 p4 p5 _ _] Hl. unfold pending.
  assert (sumZ is_fin l = n_out gs) as -> by by rewrite Hl, fins_of.
  assert (sumZ is_cw l = n_cnt gs) as -> by by rewrite Hl, cws_of.
  rewrite Z.add_0_r in p3, p4. split_and!; [done|done|].
  intros Hne%Z.eqb_neq. by rewrite Hne in p5.
Qed.

Lemma steps_read gs l :
  l ≡ₚ gs ≫= steps_of → (∀ g, g ∈ gs → g_stream g ≠ None) → SRead None ∉ l.
Proof.
  intros Hl Hg. rewrite Hl, list_elem_of_bind. intros (g & Hin & Hgs).
  specialize (Hg g Hgs). destruct g as [[n|] w|[n|] f]; simpl in *; set_solver.
Qed.

Lemma step_handle g h : h ∈ g_handles g → ∃ x, x ∈ steps_of g ∧ h ∈ x_handles x.
Proof.
  destruct g as [o [h'|]|o h']; simpl; intros Hh; try by apply elem_of_nil in Hh.
  - apply list_elem_of_singleton in Hh as ->. exists (SWriter (WHandle h')).
    split; [by right; right; left|by left].
  - apply list_elem_of_singleton in Hh as ->. exists (SHandle h').
    split; [|by left]. unfold stdin_copy. right. apply elem_of_app. right. by left.
Qed.

(** A forwarder whose goroutines have ended has everything closed. *)
Lemma fw_all_closed base base1 gs ss k ev s l ev' s2 :
  progress base1 0 gs ev (opt_list (k_out k) ++ opt_list (k_err k)) s → l ≡ₚ gs ≫= steps_of →
  closes l (sameFile s) ev' → trace s2 = trace base ++ fw_events ss k ev ev' → all_closed base s2.
Proof.
  intros [_ _ _ _ p5 _ p7] Hl (C1 & C2 & C3) Ht. eexists. split; [exact Ht|].
  assert (Hin : ∀ h, EvClose h ∈ ev' → EvClose h ∈ fw_events ss k ev ev').
  { intros h Hh. unfold fw_events. rewrite !elem_of_app. by right; right; left. }
  intros h [(n & -> & Hs)|Ho]%fw_open_inv; [by apply fw_stream_closed| |done].
  destruct (p7 h Ho) as [Hk|[(g & Hg & Hh)|(c & Ec)]].
  - unfold fw_events. rewrite !elem_of_app. do 4 right. apply list_elem_of_fmap. by exists h.
  - destruct (step_handle g h Hh) as (x & Hx & Hhx). apply Hin. eapply C1; [|exact Hhx].
    rewrite Hl. apply list_elem_of_bind. by exists g.
  - apply Hin. eapply C2; [|exact Ec]. rewrite Hl, cws_of. intros E0. rewrite E0 in p5. simpl in p5. congruence.
Qed.

End forward.

Section claims.
Context {W : Type} `{OI : !IOOps W}.
Notation ST := (st W).

(** Setting up the forwarding of a process's I/O returns whatever the URIs
    say and the VM and the file system do; an error leaves no stream of the VM
    open, a pass-through opens nothing and starts no goroutine, and the streams
    of a direct forwarder are closed by its [Shutdown], one that stderr shares
    with stdout included. *)
Theorem forwardIO_streams_closed (sio : Stdio) (s : ST) :
  ∃ r s', forwardIOWithIDs sio s = Return (r, s') ∧
    match r with
    | Err _ => ∃ ev, trace s' = trace s ++ ev ∧ streams_closed ev
    | Ok (noopForwarder _) => s' = s
    | Ok (directForwarder g ss k) =>
        shape (no_stderr sio) ss ∧
        ∃ f s2 ev, forwarder_Shutdown (directForwarder g ss k) s' = Return (f, s2) ∧
          trace s2 = trace s ++ open_streams ss ++ ev ∧ streams_closed (open_streams ss ++ ev)
    end.
Proof.
  apply wpp_False, wpp_forwardIO; [intros e s' ev Ht Hev; by exists ev|done|].
  intros g ss k gs ev s' [Hsh (s1 & Ht & _ & Hp) _ _]. split; [done|].
  destruct Hp as [p1 _ _ _ _ p6 _].
  assert (HS : wpp False (forwarder_Shutdown (directForwarder g ss k))
                 (λ _ s2, trace s2 = trace s ++ fw_events ss k ev []) s').
  { eapply (Shutdown_trace g ss k ev [] (trace s)); [by rewrite app_nil_r, p1, Ht|done]. }
  apply wpp_False in HS as (f & s2 & E & Ht2). exists f, s2. eexists. split_and!; [exact E|exact Ht2|]. by apply streams_closed_fw.
Qed.


(** A process whose stdout is a file and that has no stderr of its own, as
    every process with a terminal, brings the shim down: the copy of its stderr
    is started on a stream that does not exist, and its first step panics in
    every state. *)
Theorem file_stdout_without_stderr_panics (sio : Stdio) (s : ST) path g ss k s' :
  url_Parse (Stdout sio) = Ok ("file", path) → path ≠ "" → Stderr (no_stderr sio) = "" →
  forwardIOWithIDs sio s = Return (Ok (directForwarder g ss k), s') →
  ∃ wr rest, GOut None wr ∈ spawned s' ∧ steps_of (GOut None wr) = SRead None :: rest ∧
    ∀ s2 : ST, run_steps (steps_of (GOut None wr)) s2 =
      Panic "invalid memory address or nil pointer dereference".
Proof.
  intros Hu Hpath Hse. revert g ss k s'.
  cut (wpp False (forwardIOWithIDs sio) (λ r s', ∀ g ss k, r = Ok (directForwarder g ss k) →
         ∃ wr, GOut None wr ∈ spawned s') s).
  { intros (r & s' & E & HC)%wpp_False g ss k s2 E2. rewrite E in E2. injection E2 as -> ->.
    destruct (HC g ss k eq_refl) as (wr & Hwr). exists wr. by eexists. }
  apply wpp_forwardIO; [done|done|]. intros g ss k gs ev s' [_ (s1 & Ht & Hsp & Hp) _ Hn] ? ? ? _.
  assert (Eo : Stdout (no_stderr sio) = Stdout sio) by (unfold no_stderr; by case_match).
  rewrite Eo in Hn. destruct (Hn path Hu Hpath Hse) as (wr & Hwr). exists wr.
  rewrite (pr_spawned _ _ _ _ _ _ Hp). apply elem_of_app. by right.
Qed.

End claims.

(** ** A concrete host *)

Module IODemo.

(** Paths, [file://] URIs, and FIFOs under [/fifo]. *)
#[local] Instance demo : IOOps nat := {|
  url_Parse p := if String.prefix "file://" p then Ok ("file", String.substring 7 (String.length p - 7) p)
                 else Ok ("", p);
  os_MkdirAll _ w := (None, w);
  filepath_Dir p := p;
  StartStream w := (Ok (Z.of_nat w), S w);
  IsFifo p _ := Ok (String.prefix "/fifo" p);
  OpenFifo _ _ w := (None, w);
  OpenFile _ w := (None, w) |}.

(** Stdin on a FIFO, stdout and stderr on one file. *)
Definition one_file : Stdio := mkStdio "/fifo/in" "file:///log" "file:///log" false.
(** A terminal whose output is a file. *)
Definition tty : Stdio := mkStdio "" "file:///log" "" true.

Definition one_file_fw : forwarder :=
  directForwarder (mkStdio "stream://0" "stream://1" "stream://1" false)
    (mkStreams (Some 0) (Some 1) (Some 1)) (mkKeepalive None None).
Definition one_file_st : st nat :=
  mkSt 2%nat 4 [EvOpen (HStream 0); EvOpen (HStream 1); EvOpen (HFile 2); EvOpen (HStdin 3)]
    [GOut (Some 1) WCounting; GOut (Some 1) WCounting; GIn (Some 0) (HStdin 3)]
    2 OpenChan (Some (HFile 2, 2)).

Definition tty_st : st nat :=
  mkSt 1%nat 2 [EvOpen (HStream 0); EvOpen (HFile 1)]
    [GOut (Some 0) WCounting; GOut None WCounting] 2 OpenChan (Some (HFile 1, 2)).


Lemma file_stdout_without_stderr_panics_witness :
  ∃ wr rest, GOut None wr ∈ spawned tty_st ∧ steps_of (GOut None wr) = SRead None :: rest ∧
    ∀ s2 : st nat, run_steps (steps_of (GOut None wr)) s2 =
      Panic "invalid memory address or nil pointer dereference".
Proof.
  apply (file_stdout_without_stderr_panics tty (init_st 0%nat) "/log"
           (mkStdio "" "stream://0" "" true) (mkStreams None (Some 0) None) (mkKeepalive None None)).
  - vm_compute. reflexivity.
  - discriminate.
  - reflexivity.
  - vm_compute. reflexivity.
Defined.

End IODemo.
