(* ===== verification/ShimManager.v ===== *)
(** * Starting and stopping the shim

    Models internal/shim/manager/manager_linux.go and mount_linux.go: what the
    binary does when containerd asks it to start a shim for a container or to stop
    one.  The state knows the files that are open, the addresses that have a socket,
    the processes that run, whether the thread is locked and whether it is in a
    mount namespace of its own.  containerd's helpers and the system calls are an
    interface ([Env]) whose every call may fail. *)

From S2P Require Import Prelude GoStrings.
From Stdlib Require Import Ascii.

Module ShimManager.
#[local] Open Scope m_scope.

Record Cmd := mkCmd { cmd_Path : string; cmd_Args : list string; cmd_Dir : string; cmd_Env : list string; ExtraFiles : list Z }.

Class Env (W : Type) := {
  NamespaceRequired : result string;
  os_Executable : W → result string * W;
  os_Getwd : W → result string * W;
  os_Environ : list string;
  os_Open : string → W → option error * W;
  (* the annotations in config.json *)
  Decode : W → result (gmap string string) * W;
  (* the path, the ID and whether it is the debug socket *)
  SocketAddress : string → string → bool → result string;
  NewSocket : string → W → option error * W;
  SocketEaddrinuse : error → bool;
  CanConnect : string → W → bool * W;
  RemoveSocket : string → W → option error * W;
  socket_File : W → option error * W;
  close_file : Z → W → option error * W;
  Unshare : W → option error * W;
  (* remounts the root, shared or as a slave *)
  remount : bool → W → option error * W;
  Setns : W → option error * W;
  cmd_Start : Cmd → W → option error * W;
  WritePidFile : string → Z → W → option error * W;
  os_ReadFile : string → W → result string * W;
  proc_Kill : Z → W → option error * W;
  unix_Kill : Z → W → option error * W;
  (* os.ErrProcessDone and ESRCH *)
  ProcessDone : error → bool;
  ESRCH : error → bool;
  json_features : string → result (gmap string string) }.

Record st (W : Type) := mkSt
  { world : W; next : Z; live : gset Z; bound : gset string; procs : gset Z; private_ns : bool; locked : Z }.
Arguments mkSt {W}. Arguments world {W}. Arguments next {W}. Arguments live {W}. Arguments bound {W}.
Arguments procs {W}. Arguments private_ns {W}. Arguments locked {W}.

Definition shimGOMAXPROCS : Z := 4.
Definition groupLabels : list string := ["io.containerd.runc.v2.group"; "io.kubernetes.cri.sandbox-id"].

Section manager.
Context {W : Type} `{!Env W}.
Notation ST := (st W).

Definition call {A} (f : W → A * W) : M ST A := λ s,
  let '(a, w) := f (world s) in
  Return (a, mkSt w (next s) (live s) (bound s) (procs s) (private_ns s) (locked s)).
Definition new_handle : M ST Z := λ s,
  Return (next s, mkSt (world s) (next s + 1) ({[next s]} ∪ live s) (bound s) (procs s) (private_ns s) (locked s)).
Definition new_process : M ST Z := λ s,
  Return (next s, mkSt (world s) (next s + 1) (live s) (bound s) ({[next s]} ∪ procs s) (private_ns s) (locked s)).
Definition set_live (f : gset Z → gset Z) : M ST () :=
  m_modify (λ s, mkSt (world s) (next s) (f (live s)) (bound s) (procs s) (private_ns s) (locked s)).
Definition set_bound (f : gset string → gset string) : M ST () :=
  m_modify (λ s, mkSt (world s) (next s) (live s) (f (bound s)) (procs s) (private_ns s) (locked s)).
Definition set_procs (f : gset Z → gset Z) : M ST () :=
  m_modify (λ s, mkSt (world s) (next s) (live s) (bound s) (f (procs s)) (private_ns s) (locked s)).
Definition set_ns (b : bool) : M ST () :=
  m_modify (λ s, mkSt (world s) (next s) (live s) (bound s) (procs s) b (locked s)).
Definition set_lock (d : Z) : M ST () :=
  m_modify (λ s, mkSt (world s) (next s) (live s) (bound s) (procs s) (private_ns s) (locked s + d)).

(** A file is released whatever [Close] reports; a listener takes its socket
    with it. *)
Definition close_h (h : Z) : M ST () := call (close_file h) ≫= λ _, set_live (.∖ {[h]}).
Definition close_listener (h : Z) (addr : string) : M ST () := close_h h ≫= λ _, set_bound (.∖ {[addr]}).
Definition remove_socket (addr : string) : M ST (option error) :=
  e ← call (RemoveSocket addr);
  match e with None => set_bound (.∖ {[addr]}) ≫= λ _, m_ret None | Some _ => m_ret e end.

(** ** The command *)

Definition newCommand (id containerdAddress : string) (debug : bool) : M ST (result Cmd) :=
  match NamespaceRequired with
  | Err e => m_ret (Err e)
  | Ok ns =>
      self ← call os_Executable;
      match self with
      | Err e => m_ret (Err e)
      | Ok self =>
          cwd ← call os_Getwd;
          match cwd with
          | Err e => m_ret (Err e)
          | Ok cwd =>
              let args := ["-namespace"; ns; "-id"; id; "-address"; containerdAddress] ++ (if debug then ["-debug"] else []) in
              m_ret (Ok (mkCmd self args cwd
                (os_Environ ++ ["GOMAXPROCS=" +:+ fmt_d shimGOMAXPROCS; "OTEL_SERVICE_NAME=containerd-shim-" +:+ id]) []))
          end
      end
  end.

Definition readSpec : M ST (result (gmap string string)) :=
  e ← call (os_Open "config.json");
  match e with
  | Some e => m_ret (Err e)
  | None => h ← new_handle; r ← call Decode; close_h h ≫= λ _, m_ret r
  end.

(** The first group label among the annotations, else the container itself. *)
Fixpoint group_of (labels : list string) (annotations : gmap string string) (id : string) : string :=
  match labels with
  | [] => id
  | l :: labels' => match annotations !! l with Some g => g | None => group_of labels' annotations id end
  end.

(** ** Sockets *)

Record shimSocket := mkSocket { addr : string; s_l : Z; s_f : Z }.

Definition shimSocket_Close (s : shimSocket) : M ST () :=
  close_listener (s_l s) (addr s) ≫= λ _, close_h (s_f s) ≫= λ _, remove_socket (addr s) ≫= λ _, m_ret tt.

(** [socketExistsError] is the second of three results. *)
Inductive new_socket := Socket (s : shimSocket) | Exists (address : string) | NoSocket (e : error).

Definition listen (address : string) : M ST (result Z) :=
  e ← call (NewSocket address);
  match e with
  | Some e => m_ret (Err e)
  | None => h ← new_handle; set_bound ({[address]} ∪.) ≫= λ _, m_ret (Ok h)
  end.

Definition with_file (address : string) (l : Z) : M ST new_socket :=
  e ← call socket_File;
  match e with
  | Some e => close_listener l address ≫= λ _, m_ret (NoSocket e)
  | None => f ← new_handle; m_ret (Socket (mkSocket address l f))
  end.

(** A stale socket is removed and made again. *)
Definition recreate (address : string) : M ST new_socket :=
  e ← remove_socket address;
  match e with
  | Some e => m_ret (NoSocket (ErrWrap "remove stale socket" e))
  | None =>
      r ← listen address;
      match r with
      | Ok l => with_file address l
      | Err e => m_ret (NoSocket (ErrWrap "create new shim socket after removing stale socket" e))
      end
  end.

Definition newShimSocket (path id : string) (debug : bool) : M ST new_socket :=
  match SocketAddress path id debug with
  | Err e => m_ret (NoSocket e)
  | Ok address =>
      r ← listen address;
      match r with
      | Ok l => with_file address l
      | Err e =>
          if negb (SocketEaddrinuse e) then m_ret (NoSocket (ErrWrap "create new shim socket" e))
          else
            c ← (if debug then m_ret false else call (CanConnect address));
            if c then m_ret (Exists address) else recreate address
      end
  end.

(** ** Start *)

Definition setupMntNs : M ST (option error) :=
  e ← call Unshare;
  match e with
  | Some e => m_ret (Some (ErrWrap "unshare mount namespace" e))
  | None =>
      set_ns true ≫= λ _,
      e ← call (remount false);
      match e with
      | Some e => m_ret (Some (ErrWrap "remount root as slave" e))
      | None =>
          e ← call (remount true);
          m_ret (ErrWrap "remount root as shared" <$> e)
      end
  end.

Definition kill (p : Z) : M ST () :=
  e ← call (proc_Kill p);
  match e with
  | Some e => if ProcessDone e then set_procs (.∖ {[p]}) else m_ret tt
  | None => set_procs (.∖ {[p]})
  end.

(** From [setupMntNs] on, with the deferred kill. *)
Definition start_process (cmd : Cmd) : M ST (result Z) :=
  e ← setupMntNs;
  match e with
  | Some e => m_ret (Err e)
  | None =>
      e ← call (cmd_Start cmd);
      match e with
      | Some e => m_ret (Err e)
      | None =>
          p ← new_process;
          e ← call (WritePidFile "shim.pid" p);
          match e with
          | Some e => kill p ≫= λ _, m_ret (Err e)
          | None => m_ret (Ok p)
          end
      end
  end.

(** From [LockOSThread] on, with the deferred functions in the order in which
    they run. *)
Definition in_namespace (cmd : Cmd) : M ST (result Z) :=
  set_lock 1 ≫= λ _,
  e ← call (os_Open "/proc/self/ns/mnt");
  match e with
  | Some e => set_lock (-1) ≫= λ _, m_ret (Err e)
  | None =>
      origNS ← new_handle;
      r ← start_process cmd;
      e ← call Setns;
      (match e with None => set_ns false | Some _ => m_ret tt end) ≫= λ _,
      close_h origNS ≫= λ _,
      set_lock (-1) ≫= λ _,
      m_ret (match e, r with Some e, Ok _ => Err e | _, _ => r end)
  end.

Definition close_sockets (sockets : list shimSocket) : M ST () := m_for shimSocket_Close sockets.

(** Who serves the container: a shim that was there, or a new one. *)
Inductive served := Reused (address : string) | Started (address : string) (sockets : list shimSocket) (pid : Z).

Definition start_with (cmd : Cmd) (sockets : list shimSocket) : M ST (result served) :=
  r ← in_namespace (mkCmd (cmd_Path cmd) (cmd_Args cmd) (cmd_Dir cmd) (cmd_Env cmd) (ExtraFiles cmd ++ (s_f <$> sockets)));
  match r with
  | Err e => close_sockets sockets ≫= λ _, m_ret (Err e)
  | Ok p => m_ret (Ok (Started (match sockets with s :: _ => addr s | [] => "" end) sockets p))
  end.

(** From the sockets on. *)
Definition open_sockets (cmd : Cmd) (address grouping : string) (debug : bool) : M ST (result served) :=
  r ← newShimSocket address grouping false;
  match r with
  | Exists a => m_ret (Ok (Reused a))
  | NoSocket e => m_ret (Err e)
  | Socket s1 =>
      if debug then
        r ← newShimSocket address grouping true;
        match r with
        | Socket s2 => start_with cmd [s1; s2]
        | Exists a => close_sockets [s1] ≫= λ _, m_ret (Err (ErrNew ("socket already exists: " +:+ a)))
        | NoSocket e => close_sockets [s1] ≫= λ _, m_ret (Err e)
        end
      else start_with cmd [s1]
  end.

Definition Start (id address : string) (debug : bool) : M ST (result served) :=
  cmd ← newCommand id address debug;
  match cmd with
  | Err e => m_ret (Err e)
  | Ok cmd =>
      spec ← readSpec;
      match spec with
      | Err e => m_ret (Err e)
      | Ok annotations =>
          open_sockets cmd address (group_of groupLabels annotations id) debug
      end
  end.

(** ** Stop and Info *)

Record StopStatus := mkStop { ExitStatus : Z; Pid : Z }.

Definition Stop : M ST (result StopStatus) :=
  r ← call (os_ReadFile "shim.pid");
  match r with
  | Err e => m_ret (Err e)
  | Ok p =>
      match Atoi p with
      | None => m_ret (Err (ErrWrap "parse shim PID" (ErrNew ("strconv.Atoi: parsing " +:+ p))))
      | Some pid =>
          e ← call (unix_Kill pid);
          let done := set_procs (.∖ {[pid]}) ≫= λ _, m_ret (Ok (mkStop (128 + 9) pid)) in
          match e with
          | Some e => if negb (ESRCH e) then m_ret (Err (ErrWrap "kill shim process" e)) else done
          | None => done
          end
      end
  end.

Definition readVMRuntimeFeatures : M ST (result (gmap string string)) :=
  r ← call (os_ReadFile "/run/vminitd/features.json");
  m_ret (match r with Err e => Err e | Ok data => json_features data end).

(** The annotations of [Info]: those of the guest take precedence. *)
Definition Info : M ST (gmap string string) :=
  r ← readVMRuntimeFeatures;
  let base := {[ "containerd.io/runtime-allow-mounts" := "mkdir/*,format/*,erofs" ]} in
  m_ret (match r with Ok features => features ∪ base | Err _ => base end).

End manager.
End ShimManager.

(** ** Accounting *)

Section accounting.
Import ShimManager.
Context {W : Type} `{!Env W}.
Implicit Types (s : st W).
#[local] Open Scope m_scope.

(** [Kill] on a process of our own fails only if it has ended. *)
Hypothesis kill_works : ∀ p (w : W) e, fst (proc_Kill p w) = Some e → ProcessDone e = true.

Definition numbered s : Prop := ∀ x, x ∈ live s ∪ procs s → x < next s.

(** Nothing but the world and the numbers, and the sockets only by removal. *)
Definition rest s s' : Prop :=
  private_ns s' = private_ns s ∧ locked s' = locked s ∧ next s ≤ next s'.
Definition kept s s' : Prop := live s' = live s ∧ procs s' = procs s ∧ bound s' ⊆ bound s ∧ rest s s'.

Lemma kept_refl s : kept s s.
Proof. unfold kept, rest. naive_solver lia. Qed.
Lemma kept_trans s1 s2 s3 : kept s1 s2 → kept s2 s3 → kept s1 s3.
Proof. unfold kept, rest. intros (-> & -> & ? & -> & -> & ?) (-> & -> & ? & -> & -> & ?). split_and!; [done|done|set_solver|done|done|lia]. Qed.
Lemma kept_numbered s s' : kept s s' → numbered s → numbered s'.
Proof. unfold kept, rest, numbered. intros (-> & -> & _ & _ & _ & ?) Hn x Hx. specialize (Hn x Hx). lia. Qed.

Lemma wp_mcall {A} (f : W → A * W) (Q : A → st W → Prop) s :
  (∀ a w, f (world s) = (a, w) → Q a (mkSt w (next s) (live s) (bound s) (procs s) (private_ns s) (locked s))) →
  wp (call f) Q s.
Proof. intros HQ. unfold wp, call. destruct (f (world s)) as [a w] eqn:E. by apply HQ. Qed.
Lemma wp_new_handle (Q : Z → st W → Prop) s :
  Q (next s) (mkSt (world s) (next s + 1) ({[next s]} ∪ live s) (bound s) (procs s) (private_ns s) (locked s)) →
  wp new_handle Q s.
Proof. done. Qed.

(** One step of a proof about a handler, and one of its branches. *)
Ltac branch := match goal with |- wp (match ?x with _ => _ end) _ _ => destruct x eqn:? end.
Ltac run :=
  match goal with
  | |- wp (m_ret _) _ _ => apply wp_ret
  | |- wp (m_bind _ _) _ _ => apply wp_bind
  | |- wp (call _) _ _ => apply wp_mcall; intros ? ? ?
  | |- wp new_handle _ _ => apply wp_new_handle
  | |- wp (m_modify _) _ _ => apply wp_modify
  | |- wp (set_live _) _ _ => apply wp_modify
  | |- wp (set_bound _) _ _ => apply wp_modify
  | |- wp (set_procs _) _ _ => apply wp_modify
  | |- wp (set_ns _) _ _ => apply wp_modify
  | |- wp (set_lock _) _ _ => apply wp_modify
  end; cbn [world next live bound procs private_ns locked].

Ltac by_sets := unfold kept, rest in *; cbn; split_and!; first [done|lia|congruence|set_solver by lia].

Lemma newCommand_kept id a d s : wp (newCommand id a d) (λ _ s', kept s s') s.
Proof.
  unfold newCommand. branch; [|run; by_sets]. do 2 run.
    branch; [|run; by_sets]. do 2 run. branch; run; by_sets.
Qed.

Lemma numbered_fresh s : numbered s → next s ∉ live s ∧ next s ∉ procs s.
Proof. intros Hn. split; intros Hx; specialize (Hn (next s)); set_solver by lia. Qed.

Lemma readSpec_kept s : numbered s → wp readSpec (λ _ s', kept s s') s.
Proof.
  intros [Hf _]%numbered_fresh. unfold readSpec. do 2 run. branch; [run; by_sets|].
  unfold close_h. repeat run. unfold kept, rest. cbn. split_and!; [set_solver|done|done|done|done|lia].
Qed.

(** Closing a socket undoes it. *)
Lemma remove_socket_spec a s :
  wp (remove_socket a) (λ _ s', live s' = live s ∧ procs s' = procs s ∧ bound s ∖ {[a]} ⊆ bound s' ⊆ bound s ∧ rest s s' ∧ next s' = next s) s.
Proof. unfold remove_socket. do 2 run. branch; repeat run; by_sets. Qed.

Definition handles (l : list shimSocket) : gset Z := ⋃ ((λ x, {[s_l x; s_f x]}) <$> l).

Lemma Close_spec x s :
  wp (shimSocket_Close x) (λ _ s', live s' = live s ∖ {[s_l x; s_f x]} ∧ procs s' = procs s ∧
    bound s' ⊆ bound s ∖ {[addr x]} ∧ rest s s') s.
Proof.
  unfold shimSocket_Close, close_listener, close_h. repeat run. eapply wp_mono; [apply remove_socket_spec|].
  unfold rest. cbn. intros _ s' (-> & -> & Hb & Hr & _). split_and!; [set_solver|done|set_solver|naive_solver..].
Qed.

Lemma close_sockets_spec l s :
  wp (close_sockets l) (λ _ s', live s' = live s ∖ handles l ∧ procs s' = procs s ∧
    bound s' ⊆ bound s ∖ list_to_set (addr <$> l) ∧ rest s s') s.
Proof.
  unfold close_sockets. revert s. induction l as [|x l IH]; intros s; cbn [m_for].
  - run. unfold rest. unfold handles. split_and!; first [done|lia|set_solver].
  - run. eapply wp_mono; [apply Close_spec|]. intros _ s1 (Hl & Hp & Hb & Hr). eapply wp_mono; [apply IH|].
    unfold rest in *. intros _ s2 (Hl' & Hp' & Hb' & ? & ? & ?). destruct Hr as (? & ? & ?). rewrite Hl', Hl, Hp'. unfold handles.
    split_and!; first [congruence|lia|set_solver].
Qed.

(** A socket, or nothing. *)
Definition socket_made (x : shimSocket) s s' : Prop :=
  live s' = {[s_l x; s_f x]} ∪ live s ∧ procs s' = procs s ∧ rest s s' ∧
  bound s ∪ {[addr x]} = bound s' ∧ next s ≤ s_l x < s_f x ∧ s_f x < next s'.

Lemma with_file_spec a s0 s :
  numbered s0 → live s = {[next s0]} ∪ live s0 → procs s = procs s0 → rest s0 s → next s = next s0 + 1 → bound s = {[a]} ∪ bound s0 →
  wp (with_file a (next s0)) (λ r s', match r with Socket x => addr x = a ∧ socket_made x s0 s' | Exists _ => False | NoSocket _ => kept s0 s' end) s.
Proof.
  intros [Hf _]%numbered_fresh Hl Hp Hr Hx Hb. unfold with_file. do 2 run. branch.
  - unfold close_listener, close_h. repeat run. unfold kept, rest in *. cbn. rewrite Hl, Hp, Hb. by_sets.
  - repeat run. unfold socket_made, rest in *. cbn. rewrite Hl, Hp, Hb, Hx. by_sets.
Qed.

Lemma listen_file a s :
  numbered s →
  wp (listen a) (λ r s', match r with
    | Err _ => live s' = live s ∧ procs s' = procs s ∧ bound s' = bound s ∧ rest s s'
    | Ok l => l = next s ∧ live s' = {[next s]} ∪ live s ∧ procs s' = procs s ∧ rest s s' ∧ next s' = next s + 1 ∧
              bound s' = {[a]} ∪ bound s end) s.
Proof. intros Hn. unfold listen. do 2 run. branch; repeat run; by_sets. Qed.

Definition socket_or_nothing s (r : new_socket) s' : Prop :=
  match r with Socket x => socket_made x s s' | _ => kept s s' end.

Lemma recreate_spec a s0 s :
  numbered s0 → kept s0 s → bound s = bound s0 → wp (recreate a) (socket_or_nothing s0) s.
Proof.
  intros Hn Hk Hb. unfold recreate. run. eapply wp_mono; [apply remove_socket_spec|].
  intros e1 s3 (Hl3 & Hp3 & Hb3 & Hr3 & _). rewrite Hb in Hb3.
  assert (kept s0 s3) as Hk3 by (eapply kept_trans; [exact Hk|]; by_sets).
  destruct e1; [by run|]. run. eapply wp_mono; [apply listen_file; by eapply kept_numbered|]. intros [l|e2] s4.
  - intros (-> & ? & ? & ? & ? & ?). eapply wp_mono; [apply with_file_spec; try done; by eapply kept_numbered|].
    intros [x|x|e2] s5; [|done|by apply kept_trans]. intros [Ha (Hl5 & Hp5 & Hr5 & Hb5 & Hx5)]. subst a.
    unfold socket_or_nothing, socket_made, kept, rest in *. destruct Hk3 as (HL & HP & HB & ? & ? & ?), Hr5 as (? & ? & ?).
    rewrite Hl5, Hp5, <- Hb5, HL, HP. split_and!; try (first [done|lia|congruence]).
    apply set_eq. intros y. destruct (decide (y = addr x)); set_solver.
  - intros (? & ? & ? & ?). run. eapply kept_trans; [exact Hk3|]. unfold kept. split_and!; [done..| |done]. set_solver.
Qed.

Lemma newShimSocket_spec path id debug s :
  numbered s → wp (newShimSocket path id debug) (socket_or_nothing s) s.
Proof.
  intros Hn. unfold newShimSocket. destruct (SocketAddress path id debug) as [a|e]; [|run; apply kept_refl].
  run. eapply wp_mono; [by apply listen_file|]. intros [l|e] s1.
  { intros (-> & ? & ? & ? & ? & ?). eapply wp_mono; [by apply with_file_spec|]. intros [] ?; cbn; tauto. }
  intros (Hl & Hp & Hb & Hr). assert (kept s s1) as Hk by (unfold kept; rewrite Hb; auto).
  destruct (negb _); [by run|]. run. destruct debug; run; [by apply recreate_spec|].
  branch; [run; exact Hk|]. apply recreate_spec; [done|exact Hk|done].
Qed.

(** The process, or nothing; a process outlives a failure only in a namespace that
    could not be left. *)
Definition process_or_nothing s (r : result Z) s' : Prop :=
  live s' = live s ∧ bound s' = bound s ∧ locked s' = locked s ∧ next s ≤ next s' ∧
  match r with
  | Ok p => procs s' = {[p]} ∪ procs s ∧ private_ns s' = false ∧ next s ≤ p < next s'
  | Err _ => procs s' = procs s ∨ private_ns s' = true ∧ ∃ p, procs s' = {[p]} ∪ procs s
  end.

Lemma setupMntNs_spec s :
  wp setupMntNs (λ e s', live s' = live s ∧ bound s' = bound s ∧ locked s' = locked s ∧ next s' = next s ∧ procs s' = procs s ∧
    (e = None → private_ns s' = true)) s.
Proof. unfold setupMntNs. do 2 run. branch; [run; by_sets|]. do 4 run. branch; repeat run; by_sets. Qed.

Lemma start_process_spec cmd s :
  numbered s →
  wp (start_process cmd) (λ r s', live s' = live s ∧ bound s' = bound s ∧ locked s' = locked s ∧ next s ≤ next s' ∧
    match r with Ok p => private_ns s' = true ∧ procs s' = {[p]} ∪ procs s ∧ next s ≤ p < next s' | Err _ => procs s' = procs s end) s.
Proof.
  intros [_ Hf]%numbered_fresh. unfold start_process. run. eapply wp_mono; [apply setupMntNs_spec|].
  intros e s1 (Hl & Hb & Hk & Hx & Hp & Hns). destruct e; [run; by_sets|]. specialize (Hns eq_refl). do 2 run. branch; [run; by_sets|].
  run. apply (wp_mono _ (λ p s', p = next s ∧ live s' = live s ∧ bound s' = bound s ∧ locked s' = locked s ∧
    next s' = next s + 1 ∧ private_ns s' = true ∧ procs s' = {[p]} ∪ procs s)); [unfold wp, new_process; cbn; by_sets|].
  intros p s2 (-> & Hl2 & Hb2 & Hk2 & Hx2 & Hns2 & Hp2). do 2 run. branch; [|run; by_sets]. run. unfold kill. do 2 run.
  assert (({[next s]} ∪ procs s) ∖ {[next s]} = procs s) as Hset by (clear -Hf; set_solver).
  branch; [pose proof (kill_works (next s) w0 e0) as Hd; cbn in H1; rewrite H1 in Hd; rewrite (Hd eq_refl)|]; repeat run;
    cbn; rewrite Hl2, Hb2, Hk2, Hp2, Hset; split_and!; (done || lia).
Qed.

Lemma in_namespace_spec cmd s :
  numbered s → private_ns s = false → wp (in_namespace cmd) (process_or_nothing s) s.
Proof.
  intros Hn Hns. pose proof (numbered_fresh s Hn) as [Hf _]. unfold in_namespace, process_or_nothing. do 4 run.
  branch; [repeat run; by_sets|]. do 3 run.
  eapply wp_mono; [apply start_process_spec; intros x; cbn; specialize (Hn x); set_solver by lia|].
  cbn. intros r s1 (Hl & Hb & Hk & Hx & Hr).
  assert (({[next s]} ∪ live s) ∖ {[next s]} = live s) as Hset by (clear -Hf; set_solver).
  do 3 run. unfold close_h. destruct a0 as [e|]; repeat run; rewrite Hl, Hb, Hk, Hset; (split_and!; [done|done|lia|lia|]);
    (destruct r as [p|]; [destruct Hr as (Hns1 & Hp & Hp1)|by left]); [by eauto|]. split_and!; (done || lia).
Qed.

(** The state with the sockets [l] made since [s0]. *)
Definition with_sockets (l : list shimSocket) s0 s : Prop :=
  live s = handles l ∪ live s0 ∧ handles l ## live s0 ∧ bound s ⊆ bound s0 ∪ list_to_set (addr <$> l) ∧
  Forall (λ x, addr x ∈ bound s) l ∧ procs s = procs s0 ∧ locked s = locked s0 ∧ private_ns s = false ∧
  next s0 ≤ next s ∧ numbered s0 ∧ numbered s.

(** The same when the second socket may have taken the place of the first. *)
Definition with_open (l : list shimSocket) s0 s : Prop :=
  live s = handles l ∪ live s0 ∧ handles l ## live s0 ∧ bound s ⊆ bound s0 ∪ list_to_set (addr <$> l) ∧
  procs s = procs s0 ∧ locked s = locked s0.

Definition served_or_nothing (debug : bool) s (r : result served) s' : Prop :=
  locked s' = locked s ∧
  match r with
  | Ok (Reused _) => live s' = live s ∧ procs s' = procs s ∧ bound s' ⊆ bound s ∧ private_ns s' = false
  | Ok (Started a sockets p) =>
      (addr <$> head sockets) = Some a ∧ length sockets = (if debug then 2 else 1)%nat ∧
      live s' = handles sockets ∪ live s ∧ handles sockets ## live s ∧ Forall (λ x, addr x ∈ bound s') sockets ∧
      procs s' = {[p]} ∪ procs s ∧ p ∉ procs s ∧ private_ns s' = false
  | Err _ =>
      live s' = live s ∧ bound s' ⊆ bound s ∧
      (procs s' = procs s ∨ private_ns s' = true ∧ ∃ p, procs s' = {[p]} ∪ procs s)
  end.

Lemma with_kept l s0 s1 s : with_sockets l s0 s1 → kept s1 s → with_open l s0 s.
Proof.
  intros (Hl & Hd & Hb & _ & Hp & Hk & _) (Hl' & Hp' & Hb' & _ & Hk' & _). unfold with_open.
  rewrite Hl', Hl, Hp', Hp, Hk', Hk. split_and!; [done|done|clear -Hb Hb'; set_solver|done|done].
Qed.

Lemma close_made (debug : bool) (l : list shimSocket) s0 s (e : error) :
  with_open l s0 s → wp (close_sockets l) (λ _ s', served_or_nothing debug s0 (Err e) s') s.
Proof.
  intros (Hl & Hd & Hb & Hp & Hk). eapply wp_mono; [apply close_sockets_spec|].
  intros _ s' (Hl' & Hp' & Hb' & Hr). unfold served_or_nothing. destruct Hr as (_ & -> & _).
  rewrite Hl', Hl, Hp', Hp. split_and!; [done|set_solver|set_solver|by left].
Qed.

Lemma start_with_spec (debug : bool) cmd (l : list shimSocket) s0 s :
  length l = (if debug then 2 else 1)%nat → with_sockets l s0 s → wp (start_with cmd l) (served_or_nothing debug s0) s.
Proof.
  intros Hlen (Hl & Hd & Hb & Hba & Hp & Hk & Hns & Hx & Hn0 & Hn). unfold start_with. run.
  eapply wp_mono; [by apply in_namespace_spec|]. intros r s1 (Hl1 & Hb1 & Hk1 & Hx1 & Hr). destruct r as [p|e].
  - run. destruct Hr as (Hp1 & Hns1 & Hp2). split; [congruence|].
    split_and!; try done; try congruence.
    + by destruct l, debug.
    + by rewrite Hb1.
    + intros Hin. specialize (Hn0 p). set_solver by lia.
  - run. eapply wp_mono; [apply close_sockets_spec|]. intros _ s2 (Hl2 & Hp2 & Hb2 & Hns2 & Hk2 & Hx2). run.
    split; [congruence|]. rewrite Hl2, Hl1, Hl, Hns2, Hp2. split_and!; [clear -Hd; set_solver|clear -Hb Hb1 Hb2; set_solver|].
    rewrite Hp in Hr. exact Hr.
Qed.

Lemma with_one x s0 s : numbered s0 → private_ns s0 = false → socket_made x s0 s → with_sockets [x] s0 s.
Proof.
  intros Hn Hns (Hl & Hp & (Hns' & Hk & Hx) & Hb & Hx1 & Hx2). unfold with_sockets, handles. cbn.
  rewrite Hl, Hp. split_and!; try done; try congruence; [set_solver| |set_solver|repeat constructor; set_solver|].
  - intros y Hy Hy'. specialize (Hn y). set_solver by lia.
  - intros y. rewrite Hl, Hp. specialize (Hn y). set_solver by lia.
Qed.

Lemma with_two x y s0 s1 s : with_sockets [x] s0 s1 → socket_made y s1 s → with_sockets [x; y] s0 s.
Proof.
  intros (Hl & Hd & Hb & Hba & Hp & Hk & Hns & Hx & Hn0 & Hn) (Hl' & Hp' & (Hns' & Hk' & Hx') & Hb' & Hy1 & Hy2).
  unfold with_sockets, handles in *. cbn in *. split_and!; try congruence; try done; try lia.
  - rewrite Hl', Hl. clear. set_solver.
  - intros z Hz Hz'. specialize (Hn0 z). set_solver by lia.
  - rewrite <- Hb'. clear -Hb. set_solver.
  - apply Forall_cons in Hba as [Hba _]. rewrite <- Hb'. repeat constructor; clear -Hba; set_solver.
  - intros z. rewrite Hl', Hp', Hp. specialize (Hn z). rewrite Hp in Hn. set_solver by lia.
Qed.

Lemma served_kept debug s s2 r s' : kept s s2 → served_or_nothing debug s2 r s' → served_or_nothing debug s r s'.
Proof.
  intros (Hl & Hp & Hb & _ & Hk & _). unfold served_or_nothing. rewrite Hl, Hp, Hk. intros [? Hr]. split; [done|].
  destruct r as [[|]|]; [|done|]; (split_and!; try apply Hr); etransitivity; [apply Hr|done|apply Hr|done].
Qed.

Lemma nothing_served (debug : bool) (e : error) s s' : kept s s' → served_or_nothing debug s (Err e) s'.
Proof. intros (? & ? & ? & _ & ? & _). split; [done|]. by split_and!; [..|left]. Qed.

Lemma open_sockets_spec cmd address grouping (debug : bool) s :
  numbered s → private_ns s = false → wp (open_sockets cmd address grouping debug) (served_or_nothing debug s) s.
Proof.
  intros Hn Hns. unfold open_sockets. run. eapply wp_mono; [by apply newShimSocket_spec|]. intros [x|a|e] s1 H1; cbn in H1.
  - apply with_one in H1; [|done..]. destruct debug; [|by apply start_with_spec]. run.
    eapply wp_mono; [apply newShimSocket_spec; apply H1|]. intros [y|a|e] s2 H2; cbn in H2.
    + apply start_with_spec; [done|]. by eapply with_two.
    + run. eapply wp_mono; [apply (close_made true), (with_kept _ _ _ _ H1 H2)|]. intros u s3 H3. run. exact H3.
    + run. eapply wp_mono; [apply (close_made true), (with_kept _ _ _ _ H1 H2)|]. intros u s3 H3. run. exact H3.
  - run. destruct H1 as (? & ? & ? & Hns' & ? & _). split; [done|]. split_and!; [done..|congruence].
  - run. by apply nothing_served.
Qed.

(** C30: starting a shim takes all or nothing.  If [Start] succeeds, either a shim
    that answers already serves the container and nothing was opened, or there
    is one new process, with the listening sockets (two with the debug socket) that
    it was given.  If it fails, no file stays open and no socket stays behind, and
    no process was left running, except where the thread could not go back to its
    mount namespace. *)
Theorem shim_Start_accounted id address debug s :
  numbered s → private_ns s = false →
  ∃ r s', Start id address debug s = Return (r, s') ∧ served_or_nothing debug s r s'.
Proof.
  intros Hn Hns. apply wp_Return. unfold Start. run. eapply wp_mono; [apply newCommand_kept|].
  intros [cmd|e] s1 Hk1; [|run; by apply nothing_served]. run.
  eapply wp_mono; [apply readSpec_kept; by eapply kept_numbered|]. intros r s2 Hk2.
  assert (kept s s2) as Hk by (by eapply kept_trans). destruct r; [|run; by apply nothing_served].
  eapply wp_mono; [apply open_sockets_spec; [by eapply kept_numbered|]|].
  - by destruct Hk as (_ & _ & _ & -> & _).
  - intros r s3. by apply served_kept.
Qed.

End accounting.

(** ** Stopping what was started *)

Section stopping.
Import ShimManager.
Context {W : Type} `{!Env W}.
Implicit Types (s : st W).
#[local] Open Scope m_scope.

(** The file with the process ID in the bundle. *)
Class PidFile := {
  pid_file : W → option string;
  write_pid p w : fst (WritePidFile "shim.pid" p w) = None → pid_file (snd (WritePidFile "shim.pid" p w)) = Some (fmt_d p);
  setns_pid w : pid_file (snd (Setns w)) = pid_file w;
  close_pid h w : pid_file (snd (close_file h w)) = pid_file w;
  read_pid c w : pid_file w = Some c → fst (os_ReadFile "shim.pid" w) = Ok c }.
Context `{!PidFile}.

Definition recorded (p : Z) s : Prop := pid_file (world s) = Some (fmt_d p).

Lemma wpp_mcall {A} (f : W → A * W) (Q : A → st W → Prop) s :
  Q (fst (f (world s))) (mkSt (snd (f (world s))) (next s) (live s) (bound s) (procs s) (private_ns s) (locked s)) →
  wpp True (call f) Q s.
Proof. unfold wpp, call. by destruct (f (world s)). Qed.
Lemma wpp_after {A B} (m : M (st W) A) (k : A → M (st W) B) Q s : (∀ a s', wpp True (k a) Q s') → wpp True (m ≫= k) Q s.
Proof. intros Hk. unfold wpp, m_bind. destruct (m s) as [[a s']|]; [apply Hk|done]. Qed.

(** A success leaves its process in the file. *)
Lemma start_process_pid cmd s : wpp True (start_process cmd) (λ r s', ∀ p, r = Ok p → recorded p s') s.
Proof.
  unfold start_process. apply wpp_after. intros [e|] s1; [by apply wpp_ret|]. apply wpp_after. intros [e|] s2; [by apply wpp_ret|].
  apply wpp_after. intros p s3. apply wpp_bind, wpp_mcall.
  destruct (fst _) as [e|] eqn:E; [apply wpp_after; intros; by apply wpp_ret|]. apply wpp_ret. intros ? [= <-]. by apply write_pid.
Qed.
Lemma in_namespace_pid cmd s : wpp True (in_namespace cmd) (λ r s', ∀ p, r = Ok p → recorded p s') s.
Proof.
  unfold in_namespace. apply wpp_after. intros _ s1. apply wpp_after. intros [e|] s2; [apply wpp_after; intros; by apply wpp_ret|].
  apply wpp_after. intros h s3. apply wpp_bind. eapply wpp_mono; [apply start_process_pid|]. intros r s4 Hr.
  apply wpp_bind, wpp_mcall. destruct (fst (Setns (world s4))).
  - apply wpp_after. intros _ s5. apply wpp_after. intros _ s6. apply wpp_after. intros _ s7. apply wpp_ret. by destruct r.
  - apply wpp_bind, wpp_modify. unfold close_h. do 2 apply wpp_bind. apply wpp_mcall, wpp_modify, wpp_bind, wpp_modify, wpp_ret.
    intros p Hp. unfold recorded. cbn. rewrite close_pid. cbn. rewrite setns_pid. by apply Hr.
Qed.
Lemma Start_pid id address debug s :
  wpp True (Start id address debug) (λ r s', ∀ a l p, r = Ok (Started a l p) → recorded p s') s.
Proof.
  assert (∀ cmd l s, wpp True (start_with cmd l) (λ r s', ∀ a l p, r = Ok (Started a l p) → recorded p s') s) as Hw.
  { intros cmd l s1. apply wpp_bind. eapply wpp_mono; [apply in_namespace_pid|]. intros [p|e] s2 Hr.
    - apply wpp_ret. intros ??? [= <- <- <-]. by apply Hr.
    - apply wpp_after. intros. by apply wpp_ret. }
  unfold Start, open_sockets. apply wpp_after. intros [cmd|e] s1; [|by apply wpp_ret]. apply wpp_after. intros [ann|e] s2; [|by apply wpp_ret].
  apply wpp_after. intros [x|a|e] s3; [|by apply wpp_ret..]. destruct debug; [|apply Hw]. apply wpp_after.
  intros [y|a|e] s4; [apply Hw|apply wpp_after; intros; by apply wpp_ret..].
Qed.

(** Stopping a shim kills the process that was started: [Stop] reads the
    process ID that [Start] wrote, kills exactly that process and reports its ID
    and status 137; a process that has ended counts as killed, and nothing else is
    touched.  It fails only when the kernel refuses the signal. *)
Theorem Stop_kills_started id address debug s a l p s1 s2 :
  Start id address debug s = Return (Ok (Started a l p), s1) → 0 ≤ p ≤ max_int64 →
  pid_file (world s2) = pid_file (world s1) →
  ∃ r s3, Stop s2 = Return (r, s3) ∧ live s3 = live s2 ∧ bound s3 = bound s2 ∧
    match r with
    | Ok st => Pid st = p ∧ ExitStatus st = 137 ∧ procs s3 = procs s2 ∖ {[p]}
    | Err _ => procs s3 = procs s2 ∧ ∃ w e, fst (unix_Kill p w) = Some e ∧ ESRCH e = false
    end.
Proof.
  intros Hs Hp Hf. pose proof (Start_pid id address debug s) as Hr. unfold wpp in Hr. rewrite Hs in Hr.
  specialize (Hr _ _ _ eq_refl). unfold recorded in Hr. rewrite <- Hf in Hr. apply read_pid in Hr.
  unfold Stop, m_bind, call. destruct (os_ReadFile "shim.pid" (world s2)) as [rd w]. cbn in Hr |- *. subst rd.
  rewrite Atoi_fmt_d by done. cbn. destruct (unix_Kill p w) as [[e|] w'] eqn:E; [destruct (ESRCH e) eqn:E'|]; cbn.
  - by eexists _, _.
  - eexists _, _. split; [done|]. split_and!; try done. exists w, e. by rewrite E.
  - by eexists _, _.
Qed.

End stopping.

(** ** A shim for a pod *)

Module ManagerDemo.
Import ShimManager.

(** The addresses that are in use, and the file. *)
Record host := mkHost { stale : gset string; file : option string }.
Definition in_use : error := ErrNew "address already in use".
Definition ok {W} (w : W) : option error * W := (None, w).

(** A host on which the thread can or cannot return to its namespace. *)
Definition host_env (returns : bool) : Env host := {|
  NamespaceRequired := Ok "k8s.io";
  os_Executable w := (Ok "/usr/bin/containerd-shim-spinbox-v1", w);
  os_Getwd w := (Ok "/run/bundle", w);
  os_Environ := [];
  os_Open _ w := ok w;
  Decode w := (Ok {[ "io.kubernetes.cri.sandbox-id" := "pod1" ]}, w);
  SocketAddress path id debug := Ok (path +:+ "/" +:+ id +:+ (if debug then "-debug" else ""));
  NewSocket a w := (if bool_decide (a ∈ stale w) then Some in_use else None, w);
  SocketEaddrinuse e := bool_decide (e = in_use);
  CanConnect _ w := (false, w);
  RemoveSocket a w := (None, mkHost (stale w ∖ {[a]}) (file w));
  socket_File w := ok w;
  close_file _ w := ok w;
  Unshare w := ok w;
  remount _ w := ok w;
  Setns w := (if returns then None else Some (ErrNew "setns"), w);
  cmd_Start _ w := ok w;
  WritePidFile _ p w := (None, mkHost (stale w) (Some (fmt_d p)));
  os_ReadFile _ w := (match file w with Some c => Ok c | None => Err (ErrSentinel ErrNotExist) end, w);
  proc_Kill _ w := ok w;
  unix_Kill _ w := ok w;
  ProcessDone _ := true;
  ESRCH _ := true;
  json_features _ := Ok ∅ |}.

Definition s0 : st host := mkSt (mkHost {[ "/run/c/pod1" ]} None) 100 ∅ ∅ ∅ false 0.
Lemma kill_works0 returns p (w : host) e : fst (@proc_Kill host (host_env returns) p w) = Some e → @ProcessDone host (host_env returns) e = true.
Proof. discriminate. Qed.

Lemma shim_Start_accounted_witness :
  ∃ r s', @Start host (host_env true) "c1" "/run/c" true s0 = Return (r, s') ∧ served_or_nothing true s0 r s'.
Proof.
  apply (@shim_Start_accounted host (host_env true) (kill_works0 true) "c1" "/run/c" true s0).
  - intros x Hx. exfalso. vm_compute in Hx. set_solver.
  - reflexivity.
Defined.

#[local] Program Instance host_pid returns : @PidFile host (host_env returns) := {| pid_file := file |}.
Next Obligation. intros returns p w _. reflexivity. Qed.
Next Obligation. intros returns w. reflexivity. Qed.
Next Obligation. intros returns h w. reflexivity. Qed.
Next Obligation. intros returns c w Hc. cbn in *. by rewrite Hc. Qed.

Definition started (returns : bool) : option (bool * st host) :=
  match @Start host (host_env returns) "c1" "/run/c" false s0 with Return (r, s') => Some (is_ok r, s') | Panic _ => None end.

(** The stale socket of the pod was replaced, two files are open for it (101 and
    102) and the shim runs as process 104. *)
Example pod_served :
  started true = Some (true, mkSt (mkHost ∅ (Some "104")) 105 {[101; 102]} {[ "/run/c/pod1" ]} {[104]} false 0).
Proof. vm_compute. reflexivity. Qed.

Lemma Stop_kills_started_witness :
  ∃ r s3, @Stop host (host_env true) (mkSt (mkHost ∅ (Some "104")) 105 {[101; 102]} {[ "/run/c/pod1" ]} {[104]} false 0) = Return (r, s3) ∧
    match r with Ok st => Pid st = 104 ∧ procs s3 = ∅ | Err _ => False end.
Proof.
  destruct (@Stop_kills_started host (host_env true) (host_pid true) "c1" "/run/c" false s0 "/run/c/pod1"
    [mkSocket "/run/c/pod1" 101 102] 104 (mkSt (mkHost ∅ (Some "104")) 105 {[101; 102]} {[ "/run/c/pod1" ]} {[104]} false 0)
    (mkSt (mkHost ∅ (Some "104")) 105 {[101; 102]} {[ "/run/c/pod1" ]} {[104]} false 0)) as (r & s3 & E & _ & _ & Hr).
  - vm_compute. reflexivity.
  - vm_compute. split; discriminate.
  - reflexivity.
  - exists r, s3. split; [exact E|]. destruct r as [st|err]; [|destruct Hr as (_ & w & e & Hk & _); discriminate].
    destruct Hr as (Hp & _ & ->). split; [exact Hp|]. vm_compute. reflexivity.
Defined.

(** When the thread cannot return, [Start] reports an error and has closed and
    removed the socket, but the shim that it started keeps running: the deferred
    kill ran before the error was known. *)
Example failed_return_orphans_shim :
  started false = Some (false, mkSt (mkHost ∅ (Some "104")) 105 ∅ ∅ {[104]} true 0).
Proof. vm_compute. reflexivity. Qed.

End ManagerDemo.
