(* ===== verification/Network.v ===== *)
(** * Host networking

    Models internal/host/network: the network namespaces and the CNI plug-ins
    behind the manager (cni/netns.go, cni/cni.go, cni/tap.go, cni/result.go,
    cni/errors.go), the manager with its caches (manager_cni.go, network.go),
    and the set-up for a VM (internal/shim/platform/network/linux.go).  A call
    of the manager is a goroutine that goes through its critical sections one
    step at a time; other goroutines run in between.  System calls and libcni
    are an interface.  Durations in the metrics are left out. *)

From S2P Require Import Prelude GoStrings QemuCmd QemuInstance MountUtil.
From Stdlib Require Import Ascii.

Module Network.
Import MountUtil (fmt_q).

(** ** Data *)

(** IP addresses are kept as text. *)
Record CNIResult := mkCNIResult
  { TAPDevice : string; TAPMAC : string; IPAddress : string; Netmask : string; Gateway : string }.

(** The parts of [current.Result] that are used. *)
Record Interface := mkInterface { if_Name : string; if_Mac : string; if_Sandbox : string }.
Record IPConfig := mkIPConfig { ip_IP : string; ip_Mask : option string; ip_Gateway : string }.
Record Result := mkResult { Interfaces : list Interface; IPs : list IPConfig }.

Record NetworkInfo := mkNetworkInfo
  { TapName : string; MAC : string; IP : string; ni_Netmask : string; ni_Gateway : string }.

Record CleanupResult := mkCleanup
  { CNITeardown : option error; NetNSDelete : option error; IPAMVerify : option error;
    InMemoryClear : bool }.

Definition HasError (c : CleanupResult) : bool :=
  bool_decide (is_Some (CNITeardown c)) || bool_decide (is_Some (NetNSDelete c)) ||
  bool_decide (is_Some (IPAMVerify c)).

(** [cleanupError.Error]. *)
Definition cleanup_text (c : CleanupResult) : string :=
  let part name e := match e with Some e => [name +:+ ": " +:+ error_text e] | None => [] end in
  strings_Join (part "CNI teardown" (CNITeardown c) ++ part "netns delete" (NetNSDelete c) ++
                part "IPAM verify" (IPAMVerify c)) "; ".

Definition cleanup_Err (c : CleanupResult) : option error :=
  if HasError c then Some (ErrNew (cleanup_text c)) else None.

Record Metrics := mkMetrics
  { SetupAttempts : Z; SetupSuccesses : Z; SetupFailures : Z; ResourceConflicts : Z;
    TeardownAttempts : Z; TeardownSuccesses : Z; TeardownFailures : Z; IPAMLeaksDetected : Z }.

Definition RecordSetup (success conflict : bool) (m : Metrics) : Metrics :=
  mkMetrics (wrap64 (SetupAttempts m + 1))
    (if success then wrap64 (SetupSuccesses m + 1) else SetupSuccesses m)
    (if success then SetupFailures m else wrap64 (SetupFailures m + 1))
    (if conflict then wrap64 (ResourceConflicts m + 1) else ResourceConflicts m)
    (TeardownAttempts m) (TeardownSuccesses m) (TeardownFailures m) (IPAMLeaksDetected m).
Definition RecordTeardown (success : bool) (m : Metrics) : Metrics :=
  mkMetrics (SetupAttempts m) (SetupSuccesses m) (SetupFailures m) (ResourceConflicts m)
    (wrap64 (TeardownAttempts m + 1))
    (if success then wrap64 (TeardownSuccesses m + 1) else TeardownSuccesses m)
    (if success then TeardownFailures m else wrap64 (TeardownFailures m + 1)) (IPAMLeaksDetected m).
Definition RecordIPAMLeak (m : Metrics) : Metrics :=
  mkMetrics (SetupAttempts m) (SetupSuccesses m) (SetupFailures m) (ResourceConflicts m)
    (TeardownAttempts m) (TeardownSuccesses m) (TeardownFailures m) (wrap64 (IPAMLeaksDetected m + 1)).

(** ** The system *)

(** System calls, libcni and netlink over a world.  A namespace handle is a
    descriptor.  [ConfFiles] and [ConfListFromFile] are libcni's; a network
    configuration is known by its name. *)
Class NetOps (W : Type) := {
  os_MkdirAll : string → W → option error * W;
  os_Stat : string → W → option error;
  os_Create : string → W → option error * W;
  file_Close : W → option error * W;
  os_Remove : string → W → option error * W;
  os_Open : string → W → option error;
  unix_Mount : string → string → W → option error * W;
  unix_Unmount : string → W → option error * W;
  Fstat_file : string → W → result Z;
  Fstat_ns : Z → W → result Z;
  netns_Get : W → result Z * W;
  netns_GetFromPath : string → W → result Z * W;
  netns_New : W → result Z * W;
  netns_Set : Z → W → option error * W;
  netns_Close : Z → W → option error * W;
  LinkByName : string → W → result string;
  ConfFiles : string → W → result (list string);
  ConfListFromFile : string → W → result string;
  AddNetworkList : string → string → string → W → result Result * W;
  NewResultFromResult : Result → result Result;
  DelNetworkList : string → string → string → W → option error * W;
  os_ReadDir : string → W → result (list (string * bool));
  os_ReadFile : string → W → result string;
  now_UnixNano : W → Z * W }.

(** What happened to namespaces and networks; [ok] says that the call
    succeeded.  [EvNewNS] and [EvSetNS] change the namespace of the thread. *)
Inductive event :=
  | EvGetNS (h : Z) | EvNewNS (h : Z) | EvSetNS (h : Z) (ok : bool) | EvCloseNS (h : Z)
  | EvCreate (path : string) (ok : bool)
  | EvBind (path : string) (ok : bool) | EvUnmount (path : string) (ok : bool)
  | EvRemove (path : string) (ok : bool)
  | EvAdd (id netns : string) (ok : bool) | EvDel (id netns : string) (ok : bool).

(** The CNI manager's configuration, the world, and what has happened. *)
Record st (W : Type) := mkSt { netConf : option string; world : W; trace : list event }.
Arguments mkSt {W}. Arguments netConf {W}. Arguments world {W}. Arguments trace {W}.

(** ** errors.go *)

(** The category [ClassifyError] finds for an error text. *)
Definition category (text : string) : option sentinel :=
  let msg := ToLower text in
  let has := Contains msg in
  if has "duplicate allocation" then Some ErrResourceConflict
  else if has "no ips available" || has "no ip addresses available" then Some ErrIPAMExhausted
  else if (has "already exists" || has "file exists") &&
          (has "veth" || has "tap" || has "peer" || has "interface") then Some ErrResourceConflict
  else if has "network namespace" && has "not found" then Some ErrNetNSNotFound
  else None.

(** [*cni.Error]: its [Is] method accepts the category, and it unwraps to the
    cause. *)
Definition ClassifyError (operation network : string) (e : error) : error :=
  let text := ErrWrap (if negb (String.eqb network "") then "CNI " +:+ network +:+ " " +:+ operation
                       else "CNI " +:+ operation) e in
  match category (error_text e) with
  | Some s => ErrIs s text
  | None => text
  end.

(** ** tap.go and result.go *)

(** The first interface with the prefix that is in a sandbox. *)
Fixpoint detectTCRedirectTAP (ifs : list Interface) : option (string * string) :=
  match ifs with
  | [] => None
  | i :: ifs' =>
      if HasPrefix (if_Name i) "tap" then
        if String.eqb (if_Sandbox i) "" then detectTCRedirectTAP ifs'
        else Some (if_Name i, if_Mac i)
      else detectTCRedirectTAP ifs'
  end.

Definition ExtractTAPDeviceInfo (r : Result) : result (string * string) :=
  match detectTCRedirectTAP (Interfaces r) with
  | Some x => Ok x
  | None => Err (ErrNew ("no TAP device found in CNI result (checked " +:+
                         fmt_d (Z.of_nat (length (Interfaces r))) +:+ " interfaces)"))
  end.

(** ** Operations on the system *)
Section net.
Context {W : Type} `{NetOps W}.
Notation ST := (st W).
Local Open Scope m_scope.

Definition io {A} (f : W → A * W) : M ST A := λ s,
  let '(a, w) := f (world s) in Return (a, mkSt (netConf s) w (trace s)).
Definition ask {A} (f : W → A) : M ST A := m_get (f ∘ world).
Definition emit (e : event) : M ST () := m_modify (λ s, mkSt (netConf s) (world s) (trace s ++ [e])).
Definition succeeded (e : option error) : bool := match e with None => true | Some _ => false end.
Definition call (ev : bool → event) (f : W → option error * W) : M ST (option error) :=
  e ← io f; emit (ev (succeeded e)) ≫= λ _, m_ret e.
Definition open_ns (ev : Z → event) (f : W → result Z * W) : M ST (result Z) :=
  r ← io f;
  match r with Err e => m_ret (Err e) | Ok h => emit (ev h) ≫= λ _, m_ret (Ok h) end.
(** [defer h.Close()]; the error is logged. *)
Definition defer_close {A} (h : Z) (m : M ST A) : M ST A :=
  r ← m; io (netns_Close h) ≫= λ _, emit (EvCloseNS h) ≫= λ _, m_ret r.
(** [os.IsNotExist] on an error of the operating system. *)
Definition IsNotExist (e : error) : bool := errors_Is e ErrNotExist.

(** *** netns.go *)

Definition netnsBasePath : string := "/var/run/netns".
Definition GetNetNSPath (vmID : string) : string := filepath_Join [netnsBasePath; vmID].
Definition NetNSExists (vmID : string) : M ST bool := ask (succeeded ∘ os_Stat (GetNetNSPath vmID)).

Definition unmountNetNS (target : string) : M ST (option error) :=
  e ← call (EvUnmount target) (unix_Unmount target);
  m_ret (match e with Some e => Some (ErrWrap "failed to unmount netns" e) | None => None end).

(** [os.Remove] where a missing file is not an error; [EvRemove] is logged with
    whether the file is gone. *)
Definition remove (path : string) : M ST (option error) :=
  e ← io (os_Remove path);
  let e := match e with Some e => if IsNotExist e then None else Some e | None => None end in
  emit (EvRemove path (succeeded e)) ≫= λ _, m_ret e.

Definition DeleteNetNS (vmID : string) : M ST (option error) :=
  let netnsPath := GetNetNSPath vmID in
  unmountNetNS netnsPath ≫= λ _,
  e ← remove netnsPath;
  m_ret (match e with Some e => Some (ErrWrap "failed to remove netns file" e) | None => None end).

Definition bindMountNetNS (source target : string) : M ST (option error) :=
  e ← call (EvCreate target) (os_Create target);
  match e with
  | Some e => m_ret (Some (ErrWrap "failed to create netns file" e))
  | None =>
      e ← io file_Close;
      match e with
      | Some e => m_ret (Some (ErrWrap "failed to close netns file" e))
      | None =>
          e ← call (EvBind target) (unix_Mount source target);
          match e with
          | Some e => remove target ≫= λ _, m_ret (Some (ErrWrap "failed to bind mount" e))
          | None => m_ret None
          end
      end
  end.

Definition verifyNetNS (netnsPath : string) (hostNS : Z) : M ST (option error) :=
  ask (λ w,
    match os_Stat netnsPath w with
    | Some e => Some (ErrWrap "netns file does not exist" e)
    | None =>
    match os_Open netnsPath w with
    | Some e => Some (ErrWrap "failed to open netns file" e)
    | None =>
    match Fstat_file netnsPath w with
    | Err e => Some (ErrWrap "failed to stat netns file" e)
    | Ok ino =>
    match Fstat_ns hostNS w with
    | Err e => Some (ErrWrap "failed to stat host netns" e)
    | Ok host =>
        if ino =? host then
          Some (ErrNew ("created netns is the same as host netns (inode: " +:+ fmt_d ino +:+ ")"))
        else None
    end end end end).

(** The part of [CreateNetNS] that runs in the new namespace and after it. *)
Definition create_in (vmID : string) (origNS newNS : Z) : M ST (result string) :=
  let netnsPath := GetNetNSPath vmID in
  e ← bindMountNetNS ("/proc/self/fd/" +:+ fmt_d newNS) netnsPath;
  match e with
  | Some e =>
      e' ← call (EvSetNS origNS) (netns_Set origNS);
      match e' with
      | Some e' =>
          remove netnsPath ≫= λ _,
          m_ret (Err (ErrWrap "failed to restore original netns after bind mount error" e'))
      | None => m_ret (Err (ErrWrap "failed to bind mount netns" e))
      end
  | None =>
      e ← call (EvSetNS origNS) (netns_Set origNS);
      match e with
      | Some e => DeleteNetNS vmID ≫= λ _, m_ret (Err (ErrWrap "failed to restore original netns" e))
      | None =>
          e ← verifyNetNS netnsPath origNS;
          match e with
          | Some e => DeleteNetNS vmID ≫= λ _, m_ret (Err (ErrWrap "netns verification failed" e))
          | None => m_ret (Ok netnsPath)
          end
      end
  end.

Definition CreateNetNS (vmID : string) : M ST (result string) :=
  e ← io (os_MkdirAll netnsBasePath);
  match e with
  | Some e => m_ret (Err (ErrWrap "failed to create netns directory" e))
  | None =>
      exists_ ← NetNSExists vmID;
      e ← (if exists_ then DeleteNetNS vmID else m_ret None);
      match e with
      | Some e => m_ret (Err (ErrWrap "failed to clean up existing netns" e))
      | None =>
          r ← open_ns EvGetNS netns_Get;
          match r with
          | Err e => m_ret (Err (ErrWrap "failed to get current netns" e))
          | Ok origNS =>
              defer_close origNS (
                r ← open_ns EvNewNS netns_New;
                match r with
                | Err e => m_ret (Err (ErrWrap "failed to create new netns" e))
                | Ok newNS => defer_close newNS (create_in vmID origNS newNS)
                end)
          end
      end
  end.

(** *** result.go *)

Definition readInterfaceMAC (netnsPath ifName : string) : M ST (result string) :=
  r ← open_ns EvGetNS netns_Get;
  match r with
  | Err e => m_ret (Err (ErrWrap "get current netns" e))
  | Ok origNS =>
      defer_close origNS (
        r ← open_ns EvGetNS (netns_GetFromPath netnsPath);
        match r with
        | Err e => m_ret (Err (ErrWrap "get target netns" e))
        | Ok targetNS =>
            defer_close targetNS (
              e ← call (EvSetNS targetNS) (netns_Set targetNS);
              match e with
              | Some e => m_ret (Err (ErrWrap "set target netns" e))
              | None =>
                  link ← ask (LinkByName ifName);
                  call (EvSetNS origNS) (netns_Set origNS) ≫= λ _,
                  m_ret (match link with
                         | Err e => Err (ErrWrap ("lookup interface " +:+ ifName) e)
                         | Ok mac => if String.eqb mac "" then
                                       Err (ErrNew ("interface " +:+ fmt_q ifName +:+ " has empty MAC"))
                                     else Ok mac
                         end)
              end)
        end)
  end.

Definition ParseCNIResultWithNetNS (r : Result) (netnsPath : string) : M ST (result CNIResult) :=
  match ExtractTAPDeviceInfo r with
  | Err e => m_ret (Err (ErrWrap "failed to extract TAP device" e))
  | Ok (tap, tapMAC) =>
      mac ← (if String.eqb tapMAC "" then
               if String.eqb netnsPath "" then
                 m_ret (Err (ErrNew ("TAP device " +:+ fmt_q tap +:+
                                     " has empty MAC and no netns provided")))
               else
                 m ← readInterfaceMAC netnsPath tap;
                 m_ret (match m with
                        | Err e => Err (ErrWrap "failed to read TAP MAC from netns" e)
                        | Ok m => Ok m
                        end)
             else m_ret (Ok tapMAC));
      m_ret (match mac with
             | Err e => Err e
             | Ok mac =>
                 match IPs r with
                 | [] => Err (ErrNew "CNI result contains no IP addresses")
                 | ip :: _ => Ok (mkCNIResult tap mac (ip_IP ip) (default "" (ip_Mask ip)) (ip_Gateway ip))
                 end
             end)
  end.

(** *** cni.go *)

Definition loadNetworkConfigFromDisk (confDir : string) : M ST (result string) :=
  ask (λ w,
    match ConfFiles confDir w with
    | Err e => Err (ErrWrap ("failed to read CNI config files from " +:+ confDir) e)
    | Ok [] => Err (ErrNew ("no CNI configuration files found in " +:+ confDir))
    | Ok (confFile :: _) =>
        match ConfListFromFile confFile w with
        | Err e => Err (ErrWrap ("failed to load CNI config from " +:+ confFile) e)
        | Ok c => Ok c
        end
    end).

Definition loadAndCacheConfig (confDir : string) : M ST (option error) :=
  r ← loadNetworkConfigFromDisk confDir;
  match r with
  | Err e => m_ret (Some e)
  | Ok c => m_modify (λ s, mkSt (Some c) (world s) (trace s)) ≫= λ _, m_ret None
  end.

Definition NewCNIManager (confDir binDir : string) : M ST (option error) :=
  if String.eqb confDir "" then m_ret (Some (ErrNew "CNI conf directory cannot be empty"))
  else if String.eqb binDir "" then m_ret (Some (ErrNew "CNI bin directory cannot be empty"))
  else
    e ← loadAndCacheConfig confDir;
    m_ret (match e with Some e => Some (ErrWrap "failed to load initial CNI config" e) | None => None end).

Definition getNetworkConfig : M ST (result string) :=
  m_get (λ s, match netConf s with
              | None => Err (ErrNew "no CNI configuration loaded")
              | Some c => Ok c
              end).

Definition Teardown (vmID netns : string) : M ST (option error) :=
  c ← getNetworkConfig;
  match c with
  | Err e => m_ret (Some (ErrWrap "failed to get CNI network config" e))
  | Ok name =>
      e ← call (EvDel vmID netns) (DelNetworkList name vmID netns);
      m_ret (match e with Some e => Some (ClassifyError "DEL" name e) | None => None end)
  end.

Definition execPluginChain (vmID netns name : string) : M ST (result Result) :=
  r ← io (AddNetworkList name vmID netns);
  emit (EvAdd vmID netns (is_ok r)) ≫= λ _,
  match r with
  | Err e => m_ret (Err (ErrWrap "failed to add CNI network" e))
  | Ok r =>
      match NewResultFromResult r with
      | Ok r => m_ret (Ok r)
      | Err e =>
          call (EvDel vmID netns) (DelNetworkList name vmID netns) ≫= λ _,
          m_ret (Err (ErrWrap "failed to convert CNI result" e))
      end
  end.

Definition Setup (vmID netns : string) : M ST (result CNIResult) :=
  c ← getNetworkConfig;
  match c with
  | Err e => m_ret (Err (ErrWrap "failed to get CNI network config" e))
  | Ok name =>
      r ← execPluginChain vmID netns name;
      match r with
      | Err e => m_ret (Err (ClassifyError "ADD" name e))
      | Ok r =>
          p ← ParseCNIResultWithNetNS r netns;
          match p with
          | Err e => Teardown vmID netns ≫= λ _, m_ret (Err (ErrWrap "failed to parse CNI result" e))
          | Ok c => m_ret (Ok c)
          end
      end
  end.

(** *** manager_cni.go: what runs without locks *)

Definition attemptOrphanCleanup (containerID : string) : M ST () :=
  now ← io now_UnixNano;
  let cleanupID := containerID +:+ "-cleanup-" +:+ fmt_d now in
  r ← CreateNetNS cleanupID;
  match r with
  | Err _ => m_ret tt
  | Ok cleanupNetns =>
      Teardown containerID cleanupNetns ≫= λ _, DeleteNetNS cleanupID ≫= λ _, m_ret tt
  end.

Definition performCNISetup (containerID : string) : M ST (result CNIResult) :=
  r ← CreateNetNS containerID;
  match r with
  | Err e => m_ret (Err (ErrWrap "create netns for CNI" e))
  | Ok netnsPath =>
      r ← Setup containerID netnsPath;
      match r with
      | Ok c => m_ret (Ok c)
      | Err e =>
          DeleteNetNS containerID ≫= λ _,
          if errors_Is e ErrResourceConflict then
            attemptOrphanCleanup containerID ≫= λ _,
            m_ret (Err (ErrWrap "setup CNI network (resource conflict - orphaned resources from previous run?)" e))
          else m_ret (Err (ErrWrap ("setup CNI network for " +:+ containerID) e))
      end
  end.

Definition skipped (name : string) : bool := HasPrefix name "last_" || HasPrefix name ".".

(** The files of one network; [Some] at the first that names the container. *)
Fixpoint leak_in (w : W) (netPath netName containerID : string) (files : list (string * bool)) :
    option error :=
  match files with
  | [] => None
  | (name, isdir) :: files' =>
      let next := leak_in w netPath netName containerID files' in
      if isdir then next
      else if skipped name then next
      else match os_ReadFile (filepath_Join [netPath; name]) w with
           | Err _ => next
           | Ok content =>
               if String.eqb (TrimSpace content) containerID then
                 Some (ErrIs ErrIPAMLeak (ErrNew (sentinel_text ErrIPAMLeak +:+ ": IP " +:+ name +:+
                   " in network " +:+ netName +:+ " still allocated to " +:+ containerID)))
               else next
           end
  end.

Fixpoint leak_dirs (w : W) (ipamDir containerID : string) (dirs : list (string * bool)) : option error :=
  match dirs with
  | [] => None
  | (name, isdir) :: dirs' =>
      let next := leak_dirs w ipamDir containerID dirs' in
      if negb isdir then next
      else
        let netPath := filepath_Join [ipamDir; name] in
        match os_ReadDir netPath w with
        | Err _ => next
        | Ok files => match leak_in w netPath name containerID files with Some e => Some e | None => next end
        end
  end.

Definition verifyIPAMCleanup (ipamDir containerID : string) : M ST (option error) :=
  ask (λ w, match os_ReadDir ipamDir w with
            | Err _ => None
            | Ok entries => leak_dirs w ipamDir containerID entries
            end).

(** [performCNITeardown] up to where it takes the lock to clear the cache. *)
Definition teardown_steps (ipamDir id : string) : M ST CleanupResult :=
  exists_ ← NetNSExists id;
  p ← (if exists_ then m_ret (GetNetNSPath id, None)
       else r ← CreateNetNS id;
            m_ret (match r with
                   | Err e => ("", Some (ErrWrap "create temporary netns" e))
                   | Ok tmp => (tmp, None)
                   end));
  let '(netnsPath, created) := p in
  del ← Teardown id netnsPath;
  leak ← verifyIPAMCleanup ipamDir id;
  e ← DeleteNetNS id;
  m_ret (mkCleanup del (match e with Some e => Some e | None => created end) leak false).

End net.

(** ** The manager *)

Record Environment := mkEnv { env_ID : string; env_NetworkInfo : option NetworkInfo }.

Record setupInFlight := mkFlight
  { sf_done : chan; sf_result : option CNIResult; sf_err : option error }.
Record teardownFlight := mkTFlight { tf_done : chan; tf_result : CleanupResult }.

(** [cniNetworkManager].  The in-flight trackers are shared by pointer: the
    maps hold addresses of [setups] and [teardowns]. *)
Record manager := mkManager
  { cniResults : gmap string CNIResult;
    inFlight : gmap string Z; setups : gmap Z setupInFlight;
    teardownInFlight : gmap string Z; teardowns : gmap Z teardownFlight;
    metrics : Metrics; ipamDir : string; next : Z }.

Definition set_results (x : gmap string CNIResult) (m : manager) : manager :=
  mkManager x (inFlight m) (setups m) (teardownInFlight m) (teardowns m) (metrics m) (ipamDir m) (next m).
Definition set_inFlight (x : gmap string Z) (m : manager) : manager :=
  mkManager (cniResults m) x (setups m) (teardownInFlight m) (teardowns m) (metrics m) (ipamDir m) (next m).
Definition set_setups (x : gmap Z setupInFlight) (m : manager) : manager :=
  mkManager (cniResults m) (inFlight m) x (teardownInFlight m) (teardowns m) (metrics m) (ipamDir m) (next m).
Definition set_teardownInFlight (x : gmap string Z) (m : manager) : manager :=
  mkManager (cniResults m) (inFlight m) (setups m) x (teardowns m) (metrics m) (ipamDir m) (next m).
Definition set_teardowns (x : gmap Z teardownFlight) (m : manager) : manager :=
  mkManager (cniResults m) (inFlight m) (setups m) (teardownInFlight m) x (metrics m) (ipamDir m) (next m).
Definition set_metrics (x : Metrics) (m : manager) : manager :=
  mkManager (cniResults m) (inFlight m) (setups m) (teardownInFlight m) (teardowns m) x (ipamDir m) (next m).
Definition set_next (x : Z) (m : manager) : manager :=
  mkManager (cniResults m) (inFlight m) (setups m) (teardownInFlight m) (teardowns m) (metrics m) (ipamDir m) x.

Definition no_cleanup : CleanupResult := mkCleanup None None None false.
Definition empty_manager : manager :=
  mkManager ∅ ∅ ∅ ∅ ∅ (mkMetrics 0 0 0 0 0 0 0 0) "/var/lib/cni/networks" 0.

Definition updateEnvironment (env : Environment) (r : CNIResult) : Environment :=
  mkEnv (env_ID env)
    (Some (mkNetworkInfo (TAPDevice r) (TAPMAC r) (IPAddress r) (Netmask r) (Gateway r))).

(** Where a call of [ensureNetworkResourcesCNI] (E) or of
    [releaseNetworkResourcesCNI] (R) is: before the section it takes next.  The
    worker carries the address of its tracker; [Done] is the environment and
    the error that the caller sees. *)
Inductive pc :=
  | EStart (env : Environment)
  | ECheck (env : Environment)
  | EWait (env : Environment) (ref : Z)
  | EWork (env : Environment) (ref : Z)
  | EStore (env : Environment) (ref : Z) (r : CNIResult)
  | EPublish (env : Environment) (ref : Z) (r : CNIResult)
  | EClose (env : Environment) (ref : Z) (err : option error)
  | EDelete (env : Environment) (ref : Z) (err : option error)
  | RStart (env : Environment)
  | RWait (env : Environment) (ref : Z)
  | RWork (env : Environment) (ref : Z)
  | RClear (env : Environment) (ref : Z) (r : CleanupResult)
  | RPublish (env : Environment) (ref : Z) (r : CleanupResult)
  | RClose (env : Environment) (ref : Z) (err : option error)
  | RDelete (env : Environment) (ref : Z) (err : option error)
  | Done (env : Environment) (err : option error).

Section manager.
Context {W : Type} `{NetOps W}.

(** The manager and the system. *)
Record state := mkState { mgr : manager; net : st W }.

Definition on_mgr (f : manager → manager) (s : state) : state := mkState (f (mgr s)) (net s).
Definition run_net {A} (m : M (st W) A) (s : state) (k : A → state → outcome (pc * state)) :
    outcome (pc * state) :=
  match m (net s) with Return (a, n) => k a (mkState (mgr s) n) | Panic msg => Panic msg end.
Definition nil_deref {A} : outcome A := Panic "invalid memory address or nil pointer dereference".

(** [newCNINetworkManager]. *)
Definition newCNINetworkManager (confDir binDir : string) (n : st W) : outcome (result manager * st W) :=
  match NewCNIManager confDir binDir n with
  | Return (Some e, n) => Return (Err (ErrWrap "failed to create CNI manager" e), n)
  | Return (None, n) => Return (Ok empty_manager, n)
  | Panic msg => Panic msg
  end.

(** One section of [ensureNetworkResourcesCNI]; [None] when it blocks.
    [cancelled] is whether the context is done, and [prefer] the choice of the
    [select] when both channels are ready. *)
Definition ensure_step (cancelled prefer : bool) (p : pc) (s : state) : option (outcome (pc * state)) :=
  let m := mgr s in
  match p with
  | EStart env =>
      Some (Return (match cniResults m !! env_ID env with
                    | Some r => Done (updateEnvironment env r) None
                    | None => ECheck env
                    end, s))
  | ECheck env =>
      match inFlight m !! env_ID env with
      | Some ref => Some (Return (EWait env ref, s))
      | None =>
          Some (Return (EWork env (next m),
            on_mgr (set_inFlight (<[env_ID env := next m]> (inFlight m)) ∘
                    set_setups (<[next m := mkFlight OpenChan None None]> (setups m)) ∘
                    set_next (next m + 1)) s))
      end
  | EWait env ref =>
      match setups m !! ref with
      | None => Some nil_deref
      | Some f =>
          let done := bool_decide (sf_done f = ClosedChan) in
          if done && (prefer || negb cancelled) then
            Some (match sf_err f with
                  | Some e => Return (Done env (Some e), s)
                  | None => match sf_result f with
                            | Some r => Return (Done (updateEnvironment env r) None, s)
                            | None => nil_deref
                            end
                  end)
          else if cancelled then Some (Return (Done env (Some (ErrSentinel ErrCanceled)), s))
          else None
      end
  | EWork env ref =>
      Some (run_net (performCNISetup (env_ID env)) s (λ r s,
        match r with
        | Err e =>
            let s := on_mgr (λ m, set_metrics (RecordSetup false (errors_Is e ErrResourceConflict) (metrics m)) m) s in
            match setups (mgr s) !! ref with
            | None => nil_deref
            | Some f => Return (EClose env ref (Some e),
                on_mgr (λ m, set_setups (<[ref := mkFlight (sf_done f) (sf_result f) (Some e)]> (setups m)) m) s)
            end
        | Ok c => Return (EStore env ref c,
            on_mgr (λ m, set_metrics (RecordSetup true false (metrics m)) m) s)
        end))
  | EStore env ref r =>
      Some (Return (EPublish env ref r,
        on_mgr (set_results (<[env_ID env := r]> (cniResults m))) s))
  | EPublish env ref r =>
      Some (match setups m !! ref with
            | None => nil_deref
            | Some f => Return (EClose (updateEnvironment env r) ref None,
                on_mgr (set_setups (<[ref := mkFlight (sf_done f) (Some r) (sf_err f)]> (setups m))) s)
            end)
  | EClose env ref err =>
      Some (match setups m !! ref with
            | None => nil_deref
            | Some f =>
                match close (sf_done f) with
                | Panic msg => Panic msg
                | Return c => Return (EDelete env ref err,
                    on_mgr (set_setups (<[ref := mkFlight c (sf_result f) (sf_err f)]> (setups m))) s)
                end
            end)
  | EDelete env ref err =>
      Some (Return (Done env err, on_mgr (set_inFlight (delete (env_ID env) (inFlight m))) s))
  | _ => None
  end.

(** One section of [releaseNetworkResourcesCNI], with [performCNITeardown] in
    [RWork] and [RClear]. *)
Definition release_step (cancelled prefer : bool) (p : pc) (s : state) : option (outcome (pc * state)) :=
  let m := mgr s in
  match p with
  | RStart env =>
      match teardownInFlight m !! env_ID env with
      | Some ref => Some (Return (RWait env ref, s))
      | None =>
          Some (Return (RWork env (next m),
            on_mgr (set_teardownInFlight (<[env_ID env := next m]> (teardownInFlight m)) ∘
                    set_teardowns (<[next m := mkTFlight OpenChan no_cleanup]> (teardowns m)) ∘
                    set_next (next m + 1)) s))
      end
  | RWait env ref =>
      match teardowns m !! ref with
      | None => Some nil_deref
      | Some f =>
          let done := bool_decide (tf_done f = ClosedChan) in
          if done && (prefer || negb cancelled) then Some (Return (Done env (cleanup_Err (tf_result f)), s))
          else if cancelled then Some (Return (Done env (Some (ErrSentinel ErrCanceled)), s))
          else None
      end
  | RWork env ref =>
      Some (run_net (teardown_steps (ipamDir m) (env_ID env)) s (λ r s,
        Return (RClear env ref r,
          match IPAMVerify r with
          | Some _ => on_mgr (λ m, set_metrics (RecordIPAMLeak (metrics m)) m) s
          | None => s
          end)))
  | RClear env ref r =>
      Some (Return (RPublish (mkEnv (env_ID env) None) ref
                      (mkCleanup (CNITeardown r) (NetNSDelete r) (IPAMVerify r) true),
        on_mgr (set_results (delete (env_ID env) (cniResults m))) s))
  | RPublish env ref r =>
      Some (match teardowns m !! ref with
            | None => nil_deref
            | Some f => Return (RClose env ref (cleanup_Err r),
                on_mgr (set_metrics (RecordTeardown (negb (HasError r)) (metrics m)) ∘
                        set_teardowns (<[ref := mkTFlight (tf_done f) r]> (teardowns m))) s)
            end)
  | RClose env ref err =>
      Some (match teardowns m !! ref with
            | None => nil_deref
            | Some f =>
                match close (tf_done f) with
                | Panic msg => Panic msg
                | Return c => Return (RDelete env ref err,
                    on_mgr (set_teardowns (<[ref := mkTFlight c (tf_result f)]> (teardowns m))) s)
                end
            end)
  | RDelete env ref err =>
      Some (Return (Done env err,
        on_mgr (set_teardownInFlight (delete (env_ID env) (teardownInFlight m))) s))
  | _ => None
  end.

Definition is_release (p : pc) : bool :=
  match p with
  | RStart _ | RWait _ _ | RWork _ _ | RClear _ _ _ | RPublish _ _ _ | RClose _ _ _ | RDelete _ _ _ => true
  | _ => false
  end.
Definition pc_step (cancelled prefer : bool) (p : pc) (s : state) : option (outcome (pc * state)) :=
  if is_release p then release_step cancelled prefer p s else ensure_step cancelled prefer p s.

(** A call on its own, its context never done, until it returns; [fuel] counts
    sections. *)
Fixpoint drive (fuel : nat) (p : pc) (s : state) : outcome (pc * state) :=
  match fuel, p with
  | O, _ | _, Done _ _ => Return (p, s)
  | S fuel', _ =>
      match pc_step false true p s with
      | None => Return (p, s)
      | Some (Panic msg) => Panic msg
      | Some (Return (p', s')) => drive fuel' p' s'
      end
  end.

End manager.
Arguments state : clear implicits.

(** *** network.go *)

Record NetworkConfig := mkNetworkConfig { CNIConfDir : string; CNIBinDir : string }.

(** [getenv] is [os.Getenv] and [stat] tells whether [os.Stat] succeeds. *)
Definition LoadNetworkConfig (getenv : string → string) (stat : string → bool) : NetworkConfig :=
  let confDir := getenv "SPINBOX_CNI_CONF_DIR" in
  if negb (String.eqb confDir "") then
    let binDir := getenv "SPINBOX_CNI_BIN_DIR" in
    mkNetworkConfig confDir (if String.eqb binDir "" then "/opt/cni/bin" else binDir)
  else
    let spinboxConfDir := filepath_Join ["/usr/share/spinbox"; "config"; "cni"; "net.d"] in
    let spinboxBinDir := filepath_Join ["/usr/share/spinbox"; "libexec"; "cni"] in
    if stat spinboxConfDir then mkNetworkConfig spinboxConfDir spinboxBinDir
    else mkNetworkConfig "/etc/cni/net.d" "/opt/cni/bin".

(** ** The set-up for a VM: shim/platform/network/linux.go *)

(** The interface [network.NetworkManager]; a call returns what the caller finds
    in its environment, and the error. *)
Class NetworkManager (N : Type) := {
  EnsureNetworkResources : Environment → N → outcome ((Environment * option error) * N);
  ReleaseNetworkResources : Environment → N → outcome ((Environment * option error) * N) }.

(** resolvconf and [net.ParseMAC]: the content of the host's resolv.conf, the
    filter, and the IPv4 servers of a content. *)
Class HostNames := {
  GetSpecific : result string;
  FilterResolvDNS : string → result string;
  GetNameservers : string → list string;
  ParseMAC : string → result string }.

Section platform.
Context {N : Type} `{NetworkManager N} `{HostNames}.
Local Open Scope m_scope.

Definition resolveHostDNSServers : list string :=
  match GetSpecific with
  | Err _ => []
  | Ok content =>
      match FilterResolvDNS content with
      | Err _ => []
      | Ok filtered => GetNameservers filtered
      end
  end.

(** The manager and the VM instance. *)
Definition PST : Type := N * Qemu.Instance.
Definition on_nm {A} (f : N → outcome (A * N)) : M PST A := λ '(n, q),
  match f n with Return (a, n') => Return (a, (n', q)) | Panic msg => Panic msg end.
Definition on_vm {A} (f : Qemu.Instance → A * Qemu.Instance) : M PST A := λ '(n, q),
  let '(a, q') := f q in Return (a, (n, q')).

(** A failure after the allocation: the resources are released, an error of
    which is only logged. *)
Definition release_and_fail (env : Environment) (e : error) : M PST (result Qemu.NetworkConfig) :=
  on_nm (ReleaseNetworkResources env) ≫= λ _, m_ret (Err e).

Definition platform_Setup (containerID : string) : M PST (result Qemu.NetworkConfig) :=
  r ← on_nm (EnsureNetworkResources (mkEnv containerID None));
  match r with
  | (_, Some e) => m_ret (Err (ErrWrap "allocate network resources" e))
  | (env, None) =>
      match env_NetworkInfo env with
      | None => m_panic "invalid memory address or nil pointer dereference"
      | Some info =>
          if String.eqb (MAC info) "" then
            release_and_fail env (ErrNew "CNI did not report TAP MAC address")
          else
            match ParseMAC (MAC info) with
            | Err e =>
                release_and_fail env (ErrWrap ("invalid CNI TAP MAC address " +:+ fmt_q (MAC info)) e)
            | Ok guestMAC =>
                e ← on_vm (QemuInstance.AddTAPNIC (TapName info) guestMAC);
                match e with
                | Some e => release_and_fail env (ErrWrap "add TAP NIC to VM" e)
                | None =>
                    let dns := resolveHostDNSServers in
                    let dnsServers := match dns with [] => ["8.8.8.8"; "8.8.4.4"] | _ => dns end in
                    m_ret (Ok (Qemu.mkNetwork "eth0" (IP info) (ni_Gateway info) (ni_Netmask info) dnsServers))
                end
            end
      end
  end.

End platform.

(** The CNI manager with one caller at a time: a call runs until it returns.
    Nine sections are enough ([ensure_alone], [release_alone]). *)
Definition call_fuel : nat := 9.
Definition call_alone {W} `{NetOps W} (p : pc) (s : state W) : outcome ((Environment * option error) * state W) :=
  match drive call_fuel p s with
  | Panic msg => Panic msg
  | Return (Done env err, s') => Return ((env, err), s')
  | Return (_, _) => Panic "blocked"
  end.
#[global] Instance cni_manager {W} `{NetOps W} : NetworkManager (state W) :=
  {| EnsureNetworkResources env := call_alone (EStart env);
     ReleaseNetworkResources env := call_alone (RStart env) |}.

(** ** Concurrent callers *)
Section concurrent.
Context {W : Type} `{NetOps W}.

(** The state, the goroutines, and the outcome of each set-up and teardown
    that ran, with its tracker. *)
Record sys := mkSys
  { shared : state W; procs : gmap Z pc; setup_log : list (Z * result CNIResult);
    teardown_log : list (Z * CleanupResult) }.

(** What a step adds to the logs. *)
Definition setup_entry (p p' : pc) : list (Z * result CNIResult) :=
  match p, p' with
  | EWork _ ref, EStore _ _ r => [(ref, Ok r)]
  | EWork _ ref, EClose _ _ (Some e) => [(ref, Err e)]
  | _, _ => []
  end.
Definition teardown_entry (p' : pc) : list (Z * CleanupResult) :=
  match p' with
  | RPublish _ ref r => [(ref, r)]
  | _ => []
  end.

Definition is_start (p : pc) : bool :=
  match p with EStart _ | RStart _ => true | _ => false end.

(** A new call, or a section of one that runs. *)
Inductive step : sys → sys → Prop :=
  | step_call g p s :
      procs s !! g = None → is_start p = true →
      step s (mkSys (shared s) (<[g := p]> (procs s)) (setup_log s) (teardown_log s))
  | step_run g cancelled prefer p p' x s :
      procs s !! g = Some p → pc_step cancelled prefer p (shared s) = Some (Return (p', x)) →
      step s (mkSys x (<[g := p']> (procs s)) (setup_log s ++ setup_entry p p')
                (teardown_log s ++ teardown_entry p')).

Definition initial (n : st W) : sys := mkSys (mkState empty_manager n) ∅ [] [].
Definition reachable (n : st W) : sys → Prop := rtc step (initial n).

End concurrent.
Arguments sys : clear implicits.

End Network.
