(* ===== verification/NetworkSetup.v ===== *)
(** * What set-up and teardown leave behind

    The namespaces and attachments that the operations of Network.v hold, read
    off the system calls they made: a failed set-up leaves nothing that it could
    remove, a teardown goes through all its steps and reports each failure. *)

From S2P Require Import Prelude GoStrings QemuCmd QemuInstance MountUtil Network.

Import Network.

(** ** Operations only add to the trace *)

Section emits.
Context {W : Type} `{NetOps W}.

(** The operation returns, and what it adds to the trace satisfies [P]. *)
Definition emits {A} (P : event → Prop) (m : M (st W) A) : Prop :=
  ∀ s, ∃ a s' t, m s = Return (a, s') ∧ trace s' = trace s ++ t ∧ Forall P t ∧ netConf s' = netConf s.

Lemma emits_bind {A B} P (m : M (st W) A) (f : A → M (st W) B) :
  emits P m → (∀ a, emits P (f a)) → emits P (m_bind m f).
Proof.
  intros Hm Hf s. unfold m_bind. destruct (Hm s) as (a & s1 & t1 & -> & E1 & H1 & C1).
  destruct (Hf a s1) as (b & s2 & t2 & -> & E2 & H2 & C2). exists b, s2, (t1 ++ t2).
  split_and!; [done|by rewrite E2, E1, app_assoc|by apply Forall_app|congruence].
Qed.
Lemma emits_ret {A} P (a : A) : emits P (m_ret a).
Proof. intros s. exists a, s, []. by rewrite app_nil_r. Qed.
Lemma emits_get {A} P (f : st W → A) : emits P (m_get f).
Proof. intros s. exists (f s), s, []. by rewrite app_nil_r. Qed.
Lemma emits_io {A} P (f : W → A * W) : emits P (io f).
Proof. intros s. unfold io. destruct (f (world s)) as [a w]. exists a, (mkSt (netConf s) w (trace s)), []. by rewrite app_nil_r. Qed.
Lemma emits_emit (P : event → Prop) e : P e → emits P (emit e).
Proof. intros HP s. eexists tt, _, [e]. split; [done|]. split; [done|]. by repeat constructor. Qed.
Lemma emits_mono {A} (P P' : event → Prop) (m : M (st W) A) :
  (∀ e, P e → P' e) → emits P m → emits P' m.
Proof.
  intros HP Hm s. destruct (Hm s) as (a & s' & t & ? & ? & ? & ?). exists a, s', t. split_and!; try done.
  by eapply Forall_impl.
Qed.

(** Not a call of the plug-ins. *)
Definition local (e : event) : Prop :=
  match e with EvAdd _ _ _ | EvDel _ _ _ => False | _ => True end.

Ltac emits_tac :=
  repeat first
    [ apply emits_ret | apply emits_get | apply emits_io | apply emits_emit; done
    | apply emits_bind; [|intros ?] | case_match ].

Lemma emits_DeleteNetNS id : emits local (DeleteNetNS id).
Proof. unfold DeleteNetNS, unmountNetNS, remove, call. emits_tac. Qed.
Lemma emits_CreateNetNS id : emits local (CreateNetNS id).
Proof.
  unfold CreateNetNS, create_in, defer_close, open_ns, DeleteNetNS, unmountNetNS, bindMountNetNS, remove, call,
    NetNSExists, verifyNetNS, ask. emits_tac.
Qed.
Lemma emits_Setup id ns : emits (λ _, True) (Setup id ns).
Proof.
  unfold Setup, Teardown, execPluginChain, ParseCNIResultWithNetNS, readInterfaceMAC, defer_close, open_ns, call,
    getNetworkConfig, ask. emits_tac.
Qed.
Lemma emits_Teardown id ns : emits (λ _, True) (Teardown id ns).
Proof. unfold Teardown, call, getNetworkConfig. emits_tac. Qed.

Lemma emits_local {A} (m : M (st W) A) : emits local m → emits (λ _, True) m.
Proof. by apply emits_mono. Qed.

Ltac emits_calls :=
  repeat first
    [ apply emits_local, emits_CreateNetNS | apply emits_local, emits_DeleteNetNS | apply emits_Teardown
    | apply emits_Setup | apply emits_ret | apply emits_get | apply emits_io
    | apply emits_bind; [|intros ?] | case_match ].

Lemma emits_performCNISetup id : emits (λ _, True) (performCNISetup id).
Proof. unfold performCNISetup, attemptOrphanCleanup. emits_calls. Qed.
Lemma emits_teardown_steps dir id : emits (λ _, True) (teardown_steps dir id).
Proof. unfold teardown_steps, NetNSExists, verifyIPAMCleanup, ask. emits_calls. Qed.

End emits.

(** ** What is held *)

(** The bound namespaces and the attached containers, the namespaces whose
    removal failed at least once, and the containers whose DEL did. *)
Record held := mkHeld
  { bound : gset string; conts : gset string; kept : gset string; undel : gset string }.

Definition effect (h : held) (e : event) : held :=
  match e with
  | EvBind p true => mkHeld ({[p]} ∪ bound h) (conts h) (kept h) (undel h)
  | EvRemove p true => mkHeld (bound h ∖ {[p]}) (conts h) (kept h) (undel h)
  | EvRemove p false => mkHeld (bound h) (conts h) ({[p]} ∪ kept h) (undel h)
  | EvAdd id _ true => mkHeld (bound h) ({[id]} ∪ conts h) (kept h) (undel h)
  | EvDel id _ true => mkHeld (bound h) (conts h ∖ {[id]}) (kept h) (undel h)
  | EvDel id _ false => mkHeld (bound h) (conts h) (kept h) ({[id]} ∪ undel h)
  | _ => h
  end.
Definition live (t : list event) : held := foldl effect (mkHeld ∅ ∅ ∅ ∅) t.

Section setup.
Context {W : Type} `{NetOps W}.
Implicit Types (s : st W).

(** Between [s] and [s'] at most the namespaces [B] and the attachments [C] were
    added, apart from what could not be removed. *)
Record within (B C : gset string) (s s' : st W) : Prop := mkWithin
  { wi_bound : bound (live (trace s')) ⊆ B ∪ bound (live (trace s)) ∪ kept (live (trace s'));
    wi_conts : conts (live (trace s')) ⊆ C ∪ conts (live (trace s)) ∪ undel (live (trace s'));
    wi_kept : kept (live (trace s)) ⊆ kept (live (trace s'));
    wi_undel : undel (live (trace s)) ⊆ undel (live (trace s'));
    wi_conf : netConf s' = netConf s }.

Lemma within_trans B1 B2 C1 C2 s1 s2 s3 :
  within B1 C1 s1 s2 → within B2 C2 s2 s3 → within (B1 ∪ B2) (C1 ∪ C2) s1 s3.
Proof.
  intros [A1 A2 A3 A4 A5] [D1 D2 D3 D4 D5].
  constructor; [clear -A1 D1 D3|clear -A2 D2 D4|clear -A3 D3|clear -A4 D4|congruence]; set_solver.
Qed.
Lemma within_refl s : within ∅ ∅ s s.
Proof. constructor; set_solver. Qed.
Lemma within_trans0 s1 s2 s3 : within ∅ ∅ s1 s2 → within ∅ ∅ s2 s3 → within ∅ ∅ s1 s3.
Proof. intros H1 H2. replace (∅ : gset string) with (∅ ∪ ∅ : gset string) by set_solver. by eapply within_trans. Qed.

Lemma within_weaken B B' C C' s s' : within B C s s' → B ⊆ B' → C ⊆ C' → within B' C' s s'.
Proof. intros [A1 A2 A3 A4 A5] ? ?. constructor; [clear -A1 H0; set_solver|clear -A2 H1; set_solver|done|done|done]. Qed.
Lemma within_join B1 B2 C1 C2 B C s1 s2 s3 :
  within B1 C1 s1 s2 → within B2 C2 s2 s3 → B1 ∪ B2 ⊆ B → C1 ∪ C2 ⊆ C → within B C s1 s3.
Proof. intros H1 H2 ? ?. eapply within_weaken; [by eapply within_trans|done|done]. Qed.

Lemma live_snoc t e : live (t ++ [e]) = effect (live t) e.
Proof. unfold live. by rewrite foldl_app. Qed.

(** Rules for the system calls; [neutral] ones hold and release nothing. *)
Definition neutral (e : event) : Prop := ∀ h, effect h e = h.
Lemma wp_net_io {A} (f : W → A * W) (Q : A → st W → Prop) s :
  (∀ a w, Q a (mkSt (netConf s) w (trace s))) → wp (io f) Q s.
Proof. intros HQ. unfold wp, io. destruct (f (world s)). apply HQ. Qed.
Lemma wp_net_emit e (Q : () → st W → Prop) s :
  Q tt (mkSt (netConf s) (world s) (trace s ++ [e])) → wp (emit e) Q s.
Proof. done. Qed.
Lemma wp_call ev f (Q : option error → st W → Prop) s :
  (∀ e w, Q e (mkSt (netConf s) w (trace s ++ [ev (succeeded e)]))) → wp (call ev f) Q s.
Proof. intros HQ. apply wp_bind, wp_net_io. intros e w. apply wp_bind, wp_net_emit, wp_ret, HQ. Qed.

(** The same held resources and configuration. *)
Definition same s s' : Prop := live (trace s') = live (trace s) ∧ netConf s' = netConf s.
Lemma same_within s s' : same s s' → within ∅ ∅ s s'.
Proof. intros [E1 E2]. constructor; rewrite ?E1; set_solver. Qed.
Lemma same_trans s1 s2 s3 : same s1 s2 → same s2 s3 → same s1 s3.
Proof. intros [? ?] [? ?]. split; congruence. Qed.

Lemma wp_call_neutral ev f (Q : option error → st W → Prop) s :
  (∀ b, neutral (ev b)) → (∀ e s', same s s' → Q e s') → wp (call ev f) Q s.
Proof.
  intros Hn HQ. apply wp_call. intros e w. apply HQ. split; [|done]. simpl. by rewrite live_snoc, Hn.
Qed.
Lemma wp_open_ns ev f (Q : result Z → st W → Prop) s :
  (∀ h, neutral (ev h)) → (∀ r s', same s s' → Q r s') → wp (open_ns ev f) Q s.
Proof.
  intros Hn HQ. apply wp_bind, wp_net_io. intros [h|e] w; [apply wp_bind, wp_net_emit|]; apply wp_ret, HQ; (split; [|done]); simpl; [|done].
  by rewrite live_snoc, Hn.
Qed.
Lemma wp_defer_close {A} h (m : M (st W) A) (Q : A → st W → Prop) s :
  wp m (λ a s1, ∀ s2, same s1 s2 → Q a s2) s → wp (defer_close h m) Q s.
Proof.
  intros Hm. apply wp_bind. eapply wp_mono; [exact Hm|]. intros a s1 HQ. simpl.
  apply wp_bind, wp_net_io. intros e w. apply wp_bind, wp_net_emit, wp_ret, HQ. split; [|done]. simpl. by rewrite live_snoc.
Qed.

(** The path is gone, or its removal failed. *)
Definition removed (p : string) (h h' : held) : Prop :=
  bound h' ⊆ (bound h ∖ {[p]}) ∪ kept h' ∧ kept h ⊆ kept h' ∧ conts h' = conts h ∧ undel h' = undel h.

Lemma wp_remove p (Q : option error → st W → Prop) s :
  (∀ e s', removed p (live (trace s)) (live (trace s')) → netConf s' = netConf s → Q e s') → wp (remove p) Q s.
Proof.
  intros HQ. apply wp_bind, wp_net_io. intros e w. apply wp_bind, wp_net_emit, wp_ret, HQ; [|done]. simpl. rewrite live_snoc.
  generalize (succeeded (match e with Some e => if IsNotExist e then None else Some e | None => None end)).
  intros [|]; unfold removed; simpl; (split_and!; [|set_solver|done|done]); [set_solver|].
  intros x Hx. destruct (decide (x = p)); set_solver.
Qed.

Lemma wp_DeleteNetNS id (Q : option error → st W → Prop) s :
  (∀ e s', removed (GetNetNSPath id) (live (trace s)) (live (trace s')) → netConf s' = netConf s → Q e s') →
  wp (DeleteNetNS id) Q s.
Proof.
  intros HQ. apply wp_bind, wp_bind, wp_call_neutral; [done|]. intros e s1 [E1 E2]. apply wp_ret.
  apply wp_bind, wp_remove. intros e' s2 Hr Ec. apply wp_ret, HQ; congruence.
Qed.

(** ** Namespaces *)

(** [bindMountNetNS] binds the path exactly if it succeeds. *)
Definition bound_now (p : string) (h h' : held) : Prop :=
  p ∈ bound h' ∧ bound h' ⊆ {[p]} ∪ bound h ∪ kept h' ∧ kept h ⊆ kept h' ∧ conts h' = conts h ∧ undel h' = undel h.

Lemma removed_within p s s' :
  removed p (live (trace s)) (live (trace s')) → netConf s' = netConf s → within ∅ ∅ s s'.
Proof. intros (? & ? & ? & ?) ?. constructor; set_solver. Qed.
Lemma bound_within p s s' :
  bound_now p (live (trace s)) (live (trace s')) → netConf s' = netConf s → within {[p]} ∅ s s'.
Proof. intros (? & ? & ? & E1 & E2) ?. constructor; rewrite ?E1, ?E2; set_solver. Qed.
Lemma within_removed p C s s1 s2 :
  within {[p]} C s s1 → removed p (live (trace s1)) (live (trace s2)) → netConf s2 = netConf s1 → within ∅ C s s2.
Proof.
  intros [A1 A2 A3 A4 A5] (R1 & R2 & E1 & E2) ?. constructor; rewrite ?E1, ?E2; [|done|set_solver|done|congruence].
  clear -A1 R1 R2. set_solver.
Qed.
Lemma bound_removed p s s1 s2 :
  bound_now p (live (trace s)) (live (trace s1)) → netConf s1 = netConf s →
  removed p (live (trace s1)) (live (trace s2)) → netConf s2 = netConf s1 → within ∅ ∅ s s2.
Proof. intros ? ? ? ?. eapply within_removed; [by apply bound_within|done|done]. Qed.

Lemma wp_bindMountNetNS src p (Q : option error → st W → Prop) s :
  (∀ e s', match e with
           | None => bound_now p (live (trace s)) (live (trace s')) ∧ netConf s' = netConf s
           | Some _ => within ∅ ∅ s s'
           end → Q e s') →
  wp (bindMountNetNS src p) Q s.
Proof.
  intros HQ. apply wp_bind, wp_call_neutral; [done|]. intros [e|] s1 [E1 E2].
  { apply wp_ret, HQ, same_within. by split. }
  apply wp_bind, wp_net_io. intros [e|] w; [apply wp_ret, HQ, same_within; by split|].
  apply wp_bind, wp_call. intros [e|] w'; simpl.
  - apply wp_bind, wp_remove. simpl. intros e' s2 Hr Ec. apply wp_ret, HQ.
    rewrite live_snoc in Hr. simpl in Hr. rewrite E1 in Hr. simpl in Ec. eapply removed_within; [done|congruence].
  - apply wp_ret, HQ. simpl. rewrite live_snoc. simpl. rewrite E1, E2. split; [|done]. unfold bound_now. simpl. set_solver.
Qed.

(** A created namespace is bound; a failure leaves none. *)
Definition created (id : string) s (r : result string) s' : Prop :=
  match r with
  | Ok p => p = GetNetNSPath id ∧ bound_now p (live (trace s)) (live (trace s')) ∧ netConf s' = netConf s
  | Err _ => within ∅ ∅ s s'
  end.

Lemma created_same id s r s1 s2 : created id s r s1 → same s1 s2 → created id s r s2.
Proof.
  intros Hc [E1 E2]. destruct r; simpl in *.
  - by rewrite E1, E2.
  - eapply within_trans0; [done|]. by apply same_within.
Qed.
Lemma created_from id s0 s r s1 : within ∅ ∅ s0 s → conts (live (trace s)) = conts (live (trace s0)) →
  undel (live (trace s)) = undel (live (trace s0)) → created id s r s1 → created id s0 r s1.
Proof.
  intros Hw Ec Eu. destruct r; simpl; [|by apply within_trans0].
  destruct Hw as [A1 _ A3 _ A5]. intros (-> & (? & B1 & B2 & E1 & E2) & E3). split; [done|]. split; [|congruence].
  split_and!; [done|clear -A1 A3 B1 B2; set_solver|by etrans|congruence|congruence].
Qed.

Lemma wp_create_in id orig new (Q : result string → st W → Prop) s :
  (∀ r s', created id s r s' → Q r s') → wp (create_in id orig new) Q s.
Proof.
  intros HQ. apply wp_bind, wp_bindMountNetNS. intros [e|] s1 Hb.
  - apply wp_bind, wp_call_neutral; [done|]. intros [e'|] s2 Hs; [apply wp_bind, wp_remove; intros e2 s3 Hr Ec|];
      apply wp_ret, HQ; simpl; (eapply within_trans0; [exact Hb|]).
    + eapply within_trans0; [by apply same_within|by eapply removed_within].
    + by apply same_within.
  - destruct Hb as [Hb Ec]. apply wp_bind, wp_call_neutral; [done|].
    assert (Hdel : ∀ er s2, same s1 s2 → wp (DeleteNetNS id) (λ _, wp (m_ret (Err er)) Q) s2).
    { intros er s2 [E1 E2]. apply wp_DeleteNetNS. intros e3 s3 Hr Ec3. apply wp_ret, HQ.
      eapply bound_removed; [exact Hb|done|by rewrite <-E1|congruence]. }
    intros [e|] s2 Hs; [by apply wp_bind, Hdel|].
    apply wp_bind, wp_get. case_match; [by apply wp_bind, Hdel|].
    apply wp_ret, HQ. destruct Hs as [E1 E2]. split; [done|]. by rewrite E1, E2.
Qed.

Lemma wp_CreateNetNS id (Q : result string → st W → Prop) s :
  (∀ r s', created id s r s' → Q r s') → wp (CreateNetNS id) Q s.
Proof.
  intros HQ. apply wp_bind, wp_net_io. intros [e|] w; [apply wp_ret, HQ, same_within; by split|].
  apply wp_bind, wp_get, wp_bind. simpl.
  eapply (wp_mono _ (λ _ s2, within ∅ ∅ s s2 ∧ conts (live (trace s2)) = conts (live (trace s)) ∧
    undel (live (trace s2)) = undel (live (trace s)))).
  - case_match.
    + apply wp_DeleteNetNS. intros e s2 Hr Ec. split; [|split; by apply Hr]. by eapply removed_within.
    + apply wp_ret. split; [apply same_within; by split|done].
  - intros [e|] s2 (Hw & Ec & Eu); [by apply wp_ret, HQ|].
    apply wp_bind, wp_open_ns; [done|]. intros [orig|e] s3 Hs3; cycle 1.
    { apply wp_ret, HQ. simpl. eapply within_trans0; [done|]. by apply same_within. }
    apply wp_defer_close, wp_bind, wp_open_ns; [done|]. intros [new|e] s4 Hs4; cycle 1.
    { apply wp_ret. intros s5 Hs5. apply HQ. simpl. eapply within_trans0; [done|]. apply same_within.
      eauto using same_trans. }
    apply wp_defer_close, wp_create_in. intros r s5 Hc s6 Hs6 s7 Hs7. apply HQ.
    eapply created_same; [|exact (same_trans _ _ _ Hs6 Hs7)]. destruct (same_trans _ _ _ Hs3 Hs4) as [E1 E2].
    eapply created_from; [|rewrite E1; exact Ec|rewrite E1; exact Eu|exact Hc].
    eapply within_trans0; [exact Hw|]. apply same_within. by split.
Qed.

(** ** The plug-ins *)

(** The container is detached, or a DEL failed. *)
Definition detached (id : string) (h h' : held) : Prop :=
  conts h' ⊆ (conts h ∖ {[id]}) ∪ undel h' ∧ undel h ⊆ undel h' ∧ bound h' = bound h ∧ kept h' = kept h.

Lemma within_detached id B s s1 s2 :
  within B {[id]} s s1 → detached id (live (trace s1)) (live (trace s2)) → netConf s2 = netConf s1 → within B ∅ s s2.
Proof.
  intros [A1 A2 A3 A4 A5] (R1 & R2 & E1 & E2) ?. constructor; rewrite ?E1, ?E2; [done| |done|set_solver|congruence].
  clear -A2 R1 R2. set_solver.
Qed.
Lemma del_detached id ns t e :
  detached id (live t) (live (t ++ [EvDel id ns (succeeded e)])).
Proof.
  rewrite live_snoc. unfold detached. destruct e; simpl; (split_and!; [|set_solver|done|done]); [|set_solver].
  intros x Hx. destruct (decide (x = id)); set_solver.
Qed.

Lemma wp_Teardown id ns name (Q : option error → st W → Prop) s :
  netConf s = Some name →
  (∀ e s', detached id (live (trace s)) (live (trace s')) → netConf s' = netConf s → Q e s') →
  wp (Teardown id ns) Q s.
Proof.
  intros Hn HQ. apply wp_bind, wp_get. rewrite Hn. apply wp_bind, wp_call. intros e w. apply wp_ret, HQ; [|done].
  apply del_detached.
Qed.

Lemma wp_readInterfaceMAC ns i (Q : result string → st W → Prop) s :
  (∀ r s', same s s' → Q r s') → wp (readInterfaceMAC ns i) Q s.
Proof.
  intros HQ. apply wp_bind, wp_open_ns; [done|]. intros [o|e] s1 H1; [|by apply wp_ret, HQ].
  apply wp_defer_close, wp_bind, wp_open_ns; [done|]. intros [t|e] s2 H2;
    [|apply wp_ret; intros s3 H3; apply HQ; eauto using same_trans].
  apply wp_defer_close, wp_bind, wp_call_neutral; [done|].
  intros [e|] s3 H3; [apply wp_ret; intros s4 H4 s5 H5; apply HQ; eauto 6 using same_trans|].
  apply wp_bind, wp_get, wp_bind, wp_call_neutral; [done|]. intros e s4 H4. apply wp_ret.
  intros s5 H5 s6 H6. apply HQ. eauto 8 using same_trans.
Qed.

Lemma wp_ParseCNIResult r ns (Q : result CNIResult → st W → Prop) s :
  (∀ p s', same s s' → Q p s') → wp (ParseCNIResultWithNetNS r ns) Q s.
Proof.
  intros HQ. assert (Hs : same s s) by (by split). unfold ParseCNIResultWithNetNS.
  destruct (ExtractTAPDeviceInfo r) as [[t m]|e]; [|by apply wp_ret, HQ]. apply wp_bind.
  eapply (wp_mono _ (λ _ s', same s s')); [|intros a s' Hs'; by apply wp_ret, HQ].
  case_match; [case_match|]; [by apply wp_ret| |by apply wp_ret].
  apply wp_bind, wp_readInterfaceMAC. intros m' s' Hs'. by apply wp_ret.
Qed.

(** An attached container; a failure leaves none. *)
Definition attached (id : string) s (r : result CNIResult) s' : Prop :=
  within ∅ (if is_ok r then {[id]} else ∅) s s' ∧
  (is_ok r = true → id ∈ conts (live (trace s')) ∧ bound (live (trace s)) ⊆ bound (live (trace s'))).

Lemma wp_Setup id ns name (Q : result CNIResult → st W → Prop) s :
  netConf s = Some name → (∀ r s', attached id s r s' → Q r s') → wp (Setup id ns) Q s.
Proof.
  intros Hn HQ. apply wp_bind, wp_get. rewrite Hn. apply wp_bind, wp_bind, wp_net_io. intros [r|e] w.
  - apply wp_bind, wp_net_emit. simpl. set (s1 := mkSt (netConf s) w (trace s ++ [EvAdd id ns true])).
    assert (C1 : netConf s1 = netConf s) by done.
    assert (H1 : conts (live (trace s1)) = {[id]} ∪ conts (live (trace s)) ∧ undel (live (trace s1)) = undel (live (trace s)) ∧
      bound (live (trace s1)) = bound (live (trace s)) ∧ kept (live (trace s1)) = kept (live (trace s)))
      by (simpl; rewrite live_snoc; done).
    assert (Hdel : ∀ s2 er, detached id (live (trace s1)) (live (trace s2)) → netConf s2 = netConf s → attached id s (Err er) s2).
    { intros s2 er Hd Ec. split; [|done]. eapply within_detached; [|exact Hd|congruence].
      destruct H1 as (A1 & A2 & A3 & A4). constructor; rewrite ?A1, ?A2, ?A3, ?A4; set_solver. }
    destruct (NewResultFromResult r) as [r'|e].
    + apply wp_ret, wp_bind, wp_ParseCNIResult. intros [c|e] s2 [E1 E2].
      * apply wp_ret, HQ. split; simpl; [constructor; rewrite ?E1; [set_solver..|done]|].
        rewrite E1. set_solver.
      * apply wp_bind, (wp_Teardown _ _ name); [congruence|]. intros e2 s3 Hd Ec. apply wp_ret, HQ, Hdel; congruence.
    + apply wp_bind, wp_call. intros e2 w2. apply wp_ret, wp_ret, HQ, Hdel; [|done]. apply del_detached.
  - apply wp_bind, wp_net_emit, wp_ret, wp_ret, HQ. simpl. split; [|done]. apply same_within. split; [|done].
    simpl. by rewrite live_snoc.
Qed.

(** ** Set-up and teardown of a container *)

Lemma wp_attemptOrphanCleanup id name (Q : () → st W → Prop) s :
  netConf s = Some name → (∀ s', within ∅ ∅ s s' → Q tt s') → wp (attemptOrphanCleanup id) Q s.
Proof.
  intros Hn HQ. apply wp_bind, wp_net_io. intros now w. apply wp_bind, wp_CreateNetNS.
  set (s0 := mkSt (netConf s) w (trace s)). assert (C0 : netConf s0 = netConf s) by done.
  assert (H0 : within ∅ ∅ s s0) by (apply same_within; by split).
  intros [p|e] s1 Hc; simpl in Hc; [|apply wp_ret, HQ; by eapply within_trans0].
  destruct Hc as (-> & Hb & E1). apply wp_bind, (wp_Teardown _ _ name); [congruence|].
  intros e s2 Hd E2. apply wp_bind, wp_DeleteNetNS. intros e' s3 Hr E3. apply wp_ret, HQ.
  eapply within_trans0; [exact H0|]. eapply within_removed; [|exact Hr|done].
  eapply within_detached; [|exact Hd|done]. eapply within_weaken; [by apply bound_within|done|set_solver].
Qed.

(** A successful set-up holds the namespace and the attachment of the container,
    a failed one nothing. *)
Definition set_up (id : string) s (r : result CNIResult) s' : Prop :=
  if is_ok r then
    within {[GetNetNSPath id]} {[id]} s s' ∧
    GetNetNSPath id ∈ bound (live (trace s')) ∧ id ∈ conts (live (trace s'))
  else within ∅ ∅ s s'.

Lemma wp_performCNISetup id name (Q : result CNIResult → st W → Prop) s :
  netConf s = Some name → (∀ r s', set_up id s r s' → Q r s') → wp (performCNISetup id) Q s.
Proof.
  intros Hn HQ. apply wp_bind, wp_CreateNetNS. intros [p|e] s1 Hc; [|by apply wp_ret, HQ].
  destruct Hc as (-> & Hb & E1). pose proof (bound_within _ _ _ Hb E1) as W1.
  apply wp_bind, (wp_Setup _ _ name); [congruence|]. intros [c|e] s2 [Hw Hok]; simpl in Hw.
  - destruct (Hok eq_refl) as [? Hb']. apply wp_ret, HQ. unfold set_up. simpl.
    split; [by eapply within_join; [exact W1|exact Hw|set_solver..]|]. split; [|done]. by apply Hb', Hb.
  - apply wp_bind, wp_DeleteNetNS. intros e' s3 Hr E3.
    assert (Hfail : within ∅ ∅ s s3).
    { eapply within_removed; [|exact Hr|done]. by eapply within_join; [exact W1|exact Hw|set_solver..]. }
    case_match; [|by apply wp_ret, HQ].
    apply wp_bind, (wp_attemptOrphanCleanup _ name); [by rewrite (wi_conf _ _ _ _ Hfail)|]. intros s4 H4. apply wp_ret, HQ.
    unfold set_up. simpl. by eapply within_trans0.
Qed.

(** ** Left-over addresses *)

(** A file of a network's directory, other than the special ones, names the
    container. *)
Definition names (w : W) (netPath id : string) (f : string * bool) : Prop :=
  f.2 = false ∧ skipped f.1 = false ∧
  ∃ content, os_ReadFile (filepath_Join [netPath; f.1]) w = Ok content ∧ TrimSpace content = id.
Definition leaked (w : W) (dir id : string) : Prop :=
  ∃ entries net files, os_ReadDir dir w = Ok entries ∧ (net, true) ∈ entries ∧
    os_ReadDir (filepath_Join [dir; net]) w = Ok files ∧ Exists (names w (filepath_Join [dir; net]) id) files.

Lemma leak_in_spec w netPath net id files :
  leak_in w netPath net id files = None ↔ ¬ Exists (names w netPath id) files.
Proof.
  induction files as [|[name isdir] files IH]; simpl; [by split; [intros _ ?%Exists_nil|]|].
  rewrite Exists_cons. unfold names at 1. simpl. destruct isdir; [rewrite IH; intuition congruence|].
  destruct (skipped name); [rewrite IH; intuition congruence|].
  destruct (os_ReadFile (filepath_Join [netPath; name]) w) as [content|e].
  - destruct (String.eqb_spec (TrimSpace content) id).
    + split; [done|]. intros Hn. exfalso. apply Hn. left. eauto.
    + rewrite IH. split; intros Hn Hx; apply Hn; [|by right]. by destruct Hx as [(_ & _ & c & [= <-] & ?)|?].
  - rewrite IH. split; intros Hn Hx; apply Hn; [|by right]. by destruct Hx as [(_ & _ & c & ? & ?)|?].
Qed.

Lemma leak_dirs_spec w dir id dirs :
  leak_dirs w dir id dirs = None ↔
  ¬ ∃ net files, (net, true) ∈ dirs ∧ os_ReadDir (filepath_Join [dir; net]) w = Ok files ∧
      Exists (names w (filepath_Join [dir; net]) id) files.
Proof.
  induction dirs as [|[net isdir] dirs IH]; simpl.
  { split; [|done]. intros _ (net & files & ?%elem_of_nil & _). done. }
  (* an entry that is skipped does not matter *)
  assert (Hskip : (isdir = true → ∀ files, os_ReadDir (filepath_Join [dir; net]) w = Ok files →
             ¬ Exists (names w (filepath_Join [dir; net]) id) files) →
    leak_dirs w dir id dirs = None ↔
    ¬ ∃ net0 files, (net0, true) ∈ (net, isdir) :: dirs ∧ os_ReadDir (filepath_Join [dir; net0]) w = Ok files ∧
        Exists (names w (filepath_Join [dir; net0]) id) files).
  { intros Hno. rewrite IH. clear IH. split; intros Hn (net' & files' & Hin & Hr & Hex); apply Hn;
      [|exists net', files'; split_and!; [by right|done|done]].
    apply elem_of_cons in Hin as [[= -> <-]|Hin]; [by edestruct Hno|by eauto]. }
  destruct isdir; simpl; [|by apply Hskip].
  destruct (os_ReadDir (filepath_Join [dir; net]) w) as [files|e] eqn:Ed; [|by apply Hskip].
  pose proof (leak_in_spec w (filepath_Join [dir; net]) net id files) as Hs.
  destruct (leak_in _ _ _ _ _) as [er|].
  - split; [done|]. intros Hn. exfalso.
    assert (Hf : ¬ Exists (names w (filepath_Join [dir; net]) id) files); [|by apply Hs in Hf].
    intros Hex. apply Hn. exists net, files. split_and!; [by left|done|done].
  - apply Hskip. intros _ files' [= <-]. by apply Hs.
Qed.

Lemma verify_spec dir id (s : st W) :
  ∃ e, verifyIPAMCleanup dir id s = Return (e, s) ∧ (e = None ↔ ¬ leaked (world s) dir id).
Proof.
  eexists. split; [reflexivity|]. simpl. unfold leaked. destruct (os_ReadDir dir (world s)) as [entries|e].
  - rewrite leak_dirs_spec. split; intros Hn; contradict Hn;
      [|destruct Hn as (net & files & ? & ? & ?); by exists entries, net, files].
    destruct Hn as (? & ? & ? & [= <-] & ? & ? & ?). eauto.
  - split; [|done]. intros _ (? & ? & ? & ? & _). done.
Qed.

(** ** The steps of a teardown *)

Lemma DeleteNetNS_trace id (s : st W) :
  ∃ e s' u gone, DeleteNetNS id s = Return (e, s') ∧
    trace s' = trace s ++ [EvUnmount (GetNetNSPath id) u; EvRemove (GetNetNSPath id) gone] ∧
    (e = None ↔ gone = true) ∧ netConf s' = netConf s.
Proof.
  unfold DeleteNetNS, unmountNetNS, remove, call, m_bind, io, emit, m_modify, m_ret. simpl.
  destruct (unix_Unmount _ _) as [e1 w1]. simpl. destruct (os_Remove _ _) as [e2 w2]. simpl.
  eexists _, _, _, _. split; [done|]. simpl. rewrite <-app_assoc. split; [done|]. split; [|done].
  destruct e2 as [e2|]; [destruct (IsNotExist e2)|]; simpl; naive_solver.
Qed.

Lemma Teardown_trace id ns name (s : st W) :
  netConf s = Some name →
  ∃ e s' ok, Teardown id ns s = Return (e, s') ∧ trace s' = trace s ++ [EvDel id ns ok] ∧
    (e = None ↔ ok = true) ∧ netConf s' = netConf s.
Proof.
  intros Hn. unfold Teardown, getNetworkConfig, call, m_bind, m_get, io, emit, m_modify, m_ret. rewrite Hn. simpl.
  destruct (DelNetworkList _ _ _ _) as [e w]. simpl. eexists _, _, _. split; [done|]. simpl. split; [done|].
  split; [|done]. by destruct e.
Qed.

Lemma CreateNetNS_trace id (s : st W) :
  ∃ r s' t, CreateNetNS id s = Return (r, s') ∧ trace s' = trace s ++ t ∧ Forall local t ∧
    netConf s' = netConf s ∧ ∀ p, r = Ok p → p = GetNetNSPath id.
Proof.
  destruct (emits_CreateNetNS id s) as (r & s' & t & E & Et & Ht & Ec). exists r, s', t. split_and!; try done.
  intros p ->. assert (Hw : wp (CreateNetNS id) (λ r s', created id s r s') s) by (by apply wp_CreateNetNS).
  unfold wp in Hw. rewrite E in Hw. apply Hw.
Qed.

Lemma GetNetNSPath_nonempty id : GetNetNSPath id ≠ "".
Proof.
  unfold GetNetNSPath, filepath_Join, netnsBasePath. rewrite filter_cons_True by done. unfold Clean.
  replace (IsAbs _) with true; [done|]. by destruct (filter _ [id]) as [|x [|y l]].
Qed.

(** Every step of a teardown is taken whatever the earlier ones gave, and an
    error is recorded for exactly the ones that failed.  [n2] is the system when
    the plug-ins are done. *)
Lemma teardown_trace dir id name (n : st W) :
  netConf n = Some name →
  ∃ r n2 n' t ns ok u gone,
    teardown_steps dir id n = Return (r, n') ∧ Forall local t ∧
    trace n2 = trace n ++ t ++ [EvDel id ns ok] ∧
    trace n' = trace n2 ++ [EvUnmount (GetNetNSPath id) u; EvRemove (GetNetNSPath id) gone] ∧
    (ns = GetNetNSPath id ∨ ns = "") ∧ netConf n' = netConf n ∧
    (CNITeardown r = None ↔ ok = true) ∧
    (NetNSDelete r = None ↔ ns = GetNetNSPath id ∧ gone = true) ∧
    (IPAMVerify r = None ↔ ¬ leaked (world n2) dir id).
Proof.
  intros Hn. set (p := GetNetNSPath id).
  assert (Hns : ∃ ns cr n1 t, (∀ A (k : string * option error → M (st W) A),
      m_bind (NetNSExists id) (λ ex, m_bind (if ex then m_ret (GetNetNSPath id, None)
        else m_bind (CreateNetNS id) (λ r, m_ret (match r with
             | Err e => ("", Some (ErrWrap "create temporary netns" e)) | Ok tmp => (tmp, None) end))) k) n = k (ns, cr) n1) ∧
      trace n1 = trace n ++ t ∧ Forall local t ∧ netConf n1 = netConf n ∧ (ns = p ∧ cr = None ∨ ns = "" ∧ is_Some cr)).
  { unfold NetNSExists, ask. unfold m_bind at 1. simpl. destruct (succeeded _).
    - exists p, None, n, []. rewrite app_nil_r. split_and!; auto.
    - destruct (CreateNetNS_trace id n) as (r & n1 & t & E & Et & Ht & Ec & Hp). unfold m_bind, m_get, m_ret. simpl.
      rewrite E. destruct r as [q|e].
      + exists p, None, n1, t. rewrite (Hp q eq_refl). split_and!; auto.
      + eexists "", (Some _), n1, t. split_and!; eauto. }
  destruct Hns as (ns & cr & n1 & t & Hk & Et & Ht & Ec & Hcr).
  destruct (Teardown_trace id ns name n1) as (del & n2 & ok & Ed & Etd & Hok & Ec2); [congruence|].
  destruct (verify_spec dir id n2) as (leak & Ev & Hleak).
  destruct (DeleteNetNS_trace id n2) as (e & n' & u & gone & Ee & Ete & Hgone & Ec3).
  eexists _, n2, n', t, ns, ok, u, gone. split.
  { unfold teardown_steps. rewrite Hk. unfold m_bind. rewrite Ed. rewrite Ev. by rewrite Ee. }
  simpl. split_and!; try done; [by rewrite Etd, Et, <-app_assoc|naive_solver|congruence|].
  pose proof (GetNetNSPath_nonempty id). fold p in H0.
  destruct Hcr as [[-> ->]|[-> [c ->]]]; destruct e; naive_solver.
Qed.

(** A teardown gives back the namespace and the attachment of the container. *)
Lemma wp_teardown_steps dir id name (Q : CleanupResult → st W → Prop) s0 s :
  netConf s = Some name → within {[GetNetNSPath id]} {[id]} s0 s →
  (∀ r s', within ∅ ∅ s0 s' → Q r s') → wp (teardown_steps dir id) Q s.
Proof.
  intros Hn Hw HQ. apply wp_bind, wp_get, wp_bind.
  eapply (wp_mono _ (λ _ s1, within {[GetNetNSPath id]} {[id]} s0 s1 ∧ netConf s1 = Some name)).
  - case_match; [by apply wp_ret|]. apply wp_bind, wp_CreateNetNS. intros [p|e] s1 Hc; apply wp_ret; simpl in Hc.
    + destruct Hc as (-> & Hb & E). split; [|congruence].
      by eapply within_join; [exact Hw|by apply bound_within|set_solver..].
    + split; [by eapply within_join; [exact Hw|exact Hc|set_solver..]|]. by rewrite (wi_conf _ _ _ _ Hc).
  - intros [ns cr] s1 [H1 E1]. apply wp_bind, (wp_Teardown _ _ name); [done|]. intros del s2 Hd E2.
    apply wp_bind, wp_get, wp_bind, wp_DeleteNetNS. intros e s3 Hr E3. apply wp_ret, HQ.
    eapply within_removed; [|exact Hr|done]. by eapply within_detached.
Qed.

End setup.

(** ** A call on its own *)
Section alone.
Context {W : Type} `{NetOps W}.
Local Opaque performCNISetup teardown_steps.

Lemma drive_step k p (s : state W) p' s' :
  match p with Done _ _ => False | _ => True end →
  pc_step false true p s = Some (Return (p', s')) → drive (S k) p s = drive k p' s'.
Proof. intros Hp E. destruct p; try done; cbn [drive]; by rewrite E. Qed.
Ltac drive1 tac :=
  erewrite drive_step; [|exact I|unfold pc_step; cbn [is_release ensure_step release_step]; tac; reflexivity].
Ltac lookup_new := cbn [mgr on_mgr set_setups set_teardowns set_inFlight set_teardownInFlight set_metrics
  set_results set_next compose setups teardowns]; rewrite ?lookup_insert_eq.

Lemma ensure_alone env (s : state W) :
  cniResults (mgr s) !! env_ID env = None → inFlight (mgr s) !! env_ID env = None →
  ∃ r s', performCNISetup (env_ID env) (net s) = Return (r, net s') ∧
    EnsureNetworkResources env s =
      Return (match r with Ok c => (updateEnvironment env c, None) | Err e => (env, Some e) end, s') ∧
    cniResults (mgr s') = match r with
                          | Ok c => <[env_ID env := c]> (cniResults (mgr s))
                          | Err _ => cniResults (mgr s) end ∧
    inFlight (mgr s') = inFlight (mgr s) ∧ teardownInFlight (mgr s') = teardownInFlight (mgr s) ∧
    ipamDir (mgr s') = ipamDir (mgr s).
Proof.
  intros Hr Hf. destruct (emits_performCNISetup (env_ID env) (net s)) as (r & n' & t & E & _).
  exists r. unfold EnsureNetworkResources, cni_manager, call_alone, call_fuel.
  drive1 ltac:(rewrite Hr). drive1 ltac:(rewrite Hf). destruct r as [c|e].
  - drive1 ltac:(unfold run_net; cbn [net on_mgr]; rewrite E). drive1 idtac. do 2 drive1 lookup_new. drive1 idtac.
    eexists. split; [|split; [reflexivity|]]; [exact E|]. cbn. split_and!; try done. by apply delete_insert_id.
  - drive1 ltac:(unfold run_net; cbn [net on_mgr]; rewrite E; lookup_new). drive1 lookup_new. drive1 idtac.
    eexists. split; [|split; [reflexivity|]]; [exact E|]. cbn. split_and!; try done. by apply delete_insert_id.
Qed.

Lemma release_alone env (s : state W) :
  teardownInFlight (mgr s) !! env_ID env = None →
  ∃ r s', teardown_steps (ipamDir (mgr s)) (env_ID env) (net s) = Return (r, net s') ∧
    ReleaseNetworkResources env s = Return ((mkEnv (env_ID env) None,
      cleanup_Err (mkCleanup (CNITeardown r) (NetNSDelete r) (IPAMVerify r) true)), s') ∧
    cniResults (mgr s') = delete (env_ID env) (cniResults (mgr s)) ∧
    inFlight (mgr s') = inFlight (mgr s) ∧ teardownInFlight (mgr s') = teardownInFlight (mgr s).
Proof.
  intros Hf. destruct (emits_teardown_steps (ipamDir (mgr s)) (env_ID env) (net s)) as (r & n' & t & E & _).
  exists r. unfold ReleaseNetworkResources, cni_manager, call_alone, call_fuel.
  drive1 ltac:(rewrite Hf). drive1 ltac:(unfold run_net; cbn [net mgr ipamDir on_mgr set_teardownInFlight set_teardowns set_next compose];
    rewrite E). drive1 idtac.
  destruct (IPAMVerify r) eqn:Ev; do 2 drive1 lookup_new; drive1 idtac;
    (eexists; split; [|split; [reflexivity|]]; [exact E|]; cbn; split_and!; try done; by apply delete_insert_id).
Qed.

(** Releasing the network of a container always goes through every step:
    the plug-ins are called once for the container, with its namespace or, if
    that could not even be created again, without one; the namespace is unmounted
    and removed; the cached result and the caller's network information are
    cleared.  The call succeeds exactly if DEL succeeded, in the container's
    namespace, the namespace is gone, and no file of the IPAM directories names
    the container once DEL is done. *)
Theorem release_complete env (s : state W) name :
  netConf (net s) = Some name → teardownInFlight (mgr s) !! env_ID env = None →
  ∃ err s' n2 t ns ok u gone,
    ReleaseNetworkResources env s = Return ((mkEnv (env_ID env) None, err), s') ∧
    cniResults (mgr s') = delete (env_ID env) (cniResults (mgr s)) ∧
    Forall local t ∧ trace n2 = trace (net s) ++ t ++ [EvDel (env_ID env) ns ok] ∧
    trace (net s') = trace n2 ++ [EvUnmount (GetNetNSPath (env_ID env)) u; EvRemove (GetNetNSPath (env_ID env)) gone] ∧
    (ns = GetNetNSPath (env_ID env) ∨ ns = "") ∧
    (err = None ↔ ok = true ∧ ns = GetNetNSPath (env_ID env) ∧ gone = true ∧
                  ¬ leaked (world n2) (ipamDir (mgr s)) (env_ID env)).
Proof.
  intros Hn Hf. destruct (release_alone env s Hf) as (r & s' & E & Er & Ec & _).
  destruct (teardown_trace (ipamDir (mgr s)) (env_ID env) name (net s) Hn)
    as (r' & n2 & n' & t & ns & ok & u & gone & E' & Ht & Et2 & Et' & Hns & _ & H1 & H2 & H3).
  rewrite E in E'. injection E' as <- <-.
  eexists _, s', n2, t, ns, ok, u, gone. split; [exact Er|]. split_and!; try done.
  unfold cleanup_Err, HasError. simpl.
  destruct (CNITeardown r), (NetNSDelete r), (IPAMVerify r); simpl; naive_solver.
Qed.

Context `{HostNames}.

(** The manager has nothing of the container, and nobody works on it. *)
Definition idle (id : string) (m : manager) : Prop :=
  cniResults m !! id = None ∧ inFlight m !! id = None ∧ teardownInFlight m !! id = None.

(** What a failure of [platform_Setup] leaves. *)
Definition nothing_left (s : state W) (q : Qemu.Instance) (s' : state W) (q' : Qemu.Instance) : Prop :=
  within ∅ ∅ (net s) (net s') ∧ cniResults (mgr s') = cniResults (mgr s) ∧ q' = q.

Lemma release_and_fail_spec id name (s s1 : state W) q env c e :
  idle id (mgr s) → env_ID env = id → netConf (net s1) = Some name →
  within {[GetNetNSPath id]} {[id]} (net s) (net s1) →
  cniResults (mgr s1) = <[id := c]> (cniResults (mgr s)) → teardownInFlight (mgr s1) = teardownInFlight (mgr s) →
  ∃ s', release_and_fail env e (s1, q) = Return (Err e, (s', q)) ∧ nothing_left s q s' q.
Proof.
  intros (I1 & I2 & I3) <- Hn Hw Hc Hf.
  destruct (release_alone env s1) as (r & s' & E & Er & Ec & _); [by rewrite Hf|].
  exists s'. unfold release_and_fail, m_bind, on_nm. rewrite Er. split; [done|].
  assert (Hwp : wp (teardown_steps (ipamDir (mgr s1)) (env_ID env)) (λ _ n', within ∅ ∅ (net s) n') (net s1))
    by (by eapply wp_teardown_steps).
  unfold wp in Hwp. rewrite E in Hwp. split_and!; [done| |done]. rewrite Ec, Hc. by apply delete_insert_id.
Qed.


End alone.

(** ** A host with one network *)

Module NetHost.

(** The files under the namespace directory, and the containers that have an
    address. *)
Record host := mkHost { files : gset string; attached : gset string }.

Definition tap : Result :=
  mkResult [mkInterface "tap0" "02:00:00:00:00:01" "/var/run/netns/c1"]
    [mkIPConfig "10.0.0.2" (Some "255.255.255.0") "10.0.0.1"].

#[export] Instance host_ops : NetOps host := {|
  os_MkdirAll _ w := (None, w);
  os_Stat p w := if bool_decide (p ∈ files w) then None else Some (ErrSentinel ErrNotExist);
  os_Create p w := (None, mkHost ({[p]} ∪ files w) (attached w));
  file_Close w := (None, w);
  os_Remove p w := if bool_decide (p ∈ files w) then (None, mkHost (files w ∖ {[p]}) (attached w))
                   else (Some (ErrSentinel ErrNotExist), w);
  os_Open _ _ := None;
  unix_Mount _ _ w := (None, w);
  unix_Unmount _ w := (None, w);
  Fstat_file _ _ := Ok 2;
  Fstat_ns _ _ := Ok 1;
  netns_Get w := (Ok 3, w);
  netns_GetFromPath _ w := (Ok 5, w);
  netns_New w := (Ok 4, w);
  netns_Set _ w := (None, w);
  netns_Close _ w := (None, w);
  LinkByName _ _ := Ok "02:00:00:00:00:01";
  ConfFiles _ _ := Ok ["10-net.conflist"];
  ConfListFromFile _ _ := Ok "net";
  AddNetworkList _ id _ w :=
    if bool_decide (id ∈ attached w)
    then (Err (ErrNew ("duplicate allocation is not allowed, container " +:+ id)), w)
    else (Ok tap, mkHost (files w) ({[id]} ∪ attached w));
  NewResultFromResult r := Ok r;
  DelNetworkList _ id _ w := (None, mkHost (files w) (attached w ∖ {[id]}));
  os_ReadDir _ _ := Err (ErrSentinel ErrNotExist);
  os_ReadFile _ _ := Err (ErrSentinel ErrNotExist);
  now_UnixNano w := (7, w) |}.

Definition n0 : st host := mkSt (Some "net") (mkHost ∅ ∅) [].
Definition s0 : state host := mkState empty_manager n0.
Definition env0 : Environment := mkEnv "c1" None.

(** No resolv.conf, and addresses as they are written. *)
#[export] Instance names0 : HostNames := {|
  GetSpecific := Err (ErrSentinel ErrNotExist);
  FilterResolvDNS c := Ok c;
  GetNameservers _ := [];
  ParseMAC m := Ok m |}.

Lemma release_complete_witness :
  ∃ err s' t, ReleaseNetworkResources env0 s0 = Return ((mkEnv "c1" None, err), s') ∧
    trace (net s') = t ∧ EvDel "c1" (GetNetNSPath "c1") true ∈ t.
Proof.
  destruct (release_complete env0 s0 "net") as (err & s' & n2 & t & ns & ok & u & gone & E & _ & _ & E2 & E3 & _);
    [reflexivity|reflexivity|].
  exists err, s', (trace (net s')). split; [exact E|]. split; [reflexivity|].
  vm_compute in E. injection E as <- <-. vm_compute. repeat (first [apply list_elem_of_here|apply list_elem_of_further]).
Defined.


End NetHost.
