(* ===== verification/NetworkFlight.v ===== *)
(** * Single flight of network set-up and teardown

    Concurrent calls of the network manager of Network.v: a general account of
    a table of in-flight operations (one worker per key, waiters on a tracker),
    and the invariant of all interleavings of
    [ensureNetworkResourcesCNI] and [releaseNetworkResourcesCNI]. *)

From S2P Require Import Prelude GoStrings QemuCmd QemuInstance MountUtil Network NetworkSetup.

Import Network.

(** ** A table of in-flight operations *)

(** Where a worker is: before its outcome is known, with an outcome it has not
    written to the tracker, with the outcome written and [err] to return, with
    the tracker closed. *)
Inductive phase (X : Type) :=
  | PWork
  | PHas (x : X)
  | PPub (err : option error)
  | PClosed (err : option error).
Arguments PWork {X}. Arguments PHas {X}. Arguments PPub {X}. Arguments PClosed {X}.

Section flights.
Context {X : Type} (errOf : X → option error).

(** What the tracker at [r] holds for a worker in a phase, with the outcomes [L]
    so far. *)
Definition phase_ok (L : list (Z * X)) (r : Z) (ph : phase X) (v : chan * option X) : Prop :=
  match ph with
  | PWork => v = (OpenChan, None) ∧ r ∉ L.*1
  | PHas x => v = (OpenChan, None) ∧ (r, x) ∈ L
  | PPub err => ∃ x, v = (OpenChan, Some x) ∧ (r, x) ∈ L ∧ err = errOf x
  | PClosed err => ∃ x, v = (ClosedChan, Some x) ∧ (r, x) ∈ L ∧ err = errOf x
  end.

(** [own] are the workers with key, tracker and phase; [tbl] the table, [h] the
    trackers, [n] the next address. *)
Record flights_ok (own : gmap Z (string * Z * phase X)) (tbl : gmap string Z)
    (h : gmap Z (chan * option X)) (n : Z) (L : list (Z * X)) : Prop := mkFlights
  { fo_tbl : ∀ g id r ph, own !! g = Some (id, r, ph) → tbl !! id = Some r;
    fo_own : ∀ id r, tbl !! id = Some r → ∃ g ph, own !! g = Some (id, r, ph);
    fo_one : ∀ g1 g2 id1 id2 r ph1 ph2,
      own !! g1 = Some (id1, r, ph1) → own !! g2 = Some (id2, r, ph2) → g1 = g2;
    fo_phase : ∀ g id r ph, own !! g = Some (id, r, ph) → ∃ v, h !! r = Some v ∧ phase_ok L r ph v;
    fo_h : ∀ r c v, h !! r = Some (c, v) → r < n ∧
      ((c = OpenChan ∧ ∃ g id ph, own !! g = Some (id, r, ph)) ∨
       (c = ClosedChan ∧ ∃ x, v = Some x ∧ (r, x) ∈ L));
    fo_log : NoDup L.*1 ∧ ∀ r, r ∈ L.*1 → r < n }.

Lemma flights_empty n : flights_ok ∅ ∅ ∅ n [].
Proof.
  constructor; try (intros *; rewrite lookup_empty; done).
  simpl. split; [constructor|]. by intros r ?%elem_of_nil.
Qed.

Lemma flights_next own tbl h n n' L : n ≤ n' → flights_ok own tbl h n L → flights_ok own tbl h n' L.
Proof.
  intros Hn [H1 H2 H3 H4 H5 [H6 H7]]. constructor; try done.
  - intros r c v Hr. destruct (H5 r c v Hr). split; [lia|done].
  - split; [done|]. intros r Hr. specialize (H7 r Hr). lia.
Qed.

(** Outcomes of others do not matter to a worker. *)
Lemma phase_ok_app L L' r ph v :
  (ph = PWork → r ∉ L'.*1) → phase_ok L r ph v → phase_ok (L ++ L') r ph v.
Proof.
  intros Hw. destruct ph; simpl.
  - intros [-> Hr]. split; [done|]. rewrite fmap_app, not_elem_of_app. auto.
  - intros [-> ?]. split; [done|]. apply elem_of_app. auto.
  - intros (x & ? & ? & ?). exists x. rewrite elem_of_app. auto.
  - intros (x & ? & ? & ?). exists x. rewrite elem_of_app. auto.
Qed.

(** The first caller for a key. *)
Lemma flights_start own tbl h n L g id :
  flights_ok own tbl h n L → own !! g = None → tbl !! id = None →
  flights_ok (<[g := (id, n, PWork)]> own) (<[id := n]> tbl) (<[n := (OpenChan, None)]> h) (n + 1) L.
Proof.
  intros [H1 H2 H3 H4 H5 [H6 H7]] Hg Hid.
  assert (Hn : ∀ g id ph, own !! g ≠ Some (id, n, ph)).
  { intros g' id' ph Ho. destruct (H4 _ _ _ _ Ho) as ([c v] & Hv & _). apply H5 in Hv as [? _]. lia. }
  constructor.
  - intros g' id' r ph [[-> [= <- <- <-]]|[Hne Ho]]%lookup_insert_Some; [by rewrite lookup_insert_eq|].
    rewrite lookup_insert_ne; [eauto|]. intros ->. apply H1 in Ho. congruence.
  - intros id' r [[-> <-]|[Hne Hr]]%lookup_insert_Some; [exists g, PWork; by rewrite lookup_insert_eq|].
    destruct (H2 _ _ Hr) as (g' & ph & Ho). exists g', ph. rewrite lookup_insert_ne; [done|]. congruence.
  - intros g1 g2 id1 id2 r ph1 ph2 [[-> [= <- <- <-]]|[? Ho1]]%lookup_insert_Some
      [[-> E]|[? Ho2]]%lookup_insert_Some; [done|by apply Hn in Ho2|simplify_eq; by apply Hn in Ho1|eauto].
  - intros g' id' r ph [[-> [= <- <- <-]]|[Hne Ho]]%lookup_insert_Some.
    + exists (OpenChan, None). rewrite lookup_insert_eq. split; [done|]. split; [done|].
      intros Hr%H7. lia.
    + destruct (H4 _ _ _ _ Ho) as (v & Hv & Hp). exists v. rewrite lookup_insert_ne; [done|].
      intros <-. by eapply Hn.
  - intros r c v [[<- [= <- <-]]|[Hne Hr]]%lookup_insert_Some.
    + split; [lia|]. left. split; [done|]. exists g, id, PWork. by rewrite lookup_insert_eq.
    + destruct (H5 _ _ _ Hr) as [? [[? (g' & id' & ph & Ho)]|?]]; (split; [lia|]); [left|by right].
      split; [done|]. exists g', id', ph. rewrite lookup_insert_ne; [done|]. congruence.
  - split; [done|]. intros r Hr%H7. lia.
Qed.

(** The worker's phase moves on: [v] is what its tracker holds then, [L'] what
    it adds to the outcomes. *)
Lemma flights_move own tbl h n L g id r ph ph' v L' :
  flights_ok own tbl h n L → own !! g = Some (id, r, ph) →
  (L' = [] ∨ ∃ x, L' = [(r, x)] ∧ ph = PWork) →
  phase_ok (L ++ L') r ph' v →
  flights_ok (<[g := (id, r, ph')]> own) tbl (<[r := v]> h) n (L ++ L').
Proof.
  intros [H1 H2 H3 H4 H5 [H6 H7]] Hg HL Hp. destruct (H4 _ _ _ _ Hg) as ([c0 v0] & Hv0 & Hp0).
  assert (HL' : ∀ r', r' ∈ L'.*1 → r' = r).
  { intros r'. destruct HL as [->|(x & -> & _)]; simpl; [by intros ?%elem_of_nil|by intros ?%list_elem_of_singleton]. }
  constructor.
  - intros g' id' r' ph'' [[-> [= <- <- <-]]|[Hne Ho]]%lookup_insert_Some; eauto.
  - intros id' r' Hr. destruct (H2 _ _ Hr) as (g' & ph'' & Ho). destruct (decide (g' = g)) as [->|].
    + simplify_eq. exists g, ph'. by rewrite lookup_insert_eq.
    + exists g', ph''. by rewrite lookup_insert_ne.
  - intros g1 g2 id1 id2 r' ph1 ph2 [[-> [= <- <- <-]]|[? Ho1]]%lookup_insert_Some
      [[-> E]|[? Ho2]]%lookup_insert_Some; simplify_eq; eauto.
  - intros g' id' r' ph'' [[-> [= <- <- <-]]|[Hne Ho]]%lookup_insert_Some.
    + exists v. by rewrite lookup_insert_eq.
    + destruct (H4 _ _ _ _ Ho) as (v' & Hv & Hp'). exists v'.
      assert (r' ≠ r) by (intros ->; eauto using eq_sym).
      rewrite lookup_insert_ne by done. split; [done|]. apply phase_ok_app; [|done].
      intros _ Hr%HL'. done.
  - intros r' c w [[<- ->]|[Hne Hr]]%lookup_insert_Some.
    + destruct (H5 _ _ _ Hv0) as [? _]. split; [done|]. destruct ph'; simpl in Hp.
      1-2: destruct Hp as [[= -> ->] _]; left; split; [done|]; exists g, id; eexists; by rewrite lookup_insert_eq.
      * destruct Hp as (x & [= -> ->] & _). left. split; [done|]. exists g, id. eexists. by rewrite lookup_insert_eq.
      * destruct Hp as (x & [= -> ->] & ? & _). right. eauto.
    + destruct (H5 _ _ _ Hr) as [? [[? (g' & id' & ph'' & Ho)]|(? & x & ? & ?)]]; (split; [done|]).
      * left. split; [done|]. exists g', id', ph''. rewrite lookup_insert_ne; [done|]. congruence.
      * right. split; [done|]. exists x. rewrite elem_of_app. auto.
  - rewrite fmap_app. split.
    + destruct HL as [->|(x & -> & ->)]; simpl; [by rewrite app_nil_r|]. destruct Hp0 as [_ Hr].
      apply NoDup_app. split_and!; [done| |apply NoDup_singleton]. intros r' Hr' ?%list_elem_of_singleton. by subst.
    + intros r' [?|Hr]%elem_of_app; [auto|]. apply HL' in Hr as ->. by destruct (H5 _ _ _ Hv0).
Qed.

(** The worker leaves. *)
Lemma flights_delete own tbl h n L g id r err :
  flights_ok own tbl h n L → own !! g = Some (id, r, PClosed err) →
  flights_ok (delete g own) (delete id tbl) h n L.
Proof.
  intros [H1 H2 H3 H4 H5 H6] Hg. constructor.
  - intros g' id' r' ph [Hne Ho]%lookup_delete_Some. rewrite lookup_delete_ne; [eauto|]. intros <-.
    apply Hne. pose proof (H1 _ _ _ _ Hg). pose proof (H1 _ _ _ _ Ho). simplify_eq. eauto.
  - intros id' r' [Hne Hr]%lookup_delete_Some. destruct (H2 _ _ Hr) as (g' & ph & Ho).
    exists g', ph. rewrite lookup_delete_ne; [done|]. intros <-. congruence.
  - intros g1 g2 id1 id2 r' ph1 ph2 [? ?]%lookup_delete_Some [? ?]%lookup_delete_Some. eauto.
  - intros g' id' r' ph [? ?]%lookup_delete_Some. eauto.
  - intros r' c v Hr. destruct (H5 _ _ _ Hr) as [? [[-> (g' & id' & ph & Ho)]|?]]; (split; [done|]); [|by right].
    left. split; [done|]. exists g', id', ph. rewrite lookup_delete_ne; [done|]. intros <-. simplify_eq.
    destruct (H4 _ _ _ _ Hg) as (v' & Hv & x & -> & _). congruence.
  - done.
Qed.

End flights.

(** ** The manager's two tables *)

Definition errE (x : result CNIResult) : option error :=
  match x with Ok _ => None | Err e => Some e end.
Definition ownE (p : pc) : option (string * Z * phase (result CNIResult)) :=
  match p with
  | EWork env ref => Some (env_ID env, ref, PWork)
  | EStore env ref r | EPublish env ref r => Some (env_ID env, ref, PHas (Ok r))
  | EClose env ref err => Some (env_ID env, ref, PPub err)
  | EDelete env ref err => Some (env_ID env, ref, PClosed err)
  | _ => None
  end.
Definition viewE (f : setupInFlight) : chan * option (result CNIResult) :=
  (sf_done f, match sf_err f, sf_result f with
              | Some e, _ => Some (Err e)
              | None, Some r => Some (Ok r)
              | None, None => None
              end).

Definition ownR (p : pc) : option (string * Z * phase CleanupResult) :=
  match p with
  | RWork env ref | RClear env ref _ => Some (env_ID env, ref, PWork)
  | RPublish env ref r => Some (env_ID env, ref, PHas r)
  | RClose env ref err => Some (env_ID env, ref, PPub err)
  | RDelete env ref err => Some (env_ID env, ref, PClosed err)
  | _ => None
  end.
Definition viewR (f : teardownFlight) : chan * option CleanupResult :=
  (tf_done f, if InMemoryClear (tf_result f) then Some (tf_result f) else None).

(** The set-up half and the teardown half of the invariant. *)
Definition InvE (ps : gmap Z pc) (m : manager) (L : list (Z * result CNIResult)) : Prop :=
  flights_ok errE (omap ownE ps) (inFlight m) (viewE <$> setups m) (next m) L ∧
  ∀ g env ref, ps !! g = Some (EWait env ref) → is_Some (setups m !! ref).
Definition InvR (ps : gmap Z pc) (m : manager) (L : list (Z * CleanupResult)) : Prop :=
  flights_ok cleanup_Err (omap ownR ps) (teardownInFlight m) (viewR <$> teardowns m) (next m) L ∧
  (∀ g env ref, ps !! g = Some (RWait env ref) → is_Some (teardowns m !! ref)) ∧
  (∀ g env ref r, ps !! g = Some (RPublish env ref r) → InMemoryClear r = true).

Lemma own_lookup {X} (f : pc → option X) (ps : gmap Z pc) g p x :
  ps !! g = Some p → f p = x → omap f ps !! g = x.
Proof. intros Hg <-. by rewrite lookup_omap, Hg. Qed.

Lemma own_insert_None {X} (f : pc → option X) (ps : gmap Z pc) g p' :
  f p' = None → omap f ps !! g = None → omap f (<[g := p']> ps) = omap f ps.
Proof. intros E Hg. rewrite omap_insert, E. by apply delete_id. Qed.

Lemma InvE_frame ps m m' L g p' :
  InvE ps m L → ownE p' = None → omap ownE ps !! g = None →
  (∀ env ref, p' = EWait env ref → is_Some (setups m !! ref)) →
  inFlight m' = inFlight m → setups m' = setups m → next m ≤ next m' → InvE (<[g := p']> ps) m' L.
Proof.
  intros [Hf Hw] Hp Hg Hp' E1 E2 E3. split.
  - rewrite own_insert_None, E1, E2 by done. by eapply flights_next.
  - intros g' env ref. rewrite E2. intros [[-> ->]|[_ ?]]%lookup_insert_Some; eauto.
Qed.

Lemma InvR_frame ps m m' L g p' :
  InvR ps m L → ownR p' = None → omap ownR ps !! g = None →
  (∀ env ref, p' = RWait env ref → is_Some (teardowns m !! ref)) →
  teardownInFlight m' = teardownInFlight m → teardowns m' = teardowns m → next m ≤ next m' →
  InvR (<[g := p']> ps) m' L.
Proof.
  intros (Hf & Hw & Hr) Hp Hg Hp' E1 E2 E3. split_and!.
  - rewrite own_insert_None, E1, E2 by done. by eapply flights_next.
  - intros g' env ref. rewrite E2. intros [[-> ->]|[_ ?]]%lookup_insert_Some; eauto.
  - intros g' env ref r [[-> ->]|[_ ?]]%lookup_insert_Some; [done|eauto].
Qed.

(** A worker moves and writes [f] to its tracker. *)
Lemma InvE_move ps m m' L L' g p p' id ref ph ph' f f' :
  InvE ps m L → ps !! g = Some p → ownE p = Some (id, ref, ph) → ownE p' = Some (id, ref, ph') →
  setups m !! ref = Some f →
  inFlight m' = inFlight m → setups m' = <[ref := f']> (setups m) → next m' = next m →
  (L' = [] ∨ ∃ x, L' = [(ref, x)] ∧ ph = PWork) → phase_ok errE (L ++ L') ref ph' (viewE f') →
  InvE (<[g := p']> ps) m' (L ++ L').
Proof.
  intros [Hf Hw] Hg Hp Hp' Hr E1 E2 E3 HL Hph. split.
  - rewrite omap_insert, Hp', E1, E2, E3, fmap_insert. eapply flights_move; eauto. by eapply own_lookup.
  - intros g' env ref'. rewrite E2. intros [[-> ->]|[_ Hg']]%lookup_insert_Some; [done|].
    apply Hw in Hg'. destruct (decide (ref' = ref)) as [->|]; [rewrite lookup_insert_eq|rewrite lookup_insert_ne]; eauto.
Qed.

Lemma InvR_move ps m m' L L' g p p' id ref ph ph' f f' :
  InvR ps m L → ps !! g = Some p → ownR p = Some (id, ref, ph) → ownR p' = Some (id, ref, ph') →
  teardowns m !! ref = Some f →
  teardownInFlight m' = teardownInFlight m → teardowns m' = <[ref := f']> (teardowns m) → next m' = next m →
  (L' = [] ∨ ∃ x, L' = [(ref, x)] ∧ ph = PWork) → phase_ok cleanup_Err (L ++ L') ref ph' (viewR f') →
  (∀ env ref r, p' = RPublish env ref r → InMemoryClear r = true) →
  InvR (<[g := p']> ps) m' (L ++ L').
Proof.
  intros (Hf & Hw & Hc) Hg Hp Hp' Hr E1 E2 E3 HL Hph Hpub. split_and!.
  - rewrite omap_insert, Hp', E1, E2, E3, fmap_insert. eapply flights_move; eauto. by eapply own_lookup.
  - intros g' env ref'. rewrite E2. intros [[-> ->]|[_ Hg']]%lookup_insert_Some; [done|].
    apply Hw in Hg'. destruct (decide (ref' = ref)) as [->|]; [rewrite lookup_insert_eq|rewrite lookup_insert_ne]; eauto.
  - intros g' env ref' r [[-> ->]|[_ ?]]%lookup_insert_Some; eauto.
Qed.

(** The tracker of a worker. *)
Lemma InvE_tracker ps m L g p id ref ph :
  InvE ps m L → ps !! g = Some p → ownE p = Some (id, ref, ph) →
  ∃ f, setups m !! ref = Some f ∧ phase_ok errE L ref ph (viewE f).
Proof.
  intros [Hf _] Hg Hp. destruct (fo_phase _ _ _ _ _ _ Hf g id ref ph) as (v & Hv & Hph); [by eapply own_lookup|].
  rewrite lookup_fmap, fmap_Some in Hv. destruct Hv as (f & Hf' & ->). eauto.
Qed.
Lemma InvR_tracker ps m L g p id ref ph :
  InvR ps m L → ps !! g = Some p → ownR p = Some (id, ref, ph) →
  ∃ f, teardowns m !! ref = Some f ∧ phase_ok cleanup_Err L ref ph (viewR f).
Proof.
  intros (Hf & _) Hg Hp. destruct (fo_phase _ _ _ _ _ _ Hf g id ref ph) as (v & Hv & Hph); [by eapply own_lookup|].
  rewrite lookup_fmap, fmap_Some in Hv. destruct Hv as (f & Hf' & ->). eauto.
Qed.

Lemma viewE_open f : viewE f = (OpenChan, None) → f = mkFlight OpenChan None None.
Proof. destruct f as [d [r|] [e|]]; unfold viewE; simpl; congruence. Qed.

(** ** All interleavings *)
Section concurrent.
Context {W : Type} `{NetOps W}.

(** The effect of a section of a set-up: the set-up half is kept, the teardown
    half is not touched. *)
Definition keepsE (ps : gmap Z pc) L g p (x : state W) (o : option (outcome (pc * state W))) : Prop :=
  match o with
  | None => True
  | Some (Panic _) => False
  | Some (Return (p', x')) =>
      InvE (<[g := p']> ps) (mgr x') (L ++ setup_entry p p') ∧
      teardownInFlight (mgr x') = teardownInFlight (mgr x) ∧ teardowns (mgr x') = teardowns (mgr x) ∧
      next (mgr x) ≤ next (mgr x') ∧ ownR p' = None ∧ ∀ env ref, p' ≠ RWait env ref
  end.

Lemma check_keeps cancelled prefer ps L g env x :
  InvE ps (mgr x) L → ps !! g = Some (ECheck env) →
  keepsE ps L g (ECheck env) x (ensure_step cancelled prefer (ECheck env) x).
Proof.
  intros HI Hg. simpl.
  destruct (inFlight (mgr x) !! env_ID env) as [ref|] eqn:Ef; simpl; rewrite app_nil_r;
    (split; [|split_and!; simpl; (lia || done)]).
  - eapply InvE_frame; [done..| | |done|done|done]; [by eapply own_lookup|]. intros ? ? [= <- <-].
    destruct HI as [Hf _]. destruct (fo_own _ _ _ _ _ _ Hf _ _ Ef) as (g' & ph & Ho).
    destruct (fo_phase _ _ _ _ _ _ Hf _ _ _ _ Ho) as (v & Hv & _). rewrite lookup_fmap, fmap_Some in Hv.
    destruct Hv as (f & ? & _). eauto.
  - destruct HI as [Hf Hw]. split; simpl.
    + rewrite omap_insert, fmap_insert. simpl. eapply flights_start; [done| |done]. by eapply own_lookup.
    + intros g' env' ref [[-> ?]|[_ Hg']]%lookup_insert_Some; [done|]. apply Hw in Hg'.
      rewrite lookup_insert_is_Some. destruct (decide (next (mgr x) = ref)); auto.
Qed.

(** A closed tracker holds the outcome of the set-up that ran for it. *)
Lemma closed_outcome ps m L ref f :
  InvE ps m L → setups m !! ref = Some f → sf_done f = ClosedChan →
  ∃ y, snd (viewE f) = Some y ∧ (ref, y) ∈ L.
Proof.
  intros [Hf _] Hs Hd.
  assert (Hv : (viewE <$> setups m) !! ref = Some (ClosedChan, snd (viewE f)))
    by (rewrite lookup_fmap, Hs; unfold viewE; simpl; by rewrite Hd).
  apply (fo_h _ _ _ _ _ _ Hf) in Hv as [_ [[? _]|(_ & y & Hy & ?)]]; [done|]. eauto.
Qed.

Lemma wait_keeps cancelled prefer ps L g env ref x :
  InvE ps (mgr x) L → ps !! g = Some (EWait env ref) →
  keepsE ps L g (EWait env ref) x (ensure_step cancelled prefer (EWait env ref) x).
Proof.
  intros HI Hg. destruct (proj2 HI _ _ _ Hg) as [f Hs]. simpl. rewrite Hs.
  assert (Hdone : ∀ e o, keepsE ps L g (EWait env ref) x (Some (Return (Done e o, x)))).
  { intros e o. split; [|done]. simpl. rewrite app_nil_r.
    eapply InvE_frame; [done..| |done|done|done|done]. by eapply own_lookup. }
  destruct (_ && _) eqn:Eb; [|destruct cancelled; [apply Hdone|done]].
  apply andb_prop in Eb as [Ec _]. apply bool_decide_eq_true in Ec.
  destruct (closed_outcome _ _ _ _ _ HI Hs Ec) as (y & Hy & _). unfold viewE in Hy. simpl in Hy.
  destruct (sf_err f) as [e|]; [apply Hdone|]. destruct (sf_result f); [apply Hdone|done].
Qed.

Lemma work_keeps cancelled prefer ps L g env ref x :
  InvE ps (mgr x) L → ps !! g = Some (EWork env ref) →
  keepsE ps L g (EWork env ref) x (ensure_step cancelled prefer (EWork env ref) x).
Proof.
  intros HI Hg. destruct (InvE_tracker _ _ _ _ _ _ _ _ HI Hg eq_refl) as (f & Hs & [Hv Hl]).
  simpl. unfold run_net. destruct (emits_performCNISetup (env_ID env) (net x)) as (r & n & t & -> & _). simpl.
  apply viewE_open in Hv as ->.
  destruct r as [c|e]; simpl; [|rewrite Hs]; simpl; (split; [|done]);
    (eapply InvE_move; [done|exact Hg|reflexivity|reflexivity|exact Hs|done| |done|right; eauto|]).
  - simpl. symmetry. by apply insert_id.
  - simpl. split; [done|]. apply elem_of_app. right. by apply list_elem_of_singleton.
  - done.
  - simpl. exists (Err e). split; [done|]. split; [|done]. apply elem_of_app. right. by apply list_elem_of_singleton.
Qed.

Lemma ensure_keeps cancelled prefer ps L g p x :
  InvE ps (mgr x) L → ps !! g = Some p → is_release p = false →
  keepsE ps L g p x (ensure_step cancelled prefer p x).
Proof.
  intros HI Hg Hrel.
  destruct p as [env|env|env ref|env ref|env ref r|env ref r|env ref err|env ref err| | | | | | | |env err];
    try done; [|by apply check_keeps|by apply wait_keeps|by apply work_keeps|..]; simpl.
  - destruct (cniResults (mgr x) !! env_ID env); simpl; rewrite app_nil_r; (split; [|done]);
      (eapply InvE_frame; [done..| | |done|done|done]; [by eapply own_lookup|done]).
  - destruct (InvE_tracker _ _ _ _ _ _ _ _ HI Hg eq_refl) as (f & Hs & Hph). split; [|done].
    eapply InvE_move; [done|exact Hg|reflexivity|reflexivity|exact Hs|done| |done|by left|].
    + simpl. symmetry. by apply insert_id.
    + by rewrite app_nil_r.
  - destruct (InvE_tracker _ _ _ _ _ _ _ _ HI Hg eq_refl) as (f & Hs & [Hv Hl]). rewrite Hs.
    apply viewE_open in Hv as ->. split; [|done].
    eapply InvE_move; [done|exact Hg|reflexivity|reflexivity|exact Hs|done|done|done|by left|].
    rewrite app_nil_r. by exists (Ok r).
  - destruct (InvE_tracker _ _ _ _ _ _ _ _ HI Hg eq_refl) as (f & Hs & y & Hv & Hl & ->). rewrite Hs.
    unfold viewE in Hv. injection Hv as Hd Hv. rewrite Hd. simpl. split; [|done].
    eapply InvE_move; [done|exact Hg|reflexivity|reflexivity|exact Hs|done|done|done|by left|].
    rewrite app_nil_r. exists y. unfold viewE. simpl. by rewrite Hv.
  - destruct HI as [Hf Hw]. rewrite app_nil_r. split; [|done]. split; simpl.
    + rewrite omap_insert. simpl. eapply flights_delete; [done|]. by eapply own_lookup.
    + intros g' env' ref' [[-> ?]|[_ ?]]%lookup_insert_Some; [done|eauto].
Qed.

(** The same for a section of a teardown. *)
Definition keepsR (ps : gmap Z pc) L g (x : state W) (o : option (outcome (pc * state W))) : Prop :=
  match o with
  | None => True
  | Some (Panic _) => False
  | Some (Return (p', x')) =>
      InvR (<[g := p']> ps) (mgr x') (L ++ teardown_entry p') ∧
      inFlight (mgr x') = inFlight (mgr x) ∧ setups (mgr x') = setups (mgr x) ∧
      next (mgr x) ≤ next (mgr x') ∧ ownE p' = None ∧ ∀ env ref, p' ≠ EWait env ref
  end.

Lemma rstart_keeps cancelled prefer ps L g env x :
  InvR ps (mgr x) L → ps !! g = Some (RStart env) →
  keepsR ps L g x (release_step cancelled prefer (RStart env) x).
Proof.
  intros HI Hg. simpl.
  destruct (teardownInFlight (mgr x) !! env_ID env) as [ref|] eqn:Ef; simpl; rewrite app_nil_r;
    (split; [|split_and!; simpl; (lia || done)]).
  - eapply InvR_frame; [done..| | |done|done|done]; [by eapply own_lookup|]. intros ? ? [= <- <-].
    destruct HI as [Hf _]. destruct (fo_own _ _ _ _ _ _ Hf _ _ Ef) as (g' & ph & Ho).
    destruct (fo_phase _ _ _ _ _ _ Hf _ _ _ _ Ho) as (v & Hv & _). rewrite lookup_fmap, fmap_Some in Hv.
    destruct Hv as (f & ? & _). eauto.
  - destruct HI as (Hf & Hw & Hc). split_and!; simpl.
    + rewrite omap_insert, fmap_insert. simpl. eapply flights_start; [done| |done]. by eapply own_lookup.
    + intros g' env' ref [[-> ?]|[_ Hg']]%lookup_insert_Some; [done|]. apply Hw in Hg'.
      rewrite lookup_insert_is_Some. destruct (decide (next (mgr x) = ref)); auto.
    + intros g' env' ref r [[-> ?]|[_ ?]]%lookup_insert_Some; [done|eauto].
Qed.

Lemma release_keeps cancelled prefer ps L g p x :
  InvR ps (mgr x) L → ps !! g = Some p → is_release p = true →
  keepsR ps L g x (release_step cancelled prefer p x).
Proof.
  intros HI Hg Hrel.
  destruct p as [| | | | | | | |env|env ref|env ref|env ref r|env ref r|env ref err|env ref err|];
    try done; [by apply rstart_keeps|..]; simpl.
  - destruct (proj1 (proj2 HI) _ _ _ Hg) as [f ->].
    assert (Hdone : ∀ e o, keepsR ps L g x (Some (Return (Done e o, x)))).
    { intros e o. split; [|done]. simpl. rewrite app_nil_r.
      eapply InvR_frame; [done..| |done|done|done|done]. by eapply own_lookup. }
    destruct (_ && _); [apply Hdone|]. destruct cancelled; [apply Hdone|done].
  - destruct (InvR_tracker _ _ _ _ _ _ _ _ HI Hg eq_refl) as (f & Hs & Hph). unfold run_net.
    destruct (emits_teardown_steps (ipamDir (mgr x)) (env_ID env) (net x)) as (r & n & t & -> & _).
    split; [|by destruct (IPAMVerify r)].
    eapply InvR_move; [done|exact Hg|reflexivity|reflexivity|exact Hs| | | |by left|by rewrite app_nil_r|done];
      destruct (IPAMVerify r); simpl; try done; symmetry; by apply insert_id.
  - destruct (InvR_tracker _ _ _ _ _ _ _ _ HI Hg eq_refl) as (f & Hs & [Hv Hl]). split; [|done].
    eapply InvR_move; [done|exact Hg|reflexivity|reflexivity|exact Hs|done| |done|right; eauto| |by intros ??? [= <- <- <-]].
    + simpl. symmetry. by apply insert_id.
    + split; [done|]. apply elem_of_app. right. by apply list_elem_of_singleton.
  - destruct (InvR_tracker _ _ _ _ _ _ _ _ HI Hg eq_refl) as (f & Hs & [Hv Hl]). rewrite Hs.
    unfold viewR in Hv. injection Hv as Hd _. split; [|done].
    eapply InvR_move; [done|exact Hg|reflexivity|reflexivity|exact Hs|done|done|done|by left| |done].
    rewrite app_nil_r. exists r. unfold viewR. simpl. by rewrite Hd, (proj2 (proj2 HI) _ _ _ _ Hg).
  - destruct (InvR_tracker _ _ _ _ _ _ _ _ HI Hg eq_refl) as (f & Hs & y & Hv & Hl & ->). rewrite Hs.
    unfold viewR in Hv. injection Hv as Hd Hv. rewrite Hd. simpl. split; [|done].
    eapply InvR_move; [done|exact Hg|reflexivity|reflexivity|exact Hs|done|done|done|by left| |done].
    rewrite app_nil_r. exists y. unfold viewR. simpl. by rewrite Hv.
  - destruct HI as (Hf & Hw & Hc). rewrite app_nil_r. split; [|done]. split_and!; simpl.
    + rewrite omap_insert. simpl. eapply flights_delete; [done|]. by eapply own_lookup.
    + intros g' env' ref' [[-> ?]|[_ ?]]%lookup_insert_Some; [done|eauto].
    + intros g' env' ref' r [[-> ?]|[_ ?]]%lookup_insert_Some; [done|eauto].
Qed.

Definition Inv (s : sys W) : Prop :=
  InvE (procs s) (mgr (shared s)) (setup_log s) ∧ InvR (procs s) (mgr (shared s)) (teardown_log s).

Lemma halves p : (is_release p = false → ownR p = None) ∧ (is_release p = true → ownE p = None).
Proof. by destruct p. Qed.

(** No section panics, and each keeps the invariant. *)
Lemma section_keeps cancelled prefer (s : sys W) g p :
  Inv s → procs s !! g = Some p →
  match pc_step cancelled prefer p (shared s) with
  | None => True
  | Some (Panic _) => False
  | Some (Return (p', x)) =>
      Inv (mkSys x (<[g := p']> (procs s)) (setup_log s ++ setup_entry p p')
             (teardown_log s ++ teardown_entry p'))
  end.
Proof.
  intros [HE HR] Hg. unfold pc_step. destruct (is_release p) eqn:Ep.
  - pose proof (release_keeps cancelled prefer _ _ _ _ _ HR Hg Ep) as Hk.
    destruct (release_step cancelled prefer p (shared s)) as [[[p' x]|]|]; try done.
    destruct Hk as (HR' & E1 & E2 & E3 & Ho & Hn). split; [|done]. simpl.
    replace (setup_entry p p') with ([] : list (Z * result CNIResult)) by (by destruct p).
    rewrite app_nil_r. eapply InvE_frame; [done..| |by intros ? ? ?%Hn|done|done|done].
    eapply own_lookup; [done|]. by apply halves.
  - pose proof (ensure_keeps cancelled prefer _ _ _ _ _ HE Hg Ep) as Hk.
    destruct (ensure_step cancelled prefer p (shared s)) as [[[p' x]|]|]; try done.
    destruct Hk as (HE' & E1 & E2 & E3 & Ho & Hn). split; [done|]. simpl.
    replace (teardown_entry p') with ([] : list (Z * CleanupResult)) by (by destruct p').
    rewrite app_nil_r. eapply InvR_frame; [done..| |by intros ? ? ?%Hn|done|done|done].
    eapply own_lookup; [done|]. by apply halves.
Qed.

Lemma step_keeps (s s' : sys W) : step s s' → Inv s → Inv s'.
Proof.
  intros Hs HI. destruct Hs as [g p s Hg Hp|g c b p p' x s Hg Hx].
  - destruct HI as [HE HR].
    assert (Ho : ∀ X (f : pc → option X), omap f (procs s) !! g = None) by (intros; by rewrite lookup_omap, Hg).
    split; simpl; [eapply InvE_frame|eapply InvR_frame]; try done; destruct p; done.
  - pose proof (section_keeps c b _ _ _ HI Hg) as Hk. by rewrite Hx in Hk.
Qed.

Lemma reachable_Inv n (s : sys W) : reachable n s → Inv s.
Proof.
  intros Hr. unfold reachable in Hr. remember (initial n) as s0 eqn:E0.
  assert (HI : Inv s0).
  { subst. split; [split|split_and!]; simpl; try (intros *; rewrite lookup_empty; done).
    - rewrite omap_empty, fmap_empty. apply flights_empty.
    - rewrite omap_empty, fmap_empty. apply flights_empty. }
  clear E0. induction Hr as [|s1 s2 s3 Hs _ IH]; [done|]. by apply IH, (step_keeps s1).
Qed.

(** The goroutine is the one that sets up, or tears down, the container. *)
Definition sets_up (id : string) (p : pc) : Prop := ∃ ref ph, ownE p = Some (id, ref, ph).
Definition tears_down (id : string) (p : pc) : Prop := ∃ ref ph, ownR p = Some (id, ref, ph).

Lemma one_worker {X} (errOf : X → option error) f (ps : gmap Z pc) tbl h n L g1 g2 p1 p2 id :
  flights_ok errOf (omap f ps) tbl h n L → ps !! g1 = Some p1 → ps !! g2 = Some p2 →
  (∃ ref ph, f p1 = Some (id, ref, ph)) → (∃ ref ph, f p2 = Some (id, ref, ph)) → g1 = g2.
Proof.
  intros Hf H1 H2 (r1 & ph1 & E1) (r2 & ph2 & E2).
  pose proof (own_lookup f ps g1 p1 _ H1 E1) as O1. pose proof (own_lookup f ps g2 p2 _ H2 E2) as O2.
  pose proof (fo_tbl _ _ _ _ _ _ Hf _ _ _ _ O1). pose proof (fo_tbl _ _ _ _ _ _ Hf _ _ _ _ O2). simplify_eq.
  by eapply (fo_one _ _ _ _ _ _ Hf).
Qed.

(** C32: in every interleaving of concurrent set-ups and teardowns, no call
    panics (no tracker is closed twice, no waiter finds a tracker without an
    outcome), at most one goroutine sets a container up and at most one tears it
    down at a time, and a tracker stands for a single set-up or teardown. *)
Theorem single_flight n (s : sys W) :
  reachable n s →
  (∀ g p cancelled prefer msg, procs s !! g = Some p →
     pc_step cancelled prefer p (shared s) ≠ Some (Panic msg)) ∧
  (∀ g1 g2 p1 p2 id, procs s !! g1 = Some p1 → procs s !! g2 = Some p2 →
     (sets_up id p1 ∧ sets_up id p2) ∨ (tears_down id p1 ∧ tears_down id p2) → g1 = g2) ∧
  NoDup (setup_log s).*1 ∧ NoDup (teardown_log s).*1.
Proof.
  intros Hr%reachable_Inv. split_and!.
  - intros g p c b msg Hg E. pose proof (section_keeps c b s g p Hr Hg) as Hk. by rewrite E in Hk.
  - intros g1 g2 p1 p2 id H1 H2 Hw. destruct Hr as [[HE _] [HR _]].
    destruct Hw as [[? ?]|[? ?]]; [eapply one_worker; [exact HE|..]|eapply one_worker; [exact HR|..]]; done.
  - destruct Hr as [[HE _] _]. by destruct (fo_log _ _ _ _ _ _ HE).
  - destruct Hr as [_ [HR _]]. by destruct (fo_log _ _ _ _ _ _ HR).
Qed.

(** What a caller finds when its set-up has an outcome. *)
Definition answer (env : Environment) (x : result CNIResult) : pc :=
  match x with
  | Ok r => Done (updateEnvironment env r) None
  | Err e => Done env (Some e)
  end.

(** C33: a call that waits for another's set-up either returns the outcome of the
    one set-up that ran for its tracker, or the error of its context; while it
    can do neither, the goroutine that sets the container up is still there and
    can go on. *)
Theorem waiter_served n (s : sys W) g env ref :
  reachable n s → procs s !! g = Some (EWait env ref) →
  ∀ cancelled prefer,
    match pc_step cancelled prefer (EWait env ref) (shared s) with
    | Some (Return (p', x)) =>
        x = shared s ∧
        ((∃ y, (ref, y) ∈ setup_log s ∧ p' = answer env y) ∨
         (cancelled = true ∧ p' = Done env (Some (ErrSentinel ErrCanceled))))
    | Some (Panic _) => False
    | None => cancelled = false ∧
        ∃ g' p' id ph, procs s !! g' = Some p' ∧ ownE p' = Some (id, ref, ph) ∧
          is_Some (pc_step cancelled prefer p' (shared s))
    end.
Proof.
  intros Hr Hg c b. apply reachable_Inv in Hr as [HE _]. destruct (proj2 HE _ _ _ Hg) as [f Hs].
  unfold pc_step at 1. simpl. rewrite Hs. destruct (bool_decide (sf_done f = ClosedChan)) eqn:Ed.
  - apply bool_decide_eq_true in Ed. destruct (closed_outcome _ _ _ _ _ HE Hs Ed) as (y & Hy & Hl).
    unfold viewE in Hy. simpl in Hy. destruct (b || negb c) eqn:Eb; simpl.
    + destruct (sf_err f), (sf_result f); simplify_eq; eauto 6.
    + destruct b, c; try done. auto.
  - apply bool_decide_eq_false in Ed. simpl. destruct c; [by auto|]. split; [done|].
    assert (Hv : (viewE <$> setups (mgr (shared s))) !! ref = Some (viewE f)) by (by rewrite lookup_fmap, Hs).
    destruct HE as [Hf _]. apply (fo_h _ _ _ _ _ _ Hf) in Hv as [_ [(_ & g' & id & ph & Ho)|[? _]]]; [|done].
    rewrite lookup_omap in Ho. destruct (procs s !! g') as [p'|] eqn:Eg; [|done]. simpl in Ho.
    exists g', p', id, ph. split_and!; [done|done|]. destruct p'; done.
Qed.

(** The steps of the goroutines of a schedule, contexts never done. *)
Fixpoint run_schedule (gs : list Z) (s : sys W) : option (sys W) :=
  match gs with
  | [] => Some s
  | g :: gs' =>
      match procs s !! g with
      | None => None
      | Some p =>
          match pc_step false true p (shared s) with
          | Some (Return (p', x)) =>
              run_schedule gs' (mkSys x (<[g := p']> (procs s)) (setup_log s ++ setup_entry p p')
                                  (teardown_log s ++ teardown_entry p'))
          | _ => None
          end
      end
  end.

Lemma run_schedule_steps gs s s' : run_schedule gs s = Some s' → rtc step s s'.
Proof.
  revert s. induction gs as [|g gs IH]; intros s Hr; simpl in Hr; [by simplify_eq|].
  destruct (procs s !! g) as [p|] eqn:Eg; [|done].
  destruct (pc_step false true p (shared s)) as [[[p' x]|]|] eqn:Ep; try done.
  eapply rtc_l; [by eapply step_run|]. by apply IH.
Qed.

Lemma calls_reachable n p1 p2 :
  is_start p1 = true → is_start p2 = true →
  reachable n (mkSys (W:=W) (mkState empty_manager n) (<[2 := p2]> (<[1 := p1]> ∅)) [] []).
Proof.
  intros H1 H2. eapply rtc_l; [by apply (step_call 1 p1)|]. eapply rtc_l; [by apply (step_call 2 p2)|]. done.
Qed.

End concurrent.

(** ** A host with one network *)

Module NetDemo.

Import NetHost.

Definition env1 : Environment := mkEnv "c1" None.
Definition both : sys host :=
  mkSys (mkState empty_manager n0) (<[2 := EStart env1]> (<[1 := EStart env1]> ∅)) [] [].
Definition after (gs : list Z) : sys host := default both (run_schedule gs both).
(** The second call waits for the first. *)
Definition waiting : sys host := after [1; 1; 2; 2].
(** The second call looked at the cache before the first, and at the table
    after it. *)
Definition stale : sys host := after [1; 2; 1; 1; 1; 1; 1; 1; 2; 2; 2; 2].

Lemma after_reachable gs : is_Some (run_schedule gs both) → reachable n0 (after gs).
Proof.
  intros [s Hs]. unfold after. rewrite Hs. simpl.
  eapply (transitivity (R := rtc step)); [by apply (calls_reachable n0 (EStart env1) (EStart env1))|].
  by eapply run_schedule_steps.
Qed.

Lemma single_flight_witness :
  procs waiting !! 2 = Some (EWait env1 0) ∧ NoDup (setup_log waiting).*1.
Proof.
  split; [vm_compute; reflexivity|]. apply (single_flight n0 waiting).
  apply after_reachable. eexists. vm_compute. reflexivity.
Defined.

Lemma waiter_served_witness :
  pc_step false true (EWait env1 0) (shared waiting) = None ∧
  ∃ g' p' id ph, procs waiting !! g' = Some p' ∧ ownE p' = Some (id, 0, ph) ∧
    is_Some (pc_step false true p' (shared waiting)).
Proof.
  assert (E : pc_step false true (EWait env1 0) (shared waiting) = None) by (vm_compute; reflexivity).
  assert (Hr : reachable n0 waiting) by (apply after_reachable; eexists; vm_compute; reflexivity).
  assert (Hg : procs waiting !! 2 = Some (EWait env1 0)) by (vm_compute; reflexivity).
  pose proof (waiter_served n0 waiting 2 env1 0 Hr Hg false true) as Hw. rewrite E in Hw.
  exact (conj E (proj2 Hw)).
Defined.


End NetDemo.
