(* ===== verification/Bundle.v ===== *)
(** * Bundles: from the host to the guest

    Models internal/shim/bundle/bundle.go and internal/shim/transform/bundle.go
    (module [Bundle]), which make the bundle of a VM out of the bundle of a
    container, and internal/guest/services/bundle.go (module [GuestBundle]),
    which writes its files into the guest.  [GuestFS] is the part of the guest's
    file system that this needs: paths with directories and files, where any
    system call may fail, also half-way.  Decoding and encoding of JSON, the
    files of the host and the list of capabilities are parameters. *)

From S2P Require Import Prelude GoStrings Resources MountUtil ShimTask.
From stdpp Require Import sorting.
From Stdlib Require Import Ascii.

(** ** The file system of the guest *)

Module GuestFS.
Local Open Scope m_scope.

Inductive node := DirNode | FileNode (data : string).

#[global] Instance node_eq_dec : EqDecision node.
Proof. solve_decision. Defined.

(** A failure of a system call: its error, whether [WriteFile] had opened the
    file and how many bytes it had written, and what [RemoveAll] had removed. *)
Record fault := mkFault { f_err : error; f_opened : bool; f_bytes : nat; f_removed : string → bool }.

(** [faults] tells for the system calls to come whether they fail; a call
    beyond the list does not.  [unremoved] records the paths on which
    [RemoveAll] failed. *)
Record disk := mkDisk { nodes : gmap string node; faults : list (option fault); unremoved : list string }.

Definition set_nodes (n : gmap string node) (w : disk) : disk := mkDisk n (faults w) (unremoved w).

Definition next_fault : M disk (option fault) :=
  m_state (λ w, match faults w with
                | [] => (None, w)
                | f :: fs => (f, mkDisk (nodes w) fs (unremoved w))
                end).

Definition path_error (op path what : string) : error := ErrNew (op +:+ " " +:+ path +:+ ": " +:+ what).

(** Why [path] cannot be made a new entry of its directory. *)
Definition no_parent (n : gmap string node) (op path : string) : option error :=
  match n !! filepath_Dir path with
  | Some DirNode => None
  | Some (FileNode _) => Some (path_error op path "not a directory")
  | None => Some (path_error op path "no such file or directory")
  end.

Definition os_Mkdir (path : string) : M disk (option error) :=
  f ← next_fault;
  n ← m_get nodes;
  match f with
  | Some f => m_ret (Some (f_err f))
  | None =>
      match n !! path, no_parent n "mkdir" path with
      | Some _, _ => m_ret (Some (path_error "mkdir" path "file exists"))
      | None, Some e => m_ret (Some e)
      | None, None => m_modify (set_nodes (<[path := DirNode]> n)) ≫= λ _, m_ret None
      end
  end.

Definition write_error (n : gmap string node) (path : string) : option error :=
  match n !! path with
  | Some DirNode => Some (path_error "open" path "is a directory")
  | Some (FileNode _) => None
  | None => no_parent n "open" path
  end.

Definition os_WriteFile (path data : string) : M disk (option error) :=
  f ← next_fault;
  n ← m_get nodes;
  match write_error n path, f with
  | Some e, None => m_ret (Some e)
  | Some _, Some f => m_ret (Some (f_err f))
  | None, Some f =>
      (if f_opened f then m_modify (set_nodes (<[path := FileNode (str_take (f_bytes f) data)]> n))
       else m_ret tt) ≫= λ _, m_ret (Some (f_err f))
  | None, None => m_modify (set_nodes (<[path := FileNode data]> n)) ≫= λ _, m_ret None
  end.

(** [path] and what is below it. *)
Definition under (path q : string) : bool := String.eqb q path || HasPrefix q (path +:+ "/").

Definition os_RemoveAll (path : string) : M disk (option error) :=
  f ← next_fault;
  n ← m_get nodes;
  match f with
  | None => m_modify (set_nodes (filter (λ '(q, _), under path q = false) n)) ≫= λ _, m_ret None
  | Some f =>
      m_modify (λ w, mkDisk (filter (λ '(q, _), under path q && f_removed f q = false) n) (faults w)
                       (unremoved w ++ [path])) ≫= λ _, m_ret (Some (f_err f))
  end.

Definition entry_le (a b : string * bool) : Prop := String.leb (fst a) (fst b) = true.
#[global] Instance entry_le_dec a b : Decision (entry_le a b).
Proof. unfold entry_le. apply _. Defined.

(** The entries of a directory with their kind, by name. *)
Definition entries (path : string) (n : gmap string node) : list (string * bool) :=
  merge_sort entry_le
    (omap (λ '(q, x),
       match CutPrefix q (path +:+ "/") with
       | Some e => if Contains e "/" || String.eqb e "" then None
                   else Some (e, match x with DirNode => true | FileNode _ => false end)
       | None => None
       end) (map_to_list n)).

Definition os_ReadDir (path : string) : M disk (result (list (string * bool))) :=
  f ← next_fault;
  n ← m_get nodes;
  m_ret (match f, n !! path with
         | Some f, _ => Err (f_err f)
         | None, Some DirNode => Ok (entries path n)
         | None, Some (FileNode _) => Err (path_error "open" path "not a directory")
         | None, None => Err (path_error "open" path "no such file or directory")
         end).

(** [os.Stat], of which only the error is used. *)
Definition os_Stat (path : string) : M disk (option error) :=
  f ← next_fault;
  n ← m_get nodes;
  m_ret (match f, n !! path with
         | Some f, _ => Some (f_err f)
         | None, Some _ => None
         | None, None => Some (path_error "stat" path "no such file or directory")
         end).

End GuestFS.

(** ** The bundle service of the guest *)

Module GuestBundle.
Import GuestFS MountUtil (fmt_q).
Local Open Scope m_scope.

Definition RootDir : string := "/run/bundles".
Definition rootfsDir : string := "rootfs".

(** An error of kind [InvalidArgument] with a text. *)
Definition invalid (msg : string) : error := ErrWrap msg (ErrSentinel ErrInvalidArgument).

Definition bad_id (id : string) : option error :=
  if String.eqb id "" then Some (invalid "bundle ID cannot be empty")
  else if Contains id ".." || Contains id "/" then Some (invalid ("invalid bundle ID: " +:+ fmt_q id))
  else None.

Definition bad_filename (f : string) : option error :=
  if String.eqb f "" then Some (invalid "empty filename in bundle files")
  else if IsAbs f then Some (invalid ("absolute path not allowed in bundle: " +:+ fmt_q f))
  else if ContainsAny f "/\" then Some (invalid ("path separators not allowed in bundle filename: " +:+ fmt_q f))
  else if String.eqb f ".." || String.eqb f "." then Some (invalid ("invalid bundle filename: " +:+ fmt_q f))
  else None.

Fixpoint first_bad (l : list (string * string)) : option error :=
  match l with
  | [] => None
  | (f, _) :: l' => match bad_filename f with Some e => Some e | None => first_bad l' end
  end.

Fixpoint write_files (d : string) (l : list (string * string)) : M disk (option error) :=
  match l with
  | [] => m_ret None
  | (f, b) :: l' =>
      e ← os_WriteFile (filepath_Join [d; f]) b;
      match e with Some e => m_ret (Some e) | None => write_files d l' end
  end.

(** The part of [Create] after the deferred removal is set up. *)
Definition fill (d : string) (l : list (string * string)) : M disk (option error) :=
  e ← os_Mkdir (filepath_Join [d; rootfsDir]);
  match e with Some e => m_ret (Some e) | None => write_files d l end.

(** The files are checked in one order and written in another. *)
Definition Create (checked written : MapOrder) (bundleRoot id : string) (files : gmap string string)
    : M disk (result string) :=
  match bad_id id with
  | Some e => m_ret (Err e)
  | None =>
      let d := filepath_Join [bundleRoot; id] in
      match first_bad (@map_order checked (map_to_list files)) with
      | Some e => m_ret (Err e)
      | None =>
          e ← os_Mkdir d;
          match e with
          | Some e => m_ret (Err e)
          | None =>
              r ← fill d (@map_order written (map_to_list files));
              match r with
              | Some e => os_RemoveAll d ≫= λ _, m_ret (Err e)
              | None => m_ret (Ok d)
              end
          end
      end
  end.

End GuestBundle.

(** ** The host: bundle.go and transform/bundle.go *)

Module Bundle.
Import MountUtil (fmt_q).

(** The fields of an OCI spec that are read or written; the others are kept in
    the [rest] of each struct. *)
Record Mount := mkMount
  { Destination : string; Type_ : string; Source : string; Options : list string; m_rest : string }.
Record LinuxNamespace := mkNS { ns_Type : string; ns_Path : string }.
Record Linux := mkLinux
  { Namespaces : list LinuxNamespace; ReadonlyPaths : list string; MaskedPaths : list string;
    l_Resources : option Resources.LinuxResources; l_rest : string }.
Record LinuxCapabilities := mkCaps
  { Bounding : list string; Effective : list string; Permitted : list string;
    Inheritable : list string; Ambient : list string }.
Record Process := mkProcess { Capabilities : option LinuxCapabilities; p_rest : string }.
Record Root := mkRoot { Path : string; root_rest : string }.
Record Spec := mkSpec
  { spec_Root : option Root; Mounts : list Mount; spec_Linux : option Linux; spec_Process : option Process;
    Annotations : gmap string string; s_rest : string }.

Record Bundle := mkBundle
  { b_Path : string; b_Spec : Spec; Rootfs : string; extraFiles : gmap string string }.

Definition set_mounts (ms : list Mount) (s : Spec) : Spec :=
  mkSpec (spec_Root s) ms (spec_Linux s) (spec_Process s) (Annotations s) (s_rest s).
Definition set_spec (s : Spec) (b : Bundle) : Bundle := mkBundle (b_Path b) s (Rootfs b) (extraFiles b).
Definition set_source (src : string) (m : Mount) : Mount :=
  mkMount (Destination m) (Type_ m) src (Options m) (m_rest m).

(** A transformer, which may leave the bundle changed when it fails; the caller
    drops it then. *)
Definition Transformer : Type := Bundle → result Bundle.

Definition AddExtraFile (name data : string) (b : Bundle) : result Bundle :=
  let cleaned := Clean name in
  if String.eqb name "" then Err (ErrNew "file name cannot be empty")
  else if String.eqb name "config.json" then Err (ErrNew "cannot override config.json")
  else if negb (String.eqb cleaned name) || negb (String.eqb (filepath_Base name) name) ||
          String.eqb cleaned ".." || String.eqb cleaned "." then
    Err (ErrNew ("file name " +:+ fmt_q name +:+
                 " must not contain path separators or relative components"))
  else Ok (mkBundle (b_Path b) (b_Spec b) (Rootfs b) (<[name := data]> (extraFiles b))).

Definition resolveRootfsPath : Transformer := λ b,
  let s := b_Spec b in
  match spec_Root s with
  | None => Err (ErrWrap "root path not specified" (ErrSentinel ErrInvalidArgument))
  | Some r =>
      Ok (mkBundle (b_Path b)
            (mkSpec (Some (mkRoot "rootfs" (root_rest r))) (Mounts s) (spec_Linux s) (spec_Process s)
               (Annotations s) (s_rest s))
            (if IsAbs (Path r) then Path r else filepath_Join [b_Path b; Path r])
            (extraFiles b))
  end.

(** What the code takes from elsewhere: the host's files, [encoding/json] and
    the capabilities known to libcontainer. *)
Class BundleEnv := {
  os_ReadFile : string → result string;
  json_Unmarshal : string → result Spec;
  json_Marshal : Spec → result string;
  KnownCapabilities : list string }.

Section bundle.
Context `{BundleEnv}.

Fixpoint run_transformers (ts : list Transformer) (b : Bundle) : result Bundle :=
  match ts with
  | [] => Ok b
  | t :: ts' => match t b with
                | Err e => Err (ErrWrap "transformer failed" e)
                | Ok b' => run_transformers ts' b'
                end
  end.

Definition Load (path : string) (transformers : list Transformer) : result Bundle :=
  if String.eqb path "" then Err (ErrNew "bundle path cannot be empty")
  else
    match os_ReadFile (filepath_Join [path; "config.json"]) with
    | Err e => Err (ErrWrap "failed to read bundle config" e)
    | Ok specBytes =>
        match json_Unmarshal specBytes with
        | Err e => Err (ErrWrap "failed to parse bundle spec" e)
        | Ok spec =>
            match resolveRootfsPath (mkBundle path spec "" ∅) with
            | Err e => Err (ErrWrap "failed to resolve rootfs path" e)
            | Ok b => run_transformers transformers b
            end
        end
    end.

Definition Files (b : Bundle) : result (gmap string string) :=
  match json_Marshal (b_Spec b) with
  | Err e => Err (ErrWrap "failed to marshal spec" e)
  | Ok specBytes => Ok (<["config.json" := specBytes]> (extraFiles b))
  end.

(** A bind mount of a file next to the spec, by the name of its directory. *)
Definition in_bundle (path : string) (m : Mount) : bool :=
  String.eqb (Type_ m) "bind" &&
  String.eqb (filepath_Base (filepath_Dir (Source m))) (filepath_Base path).

(** The loop of [TransformBindMounts] over the mounts from the [i]-th on. *)
Fixpoint bind_from (ms : list Mount) (i : nat) (b : Bundle) : result Bundle :=
  match ms with
  | [] => Ok b
  | m :: ms' =>
      if in_bundle (b_Path b) m then
        let filename := filepath_Base (Source m) in
        match os_ReadFile (Source m) with
        | Err e => Err (ErrWrap ("failed to read mount file " +:+ fmt_q filename) e)
        | Ok buf =>
            let s := b_Spec b in
            let b1 := set_spec (set_mounts (alter (set_source filename) i (Mounts s)) s) b in
            match AddExtraFile filename buf b1 with
            | Err e => Err (ErrWrap ("failed to add extra file " +:+ fmt_q filename) e)
            | Ok b2 => bind_from ms' (S i) b2
            end
        end
      else bind_from ms' (S i) b
  end.

Definition TransformBindMounts : Transformer := λ b, bind_from (Mounts (b_Spec b)) 0 b.

Definition vm_namespace (ns : LinuxNamespace) : Prop := ns_Type ns ≠ "network" ∧ ns_Type ns ≠ "cgroup".
#[global] Instance vm_namespace_dec ns : Decision (vm_namespace ns).
Proof. unfold vm_namespace. apply _. Defined.

Fixpoint replace_ro (opts : list string) : list string :=
  match opts with
  | [] => []
  | opt :: opts' => (if String.eqb opt "ro" then "rw" else opt) :: replace_ro opts'
  end.
Definition ensureRW (opts : list string) : list string :=
  let hasRW := existsb (λ opt, String.eqb opt "ro" || String.eqb opt "rw") opts in
  replace_ro opts ++ (if negb hasRW then ["rw"] else []).

Definition cgroup_mount (m : Mount) : Mount :=
  mkMount (Destination m) "cgroup2" "cgroup2" (ensureRW (Options m)) (m_rest m).

(** The first mount on /sys/fs/cgroup is changed, or one is appended. *)
Fixpoint ensure_cgroup (ms : list Mount) : list Mount :=
  match ms with
  | [] => [mkMount "/sys/fs/cgroup" "cgroup2" "cgroup2" ["nosuid"; "noexec"; "nodev"; "rw"] ""]
  | m :: ms' => if String.eqb (Destination m) "/sys/fs/cgroup" then cgroup_mount m :: ms'
                else m :: ensure_cgroup ms'
  end.

Definition all_caps : LinuxCapabilities :=
  mkCaps KnownCapabilities KnownCapabilities KnownCapabilities KnownCapabilities KnownCapabilities.

Definition adapt_spec (s : Spec) : Spec :=
  mkSpec (spec_Root s) (ensure_cgroup (Mounts s))
    ((λ l, mkLinux (filter vm_namespace (Namespaces l)) [] [] (l_Resources l) (l_rest l)) <$> spec_Linux s)
    ((λ p, mkProcess (Some all_caps) (p_rest p)) <$> spec_Process s)
    (Annotations s) (s_rest s).

Definition AdaptForVM : Transformer := λ b, Ok (set_spec (adapt_spec (b_Spec b)) b).

Definition LoadForCreate (bundlePath : string) : result Bundle :=
  Load bundlePath [TransformBindMounts; AdaptForVM].

End bundle.

(** What the task service of the shim reads of a bundle. *)
Definition task_bundle (b : Bundle) : ShimTask.Bundle :=
  ShimTask.mkBundle (spec_Linux (b_Spec b) ≫= l_Resources) (Annotations (b_Spec b)) (extraFiles b).

End Bundle.

(** ** What the service of the guest leaves behind *)

Section guest_lemmas.
Import GuestFS GuestBundle.

(** Everything in a directory is below a directory. *)
Definition nested (n : gmap string node) : Prop :=
  ∀ p q, is_Some (n !! (p +:+ "/" +:+ q)) → p = "" ∨ n !! p = Some DirNode.

Definition same_outside (d : string) (n n' : gmap string node) : Prop :=
  ∀ q, under d q = false → n' !! q = n !! q.

(** The files [l] of directory [d]. *)
Definition files_at (d : string) (l : list (string * string)) : gmap string node :=
  list_to_map ((λ '(f, b), (d +:+ "/" +:+ f, FileNode b)) <$> l).

Lemma under_child d f : under d (d +:+ "/" +:+ f) = true.
Proof. unfold under. rewrite <-append_assoc, HasPrefix_app. apply orb_true_r. Qed.
Lemma under_refl d : under d d = true.
Proof. unfold under. by rewrite String.eqb_refl. Qed.

Lemma fresh_under n d q : nested n → d ≠ "" → n !! d = None → under d q = true → n !! q = None.
Proof.
  intros Hn Hd Hf Hu. unfold under in Hu. destruct (String.eqb_spec q d) as [->|_]; [done|].
  simpl in Hu. apply HasPrefix_spec in Hu as [r ->]. rewrite append_assoc.
  destruct (n !! (d +:+ "/" +:+ r)) eqn:E; [|done].
  destruct (Hn d r) as [?|?]; [by rewrite E|done|congruence].
Qed.

Lemma same_outside_refl d n : same_outside d n n.
Proof. by intros q _. Qed.
Lemma same_outside_trans d n1 n2 n3 : same_outside d n1 n2 → same_outside d n2 n3 → same_outside d n1 n3.
Proof. intros H1 H2 q Hq. by rewrite H2, H1. Qed.
Lemma same_outside_insert d n q x : under d q = true → same_outside d n (<[q := x]> n).
Proof. intros Hu q' Hq. rewrite lookup_insert_ne; [done|]. congruence. Qed.

(** *** System calls *)

Lemma wp_next_fault (Q : option fault → disk → Prop) w :
  (∀ f fs, Q f (mkDisk (nodes w) fs (unremoved w))) → wp next_fault Q w.
Proof. intros HQ. unfold wp, next_fault, m_state. destruct w as [n [|f fs] u]; apply HQ. Qed.

Lemma wp_Mkdir path (Q : option error → disk → Prop) w :
  (∀ e fs, Q (Some e) (mkDisk (nodes w) fs (unremoved w))) →
  (nodes w !! path = None → ∀ fs, Q None (mkDisk (<[path := DirNode]> (nodes w)) fs (unremoved w))) →
  wp (os_Mkdir path) Q w.
Proof.
  intros He Hk. apply wp_bind, wp_next_fault. intros f fs. apply wp_bind, wp_get. simpl.
  destruct f as [f|]; [apply wp_ret, He|]. destruct (nodes w !! path) eqn:Ep; [apply wp_ret, He|].
  destruct (no_parent _ _ _); [apply wp_ret, He|]. apply wp_bind, wp_modify, wp_ret. by apply Hk.
Qed.

Lemma wp_WriteFile path data (Q : option error → disk → Prop) w :
  (∀ e fs n', n' = nodes w ∨ (∃ x, n' = <[path := FileNode x]> (nodes w)) → Q (Some e) (mkDisk n' fs (unremoved w))) →
  (nodes w !! path ≠ Some DirNode →
   ∀ fs, Q None (mkDisk (<[path := FileNode data]> (nodes w)) fs (unremoved w))) →
  wp (os_WriteFile path data) Q w.
Proof.
  intros He Hk. apply wp_bind, wp_next_fault. intros f fs. apply wp_bind, wp_get. simpl.
  destruct (write_error _ _) as [e|] eqn:Ew.
  - destruct f; apply wp_ret, He; by left.
  - destruct f as [f|].
    + apply wp_bind. destruct (f_opened f); [apply wp_modify|apply wp_ret]; apply wp_ret, He; [right|left]; eauto.
    + apply wp_bind, wp_modify, wp_ret. apply Hk. intros Hd. unfold write_error in Ew. by rewrite Hd in Ew.
Qed.

Lemma wp_RemoveAll path (Q : option error → disk → Prop) w :
  (∀ fs, Q None (mkDisk (filter (λ '(q, _), under path q = false) (nodes w)) fs (unremoved w))) →
  (∀ e fs n', same_outside path (nodes w) n' → Q (Some e) (mkDisk n' fs (unremoved w ++ [path]))) →
  wp (os_RemoveAll path) Q w.
Proof.
  intros Hk He. apply wp_bind, wp_next_fault. intros f fs. apply wp_bind, wp_get. simpl.
  destruct f as [f|]; apply wp_bind, wp_modify, wp_ret; [|apply Hk].
  simpl. apply He. intros q Hq. destruct (nodes w !! q) as [x|] eqn:Eq.
  - apply map_lookup_filter_Some. by rewrite Hq.
  - apply map_lookup_filter_None. by left.
Qed.

Lemma no_parent_None n op path : n !! filepath_Dir path = Some DirNode → no_parent n op path = None.
Proof. intros Hd. unfold no_parent. by rewrite Hd. Qed.

(** *** Names *)

Lemma ContainsAny_no_slash f : ContainsAny f "/\" = false → str_all (not_char "/") f = true.
Proof.
  induction f as [|a f IH]; [done|]. cbn [ContainsAny string_elem str_all]. unfold not_char at 1.
  destruct (Ascii.eqb a "/"); [done|]. intros [_ Hf]%orb_false_iff. by rewrite IH.
Qed.

Lemma bad_filename_None f : bad_filename f = None → normal_elem f.
Proof.
  unfold bad_filename. destruct (String.eqb_spec f ""); [done|]. destruct (IsAbs f); [done|].
  destruct (ContainsAny f _) eqn:Ec; [done|]. destruct (String.eqb_spec f ".."); [done|].
  destruct (String.eqb_spec f "."); [done|]. intros _. split_and!; [done..|by apply ContainsAny_no_slash].
Qed.

Lemma first_bad_None l : first_bad l = None ↔ ∀ f b, (f, b) ∈ l → bad_filename f = None.
Proof.
  induction l as [|[f b] l IH]; simpl.
  - split; [|done]. intros _ f b. by rewrite elem_of_nil.
  - destruct (bad_filename f) eqn:E.
    + split; [done|]. intros Hl. rewrite (Hl f b) in E; [done|by left].
    + rewrite IH. split.
      * intros Hl f' b' [[= -> ->]|?]%elem_of_cons; eauto.
      * intros Hl f' b' ?. apply (Hl f' b'). by right.
Qed.

Lemma Contains_slash_none id : Contains id "/" = false → str_all (not_char "/") id = true.
Proof.
  induction id as [|a s IH]; [done|]. cbn [Contains HasPrefix str_all]. unfold not_char at 1.
  rewrite (Ascii.eqb_sym "/" a). destruct (Ascii.eqb a "/"); [by destruct s|]. simpl. apply IH.
Qed.

Lemma bad_id_None id : bad_id id = None → id = "." ∨ normal_elem id.
Proof.
  unfold bad_id. destruct (String.eqb_spec id ""); [done|]. destruct (_ || _) eqn:Ec; [done|]. intros _.
  apply orb_false_iff in Ec as [Ed Es]. destruct (decide (id = ".")) as [->|Hd]; [by left|right].
  split_and!; [done|done|intros ->; done|by apply Contains_slash_none].
Qed.

(** *** The service *)

Lemma files_at_lookup_None d l f : f ∉ l.*1 → files_at d l !! (d +:+ "/" +:+ f) = None.
Proof.
  intros Hf. apply not_elem_of_list_to_map. rewrite <-list_fmap_compose. intros ([f' b] & Heq & Hin)%list_elem_of_fmap.
  simpl in Heq. rewrite <-!append_assoc in Heq. apply append_inj_l in Heq as ->.
  apply Hf, list_elem_of_fmap. by exists (f', b).
Qed.

Lemma write_files_wp d l w :
  abs_clean d → NoDup l.*1 → Forall normal_elem l.*1 →
  wp (write_files d l) (λ r w',
    unremoved w' = unremoved w ∧ same_outside d (nodes w) (nodes w') ∧
    (r = None → nodes w' = files_at d l ∪ nodes w ∧
       ∀ f, f ∈ l.*1 → nodes w !! (d +:+ "/" +:+ f) ≠ Some DirNode)) w.
Proof.
  intros Hd. revert w. induction l as [|[f b] l IH]; intros w Hnd Hno; simpl.
  - apply wp_ret. split_and!; [done|apply same_outside_refl|]. intros _. split; [unfold files_at; simpl; by rewrite map_empty_union|].
    intros f. by rewrite elem_of_nil.
  - apply NoDup_cons in Hnd as [Hf Hnd]. apply Forall_cons in Hno as [Hfn Hno].
    rewrite filepath_Join_clean by done. apply wp_bind, wp_WriteFile.
    + intros e fs n' Hn'. apply wp_ret. split_and!; [done| |done]. simpl.
      destruct Hn' as [->|[x ->]]; [apply same_outside_refl|apply same_outside_insert, under_child].
    + intros Hk fs. eapply wp_mono; [apply IH; done|]. simpl. intros r w' (Hu & Ho & Hr).
      split_and!; [done| |].
      * eapply same_outside_trans; [|done]. apply same_outside_insert, under_child.
      * intros ->. destruct Hr as [-> Hdirs]; [done|]. split.
        -- unfold files_at. simpl. rewrite <-insert_union_l. fold (files_at d l).
           rewrite insert_union_r; [done|]. by apply files_at_lookup_None.
        -- intros f' [->|Hf']%elem_of_cons; [done|]. specialize (Hdirs f' Hf').
           intros Heq. apply Hdirs. rewrite lookup_insert_ne; [done|].
           intros E. rewrite <-!append_assoc in E. apply append_inj_l in E as ->. done.
Qed.

(** The bundle directory that is wanted. *)
Definition bundle_at (d : string) (files : gmap string string) (n : gmap string node) : Prop :=
  n !! d = Some DirNode ∧ n !! (d +:+ "/" +:+ rootfsDir) = Some DirNode ∧
  (∀ f b, files !! f = Some b → n !! (d +:+ "/" +:+ f) = Some (FileNode b)) ∧
  ∀ q x, n !! q = Some x → under d q = true →
    q = d ∨ q = d +:+ "/" +:+ rootfsDir ∨ ∃ f, is_Some (files !! f) ∧ q = d +:+ "/" +:+ f.

Lemma rootfs_normal : normal_elem rootfsDir.
Proof. by vm_compute. Qed.

Lemma child_ne d f : d +:+ "/" +:+ f ≠ d.
Proof.
  intros E. apply (f_equal String.length) in E. rewrite !append_length in E. simpl in E. lia.
Qed.

Lemma files_at_lookup d (files : gmap string string) l :
  l ≡ₚ map_to_list files →
  ∀ f b, files !! f = Some b → files_at d l !! (d +:+ "/" +:+ f) = Some (FileNode b).
Proof.
  intros Hp f b Hf. apply elem_of_list_to_map.
  - rewrite <-list_fmap_compose.
    assert (NoDup (fst <$> l)) as Hnd by (rewrite Hp; apply NoDup_fst_map_to_list).
    replace ((fst ∘ (λ '(f0, b0), (d +:+ "/" +:+ f0, FileNode b0))) <$> l)
      with ((λ f0, d +:+ "/" +:+ f0) <$> (fst <$> l)).
    + apply NoDup_fmap; [|done]. intros x y. rewrite <-!append_assoc. apply append_inj_l.
    + rewrite <-list_fmap_compose. apply list_fmap_ext. by intros _ [f0 b0] _.
  - apply list_elem_of_fmap. exists (f, b). split; [done|]. rewrite Hp. by apply elem_of_map_to_list.
Qed.

Lemma files_at_elem d (files : gmap string string) l q x :
  l ≡ₚ map_to_list files → files_at d l !! q = Some x →
  ∃ f b, files !! f = Some b ∧ q = d +:+ "/" +:+ f.
Proof.
  intros Hp Hq. apply elem_of_list_to_map_2, list_elem_of_fmap in Hq as ([f b] & [= -> ->] & Hin).
  exists f, b. split; [|done]. apply elem_of_map_to_list. by rewrite <-Hp.
Qed.

Lemma bundle_at_filled d n (files : gmap string string) l :
  l ≡ₚ map_to_list files → nested n → d ≠ "" → n !! d = None →
  files !! rootfsDir = None →
  bundle_at d files (files_at d l ∪ <[d +:+ "/" +:+ rootfsDir := DirNode]> (<[d := DirNode]> n)).
Proof.
  intros Hp Hn Hd Hf Hr. split_and!.
  - rewrite lookup_union_r; [by rewrite lookup_insert_ne, lookup_insert_eq by apply child_ne|].
    destruct (files_at d l !! d) eqn:E; [|done].
    apply (files_at_elem d files) in E as (f & b & _ & E); [|done]. symmetry in E. by apply child_ne in E.
  - rewrite lookup_union_r; [by rewrite lookup_insert_eq|].
    destruct (files_at d l !! _) eqn:E; [|done].
    apply (files_at_elem d files) in E as (f & b & Hfb & E); [|done].
    rewrite <-!append_assoc in E. apply append_inj_l in E as <-. congruence.
  - intros f b Hfb. apply lookup_union_Some_l. by apply (files_at_lookup d files).
  - intros q x [Hq|[_ Hq]]%lookup_union_Some_raw Hu.
    + apply (files_at_elem d files) in Hq as (f & b & Hfb & ->); [|done]. right. right. by exists f.
    + destruct (decide (q = d +:+ "/" +:+ rootfsDir)) as [->|]; [by right; left|].
      destruct (decide (q = d)) as [->|]; [by left|].
      rewrite !lookup_insert_ne in Hq by done. by rewrite (fresh_under n d q) in Hq.
Qed.

Lemma removed_equal d n n' :
  same_outside d n n' → (∀ q, under d q = true → n !! q = None) →
  filter (λ '(q, _), under d q = false) n' = n.
Proof.
  intros Ho Hf. apply map_eq. intros q. destruct (under d q) eqn:Eu.
  - rewrite Hf by done. apply map_lookup_filter_None. right. intros x _. congruence.
  - rewrite <-(Ho q Eu). destruct (n' !! q) as [x|] eqn:E.
    + apply map_lookup_filter_Some. done.
    + apply map_lookup_filter_None. by left.
Qed.

Lemma fill_wp d l w :
  abs_clean d → NoDup l.*1 → Forall normal_elem l.*1 →
  wp (fill d l) (λ r w',
    unremoved w' = unremoved w ∧ same_outside d (nodes w) (nodes w') ∧
    (r = None → nodes w' = files_at d l ∪ <[d +:+ "/" +:+ rootfsDir := DirNode]> (nodes w) ∧ rootfsDir ∉ l.*1)) w.
Proof.
  intros Hd Hnd Hno. unfold fill. rewrite filepath_Join_clean by (done || apply rootfs_normal).
  apply wp_bind, wp_Mkdir.
  - intros e fs. apply wp_ret. split_and!; [done|apply same_outside_refl|done].
  - intros _ fs. eapply wp_mono; [by apply write_files_wp|]. simpl. intros r w' (Hu & Ho & Hr).
    split_and!; [done| |].
    + eapply same_outside_trans; [|done]. apply same_outside_insert, under_child.
    + intros ->. destruct Hr as [-> Hdirs]; [done|]. split; [done|].
      intros Hin. apply (Hdirs _ Hin). by rewrite lookup_insert_eq.
Qed.

Lemma Create_outcome checked written root id files w :
  abs_clean root → nodes w !! root = Some DirNode → nested (nodes w) →
  ∃ r w', Create checked written root id files w = Return (r, w') ∧
    match r with
    | Ok d => d = root +:+ "/" +:+ id ∧ nodes w !! d = None ∧ bundle_at d files (nodes w') ∧
              same_outside d (nodes w) (nodes w')
    | Err _ => (∃ d, d = filepath_Join [root; id] ∧ same_outside d (nodes w) (nodes w')) ∧
               (unremoved w' = unremoved w → nodes w' = nodes w)
    end.
Proof.
  intros Hroot Hex Hn.
  assert (∀ w' : disk, nodes w' = nodes w → (∃ d, d = filepath_Join [root; id] ∧ same_outside d (nodes w) (nodes w')) ∧
     (unremoved w' = unremoved w → nodes w' = nodes w)) as Hsame.
  { intros w' Hw. split; [|done]. eexists. split; [done|]. rewrite Hw. apply same_outside_refl. }
  apply wp_Return. unfold Create. destruct (bad_id id) eqn:Ei; [by apply wp_ret, Hsame|].
  destruct (first_bad _) eqn:Ef; [by apply wp_ret, Hsame|].
  apply wp_bind, wp_Mkdir; [intros; by apply wp_ret, Hsame|]. intros Hfresh fs.
  apply bad_id_None in Ei as [->|Hid]; [rewrite filepath_Join_dot in Hfresh by done; congruence|].
  rewrite filepath_Join_clean in * by done. set (d := root +:+ "/" +:+ id) in *.
  assert (abs_clean d) as Hd by (by apply abs_clean_child).
  assert (d ≠ "") as Hdne by (destruct Hd as (? & _ & _ & ->); done).
  set (l := @map_order written (map_to_list files)).
  assert (l ≡ₚ map_to_list files) as Hp by apply map_order_perm.
  apply wp_bind. eapply wp_mono; [apply fill_wp; [done| |]|].
  - rewrite Hp. apply NoDup_fst_map_to_list.
  - apply Forall_fmap, Forall_forall. intros [f b] Hfb. apply bad_filename_None.
    eapply first_bad_None; [exact Ef|]. apply map_order_elem. rewrite <-Hp. exact Hfb.
  - intros r w1 (Hu1 & Ho1 & Hr). simpl in *.
    assert (same_outside d (nodes w) (nodes w1)) as Ho.
    { eapply same_outside_trans; [|exact Ho1]. apply same_outside_insert, under_refl. }
    destruct r as [e|].
    + apply wp_bind, wp_RemoveAll.
      * intros fs'. apply wp_ret. apply Hsame. simpl. apply removed_equal; [done|]. intros q.
        by apply fresh_under.
      * intros e' fs' n' Hn'. apply wp_ret. simpl. split.
        -- exists d. split; [done|]. by eapply same_outside_trans.
        -- rewrite Hu1. intros Heq. apply (f_equal length) in Heq. rewrite length_app in Heq. simpl in Heq. lia.
    + apply wp_ret. destruct Hr as [Hw1 Hnr]; [done|]. split_and!; [done|done| |done].
      rewrite Hw1. apply bundle_at_filled; try done. apply eq_None_not_Some. intros [b Hb]. apply Hnr.
      rewrite Hp. apply list_elem_of_fmap. exists (rootfsDir, b). split; [done|]. by apply elem_of_map_to_list.
Qed.

(** C10: creating a bundle in the guest returns, under any failures of the file
    system and in any order of the files.  Either the directory of the bundle did
    not exist and now holds exactly the root directory and the files of the
    request, with their contents, and nothing else changed; or an error is
    returned and the file system is as it was, except that what [RemoveAll]
    could not remove may be left in the directory of the bundle.  No other path
    is ever touched, whatever the names in the request. *)
Theorem bundle_Create_all_or_nothing checked written root id files w :
  abs_clean root → nodes w !! root = Some DirNode → nested (nodes w) →
  ∃ r w', Create checked written root id files w = Return (r, w') ∧
    match r with
    | Ok d => d = root +:+ "/" +:+ id ∧ nodes w !! d = None ∧ bundle_at d files (nodes w') ∧
              same_outside d (nodes w) (nodes w')
    | Err _ => (∃ d, d = filepath_Join [root; id] ∧ same_outside d (nodes w) (nodes w')) ∧
               (unremoved w' = unremoved w → nodes w' = nodes w)
    end.
Proof. apply Create_outcome. Qed.

(** Whatever the request and the state of the file system, only paths under the
    root of the service are touched. *)
Lemma under_mono root id q : under (root +:+ "/" +:+ id) q = true → under root q = true.
Proof.
  unfold under. intros [->%String.eqb_eq|[r ->]%HasPrefix_spec]%orb_true_iff; apply orb_true_iff; right.
  - rewrite <-append_assoc. apply HasPrefix_app.
  - rewrite <-(append_assoc root "/" id), !(append_assoc (root +:+ "/")). apply HasPrefix_app.
Qed.
Lemma same_outside_mono root id n n' : same_outside (root +:+ "/" +:+ id) n n' → same_outside root n n'.
Proof. intros Hs q Hq. apply Hs, not_true_is_false. intros E%under_mono. congruence. Qed.

Lemma Create_touches checked written root id files w :
  abs_clean root →
  wp (Create checked written root id files) (λ _ w', same_outside root (nodes w) (nodes w')) w.
Proof.
  intros Hroot. unfold Create. destruct (bad_id id) eqn:Ei; [apply wp_ret, same_outside_refl|].
  destruct (first_bad _) eqn:Ef; [apply wp_ret, same_outside_refl|]. set (d := filepath_Join _).
  assert (abs_clean d ∧ ∀ n n', same_outside d n n' → same_outside root n n') as [Hd Hmono].
  { subst d. apply bad_id_None in Ei as [->|Hid]; [by rewrite filepath_Join_dot|].
    rewrite filepath_Join_clean by done. split; [by apply abs_clean_child|apply same_outside_mono]. }
  apply wp_bind, wp_Mkdir; [intros; apply wp_ret, same_outside_refl|]. intros _ fs. apply wp_bind.
  eapply wp_mono; [apply fill_wp; [done|rewrite map_order_perm; apply NoDup_fst_map_to_list|]|].
  - apply Forall_fmap, Forall_forall. intros [f b] Hfb. apply bad_filename_None.
    eapply first_bad_None; [exact Ef|]. rewrite map_order_elem. rewrite map_order_elem in Hfb. exact Hfb.
  - intros r w1 (_ & Ho & _). simpl in Ho.
    assert (same_outside d (nodes w) (nodes w1)) as Ho1
      by (eapply same_outside_trans; [|exact Ho]; apply same_outside_insert, under_refl).
    destruct r as [e|]; [|apply wp_ret; by apply Hmono].
    apply wp_bind, wp_RemoveAll; [intros fs'|intros e' fs' n' Hn']; apply wp_ret, Hmono; simpl.
    + eapply same_outside_trans; [exact Ho1|]. intros q Hq. destruct (nodes w1 !! q) as [x|] eqn:E.
      * by apply map_lookup_filter_Some.
      * apply map_lookup_filter_None. by left.
    + by eapply same_outside_trans.
Qed.

(** *** Without failures *)

Definition healthy (w : disk) : Prop := faults w = [].

Lemma Mkdir_healthy path w :
  healthy w → nodes w !! path = None → nodes w !! filepath_Dir path = Some DirNode →
  os_Mkdir path w = Return (None, set_nodes (<[path := DirNode]> (nodes w)) w).
Proof.
  intros Hh Hp Hd. unfold os_Mkdir, m_bind, next_fault, m_state. rewrite Hh. cbn. by rewrite Hp, (no_parent_None _ _ _ Hd).
Qed.

Lemma WriteFile_healthy path data w :
  healthy w → nodes w !! path ≠ Some DirNode → nodes w !! filepath_Dir path = Some DirNode →
  os_WriteFile path data w = Return (None, set_nodes (<[path := FileNode data]> (nodes w)) w).
Proof.
  intros Hh Hp Hd. unfold os_WriteFile, m_bind, next_fault, m_state. rewrite Hh. cbn.
  assert (write_error (nodes w) path = None) as ->; [|done].
  unfold write_error. destruct (nodes w !! path) as [[]|]; [done|done|by apply no_parent_None].
Qed.

Lemma write_files_healthy d l w :
  abs_clean d → Forall normal_elem l.*1 → healthy w → nodes w !! d = Some DirNode →
  (∀ f, f ∈ l.*1 → nodes w !! (d +:+ "/" +:+ f) ≠ Some DirNode) →
  ∃ w', write_files d l w = Return (None, w').
Proof.
  intros Hd. revert w. induction l as [|[f b] l IH]; intros w Hno Hh Hdir Hnd; [by eexists|].
  apply Forall_cons in Hno as [Hf Hno]. simpl in Hnd. cbn [write_files]. rewrite filepath_Join_clean by done.
  unfold m_bind at 1. rewrite WriteFile_healthy.
  - apply IH; try done; simpl.
    + rewrite lookup_insert_ne; [done|]. apply child_ne.
    + intros f' Hf'. destruct (decide (f' = f)) as [->|Hne]; [by rewrite lookup_insert_eq|].
      rewrite lookup_insert_ne; [apply Hnd; by right|].
      rewrite <-!append_assoc. by intros E%append_inj_l.
  - done.
  - apply Hnd. by left.
  - rewrite Dir_child by (done || apply Hf). done.
Qed.

Lemma Create_healthy checked written root id files w :
  abs_clean root → normal_elem id → bad_id id = None → (∀ f, is_Some (files !! f) → bad_filename f = None) →
  files !! rootfsDir = None → healthy w → nodes w !! root = Some DirNode → nested (nodes w) →
  nodes w !! (root +:+ "/" +:+ id) = None →
  ∃ w', Create checked written root id files w = Return (Ok (root +:+ "/" +:+ id), w').
Proof.
  intros Hroot Hid Hbad Hfiles Hr Hh Hex Hn Hfresh. unfold Create. rewrite Hbad, filepath_Join_clean by done.
  set (d := root +:+ "/" +:+ id) in *.
  assert (∀ o : MapOrder, first_bad (@map_order o (map_to_list files)) = None) as Hfb.
  { intros o. apply first_bad_None. intros f b Hf. apply Hfiles. exists b.
    apply elem_of_map_to_list. by rewrite map_order_elem in Hf. }
  assert (abs_clean d) as Hd by (by apply abs_clean_child).
  assert (d ≠ "") as Hdne by (destruct Hd as (? & _ & _ & ->); done).
  assert (∀ q, under d q = true → nodes w !! q = None) as Hunder by (intros q; by apply fresh_under).
  assert (filepath_Dir d = root) as Hdd by apply (Dir_child root id Hroot (proj2 (proj2 (proj2 Hid)))).
  rewrite Hfb. unfold m_bind at 1. rewrite Mkdir_healthy; [|done|done|by rewrite Hdd].
  unfold fill. rewrite filepath_Join_clean by (done || apply rootfs_normal). unfold m_bind at 1. unfold m_bind at 1.
  rewrite Mkdir_healthy; simpl; [|done| |rewrite (Dir_child d rootfsDir Hd) by done; by rewrite lookup_insert_eq].
  2: { rewrite lookup_insert_ne by (intros E; symmetry in E; by apply child_ne in E). apply Hunder, under_child. }
  destruct (write_files_healthy d (@map_order written (map_to_list files))
    (set_nodes (<[d +:+ "/" +:+ rootfsDir := DirNode]> (<[d := DirNode]> (nodes w))) (set_nodes (<[d := DirNode]> (nodes w)) w)))
    as [w' Hw']; try done.
  - apply Forall_fmap, Forall_forall. intros [f b] Hf. apply bad_filename_None, Hfiles. exists b.
    apply elem_of_map_to_list. by rewrite map_order_elem in Hf.
  - simpl. rewrite lookup_insert_ne by apply child_ne. by rewrite lookup_insert_eq.
  - simpl. intros f ([f' b] & -> & Hf)%list_elem_of_fmap. rewrite map_order_elem in Hf. apply elem_of_map_to_list in Hf. simpl in *.
    rewrite lookup_insert_ne by (rewrite <-!append_assoc; intros E%append_inj_l; congruence).
    rewrite lookup_insert_ne by (intros E; symmetry in E; by apply child_ne in E).
    by rewrite Hunder by apply under_child.
  - simpl in Hw'. rewrite Hw'. by eexists.
Qed.

End guest_lemmas.

(** ** What the host sends *)

Section host_lemmas.
Import Bundle.
Context `{BundleEnv}.

Lemma AddExtraFile_Ok name data b b' :
  AddExtraFile name data b = Ok b' ↔
  (name = "/" ∨ normal_elem name) ∧ name ≠ "config.json" ∧
  b' = mkBundle (b_Path b) (b_Spec b) (Rootfs b) (<[name := data]> (extraFiles b)).
Proof.
  unfold AddExtraFile. split.
  - destruct (String.eqb_spec name ""); [done|]. destruct (String.eqb_spec name "config.json"); [done|].
    destruct (String.eqb_spec (Clean name) name) as [Hc|]; [|done].
    destruct (String.eqb_spec (filepath_Base name) name) as [Hb|]; [|done]. rewrite Hc.
    destruct (String.eqb_spec name ".."); [done|]. destruct (String.eqb_spec name "."); [done|]. simpl.
    intros [= <-]. split; [|done]. destruct (Base_elem name) as [E|E]; rewrite Hb in E; [by left|by right].
  - intros ([-> |Hn] & Hc & ->); [done|]. rewrite Clean_normal, Base_normal by done.
    destruct Hn as (H1 & H2 & H3 & _). apply String.eqb_neq in H1 as ->, H2 as ->, H3 as ->, Hc as ->.
    by rewrite String.eqb_refl.
Qed.

(** The mount of the VM for a mount of the container. *)
Definition bound (path : string) (m : Mount) : Mount :=
  if in_bundle path m then set_source (filepath_Base (Source m)) m else m.

(** The files of the bind mounts, a later one replacing an earlier one of the
    same name. *)
Fixpoint bind_files (path : string) (ms : list Mount) (files : gmap string string) : gmap string string :=
  match ms with
  | [] => files
  | m :: ms' =>
      bind_files path ms'
        (if in_bundle path m then
           match os_ReadFile (Source m) with Ok buf => <[filepath_Base (Source m) := buf]> files | Err _ => files end
         else files)
  end.

Definition sendable (f : string) : Prop := (f = "/" ∨ normal_elem f) ∧ f ≠ "config.json".

Lemma bind_from_Ok ms : ∀ pre b b',
  Mounts (b_Spec b) = pre ++ ms → (∀ f, is_Some (extraFiles b !! f) → sendable f) →
  bind_from ms (length pre) b = Ok b' →
  b' = mkBundle (b_Path b) (set_mounts (pre ++ (bound (b_Path b) <$> ms)) (b_Spec b)) (Rootfs b)
         (bind_files (b_Path b) ms (extraFiles b)) ∧
  (∀ m, m ∈ ms → in_bundle (b_Path b) m = true → is_ok (os_ReadFile (Source m)) = true) ∧
  ∀ f, is_Some (extraFiles b' !! f) → sendable f.
Proof.
  induction ms as [|m ms IH]; intros pre b b' Hm Hs.
  - simpl. intros [= <-]. split_and!; [|by intros m ?%elem_of_nil|done].
    rewrite <-Hm. by destruct b as [? [] ? ?].
  - cbn [bind_from bind_files fmap list_fmap]. unfold bound at 1. destruct (in_bundle (b_Path b) m) eqn:Ei.
    + destruct (os_ReadFile (Source m)) as [buf|] eqn:Er; [|done].
      destruct (AddExtraFile _ _ _) as [b2|] eqn:Ea; [|done].
      apply AddExtraFile_Ok in Ea as (Hn & Hc & ->). intros Hb.
      replace (S (length pre)) with (length (pre ++ [set_source (filepath_Base (Source m)) m])) in Hb
        by (rewrite length_app; simpl; lia).
      apply IH in Hb as (-> & Hread & Hs'); simpl in *.
      * split_and!; [by rewrite <-app_assoc| |done].
        intros m' [->|?]%elem_of_cons ?; [by rewrite Er|by apply Hread].
      * rewrite Hm, <-app_assoc, alter_app_r_alt, Nat.sub_diag by lia. done.
      * intros f. rewrite lookup_insert_is_Some'. intros [<-|?]; [done|by apply Hs].
    + intros Hb. replace (S (length pre)) with (length (pre ++ [m])) in Hb by (rewrite length_app; simpl; lia).
      apply IH in Hb as (-> & Hread & Hs'); simpl in *; [|by rewrite <-app_assoc|done].
      split_and!; [by rewrite <-app_assoc| |done].
      intros m' [->|?]%elem_of_cons ?; [congruence|by apply Hread].
Qed.

Lemma bind_files_keeps path ms f buf : ∀ files,
  (∀ m, m ∈ ms → in_bundle path m = true → filepath_Base (Source m) = f → os_ReadFile (Source m) = Ok buf) →
  files !! f = Some buf → bind_files path ms files !! f = Some buf.
Proof.
  induction ms as [|m ms IH]; intros files Hms Hf; simpl; [done|].
  apply IH; [intros m' ?; apply Hms; by right|]. destruct (in_bundle path m) eqn:Ei; [|done].
  destruct (os_ReadFile (Source m)) as [buf'|] eqn:Er; [|done].
  destruct (decide (filepath_Base (Source m) = f)) as [Eq|]; [|by rewrite lookup_insert_ne].
  rewrite Hms in Er by (done || by left). by simplify_map_eq.
Qed.

(** A mount gets its own file if no other source shares its name. *)
Lemma bind_files_own path ms m buf :
  m ∈ ms → in_bundle path m = true → os_ReadFile (Source m) = Ok buf →
  (∀ m', m' ∈ ms → in_bundle path m' = true → filepath_Base (Source m') = filepath_Base (Source m) → Source m' = Source m) →
  ∀ files, bind_files path ms files !! filepath_Base (Source m) = Some buf.
Proof.
  induction ms as [|m0 ms IH]; intros Hin Hb Hr Huniq files; [by apply elem_of_nil in Hin|].
  apply elem_of_cons in Hin as [<-|Hin]; simpl.
  - rewrite Hb, Hr. apply bind_files_keeps; [|by rewrite lookup_insert_eq].
    intros m' Hm' Hb' Eq. rewrite (Huniq m'); [done|by right|done|done].
  - apply IH; try done. intros m' ?. apply Huniq. by right.
Qed.

(** *** Adaptation *)

Lemma replace_ro_elem opts x : x ∈ replace_ro opts ↔ (x ∈ opts ∧ x ≠ "ro") ∨ (x = "rw" ∧ "ro" ∈ opts).
Proof.
  induction opts as [|o opts IH]; simpl; [set_solver|]. rewrite !elem_of_cons, IH.
  destruct (String.eqb_spec o "ro") as [->|Ho]; [split; [|]; [intros [->|[[]|[]]]; auto|]|].
  - intros [[[->|?] ?]|[-> _]]; [done|by right; left|by left].
  - split; [intros [->|[[]|[]]]; auto|]. intros [[[->|?] ?]|[-> [E|?]]]; auto; done.
Qed.

Lemma ensureRW_spec opts : "rw" ∈ ensureRW opts ∧ "ro" ∉ ensureRW opts ∧ ensureRW (ensureRW opts) = ensureRW opts.
Proof.
  assert ("rw" ∈ ensureRW opts ∧ "ro" ∉ ensureRW opts) as [H1 H2].
  { unfold ensureRW. destruct (existsb _ opts) eqn:E; simpl.
    - rewrite app_nil_r, !replace_ro_elem. apply existsb_exists in E as (o & Ho%list_elem_of_In & E).
      destruct (String.eqb_spec o "ro") as [->|]; [split; [by right|by intros [[_ ?]|[? _]]]|].
      destruct (String.eqb_spec o "rw") as [->|]; [split; [by left|by intros [[_ ?]|[? _]]]|done].
    - rewrite !elem_of_app, !list_elem_of_singleton, !replace_ro_elem. split; [by right|].
      intros [[[_ ?]|[? _]]|?]; done. }
  split_and!; [done|done|]. revert H1 H2. generalize (ensureRW opts). intros l H1 H2.
  unfold ensureRW at 1. replace (existsb _ l) with true.
  - simpl. rewrite app_nil_r. clear H1. induction l as [|o l IH]; [done|]. simpl.
    destruct (String.eqb_spec o "ro") as [->|]; [set_solver|]. rewrite IH; [done|set_solver].
  - symmetry. apply existsb_exists. exists "rw". split; [by apply list_elem_of_In|done].
Qed.

Lemma ensure_cgroup_spec ms :
  ∃ pre m post, ensure_cgroup ms = pre ++ m :: post ∧ Destination m = "/sys/fs/cgroup" ∧ Type_ m = "cgroup2" ∧
    Source m = "cgroup2" ∧ "rw" ∈ Options m ∧ "ro" ∉ Options m ∧
    Forall (λ m, Destination m ≠ "/sys/fs/cgroup") pre ∧
    (∀ i m0, ms !! i = Some m0 → i ≠ length pre → ensure_cgroup ms !! i = Some m0).
Proof.
  induction ms as [|m ms (pre & m' & post & Heq & Hd & Ht & Hs & Hrw & Hro & Hpre & Hk)]; simpl.
  - eexists [], _, []. split; [reflexivity|]. split_and!; [done..|set_solver|set_solver|done|done].
  - destruct (String.eqb_spec (Destination m) "/sys/fs/cgroup") as [E|E].
    + exists [], (cgroup_mount m), ms. destruct (ensureRW_spec (Options m)) as (? & ? & _).
      split_and!; try done. intros [|i] m0 Hi Hne; [done|done].
    + exists (m :: pre), m', post. rewrite Heq. split_and!; try done; [by constructor|].
      intros [|i] m0 Hi Hne; simpl in *; [done|]. rewrite <-Heq. apply Hk; [done|]. congruence.
Qed.

Lemma ensure_cgroup_kept ms i m :
  ensure_cgroup ms !! i = Some m → (i < length ms)%nat → ∃ m0, ms !! i = Some m0 ∧ Destination m0 = Destination m.
Proof.
  revert i. induction ms as [|m1 ms IH]; intros i Hi Hl; simpl in *; [lia|].
  destruct (String.eqb_spec (Destination m1) "/sys/fs/cgroup") as [E|E]; destruct i as [|i]; simpl in *.
  - injection Hi as <-. by exists m1.
  - by exists m.
  - injection Hi as <-. by exists m1.
  - apply IH; [done|lia].
Qed.

Lemma ensure_cgroup_idem ms : ensure_cgroup (ensure_cgroup ms) = ensure_cgroup ms.
Proof.
  induction ms as [|m ms IH]; [done|]. simpl. destruct (String.eqb_spec (Destination m) "/sys/fs/cgroup") as [E|E]; simpl.
  - rewrite E. simpl. unfold cgroup_mount. simpl. by rewrite (proj2 (proj2 (ensureRW_spec (Options m)))).
  - apply String.eqb_neq in E. by rewrite E, IH.
Qed.

Lemma adapt_spec_idem s : adapt_spec (adapt_spec s) = adapt_spec s.
Proof.
  unfold adapt_spec. simpl. rewrite ensure_cgroup_idem. f_equal.
  - destruct (spec_Linux s) as [l|]; [|done]. simpl. f_equal. f_equal. apply filter_all, Forall_forall.
    by intros ns [? _]%list_elem_of_filter.
  - by destruct (spec_Process s).
Qed.

(** *** Loading *)

(** The spec the bundle's config.json holds. *)
Definition host_spec (path : string) (s : Spec) : Prop :=
  ∃ bytes, os_ReadFile (filepath_Join [path; "config.json"]) = Ok bytes ∧ json_Unmarshal bytes = Ok s.

Lemma LoadForCreate_Ok path b :
  LoadForCreate path = Ok b →
  ∃ s r, host_spec path s ∧ spec_Root s = Some r ∧
    b = mkBundle path
          (adapt_spec (mkSpec (Some (mkRoot "rootfs" (root_rest r))) (bound path <$> Mounts s) (spec_Linux s)
                         (spec_Process s) (Annotations s) (s_rest s)))
          (if IsAbs (Path r) then Path r else filepath_Join [path; Path r])
          (bind_files path (Mounts s) ∅) ∧
    (∀ m, m ∈ Mounts s → in_bundle path m = true → is_ok (os_ReadFile (Source m)) = true) ∧
    ∀ f, is_Some (extraFiles b !! f) → sendable f.
Proof.
  unfold LoadForCreate, Load. destruct (String.eqb path ""); [done|].
  destruct (os_ReadFile _) as [bytes|] eqn:Er; [|done]. destruct (json_Unmarshal bytes) as [s|] eqn:Ej; [|done].
  unfold resolveRootfsPath. cbn [b_Spec b_Path extraFiles]. destruct (spec_Root s) as [r|] eqn:Eroot; [|done].
  cbn [run_transformers]. set (b0 := mkBundle path _ _ _).
  destruct (TransformBindMounts b0) as [b1|] eqn:Et; [|done]. cbn. intros [= <-].
  apply (bind_from_Ok (Mounts s) []) in Et as (-> & Hread & Hs); [|done|].
  - exists s, r. split; [by exists bytes|]. done.
  - intros f. simpl. rewrite lookup_empty. by intros [].
Qed.

Lemma bound_in path m : in_bundle path m = true → bound path m = set_source (filepath_Base (Source m)) m.
Proof. unfold bound. by intros ->. Qed.
Lemma in_bundle_bind path m : in_bundle path m = true → Type_ m = "bind".
Proof. unfold in_bundle. by intros [->%String.eqb_eq _]%andb_true_iff. Qed.

Lemma host_spec_unique path s s' : host_spec path s → host_spec path s' → s' = s.
Proof. intros (b & H1 & H2) (b' & H3 & H4). congruence. Qed.

(** The spec of a loaded bundle is adapted to the VM: the root is the one the
    guest mounts, the first mount on /sys/fs/cgroup is a writable cgroup2, all
    other mounts of the container are kept in place but for the sources of the
    files that are sent along, the container has no network or cgroup namespace
    of its own, no masked or read-only paths and every capability; adapting it
    again changes nothing. *)
Theorem adapted_for_vm path b :
  LoadForCreate path = Ok b →
  (∃ r, spec_Root (b_Spec b) = Some r ∧ Path r = "rootfs") ∧
  (∃ pre m post, Mounts (b_Spec b) = pre ++ m :: post ∧ Destination m = "/sys/fs/cgroup" ∧ Type_ m = "cgroup2" ∧
     "rw" ∈ Options m ∧ "ro" ∉ Options m ∧ Forall (λ m, Destination m ≠ "/sys/fs/cgroup") pre ∧
     ∀ s i m0, host_spec path s → Mounts s !! i = Some m0 → i ≠ length pre →
       Mounts (b_Spec b) !! i = Some (bound path m0)) ∧
  (∀ l ns, spec_Linux (b_Spec b) = Some l →
     ReadonlyPaths l = [] ∧ MaskedPaths l = [] ∧ (ns ∈ Namespaces l → vm_namespace ns)) ∧
  (∀ p, spec_Process (b_Spec b) = Some p → Capabilities p = Some all_caps) ∧
  AdaptForVM b = Ok b.
Proof.
  intros (s & r & Hs & Hr & -> & _ & _)%LoadForCreate_Ok. split_and!; simpl.
  - by eexists.
  - destruct (ensure_cgroup_spec (bound path <$> Mounts s)) as (pre & m & post & Heq & ? & ? & _ & ? & ? & ? & Hk).
    exists pre, m, post. split_and!; try done. intros s' i m0 Hs' Hi Hne.
    rewrite (host_spec_unique _ _ _ Hs Hs') in Hi. apply Hk; [|done]. by rewrite list_lookup_fmap, Hi.
  - intros l ns. destruct (spec_Linux s) as [l0|]; [|done]. simpl. intros [= <-]. split_and!; [done|done|].
    by intros [? _]%list_elem_of_filter.
  - intros p. destruct (spec_Process s); [|done]. by intros [= <-].
  - unfold AdaptForVM, set_spec. simpl. by rewrite adapt_spec_idem.
Qed.

(** What the task service adds to a bundle is added to this one. *)
Lemma task_AddExtraFile name data b :
  ShimTask.AddExtraFile name data (task_bundle b) =
  match AddExtraFile name data b with Ok b' => Ok (task_bundle b') | Err e => Err e end.
Proof. unfold ShimTask.AddExtraFile, AddExtraFile. by repeat case_match. Qed.

End host_lemmas.

(** ** From the host to the guest *)

Section delivery.
Import Bundle GuestFS GuestBundle.
Context `{BundleEnv}.

(** The names that both sides take: the guest refuses backslashes too, and the
    root file system has its own directory. *)
Definition guest_name (f : string) : Prop :=
  f ≠ "/" ∧ f ≠ rootfsDir ∧ str_all (not_char "\") f = true.

Lemma no_separators f :
  str_all (not_char "/") f = true → str_all (not_char "\") f = true → ContainsAny f "/\" = false.
Proof.
  induction f as [|a f IH]; [done|]. cbn [str_all ContainsAny string_elem]. unfold not_char at 1 3.
  intros [H1 H2]%andb_true_iff [H3 H4]%andb_true_iff. apply negb_true_iff in H1 as ->, H3 as ->. by apply IH.
Qed.

Lemma guest_accepts f : sendable f → guest_name f → bad_filename f = None.
Proof.
  intros [[->|(H1 & H2 & H3 & H4)] _] (? & _ & Hb); [done|]. unfold bad_filename.
  apply String.eqb_neq in H1 as ->, H2 as ->, H3 as ->. rewrite no_separators by done.
  replace (IsAbs f) with false; [done|]. destruct f as [|a f]; [done|]. cbn [str_all] in H4.
  apply andb_true_iff in H4 as [Ha%negb_true_iff _]. unfold IsAbs. cbn [HasPrefix]. by rewrite Ascii.eqb_sym, Ha.
Qed.

(** C9: a bundle that the host loads arrives in the guest.  On a guest without
    file system failures the service creates the directory of a fresh container
    with exactly the files the host sends: config.json is the adapted spec, and
    every file that is bind-mounted from the bundle directory is there under the
    name its mount now has as source, with the contents read on the host, unless
    another mounted file has the same name. *)
Theorem bundle_delivered checked written root id path b files w :
  LoadForCreate path = Ok b → Files b = Ok files → (∀ f, is_Some (files !! f) → guest_name f) →
  abs_clean root → normal_elem id → bad_id id = None → healthy w → nodes w !! root = Some DirNode →
  nested (nodes w) → nodes w !! (root +:+ "/" +:+ id) = None →
  let d := root +:+ "/" +:+ id in
  ∃ w', Create checked written root id files w = Return (Ok d, w') ∧ bundle_at d files (nodes w') ∧
    (∃ data, json_Marshal (b_Spec b) = Ok data ∧ nodes w' !! (d +:+ "/config.json") = Some (FileNode data)) ∧
    ∀ s i m0, host_spec path s → Mounts s !! i = Some m0 → in_bundle path m0 = true →
      Destination m0 ≠ "/sys/fs/cgroup" →
      (∀ m', m' ∈ Mounts s → in_bundle path m' = true →
         filepath_Base (Source m') = filepath_Base (Source m0) → Source m' = Source m0) →
      ∃ m data, Mounts (b_Spec b) !! i = Some m ∧ Type_ m = "bind" ∧ Destination m = Destination m0 ∧
        os_ReadFile (Source m0) = Ok data ∧ nodes w' !! (d +:+ "/" +:+ Source m) = Some (FileNode data).
Proof.
  intros Hl Hfiles Hnames Hroot Hid Hbad Hh Hex Hn Hfresh d.
  apply LoadForCreate_Ok in Hl as (s & r & Hs & _ & -> & Hread & Hsend). unfold Files in Hfiles. simpl in *.
  destruct (json_Marshal _) as [data|] eqn:Ej; [|done]. injection Hfiles as <-.
  destruct (Create_healthy checked written root id (<["config.json" := data]> (bind_files path (Mounts s) ∅)) w)
    as [w' Hw']; try done.
  { intros f Hf. specialize (Hnames f Hf). apply lookup_insert_is_Some' in Hf as [<-|Hf]; [done|].
    apply guest_accepts; [by apply Hsend|done]. }
  { apply eq_None_not_Some. intros Hr. by destruct (Hnames _ Hr) as (_ & ? & _). }
  destruct (Create_outcome checked written root id (<["config.json" := data]> (bind_files path (Mounts s) ∅)) w)
    as (r' & w2 & Hw2 & Hout); [done..|]. rewrite Hw' in Hw2. simplify_eq. destruct Hout as (_ & _ & Hat & _).
  pose proof Hat as (_ & _ & Hcont & _).
  exists w2. split_and!; [done|done|exists data; split; [done|apply (Hcont "config.json"); by rewrite lookup_insert_eq]|].
  intros s' i m0 Hs' Hi Hin Hdest Huniq. rewrite (host_spec_unique _ _ _ Hs Hs') in *. clear s' Hs'.
  specialize (Hread m0 (list_elem_of_lookup_2 _ _ _ Hi) Hin). destruct (os_ReadFile (Source m0)) as [buf|] eqn:Er; [|done].
  destruct (ensure_cgroup_spec (bound path <$> Mounts s)) as (pre & mc & post & Heq & Hdc & _ & _ & _ & _ & _ & Hk).
  pose proof (in_bundle_bind _ _ Hin) as Hbind.
  exists (bound path m0), buf. split_and!; [|by rewrite bound_in|by rewrite bound_in|done|].
  - apply Hk; [by rewrite list_lookup_fmap, Hi|]. intros ->.
    destruct (ensure_cgroup_kept (bound path <$> Mounts s) (length pre) mc) as (m1 & Hm1 & Hd1).
    { by rewrite Heq, list_lookup_middle. }
    { rewrite length_fmap. by eapply lookup_lt_Some. }
    rewrite list_lookup_fmap, Hi in Hm1. simpl in Hm1. rewrite bound_in in Hm1 by done. injection Hm1 as <-. simpl in Hd1. congruence.
  - apply Hcont. rewrite bound_in by done. simpl.
    rewrite lookup_insert_ne; [apply bind_files_own; try done; by eapply list_elem_of_lookup_2|].
    intros Hc. destruct (Hsend (filepath_Base (Source m0))) as [_ ?]; [|done].
    rewrite (bind_files_own path (Mounts s) m0 buf); [done|by eapply list_elem_of_lookup_2|done..].
Qed.

End delivery.

(** ** A bundle with two mounts *)

Module BundleDemo.
Import Bundle GuestFS GuestBundle.

(** The paths of which a path is below, for checking [nested]. *)
Fixpoint cuts (s : string) : list string :=
  match s with
  | EmptyString => []
  | String a s' => (if Ascii.eqb a "/" then [""] else []) ++ (String a <$> cuts s')
  end.
Definition nested_b (n : gmap string node) : bool :=
  forallb (λ '(k, _), forallb (λ p, String.eqb p "" || bool_decide (n !! p = Some DirNode)) (cuts k)) (map_to_list n).

Lemma cuts_elem p q : p ∈ cuts (p +:+ "/" +:+ q).
Proof.
  induction p as [|a p IH]; [by left|]. change (String a p +:+ "/" +:+ q) with (String a (p +:+ "/" +:+ q)).
  cbn [cuts]. apply elem_of_app. right. apply list_elem_of_fmap. by exists p.
Qed.

Lemma nested_b_nested n : nested_b n = true → nested n.
Proof.
  unfold nested_b. rewrite forallb_forall. intros Hn p q [x Hx]. apply elem_of_map_to_list, list_elem_of_In in Hx.
  specialize (Hn _ Hx). simpl in Hn. rewrite forallb_forall in Hn.
  specialize (Hn p (proj1 (list_elem_of_In _ _) (cuts_elem p q))).
  apply orb_true_iff in Hn as [?%String.eqb_eq|?%bool_decide_eq_true]; auto.
Qed.

Definition path : string := "/run/containerd/default/task1".
Definition mounts : list Mount :=
  [mkMount "/etc/hosts" "bind" "/run/containerd/default/task1/hosts" ["ro"] "";
   mkMount "/sys/fs/cgroup" "cgroup" "cgroup" ["ro"; "nosuid"] ""].
Definition spec0 (ms : list Mount) : Spec :=
  mkSpec (Some (mkRoot "rootfs" "")) ms (Some (mkLinux [mkNS "network" ""; mkNS "pid" ""] ["/proc/sys"] [] None ""))
    (Some (mkProcess None "sh")) ∅ "".
Definition env0 (ms : list Mount) : BundleEnv := {|
  os_ReadFile p :=
    if String.eqb p "/run/containerd/default/task1/config.json" then Ok "host spec"
    else if String.eqb p "/run/containerd/default/task1/hosts" then Ok "127.0.0.1 localhost"
    else if String.eqb p "/srv/task1/hosts" then Ok "10.0.0.1 other"
    else Err (ErrSentinel ErrNotExist);
  json_Unmarshal _ := Ok (spec0 ms);
  json_Marshal _ := Ok "guest spec";
  KnownCapabilities := ["CAP_CHOWN"] |}.

Definition order0 : MapOrder := {| map_order l := l; map_order_perm l := Permutation_refl l |}.
Definition disk0 : disk :=
  mkDisk (<["/" := DirNode]> (<["/run" := DirNode]> (<["/run/bundles" := DirNode]> ∅))) [] [].

Definition loaded (ms : list Mount) : Bundle :=
  match @LoadForCreate (env0 ms) path with Ok b => b | Err _ => mkBundle "" (spec0 []) "" ∅ end.
Definition sent (ms : list Mount) : gmap string string :=
  match @Files (env0 ms) (loaded ms) with Ok f => f | Err _ => ∅ end.

Lemma nested0 : nested (nodes disk0).
Proof. apply nested_b_nested. vm_compute. reflexivity. Qed.
Lemma root_clean : abs_clean RootDir.
Proof. exists ["run"; "bundles"]. split; [done|]. split; [by repeat constructor|done]. Qed.
Lemma id_normal : normal_elem "task1".
Proof. by vm_compute. Qed.
Lemma names0 : ∀ f, is_Some (sent mounts !! f) → guest_name f.
Proof.
  intros f Hf. assert (f ∈ ["config.json"; "hosts"]) as Hin.
  { change (sent mounts) with (<["config.json" := "guest spec"]> (<["hosts" := "127.0.0.1 localhost"]> (∅ : gmap string string))) in Hf.
    apply lookup_insert_is_Some' in Hf as [<-|Hf]; [by left|].
    apply lookup_insert_is_Some' in Hf as [<-|Hf]; [by right; left|]. rewrite lookup_empty in Hf. by destruct Hf. }
  apply elem_of_cons in Hin as [->|[->|Hin%elem_of_nil]%elem_of_cons]; [by vm_compute|by vm_compute|done].
Qed.

Lemma bundle_Create_all_or_nothing_witness :
  ∃ r w', Create order0 order0 RootDir "task1" (sent mounts) disk0 = Return (r, w').
Proof.
  destruct (bundle_Create_all_or_nothing order0 order0 RootDir "task1" (sent mounts) disk0 root_clean eq_refl nested0)
    as (r & w' & E & _). exists r, w'. exact E.
Defined.

Lemma adapted_for_vm_witness : @AdaptForVM (env0 mounts) (loaded mounts) = Ok (loaded mounts).
Proof. apply (@adapted_for_vm (env0 mounts) path (loaded mounts)). vm_compute. reflexivity. Defined.

Lemma bundle_delivered_witness :
  ∃ w', Create order0 order0 RootDir "task1" (sent mounts) disk0 = Return (Ok "/run/bundles/task1", w') ∧
    bundle_at "/run/bundles/task1" (sent mounts) (nodes w').
Proof.
  destruct (@bundle_delivered (env0 mounts) order0 order0 RootDir "task1" path (loaded mounts) (sent mounts) disk0)
    as (w' & E & Hat & _); [vm_compute; reflexivity|vm_compute; reflexivity|exact names0|exact root_clean|exact id_normal|
    reflexivity|reflexivity|reflexivity|exact nested0|reflexivity|].
  exists w'. split; [exact E|exact Hat].
Defined.

(** Only the last element of the directory is compared: two files of the same
    name from different directories end up as one, and the first mount gets the
    contents of the second. *)
Definition colliding : list Mount :=
  [mkMount "/etc/hosts" "bind" "/run/containerd/default/task1/hosts" [] "";
   mkMount "/etc/other" "bind" "/srv/task1/hosts" [] ""].
Example bind_mounts_collide :
  Source <$> take 2 (Mounts (b_Spec (loaded colliding))) = ["hosts"; "hosts"] ∧
  sent colliding !! "hosts" = Some "10.0.0.1 other".
Proof. vm_compute. split; reflexivity. Qed.

End BundleDemo.
