(* ===== verification/GuestSupervisor.v ===== *)
(** * The supervisor agent of the guest

    Models internal/guest/vminit/supervisor/supervisor.go and the goroutine of
    cmd/vminitd/main.go that starts it.  It reads what the shim put on the kernel
    command line ([Supervisor] of ShimTask.v, QemuCmd.v) and looks for the binary
    that the shim put into the bundle (Bundle.v). *)

From S2P Require Import Prelude GoStrings MountUtil QemuCmd ShimTask Bundle.
From Stdlib Require Import Ascii.

Module GuestSupervisor.
Import GuestFS.
Local Open Scope m_scope.

Definition ParamWorkspaceID : string := "spin.workspace_id".
Definition ParamSecret : string := "spin.secret".
Definition ParamMetadataAddr : string := "spin.metadata_addr".
Definition ParamControlPlane : string := "spin.control_plane".
Definition DefaultMetadataAddr : string := "169.254.169.254:80".
Definition BundleBasePath : string := "/run/spinbox".
Definition BinaryName : string := "spin-supervisor".
Definition PidFile : string := "/run/spin-supervisor.pid".
Definition LogFile : string := "/var/log/spin-supervisor.log".

Record Config := mkConfig
  { WorkspaceID : string; Secret : string; MetadataAddr : string; ControlPlane : string;
    BinaryPath : string; ContainerID : string; Namespace : string }.

(** One word of the command line; the flag tells whether a parameter was found. *)
Definition parse_param (s : Config * bool) (param : string) : Config * bool :=
  let '(c, found) := s in
  if HasPrefix param (ParamWorkspaceID +:+ "=") then
    (mkConfig (TrimPrefix param (ParamWorkspaceID +:+ "=")) (Secret c) (MetadataAddr c) (ControlPlane c)
       (BinaryPath c) (ContainerID c) (Namespace c), true)
  else if HasPrefix param (ParamSecret +:+ "=") then
    (mkConfig (WorkspaceID c) (TrimPrefix param (ParamSecret +:+ "=")) (MetadataAddr c) (ControlPlane c)
       (BinaryPath c) (ContainerID c) (Namespace c), true)
  else if HasPrefix param (ParamMetadataAddr +:+ "=") then
    (mkConfig (WorkspaceID c) (Secret c) (TrimPrefix param (ParamMetadataAddr +:+ "=")) (ControlPlane c)
       (BinaryPath c) (ContainerID c) (Namespace c), true)
  else if HasPrefix param (ParamControlPlane +:+ "=") then
    (mkConfig (WorkspaceID c) (Secret c) (MetadataAddr c) (TrimPrefix param (ParamControlPlane +:+ "="))
       (BinaryPath c) (ContainerID c) (Namespace c), true)
  else (c, found).

Definition empty_config : Config := mkConfig "" "" "" "" "" "" "".

(** The argument is what reading /proc/cmdline gave. *)
Definition ParseFromCmdline (cmdlineBytes : result string) : result (option Config) :=
  match cmdlineBytes with
  | Err e => Err (ErrWrap "failed to read /proc/cmdline" e)
  | Ok cmdline =>
      let '(cfg, foundParams) := foldl parse_param (empty_config, false) (Fields cmdline) in
      if negb foundParams then Ok None
      else Ok (Some (if String.eqb (MetadataAddr cfg) "" then
                       mkConfig (WorkspaceID cfg) (Secret cfg) DefaultMetadataAddr (ControlPlane cfg)
                         (BinaryPath cfg) (ContainerID cfg) (Namespace cfg)
                     else cfg))
  end.

Definition missing (param : string) : error := ErrNew ("missing " +:+ param +:+ " in kernel cmdline").
Definition Validate (c : Config) : option error :=
  if String.eqb (WorkspaceID c) "" then Some (missing ParamWorkspaceID)
  else if String.eqb (Secret c) "" then Some (missing ParamSecret)
  else if String.eqb (ControlPlane c) "" then Some (missing ParamControlPlane)
  else None.

(** ** The binary *)

(** The directories of the containers of one namespace. *)
Fixpoint find_in (nsName nsPath : string) (l : list (string * bool)) (c : Config) : M disk (option Config) :=
  match l with
  | [] => m_ret None
  | (id, isDir) :: l' =>
      if negb isDir then find_in nsName nsPath l' c
      else
        let binaryPath := filepath_Join [nsPath; id; BinaryName] in
        e ← os_Stat binaryPath;
        match e with
        | None => m_ret (Some (mkConfig (WorkspaceID c) (Secret c) (MetadataAddr c) (ControlPlane c) binaryPath id nsName))
        | Some _ => find_in nsName nsPath l' c
        end
  end.

Fixpoint find_ns (l : list (string * bool)) (c : Config) : M disk (option Config) :=
  match l with
  | [] => m_ret None
  | (ns, isDir) :: l' =>
      if negb isDir then find_ns l' c
      else
        let nsPath := filepath_Join [BundleBasePath; ns] in
        r ← os_ReadDir nsPath;
        match r with
        | Err _ => find_ns l' c
        | Ok idEntries =>
            f ← find_in ns nsPath idEntries c;
            match f with Some c' => m_ret (Some c') | None => find_ns l' c end
        end
  end.

Definition FindBinary (c : Config) : M disk (result Config) :=
  r ← os_ReadDir BundleBasePath;
  match r with
  | Err e => m_ret (Err (ErrWrap "failed to read bundle base path" e))
  | Ok entries =>
      f ← find_ns entries c;
      m_ret (match f with
             | Some c' => Ok c'
             | None => Err (ErrNew ("supervisor binary not found in " +:+ BundleBasePath))
             end)
  end.

(** ** Starting it *)

(** What [Start] asks of the system; each call has an answer. *)
Inductive action :=
  | Chmod (path : string) | MkdirAll (path : string) | OpenFile (path : string)
  | Spawn (path : string) (env : list string) (logFile : option Z)
  | WriteFile (path data : string) | Release (pid : Z) | CloseFile (f : option Z).

Record world := mkWorld { fs : disk; log : list action; answers : list (result Z) }.

Definition act (a : action) : M world (result Z) :=
  m_state (λ w, (default (Ok 0) (head (answers w)), mkWorld (fs w) (log w ++ [a]) (tail (answers w)))).
Definition on_fs {A} (m : M disk A) : M world A := λ w,
  match m (fs w) with
  | Return (a, d) => Return (a, mkWorld d (log w) (answers w))
  | Panic msg => Panic msg
  end.

Definition newline : string := String (ascii_of_N 10) "".

Definition Start (environ : list string) (c : Config) : M world (result Z) :=
  if String.eqb (BinaryPath c) "" then m_ret (Err (ErrNew "supervisor binary path not set"))
  else
    r ← act (Chmod (BinaryPath c));
    match r with
    | Err e => m_ret (Err (ErrWrap "failed to make supervisor binary executable" e))
    | Ok _ =>
        act (MkdirAll (filepath_Dir LogFile)) ≫= λ _,
        l ← act (OpenFile LogFile);
        logFile ← (match l with
                   | Ok h => m_ret (Some h)
                   | Err _ => n ← act (OpenFile "/dev/null");
                              m_ret (match n with Ok h => Some h | Err _ => None end)
                   end);
        let env := environ ++ ["SPIN_WORKSPACE_ID=" +:+ WorkspaceID c; "SPIN_SECRET=" +:+ Secret c;
                               "SPIN_METADATA_ADDR=" +:+ MetadataAddr c; "SPIN_CONTROL_PLANE=" +:+ ControlPlane c] in
        p ← act (Spawn (BinaryPath c) env logFile);
        match p with
        | Err e => act (CloseFile logFile) ≫= λ _, m_ret (Err (ErrWrap "failed to start supervisor" e))
        | Ok pid =>
            act (WriteFile PidFile (fmt_d pid +:+ newline)) ≫= λ _,
            act (Release pid) ≫= λ _,
            act (CloseFile logFile) ≫= λ _, m_ret (Ok pid)
        end
    end.

Definition StartSupervisor (cmdline : result string) (environ : list string) : M world (option error) :=
  match ParseFromCmdline cmdline with
  | Err e => m_ret (Some (ErrWrap "failed to parse supervisor config" e))
  | Ok None => m_ret None
  | Ok (Some cfg) =>
      match Validate cfg with
      | Some e => m_ret (Some (ErrWrap "invalid supervisor config" e))
      | None =>
          f ← on_fs (FindBinary cfg);
          match f with
          | Err _ => m_ret None
          | Ok cfg' =>
              r ← Start environ cfg';
              m_ret (match r with Err e => Some (ErrWrap "failed to start supervisor" e) | Ok _ => None end)
          end
      end
  end.

(** The goroutine of vminitd's [run]: [n] attempts are left; [meanwhile] is what
    happens to the file system while it sleeps.  The result counts the
    attempts. *)
Fixpoint attempts (meanwhile : nat → disk → disk) (cmdline : result string) (environ : list string) (n : nat)
    : M world nat :=
  match n with
  | O => m_ret O
  | S n' =>
      e ← StartSupervisor cmdline environ;
      match e with
      | None => m_ret 1%nat
      | Some _ =>
          m_modify (λ w, mkWorld (meanwhile n (fs w)) (log w) (answers w)) ≫= λ _,
          k ← attempts meanwhile cmdline environ n'; m_ret (S k)
      end
  end.

Definition maxAttempts : nat := 10.
Definition supervisor_goroutine (meanwhile : nat → disk → disk) (cmdline : result string) (environ : list string)
    : M world nat :=
  m_modify (λ w, mkWorld (meanwhile O (fs w)) (log w) (answers w)) ≫= λ _,
  attempts meanwhile cmdline environ maxAttempts.

End GuestSupervisor.

(** ** The command line read back *)

Section cmdline.
Import Qemu GuestSupervisor.

Lemma HasPrefix_weaken s p q : HasPrefix s (p +:+ q) = true → HasPrefix s p = true.
Proof. rewrite !HasPrefix_spec. intros [r ->]. exists (q +:+ r). by rewrite append_assoc. Qed.

(** A word that is no parameter of the supervisor. *)
Definition foreign (w : string) : Prop := HasPrefix w "spin." = false.

Lemma parse_foreign s w : foreign w → parse_param s w = s.
Proof.
  intros Hw. destruct s as [c found]. unfold parse_param.
  assert (∀ rest, HasPrefix w ("spin." +:+ rest) = false) as Hp.
  { intros rest. destruct (HasPrefix w ("spin." +:+ rest)) eqn:E; [|done].
    apply HasPrefix_weaken in E. unfold foreign in Hw. congruence. }
  change (ParamWorkspaceID +:+ "=") with ("spin." +:+ "workspace_id=").
  change (ParamSecret +:+ "=") with ("spin." +:+ "secret=").
  change (ParamMetadataAddr +:+ "=") with ("spin." +:+ "metadata_addr=").
  change (ParamControlPlane +:+ "=") with ("spin." +:+ "control_plane="). by rewrite !Hp.
Qed.

Lemma parse_foreigns l s : Forall foreign l → foldl parse_param s l = s.
Proof. revert s. induction l as [|w l IH]; intros s Hl; [done|]. apply Forall_cons in Hl as [? ?]. simpl. by rewrite parse_foreign, IH. Qed.

Lemma TrimPrefix_app p s : TrimPrefix (p +:+ s) p = s.
Proof. unfold TrimPrefix. by rewrite CutPrefix_app. Qed.

(** The four parameters in the order of [InitArgs]. *)
Lemma parse_InitArgs c :
  Supervisor.Enabled c = true →
  foldl parse_param (empty_config, false) (Supervisor.InitArgs c) =
  (mkConfig (Supervisor.WorkspaceID c) (Supervisor.Secret c) (Supervisor.MetadataAddr c) (Supervisor.ControlPlane c) "" "" "",
   true).
Proof.
  intros He. unfold Supervisor.InitArgs. rewrite He. cbn [negb foldl].
  unfold parse_param, ParamWorkspaceID, ParamSecret, ParamMetadataAddr, ParamControlPlane.
  repeat match goal with
  | |- context [HasPrefix (?p +:+ ?s) (?a +:+ ?b)] =>
      change (a +:+ b) with p; rewrite (HasPrefix_app p s), (TrimPrefix_app p s); cbn [WorkspaceID Secret MetadataAddr ControlPlane BinaryPath ContainerID Namespace]
  | |- context [HasPrefix (?p +:+ ?s) (?a +:+ ?b)] =>
      change (HasPrefix (p +:+ s) (a +:+ b)) with false; cbn iota
  end.
  reflexivity.
Qed.

Lemma no_space_app a b : no_space (a +:+ b) = no_space a && no_space b.
Proof. apply str_all_app. Qed.

Lemma no_space_concat l : forallb no_space l = true → no_space (String.concat "" l) = true.
Proof.
  induction l as [|x [|y l] IH]; intros Hl; [done|simpl in *; by rewrite andb_true_r in Hl|].
  simpl in Hl. apply andb_true_iff in Hl as [Hx Hl].
  change (String.concat "" (x :: y :: l)) with (x +:+ "" +:+ String.concat "" (y :: l)).
  rewrite no_space_app, Hx. simpl. by apply IH.
Qed.

Definition network_no_space (n : option NetworkConfig) : Prop :=
  match n with
  | None => True
  | Some c => forallb no_space (IP c :: Gateway c :: Netmask c :: DNS c) = true
  end.

Lemma network_param n :
  network_no_space n → buildNetworkParam n = "" ∨
    (no_space (buildNetworkParam n) = true ∧ ∃ r, buildNetworkParam n = "ip=" +:+ r).
Proof.
  destruct n as [c|]; [|by left]. simpl. intros Hn. unfold buildNetworkParam.
  destruct (String.eqb (IP c) ""); [by left|]. right. split; [|by eexists].
  repeat (apply andb_true_iff in Hn as [?H Hn]). rewrite !no_space_app, H, H0, H1. simpl.
  apply no_space_concat. apply forallb_forall. intros x (dns & <- & Hin%list_elem_of_In)%in_map_iff.
  rewrite no_space_app. simpl. rewrite forallb_forall in Hn. apply Hn, list_elem_of_In.
  by apply (subseteq_take 2).
Qed.

Lemma digits_no_space z : 0 ≤ z → no_space (fmt_d z) = true.
Proof.
  intros Hz. destruct (fmt_d_digits z Hz) as [Hd _]. unfold no_space. revert Hd. apply str_all_impl.
  apply digit_not_space.
Qed.

Lemma no_space_quoting a : no_space a = true → needsQuoting a = false.
Proof.
  unfold no_space. induction a as [|c a IH]; [done|]. cbn [str_all needsQuoting].
  intros [Hc%negb_true_iff Ha]%andb_true_iff. rewrite IH by done.
  destruct (Ascii.eqb_spec c " "); [by subst|]. destruct (Ascii.eqb_spec c "009"); [by subst|].
  destruct (Ascii.eqb_spec c "010"); [by subst|]. done.
Qed.

Lemma formatInitArgs_join l : Forall (λ a, no_space a = true) l → formatInitArgs l = strings_Join l " ".
Proof.
  induction 1 as [|a l Ha HF IH]; [done|]. destruct l as [|b l].
  - simpl. by rewrite no_space_quoting.
  - change (formatInitArgs (a :: b :: l))
      with ((if negb (needsQuoting a) then a else quote a) +:+ " " +:+ formatInitArgs (b :: l)).
    by rewrite no_space_quoting, IH.
Qed.

(** The words of the command line of a VM: the network parameter among words of
    no concern, then the arguments. *)
Definition plain_word (w : string) : Prop := foreign w ∧ HasPrefix w "ip=" = false.
Definition net_words (n : option NetworkConfig) : list string :=
  if negb (String.eqb (buildNetworkParam n) "") then [buildNetworkParam n] else [].

Lemma net_words_fields n : network_no_space n → net_words n ≫= Fields = net_words n.
Proof.
  intros Hn. unfold net_words. destruct (String.eqb_spec (buildNetworkParam n) "") as [E|Hne]; [done|].
  destruct (network_param n Hn) as [?|(Hns & _)]; [done|]. cbn [negb mbind list_bind]. by rewrite Fields_word.
Qed.

(** What [buildInitArgs] puts before the arguments of the caller. *)
Definition vm_flags (q : Instance) : list string :=
  ["-vsock-rpc-port=1025"; "-vsock-stream-port=1026"; "-vsock-cid=" +:+ fmt_d (guestCID (config q))].
Lemma vm_flags_plain q : Forall plain_word (["init=/sbin/vminitd"; "--"] ++ vm_flags q).
Proof. by repeat constructor. Qed.

Lemma cmdline_words q opts :
  0 ≤ guestCID (config q) → network_no_space (so_NetworkConfig opts) →
  Forall (λ a, a ≠ "" ∧ no_space a = true) (InitArgs opts) →
  ∃ pre, Forall plain_word pre ∧ "--" ∉ pre ∧
    Fields (buildKernelCommandLine q opts +:+ newline) =
    pre ++ net_words (so_NetworkConfig opts) ++ ["init=/sbin/vminitd"; "--"] ++ vm_flags q ++ InitArgs opts.
Proof.
  intros Hcid Hnet Hargs. unfold buildKernelCommandLine, BuildKernelCmdline. set (cfg := mkCmdline _ _ _ _ _ _ _ _).
  unfold newline. change (String (ascii_of_N 10) "") with (String "010" "").
  rewrite Fields_app, app_nil_r, Fields_Join, bind_app by done. cbn [mbind list_bind]. rewrite app_nil_r.
  rewrite formatInitArgs_join.
  2: { unfold buildInitArgs. apply Forall_app. split; [|eapply Forall_impl; [exact Hargs|]; by intros ? []].
       repeat constructor. rewrite no_space_app, digits_no_space by done. done. }
  change ("init=/sbin/vminitd -- " +:+ ?r) with ("init=/sbin/vminitd" +:+ String " " ("--" +:+ String " " r)).
  rewrite !Fields_app, Fields_Join by done. unfold buildInitArgs. rewrite bind_app, (Fields_words (kc_InitArgs cfg)) by done.
  set (cid := "-vsock-cid=" +:+ _).
  assert (Fields cid = [cid]) as Hf.
  { apply Fields_word; [done|]. subst cid. rewrite no_space_app, digits_no_space by done. done. }
  unfold cmdline_parts. cbv zeta. rewrite !bind_app.
  change (if negb (String.eqb (buildNetworkParam (Network cfg)) "") then _ else _) with (net_words (so_NetworkConfig opts)).
  rewrite net_words_fields by done. cbn [mbind list_bind]. rewrite Hf, <- !app_assoc.
  change (vm_flags q) with ["-vsock-rpc-port=1025"; "-vsock-stream-port=1026"; cid].
  exists ["console=ttyS0"; "quiet"; "loglevel=3"; "systemd.show_status=0"; "systemd.log_level=warning"; "panic=1"; "net.ifnames=0";
          "biosdevname=0"; "systemd.unified_cgroup_hierarchy=1"; "cgroup_no_v1=all"; "nohz=off"].
  split; [by repeat constructor|]. split; [by apply (bool_decide_unpack _); vm_compute|]. change (kc_InitArgs cfg) with (InitArgs opts).
  generalize (net_words (so_NetworkConfig opts)), (InitArgs opts). clearbody cid. intros net args. vm_compute. reflexivity.
Qed.

Lemma cmdline_fields q opts :
  0 ≤ guestCID (config q) → network_no_space (so_NetworkConfig opts) →
  Forall (λ a, a ≠ "" ∧ no_space a = true) (InitArgs opts) →
  ∃ pre, Forall foreign pre ∧
    Fields (buildKernelCommandLine q opts +:+ newline) = pre ++ InitArgs opts.
Proof.
  intros Hcid Hnet Hargs. destruct (cmdline_words q opts Hcid Hnet Hargs) as (pre & Hpre & _ & ->).
  exists (pre ++ net_words (so_NetworkConfig opts) ++ ["init=/sbin/vminitd"; "--"] ++ vm_flags q). split; [|by rewrite <- !app_assoc].
  assert (∀ l, Forall plain_word l → Forall foreign l) as Hpl by (intros l Hl; eapply Forall_impl; [exact Hl|]; by intros ? []).
  rewrite (Forall_app _ pre), (Forall_app _ (net_words _)). split_and!; [by apply Hpl| |apply Hpl, vm_flags_plain]. unfold net_words.
  destruct (String.eqb_spec (buildNetworkParam (so_NetworkConfig opts)) "") as [E|Hne]; [by constructor|].
  destruct (network_param _ Hnet) as [?|(_ & r & Hr)]; [done|]. rewrite Hr. by repeat constructor.
Qed.

(** C19: what the annotations of a container say about its supervisor arrives in
    the guest: the shim puts it on the kernel command line, after the network
    configuration and the arguments of init, and the guest reads exactly the same
    workspace, secret, metadata address and control plane from /proc/cmdline, for
    all values without white space.  What the shim has validated the guest
    accepts. *)
Theorem supervisor_args_roundtrip q opts ann c :
  Supervisor.FromAnnotations ann = Some c → Supervisor.Validate c = None →
  forallb no_space [Supervisor.WorkspaceID c; Supervisor.Secret c; Supervisor.MetadataAddr c; Supervisor.ControlPlane c] = true →
  InitArgs opts = Supervisor.InitArgs c → network_no_space (so_NetworkConfig opts) → 0 ≤ guestCID (config q) →
  let g := mkConfig (Supervisor.WorkspaceID c) (Supervisor.Secret c) (Supervisor.MetadataAddr c)
             (Supervisor.ControlPlane c) "" "" "" in
  ParseFromCmdline (Ok (buildKernelCommandLine q opts +:+ newline)) = Ok (Some g) ∧ Validate g = None.
Proof.
  intros Hann Hval Hns Hopts Hnet Hcid g.
  assert (Supervisor.Enabled c = true ∧ Supervisor.MetadataAddr c ≠ "") as [He Hm].
  { revert Hann. unfold Supervisor.FromAnnotations. destruct (negb _); [done|]. intros [= <-]. simpl.
    split; [done|]. unfold Supervisor.or_default. destruct (String.eqb_spec (default "" (ann !! Supervisor.AnnotationMetadataAddr)) "");
      [discriminate|done]. }
  destruct (cmdline_fields q opts) as (pre & Hpre & Hf); [done|done| |].
  { rewrite Hopts. unfold Supervisor.InitArgs. rewrite He. simpl in Hns.
    repeat (apply andb_true_iff in Hns as [?H Hns]).
    repeat (constructor; [split; [done|]; rewrite no_space_app; by apply andb_true_iff|]). constructor. }
  unfold ParseFromCmdline. rewrite Hf, foldl_app, (parse_foreigns _ _ Hpre), Hopts, (parse_InitArgs c He).
  cbn [negb MetadataAddr]. rewrite (proj2 (String.eqb_neq _ _) Hm). split; [done|].
  unfold Supervisor.Validate in Hval. rewrite He in Hval. simpl in Hval. unfold Validate, g. simpl.
  by repeat case_match.
Qed.

End cmdline.

(** ** The binary that is not looked for where it is *)

Section starting.
Import GuestFS GuestBundle GuestSupervisor.

(** What the other goroutines of the guest do to its file system that matters
    here: the bundle service creates bundles. *)
Inductive bundle_step : disk → disk → Prop :=
  | BundleCreated checked written id files w r w' :
      Create checked written RootDir id files w = Return (r, w') → bundle_step w w'.

Lemma RootDir_clean : abs_clean RootDir.
Proof. exists ["run"; "bundles"]. split; [done|]. split; [by repeat constructor|done]. Qed.

Lemma no_base_path w w' :
  rtc bundle_step w w' → nodes w !! BundleBasePath = None → nodes w' !! BundleBasePath = None.
Proof.
  induction 1 as [|w1 w2 w3 [checked written id files w r w' Hc] _ IH]; [done|]. intros Hn. apply IH.
  pose proof (Create_touches checked written RootDir id files w RootDir_clean) as Ht. unfold wp in Ht.
  rewrite Hc in Ht. by rewrite Ht.
Qed.

Lemma FindBinary_none c w :
  nodes w !! BundleBasePath = None → wp (FindBinary c) (λ r w', is_ok r = false ∧ nodes w' = nodes w) w.
Proof.
  intros Hn. apply wp_bind. apply wp_bind, wp_next_fault. intros f fs. apply wp_bind, wp_get. simpl. rewrite Hn.
  apply wp_ret. destruct f; by apply wp_ret.
Qed.

Lemma StartSupervisor_none cmdline environ w :
  nodes (fs w) !! BundleBasePath = None →
  wp (StartSupervisor cmdline environ) (λ r w',
    log w' = log w ∧ nodes (fs w') = nodes (fs w) ∧
    ∀ cfg, ParseFromCmdline cmdline = Ok (Some cfg) → Validate cfg = None → r = None) w.
Proof.
  intros Hn. unfold StartSupervisor. destruct (ParseFromCmdline cmdline) as [[cfg|]|e]; [|by apply wp_ret|by apply wp_ret].
  destruct (Validate cfg) eqn:Ev; [apply wp_ret; split_and!; [done|done|by intros ? [= <-]; rewrite Ev]|].
  apply wp_bind. pose proof (FindBinary_none cfg (fs w) Hn) as Hf. unfold wp, on_fs in *.
  destruct (FindBinary cfg (fs w)) as [[r d]|]; [|done]. destruct Hf as [Hr Hd]. destruct r; [done|].
  split_and!; [done|done|by intros].
Qed.

Lemma attempts_none meanwhile cmdline environ n : ∀ w,
  (∀ i d, rtc bundle_step d (meanwhile i d)) → nodes (fs w) !! BundleBasePath = None →
  wp (attempts meanwhile cmdline environ n) (λ k w', log w' = log w ∧
    ∀ cfg, ParseFromCmdline cmdline = Ok (Some cfg) → Validate cfg = None → (k = min n 1)%nat) w.
Proof.
  induction n as [|n IH]; intros w Hm Hn; [by apply wp_ret|]. simpl. apply wp_bind.
  eapply wp_mono; [by apply StartSupervisor_none|]. intros r w1 (Hl & Hd & Hr).
  destruct r as [e|]; [|apply wp_ret; split; [done|intros; lia]]. apply wp_bind, wp_modify, wp_bind.
  eapply wp_mono; [apply IH; [done|]|].
  - simpl. eapply no_base_path; [apply Hm|]. by rewrite Hd.
  - simpl. intros k w2 [Hl2 _]. apply wp_ret. split; [by rewrite Hl2|].
    intros cfg Hc Hv. by specialize (Hr cfg Hc Hv).
Qed.

(** C20: the supervisor is never started.  The bundle service writes bundles under
    /run/bundles, the goroutine that starts the supervisor looks for its binary
    under /run/spinbox, which nothing creates: whatever bundles are created
    before and between its attempts, the goroutine ends without having started
    or prepared anything, and with a complete configuration on the command line
    it does so after a single attempt, because a missing binary counts as
    success. *)
Theorem supervisor_never_started meanwhile cmdline environ w :
  (∀ i d, rtc bundle_step d (meanwhile i d)) → nodes (fs w) !! BundleBasePath = None →
  ∃ k w', supervisor_goroutine meanwhile cmdline environ w = Return (k, w') ∧ log w' = log w ∧
    ∀ cfg, ParseFromCmdline cmdline = Ok (Some cfg) → Validate cfg = None → k = 1%nat.
Proof.
  intros Hm Hn. apply wp_Return. unfold supervisor_goroutine. apply wp_bind, wp_modify.
  eapply wp_mono; [apply attempts_none; [done|]|by intros]. simpl. eapply no_base_path; [apply Hm|done].
Qed.

End starting.

(** ** A container with a supervisor *)

Module SupervisorDemo.
Import GuestFS GuestBundle GuestSupervisor.

Definition annotations : gmap string string :=
  <[Supervisor.AnnotationEnabled := "true"]> (<[Supervisor.AnnotationWorkspaceID := "ws-1"]>
  (<[Supervisor.AnnotationSecret := "s3cret"]> (<[Supervisor.AnnotationControlPlane := "10.0.0.1:443"]> ∅))).
Definition host_config : Supervisor.Config :=
  default (Supervisor.mkConfig false "" "" "" "" "" "") (Supervisor.FromAnnotations annotations).
Definition opts : Qemu.StartOpts :=
  Qemu.mkStartOpts (Supervisor.InitArgs host_config)
    (Some (Qemu.mkNetwork "eth0" "10.88.0.2" "10.88.0.1" "255.255.0.0" ["1.1.1.1"])) "".
Definition cmdline : string := Qemu.buildKernelCommandLine QemuCmdDemo.q opts +:+ newline.

Lemma supervisor_args_roundtrip_witness :
  ParseFromCmdline (Ok cmdline) =
  Ok (Some (mkConfig "ws-1" "s3cret" "169.254.169.254:80" "10.0.0.1:443" "" "" "")).
Proof.
  apply (supervisor_args_roundtrip QemuCmdDemo.q opts annotations host_config); try (vm_compute; reflexivity).
  vm_compute. discriminate.
Defined.

(** While the goroutine sleeps, the container's bundle with the binary arrives. *)
Definition bundle_arrives (i : nat) (d : disk) : disk :=
  match Create BundleDemo.order0 BundleDemo.order0 RootDir "task1" {[ "spin-supervisor" := "ELF" ]} d with
  | Return (_, d') => d'
  | Panic _ => d
  end.
Lemma bundle_arrives_steps i d : rtc bundle_step d (bundle_arrives i d).
Proof.
  unfold bundle_arrives. destruct (Create _ _ _ _ _ d) as [[r d']|] eqn:E; [|reflexivity].
  eapply rtc_once, BundleCreated, E.
Qed.
Definition booted : world := mkWorld BundleDemo.disk0 [] [].

Lemma supervisor_never_started_witness :
  ∃ w', supervisor_goroutine bundle_arrives (Ok cmdline) [] booted = Return (1%nat, w') ∧ log w' = [] ∧
    nodes (fs w') !! "/run/bundles/task1/spin-supervisor" = Some (FileNode "ELF").
Proof.
  destruct (supervisor_never_started bundle_arrives (Ok cmdline) [] booted bundle_arrives_steps eq_refl)
    as (k & w' & E & Hl & Hk).
  assert (k = 1%nat) as ->.
  { eapply Hk; [vm_compute; reflexivity|vm_compute; reflexivity]. }
  exists w'. split; [exact E|]. split; [exact Hl|]. revert E.
  assert (∃ w2, supervisor_goroutine bundle_arrives (Ok cmdline) [] booted = Return (1%nat, w2) ∧
    nodes (fs w2) !! "/run/bundles/task1/spin-supervisor" = Some (FileNode "ELF")) as (w2 & E2 & H2).
  { eexists. split; [vm_compute; reflexivity|vm_compute; reflexivity]. }
  intros E. rewrite E2 in E. injection E as <-. exact H2.
Defined.

End SupervisorDemo.
