(* ===== verification/GuestDevices.v ===== *)
(** * Waiting for devices in the guest

    Models internal/guest/vminit/devices/blockdev.go: the parser of inotify
    events and the waits for the virtio block devices.  [GuestOS] is what this
    and the system service (GuestSystem.v) ask of the kernel: files, inotify, the
    clock and the context.  A wait is a loop of rounds, [m_loop], which takes a
    number of rounds as fuel; the theorems give a number that is enough. *)

From S2P Require Import Prelude GoStrings GoTime.
From Stdlib Require Import Ascii.

(** ** The kernel *)

Module GuestOS.

(** [EINTR] and [EAGAIN] of a system call, or another error. *)
Inductive errno := EINTR | EAGAIN | EOther (e : error).

Class OS (W : Type) := {
  os_Stat : string → W → option error * W;
  os_ReadDir : string → W → result (list string) * W;
  os_ReadFile : string → W → result string * W;
  os_WriteFile : string → string → W → option error * W;
  InotifyInit1 : W → result Z * W;
  (* the descriptor, the path and whether moves into it are wanted too *)
  InotifyAddWatch : Z → string → bool → W → option error * W;
  unix_Close : Z → W → W;
  (* the number of ready descriptors *)
  unix_Poll : Z → Z → W → (Z + errno) * W;
  (* the bytes that were read into the buffer *)
  unix_Read : Z → W → (string + errno) * W;
  time_Now : W → Time * W;
  time_Sleep : Duration → W → W;
  (* ctx.Err(): an error once ctx.Done() is closed *)
  ctx_Err : W → option error * W }.

Definition io {W A} (f : W → A * W) : M W A := λ w, Return (f w).
Definition io_ {W} (f : W → W) : M W () := λ w, Return (tt, f w).

(** A loop: a round goes on with a new state or leaves with a result. *)
Fixpoint m_loop {W S A} (body : S → M W (S + A)) (n : nat) (s : S) : M W (option A) :=
  match n with
  | O => m_ret None
  | S n' => m_bind (body s) (λ r, match r with inl s' => m_loop body n' s' | inr a => m_ret (Some a) end)
  end.

End GuestOS.

(** ** inotify events *)

Module Inotify.

Definition SizeofInotifyEvent : nat := 16.

Definition byte_at (s : string) (i : nat) : Z :=
  match String.get i s with Some a => Z.of_N (N_of_ascii a) | None => 0 end.
Definition u32_at (s : string) (i : nat) : Z :=
  byte_at s i + 256 * (byte_at s (i + 1) + 256 * (byte_at s (i + 2) + 256 * byte_at s (i + 3))).

(** [s[i:i+n]]. *)
Definition slice (s : string) (i n : nat) : string := str_take n (str_drop i s).

(** [strings.TrimRight(name, "\x00")]. *)
Fixpoint trim_nul (s : string) : string :=
  match s with
  | EmptyString => EmptyString
  | String a s' => match trim_nul s' with
                   | EmptyString => if Ascii.eqb a "000" then EmptyString else String a EmptyString
                   | t => String a t
                   end
  end.

(** The field [Len] of the event at [offset]. *)
Definition event_len (buf : string) (offset : nat) : nat := Z.to_nat (u32_at buf (offset + 12)).

(** [parseInotifyEvents]; the handler may change variables of its caller. *)
Fixpoint parse_from {S} (fuel : nat) (buf : string) (nread : nat) (handler : S → string → bool * S) (offset : nat) (s : S)
    : bool * S :=
  match fuel with
  | O => (false, s)
  | Datatypes.S fuel' =>
      if Nat.ltb offset nread then
        if Nat.ltb nread (offset + SizeofInotifyEvent) then (false, s)
        else
          let nameLen := event_len buf offset in
          let next := (offset + (SizeofInotifyEvent + nameLen))%nat in
          if Nat.ltb 0 nameLen then
            if Nat.ltb nread next then (false, s)
            else
              let '(done, s') := handler s (trim_nul (slice buf (offset + SizeofInotifyEvent) nameLen)) in
              if done then (true, s') else parse_from fuel' buf nread handler next s'
          else parse_from fuel' buf nread handler next s
      else (false, s)
  end.

(** Every event has at least [SizeofInotifyEvent] bytes: as many rounds as bytes
    are more than enough. *)
Definition parseInotifyEvents {S} (buf : string) (nread : nat) (handler : S → string → bool * S) (s : S) : bool * S :=
  parse_from (Datatypes.S nread) buf nread handler 0 s.

End Inotify.

(** ** blockdev.go *)

Module Devices.
Import GuestOS Inotify.
#[local] Open Scope m_scope.

Definition BlockDeviceTimeout : Duration := 5 * Second.
Definition inotifyPollInterval : Z := 100.

Section devices.
Context {W : Type} `{OS W}.

Definition findVirtioBlockDevices : M W (result (list string)) :=
  r ← io (os_ReadDir "/sys/block");
  m_ret (match r with
         | Err e => Err e
         | Ok entries => Ok (filter (λ name, HasPrefix name "vd" = true) entries)
         end).

(** The devices if there are any, [None] otherwise. *)
Definition some_devices (r : result (list string)) : option (list string) :=
  match r with Ok (d :: ds) => Some (d :: ds) | _ => None end.
(** [devices, _ := findVirtioBlockDevices()]. *)
Definition any_devices (r : result (list string)) : list string :=
  match r with Ok ds => ds | Err _ => [] end.

(** (hasData, shouldContinue); errors are only logged by the callers. *)
Definition pollInotifyFd (fd timeoutMs : Z) : M W (bool * bool) :=
  c ← io ctx_Err;
  match c with
  | Some _ => m_ret (false, false)
  | None =>
      n ← io (unix_Poll fd timeoutMs);
      m_ret (match n with
             | inl n => (0 <? n, true)
             | inr EINTR => (false, true)
             | inr _ => (false, false)
             end)
  end.

(** What was read and shouldContinue. *)
Definition readInotifyEvents (fd : Z) : M W (string * bool) :=
  r ← io (unix_Read fd);
  m_ret (match r with
         | inl data => (data, true)
         | inr (EAGAIN | EINTR) => ("", true)
         | inr (EOther _) => ("", false)
         end).

Definition dev (name : string) : string := "/dev/" +:+ name.

(** Those of [devs] that are not there. *)
Fixpoint missing (devs : list string) : M W (list string) :=
  match devs with
  | [] => m_ret []
  | d :: devs' =>
      e ← io (os_Stat (dev d));
      rest ← missing devs';
      m_ret (match e with Some _ => d :: rest | None => rest end)
  end.

(** One attempt of [waitForDevNodesPoll]: the first device that is not there
    ends it. *)
Fixpoint all_exist (devs : list string) : M W bool :=
  match devs with
  | [] => m_ret true
  | d :: devs' =>
      e ← io (os_Stat (dev d));
      match e with Some _ => m_ret false | None => all_exist devs' end
  end.

Definition devPoll_round (devices : list string) (deadline : Time) (backoff : Duration) : M W (Duration + bool) :=
  t ← io time_Now;
  if negb (t <? deadline) then m_ret (inr false)
  else
    c ← io ctx_Err;
    match c with
    | Some _ => m_ret (inr false)
    | None =>
        ok ← all_exist devices;
        if ok then m_ret (inr true)
        else io_ (time_Sleep backoff) ≫= λ _, m_ret (inl (Z.min (backoff * 2) (50 * Millisecond)))
    end.

Definition waitForDevNodesPoll (fuel : nat) (devices : list string) (timeout : Duration) : M W (option bool) :=
  t ← io time_Now;
  m_loop (devPoll_round devices (t + timeout)) fuel (5 * Millisecond).

(** The set [waiting] is a list: the devices still missing. *)
Definition note_device (waiting : list string) (name : string) : bool * list string :=
  (false, filter (λ d, d ≠ name) waiting).

Definition devNodes_round (fd : Z) (deadline : Time) (waiting : list string) : M W (list string + bool) :=
  t ← io time_Now;
  if negb (t <? deadline) || bool_decide (waiting = []) then m_ret (inr (bool_decide (waiting = [])))
  else
    now ← io time_Now;
    let remaining := deadline - now in
    if remaining <=? 0 then m_ret (inr (bool_decide (waiting = [])))
    else
      p ← pollInotifyFd fd (Z.min (Z.quot remaining Millisecond) inotifyPollInterval);
      let '(hasData, shouldContinue) := p in
      if negb shouldContinue then m_ret (inr false)
      else if negb hasData then m_ret (inl waiting)
      else
        r ← readInotifyEvents fd;
        let '(buf, shouldContinue) := r in
        if negb shouldContinue then m_ret (inr false)
        else m_ret (inl (snd (parseInotifyEvents buf (String.length buf) note_device waiting))).

(** The deferred [unix.Close(fd)]. *)
Definition closing {A} (fd : Z) (m : M W A) : M W A :=
  a ← m; io_ (unix_Close fd) ≫= λ _, m_ret a.

Definition waitForDevNodesInotify (fuel : nat) (devices : list string) (timeout : Duration) : M W (option bool) :=
  if bool_decide (devices = []) then m_ret (Some true)
  else
    waiting ← missing devices;
    if bool_decide (waiting = []) then m_ret (Some true)
    else
      i ← io InotifyInit1;
      match i with
      | Err _ => waitForDevNodesPoll fuel devices timeout
      | Ok fd =>
          closing fd (
            a ← io (InotifyAddWatch fd "/dev" false);
            match a with
            | Some _ => waitForDevNodesPoll fuel devices timeout
            | None =>
                waiting ← missing waiting;
                if bool_decide (waiting = []) then m_ret (Some true)
                else
                  t ← io time_Now;
                  m_loop (devNodes_round fd (t + timeout)) fuel waiting
            end)
      end.

Definition sysPoll_round (backoff : Duration) : M W (Duration + list string) :=
  c ← io ctx_Err;
  match c with
  | Some _ => r ← findVirtioBlockDevices; m_ret (inr (any_devices r))
  | None =>
      r ← findVirtioBlockDevices;
      match some_devices r with
      | Some ds => m_ret (inr ds)
      | None => io_ (time_Sleep backoff) ≫= λ _, m_ret (inl (Z.min (backoff * 2) (50 * Millisecond)))
      end
  end.
Definition waitForSysBlockDevicesPoll (fuel : nat) : M W (option (list string)) :=
  m_loop sysPoll_round fuel (5 * Millisecond).

Definition is_virtio (_ : ()) (name : string) : bool * () := (HasPrefix name "vd", tt).

Definition sysBlock_round (fd : Z) (_ : ()) : M W (() + list string) :=
  p ← pollInotifyFd fd inotifyPollInterval;
  let '(hasData, shouldContinue) := p in
  if negb shouldContinue then r ← findVirtioBlockDevices; m_ret (inr (any_devices r))
  else if negb hasData then
    r ← findVirtioBlockDevices;
    m_ret (match some_devices r with Some ds => inr ds | None => inl tt end)
  else
    d ← readInotifyEvents fd;
    let '(buf, shouldContinue) := d in
    if negb shouldContinue then r ← findVirtioBlockDevices; m_ret (inr (any_devices r))
    else if fst (parseInotifyEvents buf (String.length buf) is_virtio tt) then
      r ← findVirtioBlockDevices; m_ret (inr (any_devices r))
    else m_ret (inl tt).

Definition waitForSysBlockDevices (fuel : nat) : M W (option (list string)) :=
  r ← findVirtioBlockDevices;
  match some_devices r with
  | Some ds => m_ret (Some ds)
  | None =>
      i ← io InotifyInit1;
      match i with
      | Err _ => waitForSysBlockDevicesPoll fuel
      | Ok fd =>
          closing fd (
            a ← io (InotifyAddWatch fd "/sys/block" false);
            match a with
            | Some _ => waitForSysBlockDevicesPoll fuel
            | None =>
                r ← findVirtioBlockDevices;
                match some_devices r with
                | Some ds => m_ret (Some ds)
                | None => m_loop (sysBlock_round fd) fuel tt
                end
            end)
      end
  end.

(** The result, which the code only logs, tells whether all nodes are ready. *)
Definition WaitForBlockDevices (fuel : nat) : M W (option bool) :=
  ds ← waitForSysBlockDevices fuel;
  match ds with
  | None => m_ret None
  | Some [] => m_ret (Some false)
  | Some vdDevices => waitForDevNodesInotify fuel vdDevices BlockDeviceTimeout
  end.

End devices.
End Devices.

(** ** The events of a buffer *)

Section inotify_lemmas.
Import Inotify.

(** The names of the events, as far as they are complete. *)
Fixpoint names_from (fuel : nat) (buf : string) (nread offset : nat) : list string :=
  match fuel with
  | O => []
  | S fuel' =>
      if Nat.ltb offset nread then
        if Nat.ltb nread (offset + SizeofInotifyEvent) then []
        else
          let nameLen := event_len buf offset in
          let next := (offset + (SizeofInotifyEvent + nameLen))%nat in
          if Nat.ltb nread next then []
          else (if Nat.ltb 0 nameLen then [trim_nul (slice buf (offset + SizeofInotifyEvent) nameLen)] else []) ++
               names_from fuel' buf nread next
      else []
  end.
Definition event_names (data : string) : list string := names_from (S (String.length data)) data (String.length data) 0.

(** The handler on a list of names, up to the first it is done with. *)
Fixpoint run_handler {S} (handler : S → string → bool * S) (s : S) (names : list string) : bool * S :=
  match names with
  | [] => (false, s)
  | n :: names' => let '(done, s') := handler s n in if done then (true, s') else run_handler handler s' names'
  end.

Lemma parse_from_names {S} (handler : S → string → bool * S) buf nread fuel : ∀ offset s,
  parse_from fuel buf nread handler offset s = run_handler handler s (names_from fuel buf nread offset).
Proof.
  induction fuel as [|fuel IH]; intros offset s; [done|]. cbn [parse_from names_from]. cbv zeta.
  destruct (Nat.ltb_spec offset nread); [|done]. destruct (Nat.ltb_spec nread (offset + SizeofInotifyEvent)); [done|].
  destruct (Nat.ltb_spec 0 (event_len buf offset)) as [Hl|Hl].
  - destruct (Nat.ltb nread _); [done|]. simpl. destruct (handler _ _) as [[|] s']; [done|apply IH].
  - replace (event_len buf offset) with 0%nat in * by lia.
    rewrite (proj2 (Nat.ltb_ge _ _)) by lia. apply IH.
Qed.

Lemma get_app_l (a b : string) i : (i < String.length a)%nat → String.get i (a +:+ b) = String.get i a.
Proof. revert i. induction a as [|c a IH]; intros i Hi; [simpl in Hi; lia|]. destruct i as [|i]; [done|]. apply IH. simpl in Hi. lia. Qed.

Lemma u32_at_app a b i : (i + 3 < String.length a)%nat → u32_at (a +:+ b) i = u32_at a i.
Proof. intros Hi. unfold u32_at, byte_at. by rewrite !get_app_l by lia. Qed.

Lemma slice_app_l (a b : string) i n : (i + n ≤ String.length a)%nat → slice (a +:+ b) i n = slice a i n.
Proof.
  unfold slice. revert i. induction a as [|c a IH]; intros i Hi; simpl in Hi.
  - assert (i = 0 ∧ n = 0)%nat as [-> ->] by lia. by destruct b.
  - destruct i as [|i]; [|apply IH; lia]. change (str_take n (String c (a +:+ b)) = str_take n (String c a)).
    clear IH. assert (n ≤ S (String.length a))%nat as Hn by lia. clear Hi. revert c n Hn.
    induction a as [|d a IHa]; intros c n Hn; (destruct n as [|n]; [done|]); simpl in Hn.
    + assert (n = 0%nat) as -> by lia. simpl. by destruct b.
    + change (String c (str_take n (String d (a +:+ b))) = String c (str_take n (String d a))). f_equal. apply IHa. lia.
Qed.

Lemma names_from_app data stale fuel : ∀ offset,
  names_from fuel (data +:+ stale) (String.length data) offset = names_from fuel data (String.length data) offset.
Proof.
  induction fuel as [|fuel IH]; intros offset; [done|]. cbn [names_from]. unfold SizeofInotifyEvent. cbv zeta.
  destruct (Nat.ltb_spec offset (String.length data)); [|done].
  destruct (Nat.ltb_spec (String.length data) (offset + 16)); [done|].
  assert (event_len (data +:+ stale) offset = event_len data offset) as -> by (unfold event_len; by rewrite u32_at_app by lia).
  destruct (Nat.ltb_spec (String.length data) (offset + (16 + event_len data offset))); [done|].
  rewrite IH, slice_app_l by lia. done.
Qed.

(** *** Events as the kernel writes them *)

Record event := mkEvent { wd : Z; mask : Z; cookie : Z; ev_name : string; pad : nat }.

Definition byte (z : Z) : ascii := ascii_of_N (Z.to_N (z mod 256)).
Definition put_u32 (z : Z) : string :=
  String (byte z) (String (byte (z / 256)) (String (byte (z / 256 / 256)) (String (byte (z / 256 / 256 / 256)) ""))).
Fixpoint nuls (n : nat) : string := match n with O => "" | S n' => String "000" (nuls n') end.
Definition ev_len (e : event) : nat := (String.length (ev_name e) + pad e)%nat.
Definition encode_event (e : event) : string :=
  put_u32 (wd e) +:+ put_u32 (mask e) +:+ put_u32 (cookie e) +:+ put_u32 (Z.of_nat (ev_len e)) +:+ ev_name e +:+ nuls (pad e).
Definition encode (evs : list event) : string := String.concat "" (encode_event <$> evs).

(** A name has no NUL, and is empty only without padding. *)
Definition ev_ok (e : event) : Prop :=
  str_all (not_char "000") (ev_name e) = true ∧ (ev_name e = "" → pad e = 0%nat) ∧ Z.of_nat (ev_len e) < 2 ^ 32.

Lemma byte_value z : Z.of_N (N_of_ascii (byte z)) = z mod 256.
Proof.
  unfold byte. rewrite N_ascii_embedding; [|].
  - rewrite Z2N.id; [done|]. apply Z.mod_pos_bound. lia.
  - pose proof (Z.mod_pos_bound z 256). lia.
Qed.

Lemma put_u32_at z a b : 0 ≤ z < 2 ^ 32 → u32_at (a +:+ put_u32 z +:+ b) (String.length a) = z.
Proof.
  intros Hz. assert (∀ k, (k < 4)%nat → String.get (String.length a + k) (a +:+ put_u32 z +:+ b) = String.get k (put_u32 z)) as Hg.
  { intros k Hk. induction a as [|c a IH]; [|exact IH]. do 4 (destruct k as [|k]; [done|]). lia. }
  unfold u32_at, byte_at. rewrite <-(Nat.add_0_r (String.length a)) at 1. rewrite !Hg by lia.
  cbn [String.get put_u32]. rewrite !byte_value.
  pose proof (Z.div_mod z 256). pose proof (Z.div_mod (z / 256) 256). pose proof (Z.div_mod (z / 256 / 256) 256).
  assert (z / 256 / 256 / 256 < 256) by (rewrite !Z.div_div by lia; apply Z.div_lt_upper_bound; lia).
  rewrite (Z.mod_small (z / 256 / 256 / 256)) by (split; [repeat apply Z.div_pos; lia|lia]). lia.
Qed.

Lemma trim_nul_nuls n : trim_nul (nuls n) = "".
Proof. induction n as [|n IH]; simpl; [done|]. by rewrite IH. Qed.
Lemma trim_nul_name s n : str_all (not_char "000") s = true → trim_nul (s +:+ nuls n) = s.
Proof.
  induction s as [|c s IH]; intros Hs; [apply trim_nul_nuls|]. cbn [str_all] in Hs.
  apply andb_true_iff in Hs as [Hc Hs]. change (String c s +:+ nuls n) with (String c (s +:+ nuls n)). cbn [trim_nul].
  rewrite IH by done. destruct s; [|done]. unfold not_char in Hc. by destruct (Ascii.eqb c "000").
Qed.

Lemma slice_mid a b c : slice (a +:+ b +:+ c) (String.length a) (String.length b) = b.
Proof.
  unfold slice. rewrite str_drop_app. induction b as [|x b IH]; [by destruct c|].
  change (String x (str_take (String.length b) (b +:+ c)) = String x b). by rewrite IH.
Qed.

Lemma nuls_length n : String.length (nuls n) = n.
Proof. induction n as [|n IH]; simpl; [done|]. by rewrite IH. Qed.
Lemma event_length e : String.length (encode_event e) = (16 + ev_len e)%nat.
Proof. unfold encode_event, ev_len. rewrite !append_length, nuls_length. simpl. lia. Qed.

Definition ev_names (evs : list event) : list string := filter (λ n, n ≠ "") (ev_name <$> evs).

Lemma encode_cons e evs : encode (e :: evs) = encode_event e +:+ encode evs.
Proof. unfold encode. destruct evs as [|e' evs]; [simpl; by rewrite append_nil_r|done]. Qed.

(** An event in the middle of a buffer. *)
Lemma event_len_at pre e rest :
  Z.of_nat (ev_len e) < 2 ^ 32 → event_len (pre +:+ encode_event e +:+ rest) (String.length pre) = ev_len e.
Proof.
  intros Hlen. unfold event_len, encode_event. rewrite !append_assoc.
  rewrite <-(append_assoc (put_u32 (wd e))), <-(append_assoc (put_u32 (wd e) +:+ put_u32 (mask e))), <-(append_assoc pre).
  replace (String.length pre + 12)%nat with
    (String.length (pre +:+ (put_u32 (wd e) +:+ put_u32 (mask e)) +:+ put_u32 (cookie e)))
    by (rewrite !append_length; simpl; lia).
  rewrite put_u32_at by lia. lia.
Qed.

Lemma event_name_at pre e rest :
  str_all (not_char "000") (ev_name e) = true →
  trim_nul (slice (pre +:+ encode_event e +:+ rest) (String.length pre + SizeofInotifyEvent) (ev_len e)) = ev_name e.
Proof.
  intros Hnul. unfold encode_event.
  set (hdr := put_u32 (wd e) +:+ put_u32 (mask e) +:+ put_u32 (cookie e) +:+ put_u32 (Z.of_nat (ev_len e))).
  replace (pre +:+ _ +:+ rest) with ((pre +:+ hdr) +:+ (ev_name e +:+ nuls (pad e)) +:+ rest)
    by (subst hdr; by rewrite !append_assoc).
  replace (String.length pre + SizeofInotifyEvent)%nat with (String.length (pre +:+ hdr))
    by (subst hdr; unfold SizeofInotifyEvent; rewrite !append_length; simpl; lia).
  replace (ev_len e) with (String.length (ev_name e +:+ nuls (pad e))) by (unfold ev_len; by rewrite append_length, nuls_length).
  rewrite slice_mid. by apply trim_nul_name.
Qed.

Lemma ev_names_cons e evs :
  ev_ok e → ev_names (e :: evs) = (if Nat.ltb 0 (ev_len e) then [ev_name e] else []) ++ ev_names evs.
Proof.
  intros (_ & Hpad & _). unfold ev_names. simpl. destruct (Nat.ltb_spec 0 (ev_len e)) as [Hl|Hl].
  - rewrite filter_cons_True; [done|]. intros E. unfold ev_len in Hl. rewrite E, (Hpad E) in Hl. simpl in Hl. lia.
  - rewrite filter_cons_False; [done|]. unfold ev_len in Hl. destruct (ev_name e); [by intros []|simpl in Hl; lia].
Qed.

Lemma names_from_encode evs : ∀ pre fuel,
  Forall ev_ok evs → (length evs < fuel)%nat →
  names_from fuel (pre +:+ encode evs) (String.length (pre +:+ encode evs)) (String.length pre) = ev_names evs.
Proof.
  induction evs as [|e evs IH]; intros pre fuel Hev Hf; (destruct fuel as [|fuel]; [simpl in Hf; lia|]).
  - simpl. rewrite append_nil_r. by rewrite Nat.ltb_irrefl.
  - apply Forall_cons in Hev as [He Hev]. pose proof He as (Hnul & _ & Hlen). rewrite encode_cons, ev_names_cons by done.
    cbn [names_from]. rewrite event_len_at, event_name_at by done. unfold SizeofInotifyEvent.
    rewrite !append_length, event_length. rewrite (proj2 (Nat.ltb_lt _ _)) by lia.
    rewrite !(proj2 (Nat.ltb_ge _ _)) by lia.
    replace (String.length pre + (16 + ev_len e))%nat with (String.length (pre +:+ encode_event e))
      by (rewrite append_length, event_length; lia).
    replace (String.length pre + (16 + ev_len e + String.length (encode evs)))%nat
      with (String.length ((pre +:+ encode_event e) +:+ encode evs)) by (rewrite !append_length, event_length; lia).
    rewrite <-append_assoc, IH by (done || simpl in Hf; lia). done.
Qed.

Lemma encode_length evs : (length evs ≤ String.length (encode evs))%nat.
Proof.
  induction evs as [|e evs IH]; [simpl; lia|]. rewrite encode_cons, append_length, event_length. simpl. lia.
Qed.

Lemma event_names_encode evs : Forall ev_ok evs → event_names (encode evs) = ev_names evs.
Proof.
  intros Hev. unfold event_names. apply (names_from_encode evs ""); [done|]. pose proof (encode_length evs). lia.
Qed.

(** C18: the events the kernel wrote are the events that are handled.  For any list
    of events in the kernel's layout, at the start of a buffer with any contents
    after them, parsing calls the handler on exactly the names of the events, in
    order, until it is done; and nothing after the bytes that were read has an
    influence, even if the last event is incomplete. *)
Theorem inotify_roundtrip {S} (handler : S → string → bool * S) (s : S) :
  (∀ evs stale, Forall ev_ok evs →
     parseInotifyEvents (encode evs +:+ stale) (String.length (encode evs)) handler s =
     run_handler handler s (ev_names evs)) ∧
  (∀ data stale,
     parseInotifyEvents (data +:+ stale) (String.length data) handler s =
     parseInotifyEvents data (String.length data) handler s).
Proof.
  unfold parseInotifyEvents. split.
  - intros evs stale Hev. rewrite parse_from_names, names_from_app. f_equal. by apply event_names_encode.
  - intros data stale. by rewrite !parse_from_names, names_from_app.
Qed.

End inotify_lemmas.

(** ** The waits end *)

Section loops.
Import GuestOS.

Lemma wp_os_io {W A} (f : W → A * W) (Q : A → W → Prop) w : Q (fst (f w)) (snd (f w)) → wp (io f) Q w.
Proof. unfold wp, io. by destruct (f w). Qed.
Lemma wp_os_io_ {W} (f : W → W) (Q : () → W → Prop) w : Q tt (f w) → wp (io_ f) Q w.
Proof. done. Qed.

End loops.

(** What the waits rely on: time passes, files and device nodes do not disappear,
    an event of a watched directory names an entry of it.  [attr] is the contents
    of the attributes in sysfs: the kernel adds attributes with their devices and
    changes them only when they are written to. *)
Module DeviceLaws.
Import GuestOS.

Class Laws (W : Type) `{OS W} := {
  clock : W → Time;
  nodes : W → gset string;
  attr : W → gmap string string;
  watched : W → Z → option string;
  ctx_deadline : Time;
  (* no step goes back *)
  later : W → W → Prop := λ w w', clock w ≤ clock w' ∧ nodes w ⊆ nodes w' ∧ attr w ⊆ attr w';
  onward : W → W → Prop := λ w w', later w w' ∧ ∀ fd d, watched w fd = Some d → watched w' fd = Some d;
  stat_onward p w : onward w (snd (os_Stat p w));
  readdir_onward p w : onward w (snd (os_ReadDir p w));
  readfile_onward p w : onward w (snd (os_ReadFile p w));
  init_onward w : onward w (snd (InotifyInit1 w));
  watch_later fd p m w : later w (snd (InotifyAddWatch fd p m w));
  poll_onward fd t w : onward w (snd (unix_Poll fd t w));
  read_onward fd w : onward w (snd (unix_Read fd w));
  now_onward w : onward w (snd (time_Now w));
  sleep_onward d w : onward w (time_Sleep d w);
  ctx_onward w : onward w (snd (ctx_Err w));
  close_later fd w : later w (unix_Close fd w);
  (* the clock ticks whenever it is read, and polling and sleeping take time *)
  now_ticks w : clock w < fst (time_Now w) ≤ clock (snd (time_Now w));
  poll_ticks fd t w : clock w < clock (snd (unix_Poll fd t w));
  sleep_ticks d w : 0 < d → clock w < clock (time_Sleep d w);
  ctx_expires w : ctx_deadline ≤ clock w → is_Some (fst (ctx_Err w));
  stat_node p w : fst (os_Stat p w) = None → p ∈ nodes (snd (os_Stat p w));
  watch_set fd p m w : fst (InotifyAddWatch fd p m w) = None → watched (snd (InotifyAddWatch fd p m w)) fd = Some p;
  read_names fd dir data w : watched w fd = Some dir → fst (unix_Read fd w) = inl data →
    ∀ name, name ∈ event_names data → dir +:+ "/" +:+ name ∈ nodes (snd (unix_Read fd w)) }.

End DeviceLaws.

Section waits.
Import GuestOS Inotify Devices DeviceLaws.
Context {W : Type} `{OS W, !Laws W}.

#[export] Instance onward_preorder : PreOrder onward.
Proof.
  split; [by intros w|]. intros w1 w2 w3 ((H1 & H2 & H7) & H3) ((H4 & H5 & H8) & H6).
  split; [split_and!; [lia|set_solver|by etransitivity]|auto].
Qed.
#[export] Instance later_preorder : PreOrder later.
Proof. split; [by intros w|]. intros w1 w2 w3 (? & ? & ?) (? & ? & ?). split_and!; [lia|set_solver|by etransitivity]. Qed.
#[export] Instance onward_later : subrelation onward later.
Proof. by intros w w' [? _]. Qed.

(** The steps of a wait only go onward. *)
Definition goes {A} (m : M W A) (Q : A → W → Prop) (w : W) : Prop := wp m (λ a w', onward w w' ∧ Q a w') w.

Lemma goes_bind {A B} (m : M W A) (f : A → M W B) (Q : B → W → Prop) w :
  goes m (λ a w', goes (f a) Q w') w → goes (m_bind m f) Q w.
Proof.
  intros Hm. apply wp_bind. eapply wp_mono; [exact Hm|]. intros a w1 [Ho Hf].
  eapply wp_mono; [exact Hf|]. intros b w2 [Ho2 HQ]. split; [by transitivity w1|done].
Qed.
Lemma goes_ret {A} (a : A) (Q : A → W → Prop) w : Q a w → goes (m_ret a) Q w.
Proof. intros HQ. apply wp_ret. by split. Qed.
Lemma goes_io {A} (f : W → A * W) (Q : A → W → Prop) w :
  onward w (snd (f w)) → Q (fst (f w)) (snd (f w)) → goes (io f) Q w.
Proof. intros ? ?. by apply wp_os_io. Qed.
Lemma goes_mono {A} (m : M W A) (Q Q' : A → W → Prop) w :
  goes m Q w → (∀ a w', onward w w' → Q a w' → Q' a w') → goes m Q' w.
Proof. intros Hm HQ. eapply wp_mono; [exact Hm|]. intros a w' [? ?]. auto. Qed.

(** A loop in which every round that goes on lowers a measure ends, with more
    rounds than the measure of its start. *)
Lemma loop_goes {S A} (body : S → M W (S + A)) (μ : W → nat) (I : S → W → Prop) (Q : A → W → Prop) :
  (∀ s w, I s w → goes (body s) (λ r w', match r with
     | inl s' => I s' w' ∧ (μ w' < μ w)%nat
     | inr a => Q a w'
     end) w) →
  ∀ n s w, I s w → (μ w < n)%nat → goes (m_loop body n s) (λ r w', ∃ a, r = Some a ∧ Q a w') w.
Proof.
  intros Hb n. induction n as [|n IH]; intros s w HI Hn; [lia|]. cbn [m_loop]. apply goes_bind.
  eapply goes_mono; [by apply Hb|]. intros [s'|a] w' _.
  - intros [HI' Hlt]. apply IH; [done|lia].
  - intros HQ. apply goes_ret. by exists a.
Qed.

Lemma goes_find (Q : result (list string) → W → Prop) w :
  (∀ r w', onward w w' → Q r w') → goes findVirtioBlockDevices Q w.
Proof. intros HQ. apply goes_bind, goes_io; [apply readdir_onward|]. apply goes_ret, HQ, readdir_onward. Qed.

Lemma goes_poll fd t (Q : bool * bool → W → Prop) w :
  (∀ r w', onward w w' → (snd r = true → clock w < clock w' ∧ clock w < ctx_deadline) → Q r w') →
  goes (pollInotifyFd fd t) Q w.
Proof.
  intros HQ. pose proof (ctx_onward w) as Hc. apply goes_bind, goes_io; [done|].
  destruct (fst (ctx_Err w)) eqn:Ec; [apply goes_ret, HQ; done|].
  pose proof (poll_onward fd t (snd (ctx_Err w))) as Hp. apply goes_bind, goes_io; [done|]. apply goes_ret, HQ.
  - by etransitivity.
  - intros _. pose proof (poll_ticks fd t (snd (ctx_Err w))). destruct Hc as [[Hc _] _]. split; [lia|].
    destruct (Z.le_gt_cases ctx_deadline (clock w)) as [Hd|Hd]; [|done].
    apply ctx_expires in Hd as [e He]. congruence.
Qed.

Lemma goes_read fd dir (Q : string * bool → W → Prop) w :
  watched w fd = Some dir →
  (∀ r w', onward w w' → (∀ name, name ∈ event_names (fst r) → dir +:+ "/" +:+ name ∈ nodes w') → Q r w') →
  goes (readInotifyEvents fd) Q w.
Proof.
  intros Hw HQ. apply goes_bind, goes_io; [apply read_onward|]. pose proof (read_names fd dir) as Hn.
  destruct (fst (unix_Read fd w)) as [data|e] eqn:Er; apply goes_ret.
  - apply HQ; [apply read_onward|]. intros name Hin. by apply (Hn data).
  - destruct e; (apply HQ; [apply read_onward|]; intros name Hin; by apply elem_of_nil in Hin).
Qed.

(** *** Device nodes *)

Definition present (d : string) (w : W) : Prop := dev d ∈ nodes w.
Lemma present_later d w w' : later w w' → present d w → present d w'.
Proof. intros (_ & Hn & _). unfold present. set_solver. Qed.
Lemma present_onward d w w' : onward w w' → present d w → present d w'.
Proof. intros Ho. by apply present_later, onward_later. Qed.

Lemma goes_missing devs : ∀ (Q : list string → W → Prop) w,
  (∀ ws w', onward w w' → (∀ d, d ∈ devs → d ∈ ws ∨ present d w') → Q ws w') → goes (missing devs) Q w.
Proof.
  induction devs as [|d devs IH]; intros Q w HQ; cbn [missing].
  - apply goes_ret, HQ; [done|]. intros d ?%elem_of_nil. done.
  - pose proof (stat_onward (dev d) w) as Hs. apply goes_bind, goes_io; [done|]. apply goes_bind, IH.
    intros ws w' Ho Hws. apply goes_ret, HQ; [by etransitivity|].
    intros d' [->|Hd']%elem_of_cons.
    + destruct (fst (os_Stat (dev d) w)) eqn:E; [left; by left|right].
      eapply present_onward; [exact Ho|]. by apply stat_node.
    + destruct (Hws d' Hd') as [?|?]; [|by right]. left. destruct (fst (os_Stat (dev d) w)); [by right|done].
Qed.

Lemma goes_all_exist devs : ∀ (Q : bool → W → Prop) w,
  (∀ b w', onward w w' → (b = true → ∀ d, d ∈ devs → present d w') → Q b w') → goes (all_exist devs) Q w.
Proof.
  induction devs as [|d devs IH]; intros Q w HQ; cbn [all_exist].
  - apply goes_ret, HQ; [done|]. intros _ d ?%elem_of_nil. done.
  - pose proof (stat_onward (dev d) w) as Hs. apply goes_bind, goes_io; [done|].
    destruct (fst (os_Stat (dev d) w)) eqn:E; [apply goes_ret, HQ; done|].
    apply IH. intros b w' Ho Hb. apply HQ; [by etransitivity|].
    intros -> d' [->|Hd']%elem_of_cons; [|by apply Hb].
    eapply present_onward; [exact Ho|]. by apply stat_node.
Qed.

Definition time_left (deadline : Time) (w : W) : nat := Z.to_nat (deadline - clock w).

Lemma devPoll_ends (devices : list string) deadline n : ∀ backoff w,
  0 < backoff → (time_left deadline w < n)%nat →
  goes (m_loop (devPoll_round devices deadline) n backoff)
     (λ r w', ∃ b, r = Some b ∧ (b = true → ∀ d, d ∈ devices → present d w')) w.
Proof.
  intros backoff w Hb Hn. eapply (loop_goes _ (time_left deadline) (λ b _, 0 < b)); [|exact Hb|exact Hn].
  clear backoff w Hb Hn n. intros backoff w Hb.
  unfold devPoll_round. pose proof (now_ticks w) as Ht. apply goes_bind, goes_io; [apply now_onward|].
  destruct (Z.ltb_spec (fst (time_Now w)) deadline) as [Hd|Hd]; simpl; [|by apply goes_ret].
  pose proof (ctx_onward (snd (time_Now w))) as Hc. apply goes_bind, goes_io; [done|].
  destruct (fst (ctx_Err _)); [by apply goes_ret|]. apply goes_bind, goes_all_exist. intros [|] w2 Ho2 Hall.
  - apply goes_ret. by apply Hall.
  - apply goes_bind. apply wp_os_io_. split; [apply sleep_onward|]. apply goes_ret. split; [unfold Millisecond; lia|].
    pose proof (sleep_ticks backoff w2 Hb). unfold time_left. destruct Hc as [[Hc _] _], Ho2 as [[Ho2 _] _]. lia.
Qed.

Lemma devNodes_ends fd (devices : list string) deadline n : ∀ waiting w,
  watched w fd = Some "/dev" → (∀ d, d ∈ devices → d ∈ waiting ∨ present d w) → (time_left deadline w < n)%nat →
  goes (m_loop (devNodes_round fd deadline) n waiting)
     (λ r w', ∃ b, r = Some b ∧ (b = true → ∀ d, d ∈ devices → present d w')) w.
Proof.
  intros waiting w Hw Hd Hn.
  eapply (loop_goes _ (time_left deadline)
    (λ waiting w, watched w fd = Some "/dev" ∧ ∀ d, d ∈ devices → d ∈ waiting ∨ present d w)); [|done|exact Hn].
  clear waiting w Hw Hd Hn n. intros waiting w [Hw Hd].
  assert (∀ w', onward w w' → watched w' fd = Some "/dev" ∧ ∀ d, d ∈ devices → d ∈ waiting ∨ present d w') as Hkeep.
  { intros w' Ho. split; [by apply Ho|]. intros d Hin. destruct (Hd d Hin) as [?|?]; [by left|right].
    by eapply present_onward. }
  assert (∀ w', onward w w' → waiting = [] → ∀ d, d ∈ devices → present d w') as Hready.
  { intros w' Ho -> d Hin. destruct (proj2 (Hkeep w' Ho) d Hin) as [?%elem_of_nil|?]; done. }
  unfold devNodes_round. pose proof (now_ticks w) as Ht. pose proof (now_onward w) as Ho1.
  apply goes_bind, goes_io; [done|]. set (w1 := snd (time_Now w)) in *.
  destruct (Z.ltb_spec (fst (time_Now w)) deadline) as [Hlt|Hge]; cbn [negb orb].
  2: { apply goes_ret. intros E%bool_decide_eq_true. by apply Hready. }
  destruct (bool_decide_reflect (waiting = [])) as [->|Hne]; [apply goes_ret; intros _; by apply Hready|].
  pose proof (now_onward w1) as Ho2. apply goes_bind, goes_io; [done|]. set (w2 := snd (time_Now w1)) in *.
  destruct (_ <=? 0); [by apply goes_ret|].
  apply goes_bind, goes_poll. intros [hasData cont] w3 Ho3 _. simpl.
  assert (onward w w3) as Hw3 by (do 2 (etransitivity; [|eassumption]); done).
  assert (time_left deadline w3 < time_left deadline w)%nat as Hless.
  { unfold time_left. destruct Ho2 as [[? _] _], Ho3 as [[? _] _]. subst w1. lia. }
  destruct cont; cbn [negb]; [|by apply goes_ret].
  destruct hasData; cbn [negb]; [|apply goes_ret; split; [by apply Hkeep|done]].
  destruct (Hkeep w3 Hw3) as [Hwatch Hd3].
  apply goes_bind. eapply goes_read; [exact Hwatch|]. intros [buf cont] w4 Ho4 Hnames. simpl.
  destruct cont; cbn [negb]; [|by apply goes_ret]. apply goes_ret. split; [|unfold time_left in *; destruct Ho4 as [[? _] _]; lia].
  split; [by apply Ho4|]. intros d Hin. unfold parseInotifyEvents. rewrite parse_from_names.
  change (names_from _ buf _ 0) with (event_names buf).
  assert (∀ names ws, d ∈ ws → (∀ n, n ∈ names → n ≠ d) → d ∈ snd (run_handler note_device ws names)) as Hstay.
  { clear. induction names as [|n names IH]; intros ws Hd Hn; [done|]. simpl. apply IH.
    - apply list_elem_of_filter. split; [|done]. intros ->. apply (Hn n); [by left|done].
    - intros n' ?. apply Hn. by right. }
  destruct (decide (d ∈ event_names buf)) as [Hev|Hev].
  - right. by apply (Hnames d).
  - destruct (Hd3 d Hin) as [Hwt|Hpr]; [left|right; by eapply present_onward].
    apply Hstay; [done|]. intros n Hn ->. done.
Qed.

Lemma wp_closing {A} fd (m : M W A) (Q : A → W → Prop) w :
  wp m Q w → (∀ a w', Q a w' → Q a (unix_Close fd w')) → wp (closing fd m) Q w.
Proof. intros Hm HQ. apply wp_bind. eapply wp_mono; [exact Hm|]. intros a w' Ha. apply wp_bind, wp_os_io_, wp_ret. auto. Qed.

Lemma wp_goes {A} (m : M W A) (Q : A → W → Prop) w : goes m Q w → wp m Q w.
Proof. intros Hm. eapply wp_mono; [exact Hm|]. by intros a w' [_ ?]. Qed.

Lemma devNodesPoll_ends devices timeout n w :
  0 ≤ timeout < Z.of_nat n →
  wp (waitForDevNodesPoll n devices timeout) (λ r w', ∃ b, r = Some b ∧ (b = true → ∀ d, d ∈ devices → present d w')) w.
Proof.
  intros Hn. apply wp_bind, wp_os_io. pose proof (now_ticks w). apply wp_goes, devPoll_ends; [unfold Millisecond; lia|].
  unfold time_left. lia.
Qed.

Lemma devNodesInotify_ends devices timeout n w :
  0 ≤ timeout < Z.of_nat n →
  wp (waitForDevNodesInotify n devices timeout) (λ r w', ∃ b, r = Some b ∧ (b = true → ∀ d, d ∈ devices → present d w')) w.
Proof.
  intros Hn. unfold waitForDevNodesInotify. destruct (bool_decide_reflect (devices = [])) as [->|Hne].
  { apply wp_ret. exists true. split; [done|]. intros _ d ?%elem_of_nil. done. }
  apply wp_bind. eapply wp_mono; [apply (goes_missing devices (λ ws w', ∀ d, d ∈ devices → d ∈ ws ∨ present d w')); auto|].
  intros ws w1 [_ Hws]. destruct (bool_decide_reflect (ws = [])) as [->|Hws0].
  { apply wp_ret. exists true. split; [done|]. intros _ d Hd. destruct (Hws d Hd) as [?%elem_of_nil|?]; done. }
  pose proof (init_onward w1) as Ho2. apply wp_bind, wp_os_io. set (w2 := snd (InotifyInit1 w1)) in *.
  destruct (fst (InotifyInit1 w1)) as [fd|e]; [|by apply devNodesPoll_ends].
  apply wp_closing.
  2: { intros a w' (b & -> & Hb). exists b. split; [done|]. intros Ht d Hd. eapply present_later; [apply close_later|]. by apply Hb. }
  pose proof (watch_later fd "/dev" false w2) as Ho3. pose proof (watch_set fd "/dev" false w2) as Hset.
  apply wp_bind, wp_os_io. set (w3 := snd (InotifyAddWatch fd "/dev" false w2)) in *.
  destruct (fst (InotifyAddWatch fd "/dev" false w2)); [by apply devNodesPoll_ends|].
  specialize (Hset eq_refl). apply wp_bind.
  eapply wp_mono; [apply (goes_missing ws (λ ws' w', ∀ d, d ∈ ws → d ∈ ws' ∨ present d w')); auto|].
  intros ws' w4 [Ho4 Hws']. pose proof (now_onward w4) as Ho5. pose proof (now_ticks w4) as Ht.
  assert (∀ w', onward w4 w' → ∀ d, d ∈ devices → d ∈ ws' ∨ present d w') as Hall.
  { intros w' Ho d Hd. destruct (Hws d Hd) as [Hin|Hp].
    - destruct (Hws' d Hin) as [?|?]; [by left|right]. by eapply present_onward.
    - right. apply (present_later d w1); [|exact Hp]. transitivity w2; [by apply onward_later|].
      transitivity w3; [done|]. apply onward_later. by transitivity w4. }
  destruct (bool_decide_reflect (ws' = [])) as [->|Hws0'].
  { apply wp_ret. exists true. split; [done|]. intros _ d Hd. destruct (Hall w4 (reflexivity w4) d Hd) as [?%elem_of_nil|?]; done. }
  apply wp_bind, wp_os_io. apply wp_goes, devNodes_ends; [by apply Ho5, Ho4|by apply Hall|]. unfold time_left. lia.
Qed.

(** *** The devices of /sys/block *)

Lemma sysPoll_ends n : ∀ backoff w,
  0 < backoff → (time_left ctx_deadline w < n)%nat →
  goes (m_loop sysPoll_round n backoff) (λ r _, ∃ ds, r = Some ds ∧ True) w.
Proof.
  intros backoff w Hb Hn. eapply (loop_goes _ (time_left ctx_deadline) (λ b _, 0 < b)); [|exact Hb|exact Hn].
  clear backoff w Hb Hn n. intros backoff w Hb. unfold sysPoll_round.
  pose proof (ctx_onward w) as [[Hc _] _]. pose proof (ctx_expires w) as He. apply goes_bind, goes_io; [apply ctx_onward|].
  destruct (fst (ctx_Err w)) eqn:Ec.
  - apply goes_bind, goes_find. intros r w' _. by apply goes_ret.
  - apply goes_bind, goes_find. intros r w' [[Ho _] _]. destruct (some_devices r); [by apply goes_ret|].
    apply goes_bind, wp_os_io_. split; [apply sleep_onward|]. apply goes_ret. split; [unfold Millisecond; lia|].
    pose proof (sleep_ticks backoff w' Hb). unfold time_left.
    destruct (Z.le_gt_cases ctx_deadline (clock w)) as [Hd|Hd]; [by destruct (He Hd)|lia].
Qed.

Lemma goes_read_any fd (Q : string * bool → W → Prop) w :
  (∀ r w', onward w w' → Q r w') → goes (readInotifyEvents fd) Q w.
Proof. intros HQ. apply goes_bind, goes_io; [apply read_onward|]. apply goes_ret, HQ, read_onward. Qed.

Lemma sysBlock_ends fd n : ∀ w,
  (time_left ctx_deadline w < n)%nat → goes (m_loop (sysBlock_round fd) n tt) (λ r _, ∃ ds, r = Some ds ∧ True) w.
Proof.
  intros w Hn. eapply (loop_goes _ (time_left ctx_deadline) (λ _ _, True)); [|done|exact Hn].
  clear w Hn n. intros [] w _. unfold sysBlock_round.
  apply goes_bind, goes_poll. intros [hasData cont] w1 Ho1 Hc. simpl in Hc.
  destruct cont; cbn [negb]; [|apply goes_bind, goes_find; intros r w' _; by apply goes_ret].
  destruct (Hc eq_refl) as [Hticks Hlive].
  assert (∀ w', onward w1 w' → (time_left ctx_deadline w' < time_left ctx_deadline w)%nat) as Hless.
  { intros w' [[? _] _]. unfold time_left. lia. }
  destruct hasData; cbn [negb].
  - apply goes_bind, goes_read_any. intros [buf cont] w2 Ho2.
    destruct cont; cbn [negb]; [|apply goes_bind, goes_find; intros r w' _; by apply goes_ret].
    destruct (fst (parseInotifyEvents _ _ _ _)).
    + apply goes_bind, goes_find. intros r w' _. by apply goes_ret.
    + apply goes_ret. split; [done|by apply Hless].
  - apply goes_bind, goes_find. intros r w' Ho'. apply goes_ret. destruct (some_devices r); [done|].
    split; [done|]. by apply Hless.
Qed.

Lemma sysBlockDevices_end n w :
  (time_left ctx_deadline w < n)%nat → wp (waitForSysBlockDevices n) (λ r _, is_Some r) w.
Proof.
  intros Hn. assert (∀ w', later w w' → (time_left ctx_deadline w' < n)%nat) as Hlater.
  { intros w' [? _]. unfold time_left in *. lia. }
  assert (∀ w', later w w' → wp (waitForSysBlockDevicesPoll n) (λ r _, is_Some r) w') as Hpoll.
  { intros w' Ho. eapply wp_mono; [apply wp_goes, sysPoll_ends; [|by apply Hlater]|]; [unfold Millisecond; lia|].
    intros r w2 (ds & -> & _). by eexists. }
  unfold waitForSysBlockDevices. apply wp_bind.
  eapply wp_mono; [apply (goes_find (λ _ _, True)); auto|]. intros r w1 [Ho1 _].
  destruct (some_devices r); [by apply wp_ret|]. pose proof (init_onward w1) as Ho2. apply wp_bind, wp_os_io.
  set (w2 := snd (InotifyInit1 w1)) in *. assert (later w w2) as Hw2 by (apply onward_later; by transitivity w1).
  destruct (fst (InotifyInit1 w1)) as [fd|e]; [|by apply Hpoll]. apply wp_closing; [|done].
  pose proof (watch_later fd "/sys/block" false w2) as Ho3. apply wp_bind, wp_os_io.
  set (w3 := snd (InotifyAddWatch fd "/sys/block" false w2)) in *. assert (later w w3) as Hw3 by (by transitivity w2).
  destruct (fst (InotifyAddWatch fd "/sys/block" false w2)); [by apply Hpoll|]. apply wp_bind.
  eapply wp_mono; [apply (goes_find (λ _ _, True)); auto|]. intros r' w4 [Ho4 _].
  destruct (some_devices r'); [by apply wp_ret|]. eapply wp_mono; [apply wp_goes, sysBlock_ends, Hlater|].
  - transitivity w3; [done|by apply onward_later].
  - intros r2 w5 (ds & -> & _). by eexists.
Qed.

Lemma WaitForBlockDevices_wp n w :
  (time_left ctx_deadline w < n)%nat → BlockDeviceTimeout < Z.of_nat n →
  wp (WaitForBlockDevices n) (λ r w', ∃ b, r = Some b ∧
    (b = true → ∃ ds, ds ≠ [] ∧ ∀ d : string, d ∈ ds → "/dev/" +:+ d ∈ nodes w')) w.
Proof.
  intros Hn Ht. apply wp_bind. eapply wp_mono; [by apply sysBlockDevices_end|]. intros r w1 [ds ->].
  destruct ds as [|d ds]; [apply wp_ret; by exists false|].
  eapply wp_mono; [apply devNodesInotify_ends; split; [done|exact Ht]|]. intros r w2 (b & -> & Hb). exists b. split; [done|].
  intros Hbt. exists (d :: ds). split; [done|]. by apply Hb.
Qed.


End waits.

(** ** A guest whose disk appears after a while *)

Module DevicesDemo.
Import GuestOS DeviceLaws Devices.

Definition appears : Time := 50.
Definition expires : Time := 5 * Second.
Definition vda_event : event := mkEvent 1 256 0 "vda" 13.

(** The clock, and the directory each descriptor watches. *)
Record guest := mkGuest { now : Time; watches : gmap Z string }.
Definition tick (d : Duration) (w : guest) : guest := mkGuest (now w + Z.max d 1) (watches w).

#[export] Instance guest_os : OS guest := {|
  os_Stat p w := (if String.eqb p "/dev/vda" && (appears <=? now w) then None else Some (ErrSentinel ErrNotExist), w);
  os_ReadDir _ w := (Ok ["loop0"; "vda"], w);
  os_ReadFile _ w := (Err (ErrSentinel ErrNotExist), w);
  os_WriteFile _ _ w := (Some (ErrSentinel ErrNotExist), w);
  InotifyInit1 w := (Ok 3, w);
  InotifyAddWatch fd p _ w := (None, mkGuest (now w) (<[fd := p]> (watches w)));
  unix_Close _ w := w;
  unix_Poll _ t w := (inl (if appears <=? now w then 1 else 0), tick (t * Millisecond) w);
  unix_Read fd w := (if bool_decide (watches w !! fd = Some "/dev") && (appears <=? now w)
                     then inl (encode [vda_event]) else inr EAGAIN, w);
  time_Now w := (now w + 1, tick 1 w);
  time_Sleep d w := tick d w;
  ctx_Err w := (if expires <=? now w then Some (ErrSentinel ErrCanceled) else None, w) |}.

Definition guest_nodes (w : guest) : gset string := if appears <=? now w then {[ "/dev/vda" ]} else ∅.

Lemma guest_nodes_mono w w' : now w ≤ now w' → guest_nodes w ⊆ guest_nodes w'.
Proof.
  intros Hle. unfold guest_nodes. destruct (Z.leb_spec appears (now w)), (Z.leb_spec appears (now w')); [done|lia|set_solver|done].
Qed.

#[export] Program Instance guest_laws : Laws guest := {|
  clock := now; nodes := guest_nodes; attr _ := ∅; watched w fd := watches w !! fd; ctx_deadline := expires |}.
Solve All Obligations with
  (intros; cbn in *; repeat split; cbn; auto using guest_nodes_mono; try apply guest_nodes_mono; cbn; try lia; try done).
Next Obligation. intros w Hw. cbn in *. apply Z.leb_le in Hw. rewrite Hw. by eexists. Qed.
Next Obligation.
  intros p w Hp. cbn in *. destruct (String.eqb_spec p "/dev/vda") as [->|]; [|done]. cbn in Hp. unfold guest_nodes.
  destruct (appears <=? now w); [set_solver|done].
Qed.
Next Obligation. intros fd p m w _. cbn. by rewrite lookup_insert_eq. Qed.
Next Obligation.
  intros fd dir data w Hw Hr name Hn. cbn in *. destruct (bool_decide_reflect (watches w !! fd = Some "/dev")) as [E|]; [|done].
  cbn in Hr. unfold guest_nodes. destruct (appears <=? now w); [|done]. injection Hr as <-.
  replace (event_names (encode [vda_event])) with ["vda"] in Hn by (vm_compute; reflexivity).
  apply list_elem_of_singleton in Hn as ->. assert (dir = "/dev") as -> by congruence. set_solver.
Qed.


(** With enough rounds for this guest the disk is found. *)
Example disk_found : fst <$> (match WaitForBlockDevices 100 (mkGuest 0 ∅) with Return x => Some x | Panic _ => None end) = Some (Some true).
Proof. vm_compute. reflexivity. Qed.

End DevicesDemo.
