(* ===== verification/GuestSystem.v ===== *)
(** * The system service of the guest

    Models internal/guest/services/system.go: waiting for files in sysfs and
    bringing CPUs and memory blocks online and offline.  It runs on the kernel of
    GuestDevices.v ([OS], with the laws [Laws] and, for sysfs, [SysfsLaws]).
    [writeRuntimeFeatures] (a constant file) is left out. *)

From S2P Require Import Prelude GoStrings GoTime MountUtil GuestDevices.
From Stdlib Require Import Ascii.

Module GuestSystem.
Import GuestOS Inotify MountUtil (fmt_q).
#[local] Open Scope m_scope.

Definition sysfsOnline : string := "1".
Definition sysfsOffline : string := "0".
Definition sysfsWaitTimeout : Duration := 2 * Second.
Definition bufSize : nat := 4096.

Definition IsNotExist (e : error) : bool := errors_Is e ErrNotExist.

(** The events in a buffer, up to one for [base].  Unlike [parseInotifyEvents]
    there is no check that an event lies within what was read: reading past the
    end of the buffer is a panic. *)
Fixpoint scan_from (fuel : nat) (buf : string) (nread : nat) (base : string) (offset : nat) : outcome bool :=
  match fuel with
  | O => Return false
  | S fuel' =>
      if Nat.ltb offset nread then
        if Nat.ltb (String.length buf) (offset + SizeofInotifyEvent) then Panic "event past the end of the buffer"
        else
          let nameLen := event_len buf offset in
          let next := (offset + (SizeofInotifyEvent + nameLen))%nat in
          if Nat.ltb 0 nameLen then
            if Nat.ltb (String.length buf) next then Panic "slice bounds out of range"
            else if String.eqb (trim_nul (slice buf (offset + SizeofInotifyEvent) nameLen)) base then Return true
            else scan_from fuel' buf nread base next
          else scan_from fuel' buf nread base next
      else Return false
  end.

Section system.
Context {W : Type} `{OS W}.

Definition readSysfsValue (path : string) : M W (result string) :=
  r ← io (os_ReadFile path);
  m_ret (match r with Err e => Err e | Ok data => Ok (TrimSpace data) end).
Definition writeSysfsValue (path value : string) : M W (option error) := io (os_WriteFile path value).

Definition timed_out (path : string) : error := ErrNew ("timeout waiting for " +:+ path).

(** A round of [waitForSysfsFilePoll]. *)
Definition sysfsPoll_round (path : string) (deadline : Time) (backoff : Duration) : M W (Duration + option error) :=
  t ← io time_Now;
  if negb (t <? deadline) then m_ret (inr (Some (timed_out path)))
  else
    c ← io ctx_Err;
    match c with
    | Some e => m_ret (inr (Some e))
    | None =>
        e ← io (os_Stat path);
        match e with
        | None => m_ret (inr None)
        | Some _ => io_ (time_Sleep backoff) ≫= λ _, m_ret (inl (Z.min (backoff * 2) (100 * Millisecond)))
        end
    end.
Definition waitForSysfsFilePoll (fuel : nat) (path : string) (timeout : Duration) : M W (option (option error)) :=
  t ← io time_Now;
  m_loop (sysfsPoll_round path (t + timeout)) fuel (5 * Millisecond).

Definition errno_error (e : errno) : error :=
  match e with
  | EINTR => ErrNew "interrupted system call"
  | EAGAIN => ErrNew "resource temporarily unavailable"
  | EOther e => e
  end.

Definition lift {A} (o : outcome A) : M W A := λ w, match o with Return a => Return (a, w) | Panic msg => Panic msg end.

(** The poll timed out: look whether the file is there. *)
Definition sysfs_idle (path buf : string) : M W (string + option error) :=
  e ← io (os_Stat path);
  m_ret (match e with None => inr None | Some _ => inl buf end).

(** Read events and look for the file among them. *)
Definition sysfs_events (fd : Z) (path buf : string) : M W (string + option error) :=
  r ← io (unix_Read fd);
  match r with
  | inr (EAGAIN | EINTR) => m_ret (inl buf)
  | inr e => m_ret (inr (Some (ErrWrap "read inotify" (errno_error e))))
  | inl data =>
      let nread := String.length data in
      let buf := data +:+ str_drop nread buf in
      found ← lift (scan_from (S nread) buf nread (filepath_Base path) 0);
      m_ret (if found : bool then inr None else inl buf)
  end.

(** A round of the loop of [waitForSysfsFile]; its state is the buffer, in which
    what earlier rounds read is left. *)
Definition sysfs_round (fd : Z) (path : string) (deadline : Time) (buf : string) : M W (string + option error) :=
  t ← io time_Now;
  if negb (t <? deadline) then m_ret (inr (Some (timed_out path)))
  else
    c ← io ctx_Err;
    match c with
    | Some e => m_ret (inr (Some e))
    | None =>
        now ← io time_Now;
        let remaining := deadline - now in
        if remaining <=? 0 then m_ret (inr (Some (timed_out path)))
        else
          n ← io (unix_Poll fd (Z.min (Z.quot remaining Millisecond) 100));
          match n with
          | inr EINTR => m_ret (inl buf)
          | inr e => m_ret (inr (Some (ErrWrap "poll failed" (errno_error e))))
          | inl 0 => sysfs_idle path buf
          | inl _ => sysfs_events fd path buf
          end
    end.

(** [make([]byte, 4096)]. *)
Definition new_buffer : string := nuls bufSize.

Definition waitForSysfsFile (fuel : nat) (path : string) (timeout : Duration) : M W (option (option error)) :=
  e ← io (os_Stat path);
  match e with
  | None => m_ret (Some None)
  | Some _ =>
      let dir := filepath_Dir path in
      i ← io InotifyInit1;
      match i with
      | Err _ => waitForSysfsFilePoll fuel path timeout
      | Ok fd =>
          Devices.closing fd (
            a ← io (InotifyAddWatch fd dir true);
            match a with
            | Some _ => waitForSysfsFilePoll fuel path timeout
            | None =>
                e ← io (os_Stat path);
                match e with
                | None => m_ret (Some None)
                | Some _ =>
                    t ← io time_Now;
                    m_loop (sysfs_round fd path (t + timeout)) fuel new_buffer
                end
            end)
      end
  end.

(** ** The handlers *)

Definition grpc (s : sentinel) (msg : string) : error := ErrWrap msg (ErrSentinel s).

Definition Info : M W (result string) :=
  r ← io (os_ReadFile "/proc/version");
  m_ret (match r with
         | Ok v => Ok v
         | Err e => if negb (IsNotExist e) then Err e else Ok ""
         end).

Definition cpu_online_path (cpuID : Z) : string := "/sys/devices/system/cpu/cpu" +:+ fmt_d cpuID +:+ "/online".
Definition memory_online_path (memoryID : Z) : string :=
  "/sys/devices/system/memory/memory" +:+ fmt_d memoryID +:+ "/online".
Definition memory_removable_path (memoryID : Z) : string :=
  "/sys/devices/system/memory/memory" +:+ fmt_d memoryID +:+ "/removable".
Definition auto_online_path : string := "/sys/devices/system/memory/auto_online_blocks".

(** The check that the attribute is there. *)
Definition stat_present (path what : string) : M W (option error) :=
  e ← io (os_Stat path);
  m_ret (match e with
         | None => None
         | Some e => Some (if IsNotExist e then grpc ErrNotFound (what +:+ " not present") else e)
         end).

(** Write a value unless it is there already. *)
Definition set_value (path value : string) : M W (option error) :=
  r ← readSysfsValue path;
  match r with
  | Err e => m_ret (Some e)
  | Ok v => if String.eqb v value then m_ret None else writeSysfsValue path value
  end.

Definition OfflineCPU (cpuID : Z) : M W (option error) :=
  if cpuID =? 0 then m_ret (Some (grpc ErrInvalidArgument ("cpu " +:+ fmt_d cpuID +:+ " cannot be offlined (boot processor)")))
  else
    let path := cpu_online_path cpuID in
    e ← stat_present path ("cpu " +:+ fmt_d cpuID);
    match e with
    | Some e => m_ret (Some e)
    | None => set_value path sysfsOffline
    end.

(** The waits take rounds as fuel; [None] is a wait that has not ended. *)
Definition OnlineCPU (fuel : nat) (cpuID : Z) : M W (option (option error)) :=
  if cpuID =? 0 then m_ret (Some None)
  else
    let path := cpu_online_path cpuID in
    e ← waitForSysfsFile fuel path sysfsWaitTimeout;
    match e with
    | None => m_ret None
    | Some (Some e) => m_ret (Some (Some (grpc ErrNotFound ("cpu " +:+ fmt_d cpuID +:+ ": " +:+ error_text e))))
    | Some None => r ← set_value path sysfsOnline; m_ret (Some r)
    end.

Definition auto_online : M W bool :=
  r ← readSysfsValue auto_online_path;
  m_ret (match r with Ok v => String.eqb v "online" | Err _ => false end).

Definition OfflineMemory (memoryID : Z) : M W (option error) :=
  let path := memory_online_path memoryID in
  e ← stat_present path ("memory block " +:+ fmt_d memoryID);
  match e with
  | Some e => m_ret (Some e)
  | None =>
      auto ← auto_online;
      if auto : bool then m_ret None
      else
        r ← readSysfsValue path;
        match r with
        | Err e => m_ret (Some e)
        | Ok v =>
            if String.eqb v sysfsOffline then m_ret None
            else
              r ← readSysfsValue (memory_removable_path memoryID);
              if (match r with Ok v => String.eqb v sysfsOffline | Err _ => false end)
              then m_ret (Some (grpc ErrFailedPrecondition
                     ("memory block " +:+ fmt_d memoryID +:+ " is not removable (kernel in use)")))
              else writeSysfsValue path sysfsOffline
        end
  end.

(** The second half of [OnlineMemory]. *)
Definition online_block (fuel : nat) (memoryID : Z) : M W (option (option error)) :=
  let path := memory_online_path memoryID in
  e ← waitForSysfsFile fuel path sysfsWaitTimeout;
  match e with
  | None => m_ret None
  | Some (Some e) => m_ret (Some (Some (grpc ErrNotFound ("memory block " +:+ fmt_d memoryID +:+ ": " +:+ error_text e))))
  | Some None => r ← set_value path sysfsOnline; m_ret (Some r)
  end.

Definition OnlineMemory (fuel : nat) (memoryID : Z) : M W (option (option error)) :=
  let path := memory_online_path memoryID in
  auto ← auto_online;
  if auto : bool then
    e ← waitForSysfsFile fuel path sysfsWaitTimeout;
    match e with
    | None => m_ret None
    | Some (Some _) => online_block fuel memoryID
    | Some None =>
        r ← readSysfsValue path;
        if (match r with Ok v => String.eqb v sysfsOnline | Err _ => false end) then m_ret (Some None)
        else online_block fuel memoryID
    end
  else online_block fuel memoryID.

End system.
End GuestSystem.

(** ** What the handlers do *)

Section scan.
Import Inotify GuestSystem.

(** On events as the kernel writes them the missing checks do not matter. *)
Lemma scan_encode base stale evs : ∀ pre fuel,
  Forall ev_ok evs → (length evs < fuel)%nat →
  scan_from fuel (pre +:+ encode evs +:+ stale) (String.length (pre +:+ encode evs)) base (String.length pre) =
  Return (existsb (λ n, String.eqb n base) (ev_names evs)).
Proof.
  induction evs as [|e evs IH]; intros pre fuel Hev Hf; (destruct fuel as [|fuel]; [simpl in Hf; lia|]).
  - simpl. rewrite append_nil_r. by rewrite Nat.ltb_irrefl.
  - apply Forall_cons in Hev as [He Hev]. pose proof He as (Hnul & _ & Hlen). rewrite encode_cons, ev_names_cons by done.
    rewrite (append_assoc (encode_event e)). cbn [scan_from]. rewrite event_len_at, event_name_at by done.
    unfold SizeofInotifyEvent. rewrite !append_length, event_length.
    rewrite (proj2 (Nat.ltb_lt (String.length pre) _)) by lia. rewrite !(proj2 (Nat.ltb_ge _ (String.length pre + _))) by lia.
    replace (String.length pre + (16 + ev_len e))%nat with (String.length (pre +:+ encode_event e))
      by (rewrite append_length, event_length; lia).
    replace (String.length pre + (16 + ev_len e + String.length (encode evs)))%nat
      with (String.length ((pre +:+ encode_event e) +:+ encode evs)) by (rewrite !append_length, event_length; lia).
    rewrite <-append_assoc, IH by (done || simpl in Hf; lia).
    destruct (Nat.ltb 0 (ev_len e)); simpl; [|done]. by destruct (String.eqb (ev_name e) base).
Qed.

End scan.

Module SysfsLaws.
Import GuestOS DeviceLaws GuestSystem.

(** Attributes of sysfs read back what was written, with white space around it,
    and a read from inotify gives whole events. *)
Class SysfsLaws (W : Type) `{OS W, !Laws W} := {
  read_value p v w : fst (os_ReadFile p w) = Ok v → attr w !! p = Some (TrimSpace v);
  write_value p v w : fst (os_WriteFile p v w) = None → <[p := v]> (attr w) ⊆ attr (snd (os_WriteFile p v w));
  write_failed p v w e : fst (os_WriteFile p v w) = Some e → attr w ⊆ attr (snd (os_WriteFile p v w));
  read_events fd data w : fst (unix_Read fd w) = inl data →
    ∃ evs, Forall ev_ok evs ∧ data = encode evs ∧ (String.length data ≤ bufSize)%nat }.

End SysfsLaws.

Section handlers.
Import GuestOS Inotify Devices DeviceLaws GuestSystem SysfsLaws.
Context {W : Type} `{OS W, !Laws W, !SysfsLaws W}.

(** *** Waiting *)

Definition found (path : string) (r : option (option error)) (w : W) : Prop :=
  ∃ e, r = Some e ∧ (e = None → path ∈ nodes w).

Lemma sysfsPoll_ends path deadline n : ∀ backoff w,
  0 < backoff → (time_left deadline w < n)%nat → goes (m_loop (sysfsPoll_round path deadline) n backoff) (found path) w.
Proof.
  intros backoff w Hb Hn. eapply (loop_goes _ (time_left deadline) (λ b _, 0 < b)); [|exact Hb|exact Hn].
  clear backoff w Hb Hn n. intros backoff w Hb.
  unfold sysfsPoll_round. pose proof (now_ticks w) as Ht. apply goes_bind, goes_io; [apply now_onward|].
  destruct (Z.ltb_spec (fst (time_Now w)) deadline) as [Hd|Hd]; simpl; [|by apply goes_ret].
  pose proof (ctx_onward (snd (time_Now w))) as Hc. apply goes_bind, goes_io; [done|].
  destruct (fst (ctx_Err _)); [by apply goes_ret|].
  set (w2 := snd (ctx_Err _)) in *. pose proof (stat_onward path w2) as Hs. apply goes_bind, goes_io; [done|].
  destruct (fst (os_Stat path w2)) eqn:Es; [|apply goes_ret; intros _; by apply stat_node].
  apply goes_bind. apply wp_os_io_. split; [apply sleep_onward|]. apply goes_ret. split; [unfold Millisecond; lia|].
  pose proof (sleep_ticks backoff (snd (os_Stat path w2)) Hb). unfold time_left.
  destruct Hc as [[Hc _] _], Hs as [[Hs _] _]. lia.
Qed.

(** What a round may do next, [ok] being what is needed to go on. *)
Definition goes_on (path : string) (ok : W → Prop) (r : string + option error) (w : W) : Prop :=
  match r with inl _ => ok w | inr e => e = None → path ∈ nodes w end.

Lemma goes_idle path buf (ok : W → Prop) w :
  (∀ w', onward w w' → ok w') → goes (sysfs_idle path buf) (goes_on path ok) w.
Proof.
  intros Hok. apply goes_bind, goes_io; [apply stat_onward|]. destruct (fst (os_Stat path w)) eqn:Es; apply goes_ret.
  - apply Hok, stat_onward.
  - intros _. by apply stat_node.
Qed.

Lemma goes_events fd dir base buf (ok : W → Prop) w :
  abs_clean dir → normal_elem base → watched w fd = Some dir → (∀ w', onward w w' → ok w') →
  goes (sysfs_events fd (dir +:+ "/" +:+ base) buf) (goes_on (dir +:+ "/" +:+ base) ok) w.
Proof.
  intros Hdir Hbase Hw Hok. pose proof (read_onward fd w) as Ho. apply goes_bind, goes_io; [done|].
  destruct (fst (unix_Read fd w)) as [data|[]] eqn:Er; [|by apply goes_ret, Hok..|by apply goes_ret].
  destruct (read_events fd data w Er) as (evs & Hevs & -> & _). rewrite Base_child by done.
  pose proof (scan_encode base (str_drop (String.length (encode evs)) buf) evs "" (S (String.length (encode evs))) Hevs) as Hscan.
  change ("" +:+ ?x) with x in Hscan. change (String.length "") with O in Hscan. apply goes_bind. unfold lift, goes at 1, wp. cbv zeta.
  rewrite Hscan by (pose proof (encode_length evs); lia). split; [reflexivity|].
  apply goes_ret. destruct (existsb _ _) eqn:Ex; [|by apply Hok]. intros _.
  apply existsb_exists in Ex as (n & Hn%list_elem_of_In & ->%String.eqb_eq).
  eapply read_names; [exact Hw|exact Er|]. by rewrite event_names_encode.
Qed.

Lemma sysfs_ends fd dir base deadline n : ∀ buf w,
  abs_clean dir → normal_elem base → watched w fd = Some dir → (time_left deadline w < n)%nat →
  goes (m_loop (sysfs_round fd (dir +:+ "/" +:+ base) deadline) n buf) (found (dir +:+ "/" +:+ base)) w.
Proof.
  intros buf w Hdir Hbase Hw Hn. set (path := dir +:+ "/" +:+ base).
  eapply (loop_goes _ (time_left deadline) (λ _ w, watched w fd = Some dir)); [|exact Hw|exact Hn].
  clear buf w Hw Hn n. intros buf w Hw. unfold sysfs_round.
  pose proof (now_ticks w) as Ht. pose proof (now_onward w) as Ho1. apply goes_bind, goes_io; [done|].
  set (w1 := snd (time_Now w)) in *.
  destruct (Z.ltb_spec (fst (time_Now w)) deadline) as [Hd|Hd]; simpl; [|by apply goes_ret].
  pose proof (ctx_onward w1) as Ho2. apply goes_bind, goes_io; [done|]. set (w2 := snd (ctx_Err w1)) in *.
  destruct (fst (ctx_Err w1)); [by apply goes_ret|].
  pose proof (now_onward w2) as Ho3. apply goes_bind, goes_io; [done|]. set (w3 := snd (time_Now w2)) in *.
  destruct (_ <=? 0); [by apply goes_ret|]. set (t := Z.min _ _).
  pose proof (poll_onward fd t w3) as Ho4. apply goes_bind, goes_io; [done|]. set (w4 := snd (unix_Poll fd t w3)) in *.
  assert (onward w w4) as Hw4 by (transitivity w1; [done|]; transitivity w2; [done|]; by transitivity w3).
  assert (∀ w', onward w4 w' → watched w' fd = Some dir ∧ (time_left deadline w' < time_left deadline w)%nat) as Hon.
  { intros w' Ho. split; [by apply Ho, Hw4|]. unfold time_left. subst w1.
    destruct Ho2 as [[? _] _], Ho3 as [[? _] _], Ho4 as [[? _] _], Ho as [[? _] _]. lia. }
  destruct (fst (unix_Poll fd t w3)) as [n|[]]; [|apply goes_ret, Hon; reflexivity|by apply goes_ret|by apply goes_ret].
  assert (watched w4 fd = Some dir) as Hwatch by (by apply Hw4).
  destruct n; [by apply goes_idle|by apply goes_events..].
Qed.

Lemma wait_wp n dir base timeout w :
  abs_clean dir → normal_elem base → 0 ≤ timeout < Z.of_nat n →
  wp (waitForSysfsFile n (dir +:+ "/" +:+ base) timeout)
     (λ r w', found (dir +:+ "/" +:+ base) r w' ∧ later w w') w.
Proof.
  intros Hdir Hbase Ht. set (path := dir +:+ "/" +:+ base).
  assert (∀ w1, later w w1 → wp (waitForSysfsFilePoll n path timeout) (λ r w', found path r w' ∧ later w w') w1) as Hpoll.
  { intros w1 H1. apply wp_bind, wp_os_io. pose proof (now_ticks w1). pose proof (now_onward w1) as Ho.
    eapply wp_mono; [apply sysfsPoll_ends; unfold Millisecond, time_left; lia|]. intros r w' [Ho' Hf]. split; [done|].
    transitivity w1; [done|]. apply onward_later. by etransitivity. }
  unfold waitForSysfsFile. pose proof (stat_onward path w) as Ho1. apply wp_bind, wp_os_io.
  set (w1 := snd (os_Stat path w)) in *. destruct (fst (os_Stat path w)) eqn:Es.
  2: { apply wp_ret. split; [exists None; split; [done|]; intros _; by apply stat_node|by apply onward_later]. }
  pose proof (init_onward w1) as Ho2. apply wp_bind, wp_os_io. set (w2 := snd (InotifyInit1 w1)) in *.
  assert (later w w2) as H2 by (apply onward_later; by transitivity w1).
  destruct (fst (InotifyInit1 w1)) as [fd|]; [|by apply Hpoll]. apply wp_closing.
  2: { intros r w' [(e' & -> & He') Hl]. pose proof (close_later fd w') as Hc. split; [|by transitivity w'].
       exists e'. split; [done|]. intros Hn. destruct Hc as (_ & Hc & _). apply Hc. by apply He'. }
  assert (filepath_Dir path = dir) as Hd by (apply Dir_child; [done|by apply Hbase]). rewrite Hd.
  pose proof (watch_later fd dir true w2) as Ho3. pose proof (watch_set fd dir true w2) as Hset.
  apply wp_bind, wp_os_io. set (w3 := snd (InotifyAddWatch fd dir true w2)) in *.
  assert (later w w3) as H3 by (by transitivity w2).
  destruct (fst (InotifyAddWatch fd dir true w2)); [by apply Hpoll|]. specialize (Hset eq_refl).
  pose proof (stat_onward path w3) as Ho4. apply wp_bind, wp_os_io. set (w4 := snd (os_Stat path w3)) in *.
  assert (later w w4) as H4 by (transitivity w3; [done|by apply onward_later]).
  destruct (fst (os_Stat path w3)) eqn:Es2.
  2: { apply wp_ret. split; [exists None; split; [done|]; intros _; by apply stat_node|done]. }
  pose proof (now_ticks w4). pose proof (now_onward w4) as Ho5. apply wp_bind, wp_os_io.
  eapply wp_mono; [apply (sysfs_ends fd dir base); [done|done|by apply Ho5, Ho4|unfold time_left; lia]|].
  intros r w' [Ho' Hf]. split; [done|]. transitivity w4; [done|]. apply onward_later. by etransitivity.
Qed.

(** Waiting for a file in sysfs ends after at most as many rounds as the timeout
    has nanoseconds, with the inotify loop as with the polling loop; it never
    reads past the events that the kernel delivered; and it reports success only
    if the file is there. *)
Theorem sysfs_wait_ends n dir base timeout w :
  abs_clean dir → normal_elem base → 0 ≤ timeout < Z.of_nat n →
  ∃ e w', waitForSysfsFile n (dir +:+ "/" +:+ base) timeout w = Return (Some e, w') ∧
    (e = None → dir +:+ "/" +:+ base ∈ nodes w') ∧ later w w'.
Proof.
  intros Hdir Hbase Ht. destruct (proj1 (wp_Return _ _ _) (wait_wp n dir base timeout w Hdir Hbase Ht))
    as (r & w' & E & (e & -> & He) & Hl). by exists e, w'.
Qed.

(** *** Setting an attribute *)

(** The result of a handler that is to set [path] to [v]: if it succeeds the
    attribute has the value, if it fails nothing changed, and other attributes
    are kept in any case. *)
Definition sets (path v : string) (w : W) (r : option error) (w' : W) : Prop :=
  (r = None → attr w' !! path = Some v) ∧ (r ≠ None → attr w ⊆ attr w') ∧
  ∀ p x, p ≠ path → attr w !! p = Some x → attr w' !! p = Some x.

Lemma sets_refused path v w e w' : later w w' → sets path v w (Some e) w'.
Proof. intros (_ & _ & Ha). split_and!; [done|done|]. intros p x _ Hp. by eapply lookup_weaken. Qed.
Lemma sets_already path v w w' : later w w' → attr w' !! path = Some v → sets path v w None w'.
Proof. intros (_ & _ & Ha) Hv. split_and!; [done|done|]. intros p x _ Hp. by eapply lookup_weaken. Qed.

Lemma write_wp path v w w1 :
  later w w1 → wp (writeSysfsValue path v) (λ r w', sets path v w r w') w1.
Proof.
  intros (_ & _ & Ha). apply wp_os_io. destruct (fst (os_WriteFile path v w1)) as [e|] eqn:Ew.
  - apply write_failed in Ew. split_and!; [done|intros _; by etransitivity|].
    intros p x _ Hp. eapply lookup_weaken; [exact Hp|]. by etransitivity.
  - apply write_value in Ew. split_and!; [|done|].
    + intros _. eapply lookup_weaken; [|exact Ew]. by rewrite lookup_insert_eq.
    + intros p x Hne Hp. eapply lookup_weaken; [|exact Ew]. rewrite lookup_insert_ne by done. by eapply lookup_weaken.
Qed.

Lemma read_wp path (Q : result string → W → Prop) w :
  (∀ e w', later w w' → Q (Err e) w') →
  (∀ v w', later w w' → attr w !! path = Some v → Q (Ok v) w') → wp (readSysfsValue path) Q w.
Proof.
  intros He Hv. pose proof (onward_later _ _ (readfile_onward path w)) as Hl. apply wp_bind, wp_os_io, wp_ret.
  destruct (fst (os_ReadFile path w)) as [v|e] eqn:E; [|by apply He]. apply Hv; [done|]. by apply read_value.
Qed.

Lemma set_value_wp path v w w1 : later w w1 → wp (set_value path v) (λ r w', sets path v w r w') w1.
Proof.
  intros H1. apply wp_bind, read_wp; [intros e w2 H2; apply wp_ret, sets_refused; by etransitivity|].
  intros v' w2 H2 Hv'. destruct (String.eqb_spec v' v) as [->|].
  - apply wp_ret, sets_already; [by etransitivity|]. eapply lookup_weaken; [exact Hv'|]. by apply H2.
  - apply write_wp. by etransitivity.
Qed.

Lemma stat_present_wp path what (Q : option error → W → Prop) w :
  (∀ r w', later w w' → Q r w') → wp (stat_present path what) Q w.
Proof. intros HQ. apply wp_bind, wp_os_io, wp_ret, HQ, onward_later, stat_onward. Qed.

Lemma auto_online_wp (Q : bool → W → Prop) w :
  (∀ b w', later w w' → (b = true → attr w' !! auto_online_path = Some "online") → Q b w') → wp auto_online Q w.
Proof.
  intros HQ. apply wp_bind, read_wp; [intros e w' H'; by apply wp_ret, HQ|]. intros v w' H' Hv.
  apply wp_ret, HQ; [done|]. intros ->%String.eqb_eq. eapply lookup_weaken; [exact Hv|]. by apply H'.
Qed.

(** *** Paths *)

Lemma numbered_normal s z :
  s ≠ "" → 0 ≤ z → (∀ t, s +:+ t ≠ "." ∧ s +:+ t ≠ "..") → str_all (not_char "/") s = true → normal_elem (s +:+ fmt_d z).
Proof.
  intros Hs Hz Hd Hc. destruct (normal_fmt_d z Hz) as (_ & _ & _ & Hf).
  split_and!; [by destruct s|apply Hd|apply Hd|by rewrite str_all_app, Hc].
Qed.

Lemma cpu_path id :
  0 ≤ id → ∃ dir, abs_clean dir ∧ cpu_online_path id = dir +:+ "/" +:+ "online".
Proof.
  intros Hid. exists ("/sys/devices/system/cpu/cpu" +:+ fmt_d id). split; [|unfold cpu_online_path; by rewrite append_assoc].
  exists ["sys"; "devices"; "system"; "cpu"; "cpu" +:+ fmt_d id]. split; [done|]. split; [|done].
  do 4 (constructor; [by vm_compute|]). constructor; [apply numbered_normal; done|constructor].
Qed.
Lemma memory_path id :
  0 ≤ id → ∃ dir, abs_clean dir ∧ memory_online_path id = dir +:+ "/" +:+ "online".
Proof.
  intros Hid. exists ("/sys/devices/system/memory/memory" +:+ fmt_d id).
  split; [|unfold memory_online_path; by rewrite append_assoc].
  exists ["sys"; "devices"; "system"; "memory"; "memory" +:+ fmt_d id]. split; [done|]. split; [|done].
  do 4 (constructor; [by vm_compute|]). constructor; [apply numbered_normal; done|constructor].
Qed.
Lemma online_normal : normal_elem "online".
Proof. by vm_compute. Qed.

Section handler_specs.
Variables (n : nat) (id : Z).
Hypothesis fuel_enough : sysfsWaitTimeout < Z.of_nat n.
Hypothesis id_nonneg : 0 ≤ id.

Lemma wait_online path (Q : option (option error) → W → Prop) w :
  path = cpu_online_path id ∨ path = memory_online_path id →
  (∀ e w', later w w' → Q (Some e) w') → wp (waitForSysfsFile n path sysfsWaitTimeout) Q w.
Proof.
  intros Hp HQ.
  assert (∃ dir, abs_clean dir ∧ path = dir +:+ "/" +:+ "online") as (dir & Hd & ->)
    by (destruct Hp as [-> | ->]; [by apply cpu_path|by apply memory_path]).
  eapply wp_mono; [apply wait_wp; [done|apply online_normal|split; [done|exact fuel_enough]]|].
  intros r w' [(e & -> & _) Hl]. by apply HQ.
Qed.

Lemma OfflineCPU_wp w : wp (OfflineCPU id) (λ r w', sets (cpu_online_path id) sysfsOffline w r w' ∧ (id = 0 → r ≠ None)) w.
Proof.
  unfold OfflineCPU. destruct (Z.eqb_spec id 0); [apply wp_ret; split; [by apply sets_refused|done]|].
  apply wp_bind, stat_present_wp. intros [e|] w1 H1; [apply wp_ret; split; [by apply sets_refused|done]|].
  eapply wp_mono; [by apply (set_value_wp _ _ w)|]. done.
Qed.

Lemma OnlineCPU_wp w : wp (OnlineCPU n id) (λ r w', ∃ e, r = Some e ∧
  (id ≠ 0 → sets (cpu_online_path id) sysfsOnline w e w') ∧ (id = 0 → e = None ∧ w' = w)) w.
Proof.
  unfold OnlineCPU. destruct (Z.eqb_spec id 0); [apply wp_ret; by exists None|].
  apply wp_bind, wait_online; [by left|]. intros [e|] w1 H1.
  - apply wp_ret. eexists. split; [done|]. split; [|done]. intros _. by apply sets_refused.
  - apply wp_bind. eapply wp_mono; [by apply (set_value_wp _ _ w)|]. intros r w2 Hs. apply wp_ret. by exists r.
Qed.

Lemma online_block_wp w w1 :
  later w w1 → wp (online_block n id) (λ r w', ∃ e, r = Some e ∧ sets (memory_online_path id) sysfsOnline w e w') w1.
Proof.
  intros H1. apply wp_bind, wait_online; [by right|]. intros [e|] w2 H2.
  - apply wp_ret. eexists. split; [done|]. apply sets_refused. by etransitivity.
  - apply wp_bind. eapply wp_mono; [apply (set_value_wp _ _ w); by transitivity w1|]. intros r w3 Hs. apply wp_ret. by exists r.
Qed.

Lemma OnlineMemory_wp w :
  wp (OnlineMemory n id) (λ r w', ∃ e, r = Some e ∧ sets (memory_online_path id) sysfsOnline w e w') w.
Proof.
  unfold OnlineMemory. apply wp_bind, auto_online_wp. intros auto w1 H1 _. destruct auto; [|by apply online_block_wp].
  apply wp_bind, wait_online; [by right|]. intros [e|] w2 H2; [apply online_block_wp; by etransitivity|].
  assert (later w w2) as Hw2 by (by transitivity w1).
  apply wp_bind, read_wp; [intros e w3 H3; apply online_block_wp; by transitivity w2|].
  intros v w3 H3 Hv. assert (later w w3) as Hw3 by (by transitivity w2).
  destruct (String.eqb_spec v sysfsOnline) as [->|]; [|by apply online_block_wp].
  apply wp_ret. exists None. split; [done|]. apply sets_already; [done|].
  eapply lookup_weaken; [exact Hv|]. by apply H3.
Qed.

Lemma OfflineMemory_wp w :
  wp (OfflineMemory id) (λ r w', sets (memory_online_path id) sysfsOffline w r w' ∨
    r = None ∧ attr w' !! auto_online_path = Some "online" ∧ attr w ⊆ attr w') w.
Proof.
  unfold OfflineMemory. apply wp_bind, stat_present_wp. intros [e|] w1 H1; [apply wp_ret; left; by apply sets_refused|].
  apply wp_bind, auto_online_wp. intros auto w2 H2 Hauto. assert (later w w2) as Hw2 by (by etransitivity).
  destruct auto; [apply wp_ret; right; split_and!; [done|by apply Hauto|by apply Hw2]|].
  apply wp_bind, read_wp; [intros e w3 H3; apply wp_ret; left; apply sets_refused; by etransitivity|].
  intros v w3 H3 Hv. assert (later w w3) as Hw3 by (by etransitivity).
  destruct (String.eqb_spec v sysfsOffline) as [->|].
  { apply wp_ret. left. apply sets_already; [done|]. eapply lookup_weaken; [exact Hv|]. by apply H3. }
  assert (∀ w4, later w3 w4 → wp (writeSysfsValue (memory_online_path id) sysfsOffline) (λ r w', sets (memory_online_path id) sysfsOffline w r w' ∨
    r = None ∧ attr w' !! auto_online_path = Some "online" ∧ attr w ⊆ attr w') w4) as Hwrite.
  { intros w4 H4. eapply wp_mono; [apply (write_wp _ _ w); by transitivity w3|]. by left. }
  apply wp_bind, read_wp; [intros e w4 H4; by apply Hwrite|]. intros v' w4 H4 _.
  destruct (String.eqb v' sysfsOffline); [|by apply Hwrite]. apply wp_ret. left. apply sets_refused. by etransitivity.
Qed.

End handler_specs.


(** *** Slots and blocks *)

(** A memory block of an x86 guest. *)
Definition blockSize : Z := 128 * 1024 * 1024.


End handlers.

(** ** A guest with four blocks of boot memory and a DIMM *)

Module SystemDemo.
Import GuestOS DeviceLaws GuestSystem SysfsLaws.

Record guest := mkGuest { now : Time; sysfs : gmap string string }.
Definition tick (d : Duration) (w : guest) : guest := mkGuest (now w + Z.max d 1) (sysfs w).
Definition no_file : error := ErrSentinel ErrNotExist.

(** Without inotify: the waits poll. *)
#[export] Instance guest_os : OS guest := {|
  os_Stat p w := (match sysfs w !! p with Some _ => None | None => Some no_file end, w);
  os_ReadDir _ w := (Err no_file, w);
  os_ReadFile p w := (match sysfs w !! p with Some v => Ok v | None => Err no_file end, w);
  os_WriteFile p v w :=
    if String.eqb (TrimSpace v) v then
      match sysfs w !! p with Some _ => (None, mkGuest (now w) (<[p := v]> (sysfs w))) | None => (Some no_file, w) end
    else (Some (ErrSentinel ErrInvalidArgument), w);
  InotifyInit1 w := (Err (ErrNew "too many open files"), w);
  InotifyAddWatch _ _ _ w := (Some no_file, w);
  unix_Close _ w := w;
  unix_Poll _ t w := (inl 0, tick (t * Millisecond) w);
  unix_Read _ w := (inr EAGAIN, w);
  time_Now w := (now w + 1, tick 1 w);
  time_Sleep d w := tick d w;
  ctx_Err w := (if 5 * Second <=? now w then Some (ErrSentinel ErrCanceled) else None, w) |}.

Definition trimmed (m : gmap string string) : gmap string string := TrimSpace <$> m.

#[export] Program Instance guest_laws : Laws guest := {|
  clock := now; nodes w := dom (sysfs w); attr w := trimmed (sysfs w); watched _ _ := None; ctx_deadline := 5 * Second |}.
Solve All Obligations with (intros; cbn in *; repeat split; cbn in *; try lia; try done).
Next Obligation. intros w Hw. cbn in *. apply Z.leb_le in Hw. rewrite Hw. by eexists. Qed.
Next Obligation. intros p w Hp. cbn in *. apply elem_of_dom. by destruct (sysfs w !! p). Qed.

#[export] Program Instance guest_sysfs : SysfsLaws guest.
Next Obligation.
  intros p v w Hr. cbn in *. unfold trimmed. rewrite lookup_fmap. destruct (sysfs w !! p); [|done]. by injection Hr as <-.
Qed.
Next Obligation.
  intros p v w Hr. cbn in *. unfold trimmed. destruct (String.eqb_spec (TrimSpace v) v) as [Hv|]; [|done].
  destruct (sysfs w !! p); [|done]. cbn. by rewrite fmap_insert, Hv.
Qed.
Next Obligation.
  intros p v w e Hr. cbn in *. destruct (String.eqb _ _); [|done]. by destruct (sysfs w !! p).
Qed.
Next Obligation. intros fd data w Hr. done. Qed.

Definition booted : guest :=
  mkGuest 0 (<[memory_online_path 0 := "1"]> (<[memory_online_path 1 := "1"]> (<[memory_online_path 2 := "1"]>
    (<[memory_online_path 3 := "1"]> (<[memory_online_path 32 := "0"]> (<[cpu_online_path 1 := "0"]> ∅)))))).
Definition fuel : nat := Z.to_nat (3 * Second).
Lemma fuel_ok : sysfsWaitTimeout < Z.of_nat fuel.
Proof. unfold fuel. rewrite Z2Nat.id; [reflexivity|discriminate]. Qed.

Lemma sysfs_wait_ends_witness :
  ∃ e w', waitForSysfsFile fuel ("/sys/devices/system/cpu/cpu1" +:+ "/" +:+ "online") sysfsWaitTimeout booted = Return (Some e, w').
Proof.
  destruct (sysfs_wait_ends fuel "/sys/devices/system/cpu/cpu1" "online" sysfsWaitTimeout booted) as (e & w' & E & _).
  - exists ["sys"; "devices"; "system"; "cpu"; "cpu1"]. split; [discriminate|]. split; [|reflexivity].
    repeat constructor; discriminate.
  - repeat split; discriminate.
  - split; [discriminate|exact fuel_ok].
  - exists e, w'. exact E.
Defined.



End SystemDemo.
