(* ===== verification/GuestClients.v ===== *)
(** * The calls of the hotplug controllers to the guest

    Models internal/shim/resources/vmclient.go: the functions that the shim gives to
    the CPU and memory controllers.  Each dials the guest and makes one call, which
    the guest answers with a handler of GuestSystem.v; the call may fail before the
    handler has run or after it. *)

From S2P Require Import Prelude GoStrings GoTime GuestDevices GuestSystem.
From Stdlib Require Import Ascii.

Module GuestClients.
Import GuestOS GuestSystem.
#[local] Open Scope m_scope.

(** The metrics of a cgroup as far as they are used; messages may be missing. *)
Record CPUStat := mkCPUStat { UsageUsec : Z; ThrottledUsec : Z }.
Record Metrics := mkMetrics { m_CPU : option CPUStat; m_Memory : option Z }.

Class Transport (W : Type) := {
  dialClient : W → option error * W;
  send_request : W → option error * W;
  receive_reply : W → option error * W;
  (* the task service's Stats: the payload, if there is one *)
  Stats : string → W → result (option string) * W;
  UnmarshalTo : string → result Metrics }.

Section clients.
Context {W : Type} `{!OS W, !Transport W}.

(** One call: dial, send, run the handler, receive; nothing if the handler has not
    ended within its fuel. *)
Definition rpc (handler : M W (option (option error))) : M W (option (option error)) :=
  e ← io dialClient;
  match e with
  | Some _ => m_ret (Some e)
  | None =>
      e ← io send_request;
      match e with
      | Some _ => m_ret (Some e)
      | None =>
          r ← handler;
          match r with
          | Some None => e ← io receive_reply; m_ret (Some e)
          | _ => m_ret r
          end
      end
  end.

Definition total (m : M W (option error)) : M W (option (option error)) := e ← m; m_ret (Some e).

Definition offlineCPU (cpuID : Z) : M W (option (option error)) := rpc (total (OfflineCPU (wrapu32 cpuID))).
Definition onlineCPU (fuel : nat) (cpuID : Z) : M W (option (option error)) := rpc (OnlineCPU fuel (wrapu32 cpuID)).
Definition offlineMemory (memoryID : Z) : M W (option (option error)) := rpc (total (OfflineMemory (wrapu32 memoryID))).
Definition onlineMemory (fuel : nat) (memoryID : Z) : M W (option (option error)) := rpc (OnlineMemory fuel (wrapu32 memoryID)).

(** The metrics of a container; [what] is the kind of statistics. *)
Definition get_metrics (containerID what : string) : M W (result Metrics) :=
  e ← io dialClient;
  match e with
  | Some e => m_ret (Err e)
  | None =>
      r ← io (Stats containerID);
      m_ret (match r with
             | Err e => Err e
             | Ok None => Err (ErrNew ("container " +:+ containerID +:+ ": missing " +:+ what +:+ " stats payload"))
             | Ok (Some data) =>
                 match UnmarshalTo data with
                 | Err e => Err (ErrWrap ("container " +:+ containerID +:+ ": failed to unmarshal stats") e)
                 | Ok m => Ok m
                 end
             end)
  end.

Definition getCPUStats (containerID : string) : M W (result (Z * Z)) :=
  r ← get_metrics containerID "CPU";
  m_ret (match r with
         | Err e => Err e
         | Ok m => match m_CPU m with
                   | None => Err (ErrNew ("container " +:+ containerID +:+ ": missing CPU stats in metrics"))
                   | Some c => Ok (UsageUsec c, ThrottledUsec c)
                   end
         end).

(** [int64(mem.GetUsage())]. *)
Definition getMemoryStats (containerID : string) : M W (result Z) :=
  r ← get_metrics containerID "memory";
  m_ret (match r with
         | Err e => Err e
         | Ok m => match m_Memory m with
                   | None => Err (ErrNew ("container " +:+ containerID +:+ ": missing memory stats in metrics"))
                   | Some usage => Ok (wrap64 usage)
                   end
         end).

End clients.
End GuestClients.

(** ** What a call that succeeds has done *)

Section clients.
Import GuestOS Devices DeviceLaws GuestSystem SysfsLaws GuestClients.
Context {W : Type} `{OS W, !Laws W, !SysfsLaws W, !Transport W}.

(** The transport does not change the guest. *)
Class TransportLaws := {
  dial_later w : later w (snd (dialClient w));
  send_later w : later w (snd (send_request w));
  receive_later w : later w (snd (receive_reply w)) }.
Context `{!TransportLaws}.

(** The value is there after a success, and whatever happens no other attribute
    changes. *)
Definition done_or_not (path v : string) (w : W) (o : option (option error)) (w' : W) : Prop :=
  ∃ r, o = Some r ∧ (r = None → attr w' !! path = Some v) ∧
    ∀ p x, p ≠ path → attr w !! p = Some x → attr w' !! p = Some x.

Lemma later_kept w w' (p x : string) : later w w' → attr w !! p = Some x → attr w' !! p = Some x.
Proof. intros (_ & _ & Ha) Hp. by eapply lookup_weaken. Qed.

Lemma failed_call path v e w w' : later w w' → done_or_not path v w (Some (Some e)) w'.
Proof. intros Hl. exists (Some e). split_and!; [done|done|]. intros p x _. by apply later_kept. Qed.

Lemma rpc_done handler path v w :
  (∀ w1, wp handler (λ o w', ∃ r, o = Some r ∧ sets path v w1 r w') w1) → wp (rpc handler) (done_or_not path v w) w.
Proof.
  intros Hh. unfold rpc. apply wp_bind, wp_os_io. pose proof (dial_later w) as H1. set (w1 := snd (dialClient w)) in *.
  destruct (fst (dialClient w)); [by apply wp_ret, failed_call|].
  apply wp_bind, wp_os_io. pose proof (send_later w1) as H2. set (w2 := snd (send_request w1)) in *.
  destruct (fst (send_request w1)); [apply wp_ret, failed_call; by transitivity w1|].
  apply wp_bind. eapply wp_mono; [apply Hh|]. intros o w3 (r & -> & Hset & _ & Hkeep).
  assert (∀ p x, p ≠ path → attr w !! p = Some x → attr w3 !! p = Some x) as Hk by eauto using later_kept.
  destruct r as [e|]; [apply wp_ret; by exists (Some e)|].
  apply wp_bind, wp_os_io. apply wp_ret. pose proof (receive_later w3) as H3.
  exists (fst (receive_reply w3)). split; [done|]. split; [|eauto using later_kept]. intros _. eapply later_kept; [exact H3|]. by apply Hset.
Qed.

(** The CPU that the controller names is the CPU that the guest brings online or
    takes offline: a call ends, if it succeeds the attribute of exactly this CPU has
    the wanted value, and no other attribute of the guest changes, even when the
    answer of a handler that has run is lost. *)
Theorem cpu_calls_reach_guest n id w :
  sysfsWaitTimeout < Z.of_nat n → 0 < id < 2 ^ 32 →
  (∃ o w', offlineCPU id w = Return (o, w') ∧ done_or_not (cpu_online_path id) sysfsOffline w o w') ∧
  (∃ o w', onlineCPU n id w = Return (o, w') ∧ done_or_not (cpu_online_path id) sysfsOnline w o w').
Proof.
  intros Hn Hid. assert (wrapu32 id = id) as Hw by (apply Z.mod_small; lia).
  split; apply wp_Return; unfold offlineCPU, onlineCPU; rewrite Hw; apply rpc_done; intros w1.
  - apply wp_bind. eapply wp_mono; [apply OfflineCPU_wp; lia|]. intros r w2 [Hs _]. apply wp_ret. eauto.
  - eapply wp_mono; [apply OnlineCPU_wp; [exact Hn|lia]|]. intros o w2 (e & -> & Hs & _). exists e. split; [done|]. apply Hs. lia.
Qed.

(** Statistics are those the guest sent; usage of memory above the range of int64
    would be negative. *)
Theorem stats_values id w r w' :
  getCPUStats id w = Return (Ok r, w') →
  ∃ w1 data m, fst (Stats id w1) = Ok (Some data) ∧ UnmarshalTo data = Ok m ∧ m_CPU m = Some (mkCPUStat (fst r) (snd r)).
Proof.
  unfold getCPUStats, get_metrics, m_bind, io. destruct (dialClient w) as [[e|] w1]; [done|].
  destruct (Stats id w1) as [[[data|]|] w2] eqn:E; cbn; [|done|done]. destruct (UnmarshalTo data) as [m|] eqn:Em; [|done].
  destruct (m_CPU m) as [[u t]|] eqn:Ec; [|done]. intros [= <- <-]. exists w1, data, m. rewrite E. by rewrite Ec.
Qed.

End clients.
