(* ===== verification/GuestInit.v ===== *)
(** * The guest before its services

    Models internal/guest/vminit/config/config.go (the flags and the configuration
    file of vminitd) and internal/guest/vminit/system/init.go: the file systems,
    device nodes, cgroups, name servers and the metadata route that vminitd sets up.
    The flags come from the end of the kernel command line, the name servers and
    the gateway from its parameter [ip=] (QemuCmd.v).  Reads, the clock and the wait
    for the disks are those of GuestDevices.v; every call that changes the system is
    recorded with its result. *)

From S2P Require Import Prelude GoStrings GoTime MountUtil QemuCmd GuestSupervisor GuestDevices GuestSystem.
From Stdlib Require Import Ascii.

(** ** config.go *)

Module VMConfig.

(** The values of a plug-in's configuration are JSON texts. *)
Record ServiceConfig := mkService
  { VSockContextID : Z; RPCPort : Z; StreamPort : Z; Debug : bool;
    DisabledPlugins : list string; PluginConfigs : gmap string (gmap string string) }.

Definition GuestCID : Z := 3.

(** [strconv.ParseBool]. *)
Definition ParseBool (s : string) : option bool :=
  if existsb (String.eqb s) ["1"; "t"; "T"; "TRUE"; "true"; "True"] then Some true
  else if existsb (String.eqb s) ["0"; "f"; "F"; "FALSE"; "false"; "False"] then Some false
  else None.

(** [strconv.ParseInt(s, 0, 64)]: a prefix names the base, and underscores may
    separate digits. *)
Definition hex_digit (a : ascii) : option Z :=
  let n := Z.of_N (N_of_ascii a) in
  if (48 <=? n) && (n <=? 57) then Some (n - 48)
  else if (97 <=? n) && (n <=? 102) then Some (n - 87)
  else if (65 <=? n) && (n <=? 70) then Some (n - 55)
  else None.
Fixpoint hex_value (acc : Z) (s : string) : option Z :=
  match s with
  | EmptyString => Some acc
  | String a s' => match hex_digit a with Some d => hex_value (acc * 16 + d) s' | None => None end
  end.
Fixpoint strip_underscores (s : string) : string :=
  match s with
  | EmptyString => EmptyString
  | String a s' => if Ascii.eqb a "_" then strip_underscores s' else String a (strip_underscores s')
  end.

(** [underscoreOK] on what is parsed as digits: [after] tells whether a digit or a
    prefix came before. *)
Fixpoint underscores_ok (after : bool) (s : string) : bool :=
  match s with
  | EmptyString => true
  | String a s' =>
      if Ascii.eqb a "_" then after && negb (String.eqb s' "") && underscores_ok false s' else underscores_ok true s'
  end.
Definition magnitude (s : string) : option Z :=
  let digits after base t := if underscores_ok after t then digits_value base 0 (strip_underscores t) else None in
  match s with
  | EmptyString => None
  | String a r =>
      if Ascii.eqb a "0" then
        match r with
        | String b ((String _ _) as t) =>
            if Ascii.eqb (ascii_lower b) "b" then digits true 2 t
            else if Ascii.eqb (ascii_lower b) "o" then digits true 8 t
            else if Ascii.eqb (ascii_lower b) "x" then
              if underscores_ok true t then hex_value 0 (strip_underscores t) else None
            else digits true 8 r
        | _ => digits true 8 r
        end
      else digits false 10 s
  end.
Definition ParseInt0 (s : string) : option Z :=
  let ranged (z : option Z) := z ≫= λ z, if (min_int64 <=? z) && (z <=? max_int64) then Some z else None in
  match s with
  | String a r => if Ascii.eqb a "-" then ranged (Z.opp <$> magnitude r)
                  else if Ascii.eqb a "+" then ranged (magnitude r)
                  else ranged (magnitude s)
  | EmptyString => None
  end.

(** The flag set of [ParseFlags] with the values so far, and the flags that
    were set. *)
Record flags := mkFlags { cfg : ServiceConfig; configFile : string; setFlags : gset string }.

Definition defaults : ServiceConfig :=
  mkService GuestCID Qemu.DefaultRPCPort Qemu.DefaultStreamPort false [] ∅.

Inductive kind := BoolFlag | ValueFlag.
Definition lookup_flag (name : string) : option kind :=
  if String.eqb name "debug" then Some BoolFlag
  else if existsb (String.eqb name) ["config"; "vsock-rpc-port"; "vsock-stream-port"; "vsock-cid"] then Some ValueFlag
  else None.

(** [flag.Value.Set] of each flag. *)
Definition set_value (name value : string) (f : flags) : option flags :=
  let c := cfg f in
  let set c' file := Some (mkFlags c' file ({[name]} ∪ setFlags f)) in
  if String.eqb name "debug" then
    ParseBool value ≫= λ b, set (mkService (VSockContextID c) (RPCPort c) (StreamPort c) b (DisabledPlugins c) (PluginConfigs c)) (configFile f)
  else if String.eqb name "config" then set c value
  else if String.eqb name "vsock-rpc-port" then
    ParseInt0 value ≫= λ v, set (mkService (VSockContextID c) v (StreamPort c) (Debug c) (DisabledPlugins c) (PluginConfigs c)) (configFile f)
  else if String.eqb name "vsock-stream-port" then
    ParseInt0 value ≫= λ v, set (mkService (VSockContextID c) (RPCPort c) v (Debug c) (DisabledPlugins c) (PluginConfigs c)) (configFile f)
  else if String.eqb name "vsock-cid" then
    ParseInt0 value ≫= λ v, set (mkService v (RPCPort c) (StreamPort c) (Debug c) (DisabledPlugins c) (PluginConfigs c)) (configFile f)
  else None.

(** The part of an argument before the first equals sign after its first
    character, and the part after it. *)
Fixpoint cut_eq (s : string) : string * option string :=
  match s with
  | EmptyString => (EmptyString, None)
  | String a r => if Ascii.eqb a "=" then (EmptyString, Some r) else let '(n, v) := cut_eq r in (String a n, v)
  end.
Definition cut_name (s : string) : string * option string :=
  match s with
  | EmptyString => (EmptyString, None)
  | String a r => let '(n, v) := cut_eq r in (String a n, v)
  end.

Definition flag_error (what : string) : error := ErrNew what.

(** The name of a flag argument; nothing if it ends the flags. *)
Inductive arg := NotFlag | Terminator | BadSyntax | Flag (name : string) (value : option string).
Definition parse_arg (s : string) : arg :=
  match s with
  | String a (String b r) =>
      if negb (Ascii.eqb a "-") then NotFlag
      else if Ascii.eqb b "-" && String.eqb r "" then Terminator
      else
        let name := if Ascii.eqb b "-" then r else String b r in
        match name with
        | EmptyString => BadSyntax
        | String c _ =>
            if Ascii.eqb c "-" || Ascii.eqb c "=" then BadSyntax
            else let '(n, v) := cut_name name in Flag n v
        end
  | _ => NotFlag
  end.

(** [flag.FlagSet.Parse]: up to the first argument that is no flag. *)
Fixpoint Parse (args : list string) (f : flags) : result flags :=
  match args with
  | [] => Ok f
  | s :: args' =>
      match parse_arg s with
      | NotFlag | Terminator => Ok f
      | BadSyntax => Err (flag_error ("bad flag syntax: " +:+ s))
      | Flag name value =>
          match lookup_flag name with
          | None => Err (flag_error (if String.eqb name "help" || String.eqb name "h" then "flag: help requested"
                                     else "flag provided but not defined: -" +:+ name))
          | Some BoolFlag =>
              match set_value name (default "true" value) f with
              | Some f' => Parse args' f'
              | None => Err (flag_error ("invalid boolean value for -" +:+ name))
              end
          | Some ValueFlag =>
              match value with
              | Some v => match set_value name v f with
                          | Some f' => Parse args' f'
                          | None => Err (flag_error ("invalid value for flag -" +:+ name))
                          end
              | None =>
                  match args' with
                  | [] => Err (flag_error ("flag needs an argument: -" +:+ name))
                  | v :: args'' => match set_value name v f with
                                   | Some f' => Parse args'' f'
                                   | None => Err (flag_error ("invalid value for flag -" +:+ name))
                                   end
                  end
              end
          end
      end
  end.

Definition ParseFlags (args : list string) : result flags := Parse args (mkFlags defaults "" ∅).

(** [LoadFromFile]: [data] is what reading the file gave and [Unmarshal] decodes
    JSON into an existing configuration. *)
Definition LoadFromFile (Unmarshal : string → ServiceConfig → result ServiceConfig) (data : result string) (f : flags)
    : result ServiceConfig :=
  match data with
  | Err e => Err (ErrWrap "failed to read config file" e)
  | Ok data =>
      match Unmarshal data (cfg f) with
      | Err e => Err (ErrWrap "failed to parse config file" e)
      | Ok c =>
          let isset n := bool_decide (n ∈ setFlags f) in
          Ok (mkService (if isset "vsock-cid" then VSockContextID (cfg f) else VSockContextID c)
                (if isset "vsock-rpc-port" then RPCPort (cfg f) else RPCPort c)
                (if isset "vsock-stream-port" then StreamPort (cfg f) else StreamPort c)
                (if isset "debug" then Debug (cfg f) else Debug c)
                (DisabledPlugins c) (PluginConfigs c))
      end
  end.

End VMConfig.

(** ** system/init.go *)

Module GuestInit.
Import GuestOS MountUtil GuestSystem (IsNotExist) GuestSupervisor (newline).
#[local] Open Scope m_scope.

(** The calls that change the system. *)
Inductive call :=
  | MkdirAll (path : string) (mode : Z)
  | Mkdir (path : string) (mode : Z)
  | MountAll (ms : list Mount) (target : string)
  | WriteFile (path data : string) (mode : Z)
  | Mknod (path : string) (mode : Z) (dev : Z * Z)
  | Symlink (target link : string).

Class BootOS (W : Type) := {
  perform : call → W → option error * W;
  os_Lstat : string → W → option error * W;
  (* os.IsExist *)
  IsExist : error → bool }.

Inductive event := Did (c : call) (e : option error) | Waited (ready : bool).

Record st (W : Type) := mkSt { world : W; trace : list event }.
Arguments mkSt {W}. Arguments world {W}. Arguments trace {W}.

Section init.
Context {W : Type} `{!OS W, !BootOS W, !MapOrder}.
Notation ST := (st W).

Definition do (c : call) : M ST (option error) := λ s,
  let '(e, w) := perform c (world s) in Return (e, mkSt w (trace s ++ [Did c e])).
Definition ask {A} (f : W → A * W) : M ST A := λ s,
  let '(a, w) := f (world s) in Return (a, mkSt w (trace s)).

(** [devices.WaitForBlockDevices] changes nothing but the time; nothing if the
    rounds do not suffice. *)
Definition wait_devices (fuel : nat) : M ST (option ()) := λ s,
  match Devices.WaitForBlockDevices fuel (world s) with
  | Return (Some b, w) => Return (Some tt, mkSt w (trace s ++ [Waited b]))
  | Return (None, w) => Return (None, mkSt w (trace s))
  | Panic m => Panic m
  end.

(** Sequencing of steps of which the first that fails ends the function. *)
Definition or_fail (m k : M ST (option error)) : M ST (option error) :=
  e ← m; match e with Some _ => m_ret e | None => k end.

(** [if err := ...; err != nil && !os.IsExist(err)]. *)
Definition make_dir (c : call) (what : string) : M ST (option error) :=
  e ← do c;
  m_ret (match e with
         | Some e => if negb (IsExist e) then Some (ErrWrap ("failed to create " +:+ what) e) else None
         | None => None
         end).

Definition base_mounts : list Mount :=
  [mkMount "proc" "proc" "/proc" ["nosuid"; "noexec"; "nodev"];
   mkMount "sysfs" "sysfs" "/sys" ["nosuid"; "noexec"; "nodev"];
   mkMount "cgroup2" "none" "/sys/fs/cgroup" [];
   mkMount "tmpfs" "tmpfs" "/run" ["nosuid"; "noexec"; "nodev"];
   mkMount "tmpfs" "tmpfs" "/tmp" ["nosuid"; "noexec"; "nodev"];
   mkMount "devtmpfs" "devtmpfs" "/dev" ["nosuid"; "noexec"]].
Definition dev_mounts : list Mount :=
  [mkMount "devpts" "devpts" "/dev/pts" ["nosuid"; "noexec"; "gid=5"; "mode=0620"; "ptmxmode=0666"];
   mkMount "tmpfs" "shm" "/dev/shm" ["nosuid"; "noexec"; "nodev"; "mode=1777"; "size=64m"]].

(** 0755 is 493, 0o1777 is 1023 and 0644 is 420. *)
Definition mountFilesystems : M ST (option error) :=
  or_fail (make_dir (MkdirAll "/lib" 493) "/lib")
  (or_fail (do (MountAll base_mounts "/"))
  (or_fail (make_dir (MkdirAll "/run/lock" 1023) "/run/lock")
  (or_fail (make_dir (MkdirAll "/dev/pts" 493) "/dev/pts")
  (or_fail (make_dir (MkdirAll "/dev/shm" 493) "/dev/shm")
           (do (MountAll dev_mounts "/")))))).

Definition missing (e : option error) : bool := match e with Some e => IsNotExist e | None => false end.

Definition link_if_missing (p : string * string) : M ST () :=
  e ← ask (os_Lstat (fst p));
  if missing e then do (Symlink (snd p) (fst p)) ≫= λ _, m_ret tt else m_ret tt.

Definition symlinks : list (string * string) :=
  [("/dev/fd", "/proc/self/fd"); ("/dev/stdin", "/proc/self/fd/0");
   ("/dev/stdout", "/proc/self/fd/1"); ("/dev/stderr", "/proc/self/fd/2")].

(** [S_IFCHR|0666] is 8630. *)
Definition setupDevNodes : M ST (option error) :=
  e ← ask (os_Stat "/dev/fuse");
  (if missing e then do (Mknod "/dev/fuse" 8630 (10, 229)) ≫= λ _, m_ret tt else m_ret tt) ≫= λ _,
  m_for link_if_missing (map_order symlinks) ≫= λ _,
  link_if_missing ("/dev/ptmx", "/dev/pts/ptmx") ≫= λ _,
  m_ret None.

Definition setupCgroupControl : M ST (option error) :=
  do (WriteFile "/sys/fs/cgroup/cgroup.subtree_control" "+cpu +cpuset +io +memory +pids" 420).

(** The first word with a prefix, less the prefix. *)
Fixpoint first_param (prefix : string) (words : list string) : option string :=
  match words with
  | [] => None
  | w :: words' => match CutPrefix w prefix with Some r => Some r | None => first_param prefix words' end
  end.

(** [if len(parts) > i && parts[i] != ""]. *)
Definition part (parts : list string) (i : nat) : list string :=
  match parts !! i with Some x => if String.eqb x "" then [] else [x] | None => [] end.
Definition ip_parts (cmdline : string) : list string :=
  match first_param "ip=" (Fields cmdline) with Some p => Split p ":" | None => [] end.
Definition gateway_of (cmdline : string) : string := default "" (head (part (ip_parts cmdline) 2)).
Definition nameservers_of (cmdline : string) : list string :=
  let parts := ip_parts cmdline in part parts 7 ++ part parts 8.

Definition route_script (dst gateway : string) : string :=
  "#!/bin/sh" +:+ newline +:+ "ip route add " +:+ dst +:+ "/32 via " +:+ gateway +:+ " 2>/dev/null || true" +:+ newline.

Definition addRoute (dst gateway : string) : M ST (option error) :=
  e ← do (WriteFile "/run/metadata-route.sh" (route_script dst gateway) 493);
  m_ret (ErrWrap "failed to write route script" <$> e).

Definition configureMetadataRoute : M ST (option error) :=
  r ← ask (os_ReadFile "/proc/cmdline");
  match r with
  | Err e => m_ret (Some (ErrWrap "failed to read /proc/cmdline" e))
  | Ok cmdline =>
      let gateway := gateway_of cmdline in
      if String.eqb gateway "" then m_ret None
      else if negb (existsb (λ p, HasPrefix p "spin.metadata_addr=") (Fields cmdline)) then m_ret None
      else addRoute "169.254.169.254" gateway ≫= λ _, m_ret None
  end.

Definition resolv_conf (nameservers : list string) : string :=
  String.concat "" ((λ ns, "nameserver " +:+ ns +:+ newline) <$> nameservers).

Definition configureDNS : M ST (option error) :=
  r ← ask (os_ReadFile "/proc/cmdline");
  match r with
  | Err e => m_ret (Some (ErrWrap "failed to read /proc/cmdline" e))
  | Ok cmdline =>
      match nameservers_of cmdline with
      | [] => m_ret None
      | nameservers =>
          e ← do (WriteFile "/etc/resolv.conf" (resolv_conf nameservers) 420);
          m_ret (ErrWrap "failed to write /etc/resolv.conf" <$> e)
      end
  end.

Definition Initialize (fuel : nat) : M ST (option (option error)) :=
  e ← or_fail mountFilesystems setupDevNodes;
  match e with
  | Some _ => m_ret (Some e)
  | None =>
      do (WriteFile "/proc/sys/kernel/ctrl-alt-del" "0" 420) ≫= λ _,
      r ← wait_devices fuel;
      match r with
      | None => m_ret None
      | Some _ =>
          e ← or_fail setupCgroupControl (make_dir (Mkdir "/etc" 493) "/etc");
          match e with
          | Some _ => m_ret (Some e)
          | None => configureDNS ≫= λ _, configureMetadataRoute ≫= λ _, m_ret (Some None)
          end
      end
  end.

End init.
End GuestInit.

(** ** The flags of a VM *)

Section flags.
Import Qemu GuestSupervisor VMConfig.

(** No number that is not 0 starts with the digit 0. *)
Lemma pretty_head (x : N) s : (0 < x)%N → ∃ a r, pretty_N_go x s = String a r ∧ Ascii.eqb a "0" = false.
Proof.
  revert s. induction (N.lt_wf_0 x) as [x _ IH]. intros s Hx. rewrite pretty_N_go_step by done.
  destruct (decide (x < 10)%N) as [Hlt|Hge].
  - rewrite N.div_small, pretty_N_go_0, N.mod_small by done. exists (pretty_N_char x), s. split; [done|].
    assert (x = 1 ∨ x = 2 ∨ x = 3 ∨ x = 4 ∨ x = 5 ∨ x = 6 ∨ x = 7 ∨ x = 8 ∨ x = 9)%N as Hc by lia.
    by repeat destruct Hc as [->|Hc]; [..|subst].
  - apply IH; [apply N.div_lt; lia|]. apply N.div_str_pos. lia.
Qed.

Lemma digits_no_underscore s : str_all is_digit s = true → strip_underscores s = s ∧ ∀ b, underscores_ok b s = true.
Proof.
  induction s as [|a s IH]; [done|]. cbn [str_all strip_underscores underscores_ok]. intros [Ha Hs]%andb_true_iff.
  destruct (IH Hs) as [-> Hu]. destruct (Ascii.eqb_spec a "_") as [->|_]; [done|]. split; [done|]. intros _. apply Hu.
Qed.

Lemma ParseInt0_fmt_d z : 0 < z ≤ max_int64 → ParseInt0 (fmt_d z) = Some z.
Proof.
  intros Hz. destruct (fmt_d_digits z) as (Hd & Hv & _); [lia|].
  destruct (pretty_head (Z.to_N z) "") as (a & r & E & H0); [lia|].
  assert (fmt_d z = String a r) as Ez.
  { rewrite fmt_d_nonneg by lia. unfold pretty, pretty_N. destruct (decide _) as [E0|_]; [lia|exact E]. }
  destruct (digits_no_underscore _ Hd) as [Hs Hu]. rewrite Ez in *. cbn [str_all] in Hd.
  apply andb_true_iff in Hd as [Ha _].
  assert (magnitude (String a r) = Some z) as Hm by (unfold magnitude; by rewrite H0, Hu, Hs).
  unfold ParseInt0. destruct (Ascii.eqb_spec a "-") as [->|_]; [done|]. destruct (Ascii.eqb_spec a "+") as [->|_]; [done|].
  rewrite Hm. cbn [mbind option_bind]. rewrite !Zbool.Zle_imp_le_bool by (unfold min_int64; lia). done.
Qed.

Lemma Parse_rest rest f : Forall (λ a, parse_arg a = NotFlag) rest → Parse rest f = Ok f.
Proof. destruct 1 as [|a rest Ha _]; [done|]. cbn [Parse]. by rewrite Ha. Qed.

(** The arguments of a VM, whatever the caller appended. *)
Lemma Parse_vm_flags q rest :
  0 < guestCID (config q) ≤ max_int64 → Forall (λ a, parse_arg a = NotFlag) rest →
  ParseFlags (vm_flags q ++ rest) =
  Ok (mkFlags (mkService (guestCID (config q)) DefaultRPCPort DefaultStreamPort false [] ∅) ""
       {["vsock-cid"; "vsock-stream-port"; "vsock-rpc-port"]}).
Proof.
  intros Hcid Hr. unfold ParseFlags, vm_flags. cbn [app].
  change (Parse _ _) with (Parse (("-vsock-cid=" +:+ fmt_d (guestCID (config q))) :: rest)
    (mkFlags (mkService GuestCID 1025 1026 false [] ∅) "" ({["vsock-stream-port"]} ∪ ({["vsock-rpc-port"]} ∪ ∅)))).
  cbn [Parse]. change (parse_arg _) with (Flag "vsock-cid" (Some (fmt_d (guestCID (config q))))).
  change (lookup_flag "vsock-cid") with (Some ValueFlag). cbn iota.
  change (set_value "vsock-cid" ?v ?f) with (ParseInt0 v ≫= λ z, Some (mkFlags (mkService z (RPCPort (cfg f)) (StreamPort (cfg f))
    (Debug (cfg f)) (DisabledPlugins (cfg f)) (PluginConfigs (cfg f))) (configFile f) ({["vsock-cid"]} ∪ setFlags f))).
  rewrite ParseInt0_fmt_d by done. cbn [mbind option_bind cfg configFile setFlags].
  rewrite Parse_rest by done. by rewrite (right_id_L ∅ (∪)), (assoc_L (∪)).
Qed.

(** What the kernel gives to init, and what vminitd makes of it: the context ID,
    the RPC port and the stream port of the VM, whatever the network configuration
    before it and whatever arguments of the supervisor follow. *)
Lemma vm_argv q opts :
  0 < guestCID (config q) ≤ max_int64 → network_no_space (so_NetworkConfig opts) →
  Forall (λ a, a ≠ "" ∧ no_space a = true ∧ parse_arg a = NotFlag) (InitArgs opts) →
  ∃ pre argv, Fields (buildKernelCommandLine q opts +:+ newline) = pre ++ "--" :: argv ∧ "--" ∉ pre ∧
    ParseFlags argv =
    Ok (mkFlags (mkService (guestCID (config q)) DefaultRPCPort DefaultStreamPort false [] ∅) ""
         {["vsock-cid"; "vsock-stream-port"; "vsock-rpc-port"]}).
Proof.
  intros Hcid Hnet Hargs. destruct (cmdline_words q opts) as (pre & _ & Hpre & Hw); [lia|done| |].
  { eapply Forall_impl; [exact Hargs|]. by intros a (?&?&?). }
  rewrite Hw. exists (pre ++ net_words (so_NetworkConfig opts) ++ ["init=/sbin/vminitd"]), (vm_flags q ++ InitArgs opts).
  split; [by rewrite <- !app_assoc|]. split.
  { rewrite !not_elem_of_app. split; [done|]. split; [|by apply (bool_decide_unpack _); vm_compute].
    unfold net_words. case_match; [|by apply not_elem_of_nil]. rewrite list_elem_of_singleton. intros E.
    destruct (network_param _ Hnet) as [E'|(_ & r & E')]; rewrite E' in E; discriminate. }
  apply Parse_vm_flags; [done|]. eapply Forall_impl; [exact Hargs|]. by intros a (?&?&?).
Qed.

(** A configuration file does not change what the flags set. *)
Lemma flags_take_precedence U data f c :
  LoadFromFile U data f = Ok c → {["vsock-cid"; "vsock-stream-port"; "vsock-rpc-port"]} ⊆ setFlags f →
  VSockContextID c = VSockContextID (cfg f) ∧ RPCPort c = RPCPort (cfg f) ∧ StreamPort c = StreamPort (cfg f).
Proof.
  unfold LoadFromFile. destruct data as [data|]; [|done]. destruct (U data _); [|done]. intros [= <-] Hs.
  cbn [VSockContextID RPCPort StreamPort]. by rewrite !bool_decide_eq_true_2 by set_solver.
Qed.

End flags.

(** ** The network configuration *)

Section network.
Import Qemu GuestSupervisor GuestOS GuestInit.

(** A value that the parameter [ip=] can carry. *)
Definition field_value (x : string) : bool := no_space x && str_all (not_char ":") x.
Definition network_values (c : NetworkConfig) : bool := forallb field_value (IP c :: Gateway c :: Netmask c :: DNS c).

Lemma first_param_plain pre prefix rest :
  Forall (λ w, HasPrefix w prefix = false) pre → first_param prefix (pre ++ rest) = first_param prefix rest.
Proof.
  induction 1 as [|w pre Hw _ IH]; [done|]. cbn [app first_param].
  destruct (CutPrefix w prefix) as [r|] eqn:E; [|done]. apply CutPrefix_Some in E as ->. by rewrite HasPrefix_app in Hw.
Qed.

Lemma field_no_colon x : field_value x = true → str_all (not_char ":") x = true.
Proof. unfold field_value. by intros [_ ?]%andb_true_iff. Qed.

Lemma network_fields c :
  IP c ≠ "" → network_values c = true →
  ∃ p, buildNetworkParam (Some c) = "ip=" +:+ p ∧
    Split p ":" = [IP c; ""; Gateway c; Netmask c; ""; "eth0"; "none"] ++ take 2 (DNS c).
Proof.
  intros Hip Hv. set (l := [IP c; ""; Gateway c; Netmask c; ""; "eth0"; "none"] ++ take 2 (DNS c)).
  exists (strings_Join l ":"). split.
  - unfold buildNetworkParam. rewrite (proj2 (String.eqb_neq _ _) Hip). f_equal. subst l.
    destruct (DNS c) as [|d1 [|d2 ds]]; cbn [take app fmap list_fmap String.concat]; rewrite !strings_Join_cons;
      change (strings_Join [?x] ?s) with x; rewrite ?append_assoc; reflexivity.
  - apply (Split_Join ":"); [done|]. subst l. unfold network_values in Hv. cbn [forallb] in Hv.
    rewrite !andb_true_iff in Hv. destruct Hv as (Hi & Hg & Hm & Hd).
    repeat (apply Forall_cons; split; [first [done|by apply field_no_colon]|]). apply Forall_take, Forall_forall.
    intros x Hx. rewrite forallb_forall in Hd. by apply field_no_colon, Hd, list_elem_of_In.
Qed.

Lemma network_values_space c : network_values c = true → network_no_space (Some c).
Proof.
  unfold network_values, network_no_space. rewrite !forallb_forall. intros Hv x Hx.
  specialize (Hv x Hx). by apply andb_true_iff in Hv as [? _].
Qed.

Context {W : Type} `{!OS W, !BootOS W}.
Implicit Types (s : st W).

Definition calls (tr : list event) : list call := omap (λ ev, match ev with Did c _ => Some c | Waited _ => None end) tr.

Lemma calls_app a b : calls (a ++ b) = calls a ++ calls b.
Proof. apply omap_app. Qed.

Lemma part_filter parts i :
  part parts i = filter (λ d, d ≠ "") (match parts !! i with Some x => [x] | None => [] end).
Proof.
  unfold part. destruct (parts !! i) as [x|]; [|done]. rewrite filter_cons, filter_nil.
  destruct (String.eqb_spec x ""); [rewrite decide_False by naive_solver|rewrite decide_True by done]; done.
Qed.

(** What the parsers find on the command line of a VM. *)
Lemma cmdline_network q opts c :
  so_NetworkConfig opts = Some c → IP c ≠ "" → network_values c = true → 0 ≤ guestCID (config q) →
  Forall (λ a, a ≠ "" ∧ no_space a = true) (InitArgs opts) →
  let cmdline := buildKernelCommandLine q opts +:+ newline in
  gateway_of cmdline = Gateway c ∧
  nameservers_of cmdline = filter (λ d, d ≠ "") (take 2 (DNS c)) ∧
  existsb (λ p, HasPrefix p "spin.metadata_addr=") (Fields cmdline) =
  existsb (λ p, HasPrefix p "spin.metadata_addr=") (InitArgs opts).
Proof.
  intros Hc Hip Hv Hcid Hargs cmdline. destruct (network_fields c Hip Hv) as (p & Hp & Hs).
  destruct (cmdline_words q opts) as (pre & Hpre & _ & Hw); [done| |done|].
  { rewrite Hc. by apply network_values_space. }
  assert (net_words (so_NetworkConfig opts) = ["ip=" +:+ p]) as Hn by (unfold net_words; by rewrite Hc, Hp).
  assert (ip_parts cmdline = [IP c; ""; Gateway c; Netmask c; ""; "eth0"; "none"] ++ take 2 (DNS c)) as Hi.
  { unfold ip_parts, cmdline. rewrite Hw, Hn, first_param_plain.
    - cbn [app first_param]. by rewrite CutPrefix_app.
    - eapply Forall_impl; [exact Hpre|]. by intros ? [_ ?]. }
  split_and!.
  - unfold gateway_of. rewrite Hi. unfold part. cbn. by destruct (String.eqb_spec (Gateway c) "").
  - unfold nameservers_of. rewrite Hi, !part_filter, <- filter_app. f_equal. by destruct (DNS c) as [|d1 [|d2 ds]].
  - unfold cmdline. rewrite Hw, Hn, !existsb_app.
    assert (∀ l, Forall plain_word l → existsb (λ p, HasPrefix p "spin.metadata_addr=") l = false) as Hpl.
    { induction 1 as [|x l [Hx _] _ IH]; [done|]. cbn [existsb]. rewrite IH, orb_false_r.
      destruct (HasPrefix x "spin.metadata_addr=") eqn:E; [|done].
      change "spin.metadata_addr=" with ("spin." +:+ "metadata_addr=") in E. apply HasPrefix_weaken in E. unfold foreign in Hx. congruence. }
    pose proof (Hpl _ (vm_flags_plain q)) as Hf. rewrite existsb_app in Hf. apply orb_false_iff in Hf as [Hf1 Hf2].
    by rewrite (Hpl pre), Hf1, Hf2.
Qed.

(** C28: the network configuration of a VM arrives in its guest.  Of the command line
    that the shim built for it, vminitd writes the non-empty ones of the first two
    DNS servers, in their order, to /etc/resolv.conf, and the gateway into the
    script for the metadata route if and only if there is one and the VM has a
    supervisor; for all addresses without white space and colons, which the
    parameter [ip=] separates its fields with. *)
Theorem boot_network_roundtrip q opts c s :
  so_NetworkConfig opts = Some c → IP c ≠ "" → network_values c = true → 0 ≤ guestCID (config q) →
  Forall (λ a, a ≠ "" ∧ no_space a = true) (InitArgs opts) →
  (∀ w : W, fst (os_ReadFile "/proc/cmdline" w) = Ok (buildKernelCommandLine q opts +:+ newline)) →
  let dns := filter (λ d, d ≠ "") (take 2 (DNS c)) in
  let supervised := existsb (λ p, HasPrefix p "spin.metadata_addr=") (InitArgs opts) in
  wp configureDNS (λ _ s', calls (trace s') = calls (trace s) ++
    match dns with [] => [] | _ => [WriteFile "/etc/resolv.conf" (resolv_conf dns) 420] end) s ∧
  wp configureMetadataRoute (λ r s', r = None ∧ calls (trace s') = calls (trace s) ++
    if negb (String.eqb (Gateway c) "") && supervised
    then [WriteFile "/run/metadata-route.sh" (route_script "169.254.169.254" (Gateway c)) 493] else []) s.
Proof.
  intros Hc Hip Hv Hcid Hargs Hr dns supervised.
  destruct (cmdline_network q opts c Hc Hip Hv Hcid Hargs) as (Hg & Hn & Hs).
  unfold configureDNS, configureMetadataRoute. split; apply wp_bind; unfold ask, wp at 1.
  - specialize (Hr (world s)). destruct (os_ReadFile _ _) as [r w']. simpl in Hr. subst r. cbn iota.
    rewrite Hn. fold dns. destruct dns as [|d l]; [apply wp_ret; cbn [trace]; by rewrite app_nil_r|].
    apply wp_bind. unfold do, wp at 1. destruct (perform _ _) as [e w2]. apply wp_ret. cbn [trace].
    by rewrite calls_app.
  - specialize (Hr (world s)). destruct (os_ReadFile _ _) as [r w']. simpl in Hr. subst r. cbn iota zeta.
    rewrite Hg, Hs. fold supervised.
    destruct (String.eqb (Gateway c) ""); [apply wp_ret; cbn; by rewrite app_nil_r|].
    destruct supervised; [|apply wp_ret; cbn; by rewrite app_nil_r]. cbn [negb andb].
    apply wp_bind, wp_bind. unfold do, wp at 1. destruct (perform _ _) as [e w2]. do 2 apply wp_ret. cbn [trace].
    by rewrite calls_app.
Qed.

End network.

(** ** Booting *)

Section booting.
Import GuestOS DeviceLaws MountUtil GuestInit.
Context {W : Type} `{!OS W, !Laws W, !BootOS W, !MapOrder}.
Implicit Types (s : st W).
#[local] Open Scope m_scope.

(** Time does not go back while the system is set up. *)
Class BootLaws := {
  perform_clock c (w : W) : clock w ≤ clock (snd (perform c w));
  lstat_clock p (w : W) : clock w ≤ clock (snd (os_Lstat p w)) }.
Context `{!BootLaws}.

(** The calls that a guest cannot do without, in their order; nothing stands for
    the wait for the disks. *)
Definition cgroup_control : string := "/sys/fs/cgroup/cgroup.subtree_control".
Definition vital (c : call) : bool :=
  match c with
  | MkdirAll _ _ | Mkdir _ _ | MountAll _ _ => true
  | WriteFile p _ _ => String.eqb p cgroup_control
  | _ => false
  end.
Definition boot_steps : list (option call) :=
  [Some (MkdirAll "/lib" 493); Some (MountAll base_mounts "/"); Some (MkdirAll "/run/lock" 1023);
   Some (MkdirAll "/dev/pts" 493); Some (MkdirAll "/dev/shm" 493); Some (MountAll dev_mounts "/"); None;
   Some (WriteFile cgroup_control "+cpu +cpuset +io +memory +pids" 420); Some (Mkdir "/etc" 493)].

Definition steps (tr : list event) : list (option call) :=
  omap (λ ev, match ev with Did c _ => if vital c then Some (Some c) else None | Waited _ => Some None end) tr.

(** A directory that is there already is as good as a new one. *)
Definition fatal (ev : event) : bool :=
  match ev with
  | Did ((MkdirAll _ _ | Mkdir _ _)) (Some e) => negb (IsExist e)
  | Did c (Some _) => vital c
  | _ => false
  end.

Definition fine (tr : list event) : Prop := Forall (λ ev, fatal ev = false) tr.

(** A phase takes the steps [l], or stops at the first fatal call. *)
Definition phase (l : list (option call)) (r : option error) (tr : list event) : Prop :=
  match r with
  | None => steps tr = l ∧ fine tr
  | Some _ => ∃ tr' ev, tr = tr' ++ [ev] ∧ fatal ev = true ∧ fine tr' ∧ steps tr `prefix_of` l
  end.

Definition logs {A} (P : A → list event → Prop) (m : M (st W) A) : Prop :=
  ∀ s, wp m (λ r s', clock (world s) ≤ clock (world s') ∧ ∃ tr, trace s' = trace s ++ tr ∧ P r tr) s.
Definition quiet {A} (m : M (st W) A) : Prop := logs (λ _ tr, steps tr = [] ∧ fine tr) m.

Lemma steps_app a b : steps (a ++ b) = steps a ++ steps b.
Proof. apply omap_app. Qed.

Lemma logs_ret {A} (P : A → list event → Prop) a : P a [] → logs P (m_ret a).
Proof. intros HP s. apply wp_ret. split; [done|]. exists []. by rewrite app_nil_r. Qed.

Lemma logs_bind {A B} (P : A → list event → Prop) (Q : B → list event → Prop) m k :
  logs P m → (∀ a tr, P a tr → logs (λ b tr', Q b (tr ++ tr')) (k a)) → logs Q (m ≫= k).
Proof.
  intros Hm Hk s. apply wp_bind. eapply wp_mono; [apply Hm|]. intros a s1 (Hc1 & tr & Ht & HP).
  eapply wp_mono; [apply (Hk a tr HP)|]. intros b s2 (Hc2 & tr' & Ht' & HQ). split; [lia|].
  exists (tr ++ tr'). by rewrite Ht', Ht, app_assoc.
Qed.

Lemma logs_mono {A} (P Q : A → list event → Prop) m : logs P m → (∀ a tr, P a tr → Q a tr) → logs Q m.
Proof. intros Hm HPQ s. eapply wp_mono; [apply Hm|]. intros a s' (? & tr & ? & ?). eauto. Qed.

Lemma logs_do c : logs (λ e tr, tr = [Did c e]) (do c).
Proof.
  intros s. unfold wp, do. pose proof (perform_clock c (world s)) as Hc. destruct (perform c (world s)) as [e w].
  split; [exact Hc|]. by exists [Did c e].
Qed.

Lemma logs_ask {A} (f : W → A * W) : (∀ w, clock w ≤ clock (snd (f w))) → logs (λ _ tr, tr = []) (ask f).
Proof.
  intros Hf s. unfold wp, ask. specialize (Hf (world s)). destruct (f (world s)) as [a w]. split; [exact Hf|].
  exists []. by rewrite app_nil_r.
Qed.

Lemma quiet_bind {A B} (m : M (st W) A) (k : A → M (st W) B) : quiet m → (∀ a, quiet (k a)) → quiet (m ≫= k).
Proof.
  intros Hm Hk. eapply logs_bind; [exact Hm|]. intros a tr [Hs Hf]. eapply logs_mono; [apply Hk|].
  intros b tr' [Hs' Hf']. rewrite steps_app, Hs, Hs'. split; [done|]. by apply Forall_app.
Qed.
Lemma quiet_ret {A} (a : A) : quiet (m_ret a).
Proof. apply logs_ret. split; [done|constructor]. Qed.
Lemma quiet_do c : vital c = false → quiet (do c).
Proof.
  intros Hc. eapply logs_mono; [apply logs_do|]. intros e tr ->. unfold steps. cbn. rewrite Hc. split; [done|].
  repeat constructor. by destruct e, c.
Qed.
Lemma quiet_ask {A} (f : W → A * W) : (∀ w, clock w ≤ clock (snd (f w))) → quiet (ask f).
Proof. intros Hf. eapply logs_mono; [by apply logs_ask|]. intros a tr ->. split; [done|constructor]. Qed.
Lemma quiet_for {A} (f : A → M (st W) ()) l : (∀ x, quiet (f x)) → quiet (m_for f l).
Proof. intros Hf. induction l; [apply quiet_ret|]. by apply quiet_bind. Qed.

Create HintDb boot.
#[local] Hint Resolve quiet_bind quiet_ret quiet_do quiet_ask quiet_for lstat_clock : boot.
#[local] Hint Extern 1 (_ ≤ clock _) => (apply stat_onward || apply readfile_onward) : boot.

Lemma quiet_link p : quiet (link_if_missing p).
Proof. apply quiet_bind; [eauto with boot|]. intros e. case_match; eauto with boot. Qed.
Lemma quiet_DNS : quiet configureDNS.
Proof. unfold configureDNS. apply quiet_bind; [eauto with boot|]. intros [c|e]; [|eauto with boot]. case_match; eauto with boot. Qed.
Lemma quiet_route : quiet configureMetadataRoute.
Proof.
  unfold configureMetadataRoute, addRoute. apply quiet_bind; [eauto with boot|]. intros [c|e]; [|eauto with boot].
  cbv zeta. repeat case_match; eauto 6 with boot.
Qed.

(** Phases in sequence. *)
Lemma phase_app l1 l2 r tr1 tr2 : phase l1 None tr1 → phase l2 r tr2 → phase (l1 ++ l2) r (tr1 ++ tr2).
Proof.
  intros [Hs Hn]. destruct r as [e|]; cbn.
  - intros (tr' & ev & -> & Hf & Hn' & Hp). exists (tr1 ++ tr'), ev. rewrite app_assoc. split_and!; try done.
    + by apply Forall_app.
    + rewrite <- app_assoc, steps_app, Hs. by apply prefix_app.
  - intros [Hs2 Hn2]. rewrite steps_app, Hs, Hs2. split; [done|]. by apply Forall_app.
Qed.
Lemma phase_stop l1 l2 e tr : phase l1 (Some e) tr → phase (l1 ++ l2) (Some e) tr.
Proof. intros (tr' & ev & ? & ? & ? & Hp). exists tr', ev. split_and!; [done..|]. by apply prefix_app_r. Qed.
Lemma phase_or_fail l1 l2 m k : logs (phase l1) m → logs (phase l2) k → logs (phase (l1 ++ l2)) (or_fail m k).
Proof.
  intros Hm Hk. eapply logs_bind; [exact Hm|]. intros [e|] tr HP; cbn iota.
  - apply logs_ret. rewrite app_nil_r. by apply phase_stop.
  - eapply logs_mono; [exact Hk|]. intros r tr2. by apply phase_app.
Qed.
Lemma phase_dir c what :
  (match c with MkdirAll _ _ | Mkdir _ _ => true | _ => false end) = true → logs (phase [Some c]) (make_dir c what).
Proof.
  intros Hc. eapply logs_bind; [apply logs_do|]. intros e tr ->. apply logs_ret. rewrite app_nil_r.
  assert (steps [Did c e] = [Some c]) as Hs by (by destruct c).
  destruct e as [e|]; [destruct (IsExist e) eqn:E|]; cbn [negb phase];
    [split; [done|]; repeat constructor; destruct c; cbn; by rewrite ?E|
     exists [], (Did c (Some e)); rewrite Hs; split_and!; [done| |constructor|done]; destruct c; cbn; by rewrite ?E|
     split; [done|]; repeat constructor; by destruct c].
Qed.
Lemma phase_do c :
  vital c = true → (match c with MkdirAll _ _ | Mkdir _ _ => false | _ => true end) = true → logs (phase [Some c]) (do c).
Proof.
  intros Hv Hc. eapply logs_mono; [apply logs_do|]. intros e tr ->.
  assert (steps [Did c e] = [Some c]) as Hs by (unfold steps; cbn; by rewrite Hv).
  destruct e as [e|]; [exists [], (Did c (Some e)); rewrite Hs; split_and!; [done| |constructor|done]; by destruct c|].
  split; [done|]. repeat constructor. by destruct c.
Qed.
Lemma phase_after {A} (m : M (st W) A) k l : quiet m → (∀ a, logs (phase l) (k a)) → logs (phase l) (m ≫= k).
Proof.
  intros Hm Hk. eapply logs_bind; [exact Hm|]. intros a tr Htr. eapply logs_mono; [apply Hk|]. intros r tr2.
  by apply (phase_app []).
Qed.
Lemma phase_done : logs (phase []) (m_ret None).
Proof. apply logs_ret. split; [done|constructor]. Qed.

Lemma phase_mounts : logs (phase (take 6 boot_steps)) mountFilesystems.
Proof.
  unfold mountFilesystems. change (take 6 boot_steps) with
    ([Some (MkdirAll "/lib" 493)] ++ [Some (MountAll base_mounts "/")] ++ [Some (MkdirAll "/run/lock" 1023)] ++
     [Some (MkdirAll "/dev/pts" 493)] ++ [Some (MkdirAll "/dev/shm" 493)] ++ [Some (MountAll dev_mounts "/")]).
  repeat apply phase_or_fail; first [by apply phase_dir|by apply phase_do].
Qed.
Lemma phase_nodes : logs (phase []) setupDevNodes.
Proof.
  unfold setupDevNodes. apply phase_after; [eauto with boot|]. intros e.
  repeat (apply phase_after; [|intros _]); [case_match; eauto with boot|auto using quiet_for, quiet_link..|apply phase_done].
Qed.
Lemma phase_etc : logs (phase (drop 7 boot_steps)) (or_fail setupCgroupControl (make_dir (Mkdir "/etc" 493) "/etc")).
Proof. apply (phase_or_fail [_] [_]); [by apply phase_do|by apply phase_dir]. Qed.

(** The whole of it: the result is an error exactly when a call was fatal. *)
Lemma wait_logs n s :
  (time_left ctx_deadline (world s) < n)%nat → Devices.BlockDeviceTimeout < Z.of_nat n →
  wp (wait_devices n) (λ r s', r = Some tt ∧ ∃ b, trace s' = trace s ++ [Waited b]) s.
Proof.
  intros Hn Ht. pose proof (WaitForBlockDevices_wp n (world s) Hn Ht) as Hw. unfold wp, wait_devices in *.
  destruct (Devices.WaitForBlockDevices n (world s)) as [[r w]|]; [|done]. destruct Hw as (b & -> & _). by eauto.
Qed.

(** C29: booting the guest ends, and fails exactly when a call it cannot do without
    fails: the mounts, their directories unless they exist, the cgroup controllers
    and /etc.  Without such a failure all of these calls are made, in the order of
    the list and with the disks waited for after the mounts; the first fatal call is
    the last.  A guest without its device nodes, links, name servers or metadata
    route boots all the same. *)
Theorem Initialize_boots n s :
  (time_left ctx_deadline (world s) < n)%nat → Devices.BlockDeviceTimeout < Z.of_nat n →
  ∃ r s' tr, Initialize n s = Return (Some r, s') ∧ trace s' = trace s ++ tr ∧
    match r with
    | None => steps tr = boot_steps ∧ Forall (λ ev, fatal ev = false) tr
    | Some _ => ∃ tr' ev, tr = tr' ++ [ev] ∧ fatal ev = true ∧ Forall (λ ev, fatal ev = false) tr' ∧ steps tr `prefix_of` boot_steps
    end.
Proof.
  intros Hn Ht.
  enough (wp (Initialize n) (λ o s', ∃ r tr, o = Some r ∧ trace s' = trace s ++ tr ∧ phase boot_steps r tr) s) as Hwp.
  { apply wp_Return in Hwp as (o & s' & E & r & tr & -> & Htr & HP). by exists r, s', tr. }
  unfold Initialize. apply wp_bind. eapply wp_mono; [apply (phase_or_fail _ _ _ _ phase_mounts phase_nodes)|].
  intros [e|] s1 (Hc1 & tr1 & Ht1 & HP1).
  { apply wp_ret. exists (Some e), tr1. split_and!; [done|done|]. by apply (phase_stop (take 6 boot_steps) (drop 6 boot_steps)). }
  apply wp_bind. eapply wp_mono; [by apply (quiet_do (WriteFile "/proc/sys/kernel/ctrl-alt-del" "0" 420))|].
  intros _ s2 (Hc2 & tr2 & Ht2 & HP2). apply wp_bind. eapply wp_mono; [apply wait_logs; [|done]|].
  { unfold time_left in *. lia. }
  intros _ s3 (-> & b & Ht3). apply wp_bind. eapply wp_mono; [apply phase_etc|]. intros r s4 (_ & tr4 & Ht4 & HP4).
  assert (phase boot_steps r (tr1 ++ tr2 ++ [Waited b] ++ tr4)) as HP.
  { apply (phase_app (take 6 boot_steps)); [done|]. apply (phase_app []); [done|]. apply (phase_app [None]); [|done].
    split; [done|]. by repeat constructor. }
  destruct r as [e|].
  - apply wp_ret. eexists _, _. split; [done|]. split; [|exact HP]. by rewrite Ht4, Ht3, Ht2, Ht1, <- !app_assoc.
  - apply wp_bind. eapply wp_mono; [apply quiet_DNS|]. intros _ s5 (_ & tr5 & Ht5 & HP5).
    apply wp_bind. eapply wp_mono; [apply quiet_route|]. intros _ s6 (_ & tr6 & Ht6 & HP6). apply wp_ret.
    eexists _, _. split; [done|]. split; [|exact (phase_app _ [] _ _ _ HP (phase_app [] [] None _ _ HP5 HP6))].
    by rewrite Ht6, Ht5, Ht4, Ht3, Ht2, Ht1, <- !app_assoc.
Qed.

End booting.

(** ** A VM and its guest *)

Module BootDemo.
Import GuestOS DeviceLaws MountUtil Qemu GuestSupervisor VMConfig GuestInit DevicesDemo.

Definition q : Instance := QemuCmdDemo.q.
Definition net : NetworkConfig := mkNetwork "eth0" "10.88.0.2" "10.88.0.1" "255.255.0.0" ["1.1.1.1"; ""; "8.8.8.8"].
Definition opts : StartOpts := mkStartOpts ["spin.metadata_addr=169.254.169.254:80"] (Some net) "".
Definition cmdline : string := buildKernelCommandLine q opts +:+ newline.

(** Values that the flag set accepts and rejects. *)
Example flag_values :
  map (λ v, match ParseFlags ["--debug"; "-vsock-cid"; v; "x"; "-bad"] with Ok f => Some (VSockContextID (cfg f), Debug (cfg f)) | Err _ => None end)
    ["7"; "0x1_0"; "010"; "1_0"; "1__0"; "_1"; "08"; "9223372036854775808"; ""; "-0b11"] =
  [Some (7, true); Some (16, true); Some (8, true); Some (10, true); None; None; None; None; None; Some (-3, true)].
Proof. vm_compute. reflexivity. Qed.

(** A kernel that has nothing but its command line. *)
Definition no : error := ErrSentinel ErrNotExist.
#[local] Instance cmdline_os : OS () := {|
  os_Stat _ w := (Some no, w); os_ReadDir _ w := (Err no, w); os_ReadFile _ w := (Ok cmdline, w);
  os_WriteFile _ _ w := (None, w); InotifyInit1 w := (Err no, w); InotifyAddWatch _ _ _ w := (Some no, w);
  unix_Close _ w := w; unix_Poll _ _ w := (inl 0, w); unix_Read _ w := (inr EAGAIN, w);
  time_Now w := (0, w); time_Sleep _ w := w; ctx_Err w := (Some no, w) |}.
#[local] Instance cmdline_boot : BootOS () :=
  {| perform _ w := (None, w); os_Lstat _ w := (Some no, w); IsExist _ := false |}.

Lemma boot_network_roundtrip_witness :
  wp configureDNS (λ _ s', calls (trace s') =
    [WriteFile "/etc/resolv.conf" (resolv_conf ["1.1.1.1"]) 420]) (mkSt tt []) ∧
  wp configureMetadataRoute (λ r s', r = None ∧ calls (trace s') =
    [WriteFile "/run/metadata-route.sh" (route_script "169.254.169.254" "10.88.0.1") 493]) (mkSt tt []).
Proof.
  apply (boot_network_roundtrip q opts net (mkSt tt [])).
  - reflexivity.
  - discriminate.
  - vm_compute. reflexivity.
  - vm_compute. discriminate.
  - apply (Forall_singleton _ "spin.metadata_addr=169.254.169.254:80"). split; [discriminate|reflexivity].
  - intros w. reflexivity.
Defined.

(** The guest of GuestDevices.v, of whose calls some fail. *)
Definition boot_of (fails : call → bool) : BootOS guest :=
  {| perform c w := (if fails c then Some (ErrNew "failed") else None, w); os_Lstat _ w := (Some no, w);
     IsExist _ := false |}.
Lemma boot_of_laws fails : @BootLaws guest _ _ (boot_of fails).
Proof. split; intros; cbn; apply Z.le_refl. Qed.
#[local] Instance listed : MapOrder := {| map_order l := l; map_order_perm l := reflexivity _ |}.

Lemma Initialize_boots_witness :
  ∃ r s', @Initialize guest _ (boot_of (λ _, false)) listed (Z.to_nat (6 * Second)) (mkSt (mkGuest 0 ∅) []) = Return (Some r, s').
Proof.
  destruct (@Initialize_boots guest _ _ (boot_of (λ _, false)) listed (boot_of_laws _) (Z.to_nat (6 * Second)) (mkSt (mkGuest 0 ∅) []))
    as (r & s' & tr & E & _).
  - unfold time_left. apply Z2Nat.inj_lt; [discriminate|discriminate|reflexivity].
  - rewrite Z2Nat.id; [reflexivity|discriminate].
  - exists r, s'. exact E.
Defined.

(** Without the link for /dev/fd and the device for FUSE the guest boots, without
    its pseudo-terminals it does not. *)
Definition result_of (fails : call → bool) : option (option error * nat) :=
  match @Initialize guest _ (boot_of fails) listed 100 (mkSt (mkGuest 0 ∅) []) with
  | Return (Some r, s') => Some (r, length (trace s'))
  | _ => None
  end.
Example boots_without_links :
  result_of (λ c, match c with Symlink _ _ | Mknod _ _ _ => true | _ => false end) = Some (None, 16%nat).
Proof. vm_compute. reflexivity. Qed.
Example stops_without_pts :
  result_of (λ c, match c with MkdirAll p _ => String.eqb p "/dev/pts" | _ => false end) =
  Some (Some (ErrWrap "failed to create /dev/pts" (ErrNew "failed")), 4%nat).
Proof. vm_compute. reflexivity. Qed.

End BootDemo.
