(* ===== verification/VMInit.v ===== *)
(** * vminitd

    Models cmd/vminitd/main.go and internal/guest/vminit/service/service.go: the
    flags and the configuration file, the set-up of the system (GuestInit.v), the
    listener and the plug-ins, and the loop that waits for signals until the guest
    is powered off; and the events service of internal/guest/vminit/events.  The
    plug-in registry and the sockets are an interface ([Runtime]).  The goroutine
    that starts the supervisor is in GuestSupervisor.v. *)

From S2P Require Import Prelude GoStrings QemuCmd GuestSupervisor GuestDevices GuestInit.
From Stdlib Require Import Ascii.

Module VMInit.
Import GuestOS VMConfig.
#[local] Open Scope m_scope.

(** ** service.go *)

(** A registration: whether it is of the type of the streaming plug-in, whether it
    has a configuration, and whether that takes an address. *)
Record Registration := mkReg { URI : string; IsStreaming : bool; HasConfig : bool; TakesVsock : bool }.

Class Runtime (W : Type) := {
  Listen : Z → Z → W → option error * W;
  NewServer : W → option error * W;
  (* registry.Graph *)
  Graph : list Registration;
  Marshal : gmap string string → result string;
  (* into the configuration of a plug-in *)
  Unmarshal : string → string → W → option error * W;
  SetVsock : string → Z → Z → W → W;
  Init : string → W → W;
  (* initializedPlugins.Add *)
  Add : string → W → option error * W;
  (* whether the instance is a service *)
  GetInstance : string → W → result bool * W;
  IsSkipPlugin : error → bool;
  RegisterTTRPC : string → W → option error * W;
  (* JSON into the configuration of vminitd *)
  UnmarshalConfig : string → ServiceConfig → result ServiceConfig;
  SetLevel : string → option error;
  Reap : W → option error * W }.

Inductive event :=
  | Listening (cid port : Z) | OnShutdown (what : string) | Configured (uri : string)
  | VsockSet (uri : string) (cid port : Z) | Loaded (uri : string) | Registered (uri : string)
  | Reaped | ShutdownRequested.

Record st (W : Type) := mkSt { world : W; trace : list event }.
Arguments mkSt {W}. Arguments world {W}. Arguments trace {W}.

Section vminitd.
Context {W : Type} `{!OS W, !GuestInit.BootOS W, !MapOrder, !Runtime W}.
Notation ST := (st W).

Definition call {A} (f : W → A * W) : M ST A := λ s, let '(a, w) := f (world s) in Return (a, mkSt w (trace s)).
Definition note (ev : event) : M ST () := m_modify (λ s, mkSt (world s) (trace s ++ [ev])).

Definition ApplyPluginConfig (uri : string) (hasConfig : bool) (configMap : gmap string string) : M ST (option error) :=
  if negb hasConfig then m_ret (Some (ErrNew "plugin config is nil"))
  else if bool_decide (configMap = ∅) then m_ret None
  else
    match Marshal configMap with
    | Err e => m_ret (Some (ErrWrap "failed to marshal config map to JSON" e))
    | Ok data =>
        e ← call (Unmarshal uri data);
        match e with
        | Some e => m_ret (Some (ErrWrap "failed to apply config to plugin (check field types)" e))
        | None => note (Configured uri) ≫= λ _, m_ret None
        end
    end.

Definition configure (cfg : ServiceConfig) (reg : Registration) : M ST (option error) :=
  if negb (HasConfig reg) then m_ret None
  else
    e ← match PluginConfigs cfg !! URI reg with
        | Some pluginCfg => ApplyPluginConfig (URI reg) true pluginCfg
        | None => m_ret None
        end;
    match e with
    | Some e => m_ret (Some (ErrWrap ("failed to apply plugin configuration for " +:+ URI reg) e))
    | None =>
        if TakesVsock reg && IsStreaming reg then
          let cid := wrapu32 (VSockContextID cfg) in let port := wrapu32 (StreamPort cfg) in
          call (λ w, (tt, SetVsock (URI reg) cid port w)) ≫= λ _, note (VsockSet (URI reg) cid port) ≫= λ _, m_ret None
        else m_ret None
    end.

(** The body of the loop for a plug-in that is not disabled. *)
Definition load (cfg : ServiceConfig) (reg : Registration) : M ST (option error) :=
  e ← configure cfg reg;
  match e with
  | Some _ => m_ret e
  | None =>
      call (λ w, (tt, Init (URI reg) w)) ≫= λ _,
      e ← call (Add (URI reg));
      match e with
      | Some e => m_ret (Some (ErrWrap "could not add plugin result to plugin set" e))
      | None =>
          i ← call (GetInstance (URI reg));
          match i with
          | Err e => m_ret (if IsSkipPlugin e then None else Some (ErrWrap ("failed to load plugin " +:+ URI reg) e))
          | Ok service =>
              note (Loaded (URI reg)) ≫= λ _,
              if service then
                e ← call (RegisterTTRPC (URI reg));
                match e with
                | Some e => m_ret (Some (ErrWrap ("failed to register TTRPC service " +:+ URI reg) e))
                | None => note (Registered (URI reg)) ≫= λ _, m_ret None
                end
              else m_ret None
          end
      end
  end.

Fixpoint load_all (cfg : ServiceConfig) (regs : list Registration) : M ST (option error) :=
  match regs with
  | [] => m_ret None
  | reg :: regs' =>
      if bool_decide (URI reg ∈ DisabledPlugins cfg) then load_all cfg regs'
      else e ← load cfg reg; match e with Some _ => m_ret e | None => load_all cfg regs' end
  end.

Definition New (cfg : ServiceConfig) : M ST (option error) :=
  let cid := wrapu32 (VSockContextID cfg) in let port := wrapu32 (RPCPort cfg) in
  e ← call (Listen cid port);
  match e with
  | Some e => m_ret (Some (ErrWrap ("failed to listen on vsock port " +:+ fmt_d (RPCPort cfg) +:+ " with context id " +:+
                                    fmt_d (VSockContextID cfg)) e))
  | None =>
      note (Listening cid port) ≫= λ _,
      note (OnShutdown "listener") ≫= λ _,
      e ← call NewServer;
      match e with
      | Some _ => m_ret e
      | None => note (OnShutdown "server") ≫= λ _, load_all cfg Graph
      end
  end.

(** ** main.go *)

Inductive signal := SIGCHLD | SIGINT | SIGTERM | SIGQUIT.

(** What the select of [run] gets, in this order. *)
Inductive happening := ShutdownDone (e : option error) | ServiceDone (e : option error) | Signal (s : signal).

(** The loop of [run]; nothing if nothing more happens. *)
Fixpoint wait_loop (l : list happening) : M ST (option (option error)) :=
  match l with
  | [] => m_ret None
  | ShutdownDone _ :: _ => m_ret (Some None)
  | ServiceDone e :: _ => m_ret (Some e)
  | Signal SIGCHLD :: l' => call Reap ≫= λ _, note Reaped ≫= λ _, wait_loop l'
  | Signal _ :: l' => note ShutdownRequested ≫= λ _, wait_loop l'
  end.

(** [run] after [Initialize], whose calls are not among the events. *)
Definition run (fuel : nat) (cfg : ServiceConfig) (l : list happening) : M ST (option (option error)) := λ s,
  match GuestInit.Initialize fuel (GuestInit.mkSt (world s) []) with
  | Panic m => Panic m
  | Return (None, s1) => Return (None, mkSt (GuestInit.world s1) (trace s))
  | Return (Some (Some e), s1) => Return (Some (Some e), mkSt (GuestInit.world s1) (trace s))
  | Return (Some None, s1) =>
      (e ← New cfg; match e with Some e => m_ret (Some (Some e)) | None => wait_loop l end)
        (mkSt (GuestInit.world s1) (trace s))
  end.

(** How [main] ends: before the deferred function is set up, or with the guest
    powered off, after an error or a panic too. *)
Inductive ending :=
  | Fatal (e : error)
  | PoweredOff (events : list event) (e : option error)
  | Recovered (panic : string)
  | Running (events : list event).

Definition main (fuel : nat) (args : list string) (l : list happening) (w : W) : ending :=
  match ParseFlags args with
  | Err e => Fatal (ErrWrap "failed to parse flags" e)
  | Ok f =>
      let '(loaded, w) :=
        if String.eqb (configFile f) "" then (Ok (cfg f), w)
        else let '(data, w) := os_ReadFile (configFile f) w in (LoadFromFile UnmarshalConfig data f, w) in
      match loaded with
      | Err e => Fatal (ErrWrap ("failed to load config from " +:+ configFile f) e)
      | Ok cfg =>
          match SetLevel (if Debug cfg then "debug" else "info") with
          | Some e => Fatal (ErrWrap "failed to set log level" e)
          | None =>
              match run fuel cfg l (mkSt w []) with
              | Return (Some e, s) => PoweredOff (trace s) e
              | Return (None, s) => Running (trace s)
              | Panic m => Recovered m
              end
          end
      end
  end.

End vminitd.

(** ** events/service.go *)

(** What the select of [Stream] gets: an event (or nil), the closing of the
    events, an error (or nil) or the closing of the errors, or the end of the
    context.  [E] is the type of envelopes. *)
Inductive received (E : Type) := Event (e : option E) | EventsClosed | Error (e : option error) | ErrorsClosed | CtxDone (e : error).
Arguments Event {E}. Arguments EventsClosed {E}. Arguments Error {E}. Arguments ErrorsClosed {E}. Arguments CtxDone {E}.

(** The result, if it ended, and what was sent.  [send] fails with an error on
    the n-th event. *)
Definition EOF : error := ErrNew "EOF".
Fixpoint Stream {E} (send : nat → E → option error) (sent : list E) (l : list (received E)) : option (option error) * list E :=
  match l with
  | [] => (None, sent)
  | EventsClosed :: _ => (Some (Some EOF), sent)
  | Event None :: l' => Stream send sent l'
  | Event (Some ev) :: l' =>
      match send (length sent) ev with
      | Some e => (Some (Some e), sent)
      | None => Stream send (sent ++ [ev]) l'
      end
  | ErrorsClosed :: _ => (Some None, sent)
  | Error e :: _ => (Some e, sent)
  | CtxDone e :: _ => (Some (Some e), sent)
  end.

End VMInit.

(** ** Where the guest listens *)

Section listening.
Import GuestOS VMConfig VMInit.
Context {W : Type} `{!OS W, !GuestInit.BootOS W, !MapOrder, !Runtime W}.
Implicit Types (s : st W).
#[local] Open Scope m_scope.

Definition logged {A} (P : A → list event → Prop) (m : M (st W) A) : Prop :=
  ∀ s, wp m (λ r s', ∃ tr, trace s' = trace s ++ tr ∧ P r tr) s.

Lemma logged_ret {A} (P : A → list event → Prop) a : P a [] → logged P (m_ret a).
Proof. intros HP s. apply wp_ret. exists []. by rewrite app_nil_r. Qed.
Lemma logged_bind {A B} (P : A → list event → Prop) (Q : B → list event → Prop) m k :
  logged P m → (∀ a tr, P a tr → logged (λ b tr', Q b (tr ++ tr')) (k a)) → logged Q (m ≫= k).
Proof.
  intros Hm Hk s. apply wp_bind. eapply wp_mono; [apply Hm|]. intros a s1 (tr & Ht & HP).
  eapply wp_mono; [apply (Hk a tr HP)|]. intros b s2 (tr' & Ht' & HQ). exists (tr ++ tr'). by rewrite Ht', Ht, app_assoc.
Qed.
Lemma logged_call {A B} (f : W → A * W) (Q : B → list event → Prop) k : (∀ a, logged Q (k a)) → logged Q (call f ≫= k).
Proof. intros Hk s. apply wp_bind. unfold wp at 1, call. destruct (f (world s)) as [a w]. apply (Hk a (mkSt w (trace s))). Qed.
Lemma logged_note {B} ev (Q : B → list event → Prop) k : logged (λ b tr, Q b (ev :: tr)) (k tt) → logged Q (note ev ≫= k).
Proof.
  intros Hk s. apply wp_bind, wp_modify. eapply wp_mono; [apply Hk|]. intros b s' (tr & Ht & HQ). cbn in Ht.
  exists (ev :: tr). by rewrite Ht, <- app_assoc.
Qed.
Lemma logged_mono {A} (P Q : A → list event → Prop) m : logged P m → (∀ a tr, P a tr → Q a tr) → logged Q m.
Proof. intros Hm HPQ s. eapply wp_mono; [apply Hm|]. intros a s' (tr & ? & ?). eauto. Qed.

(** No event is about a disabled plug-in, and the addresses are those of the
    configuration. *)
Definition allowed (cfg : ServiceConfig) (ev : event) : Prop :=
  match ev with
  | Listening c p => c = wrapu32 (VSockContextID cfg) ∧ p = wrapu32 (RPCPort cfg)
  | VsockSet u c p => u ∉ DisabledPlugins cfg ∧ c = wrapu32 (VSockContextID cfg) ∧ p = wrapu32 (StreamPort cfg)
  | Configured u | Loaded u | Registered u => u ∉ DisabledPlugins cfg
  | _ => True
  end.
Definition vsock_event (cfg : ServiceConfig) (reg : Registration) : event :=
  VsockSet (URI reg) (wrapu32 (VSockContextID cfg)) (wrapu32 (StreamPort cfg)).
Definition wants_vsock (cfg : ServiceConfig) (reg : Registration) : Prop :=
  URI reg ∉ DisabledPlugins cfg ∧ HasConfig reg = true ∧ TakesVsock reg = true ∧ IsStreaming reg = true.

Definition served (cfg : ServiceConfig) (regs : list Registration) (r : option error) (tr : list event) : Prop :=
  Forall (allowed cfg) tr ∧ (r = None → ∀ reg, reg ∈ regs → wants_vsock cfg reg → vsock_event cfg reg ∈ tr).

Lemma configure_logged cfg reg : URI reg ∉ DisabledPlugins cfg → logged (served cfg [reg]) (configure cfg reg).
Proof.
  intros Hd. unfold configure. destruct (HasConfig reg) eqn:Hc; cbn [negb].
  2: { apply logged_ret. split; [constructor|]. intros _ r ->%list_elem_of_singleton (_ & ? & _). congruence. }
  apply (logged_bind (λ _ tr, Forall (allowed cfg) tr)).
  { destruct (PluginConfigs cfg !! URI reg) as [pc|]; [|apply logged_ret; constructor]. unfold ApplyPluginConfig. cbn [negb].
    case_match; [apply logged_ret; constructor|]. destruct (Marshal pc); [|apply logged_ret; constructor].
    apply logged_call. intros [e|]; [apply logged_ret; constructor|]. apply logged_note, logged_ret. by repeat constructor. }
  intros [e|] tr Htr; [apply logged_ret; by rewrite app_nil_r|].
  destruct (TakesVsock reg) eqn:Ht, (IsStreaming reg) eqn:Hs; cbn [andb];
    try (apply logged_ret; rewrite app_nil_r; split; [done|]; intros _ r ->%list_elem_of_singleton (_ & _ & ? & ?); congruence).
  apply logged_call. intros _. apply logged_note, logged_ret. split.
  - apply Forall_app. split; [done|]. repeat constructor. exact Hd.
  - intros _ r ->%list_elem_of_singleton _. unfold vsock_event. set_solver.
Qed.

Lemma served_after cfg regs tr r tr' : served cfg regs None tr → Forall (allowed cfg) tr' → served cfg regs r (tr ++ tr').
Proof. intros [Ha Hv] Ht. split; [by apply Forall_app|]. intros _ reg Hr Hw. apply elem_of_app. left. by apply Hv. Qed.
Lemma served_failed cfg regs regs' e tr : served cfg regs (Some e) tr → served cfg regs' (Some e) tr.
Proof. by intros [? _]. Qed.

Lemma load_logged cfg reg : URI reg ∉ DisabledPlugins cfg → logged (served cfg [reg]) (load cfg reg).
Proof.
  intros Hd. unfold load. eapply logged_bind; [by apply configure_logged|].
  intros [e|] tr Htr; [apply logged_ret; by rewrite app_nil_r|]. apply logged_call. intros _.
  apply logged_call. intros [e|]; [apply logged_ret, served_after; [done|constructor]|].
  apply logged_call. intros [b|e]; [|apply logged_ret, served_after; [done|constructor]]. apply logged_note.
  destruct b; [|apply logged_ret, served_after; [done|by repeat constructor]]. apply logged_call. intros [e|].
  - apply logged_ret, served_after; [done|by repeat constructor].
  - apply logged_note, logged_ret, served_after; [done|by repeat constructor].
Qed.

Lemma load_all_logged cfg regs : logged (served cfg regs) (load_all cfg regs).
Proof.
  induction regs as [|reg regs IH]; cbn [load_all].
  { apply logged_ret. split; [constructor|]. intros _ reg []%elem_of_nil. }
  case_bool_decide as Hd.
  - eapply logged_mono; [exact IH|]. intros r tr [Ha Hv]. split; [done|]. intros Hr reg' [->|Hin]%elem_of_cons Hw; [by destruct Hw|]. by apply Hv.
  - eapply logged_bind; [by apply load_logged|]. intros [e|] tr Htr; [apply logged_ret; rewrite app_nil_r; by eapply served_failed|].
    eapply logged_mono; [exact IH|]. intros r tr' [Ha' Hv']. destruct Htr as [Ha Hv]. split; [by apply Forall_app|].
    intros Hr reg' [->|Hin]%elem_of_cons Hw; apply elem_of_app; [left; apply Hv; [done|by apply list_elem_of_singleton|done]|right; by apply Hv'].
Qed.

Lemma New_logged cfg :
  logged (λ r tr, served cfg Graph r tr ∧ (r = None → Listening (wrapu32 (VSockContextID cfg)) (wrapu32 (RPCPort cfg)) ∈ tr)) (New cfg).
Proof.
  unfold New. cbv zeta. apply logged_call. intros [e|]; [apply logged_ret; by repeat constructor|]. do 2 apply logged_note.
  apply logged_call. intros [e|]; [apply logged_ret; by repeat constructor|]. apply logged_note.
  eapply logged_mono; [apply load_all_logged|]. intros r tr [Ha Hv]. split; [split|].
  - by repeat constructor.
  - intros Hr reg Hin Hw. do 3 right. by apply Hv.
  - intros _. left.
Qed.

Lemma wait_logged cfg l : logged (λ _ tr, Forall (allowed cfg) tr) (wait_loop l).
Proof.
  induction l as [|[e|e|[]] l IH]; cbn [wait_loop]; try (apply logged_ret; constructor);
    try (apply logged_call; intros _); apply logged_note; (eapply logged_mono; [exact IH|]); intros; by constructor.
Qed.

Lemma serve_logged cfg l :
  logged (λ r tr, Forall (allowed cfg) tr ∧ (r = Some None →
      Listening (wrapu32 (VSockContextID cfg)) (wrapu32 (RPCPort cfg)) ∈ tr ∧
      ∀ reg, reg ∈ Graph → wants_vsock cfg reg → vsock_event cfg reg ∈ tr))
    (e ← New cfg; match e with Some e => m_ret (Some (Some e)) | None => wait_loop l end).
Proof.
  eapply logged_bind; [apply New_logged|]. intros [e|] tr [[Ha Hv] Hl].
  - apply logged_ret. by rewrite app_nil_r.
  - eapply logged_mono; [apply (wait_logged cfg)|]. intros r tr' Ha'. split; [by apply Forall_app|]. intros _.
    split; [apply elem_of_app; left; by apply Hl|]. intros reg Hin Hw. apply elem_of_app. left. by apply Hv.
Qed.

Definition reached (cfg : ServiceConfig) (evs : list event) : Prop :=
  Listening (wrapu32 (VSockContextID cfg)) (wrapu32 (RPCPort cfg)) ∈ evs ∧
  ∀ reg, reg ∈ Graph → wants_vsock cfg reg → vsock_event cfg reg ∈ evs.

Lemma run_logged fuel cfg l s : trace s = [] →
  wpp True (run fuel cfg l) (λ r s', Forall (allowed cfg) (trace s') ∧ (r = Some None → reached cfg (trace s'))) s.
Proof.
  intros Ht. unfold wpp, run. destruct (GuestInit.Initialize _ _) as [[[[e|]|] s1]|]; [by rewrite Ht| |by rewrite Ht|done].
  pose proof (serve_logged cfg l (mkSt (GuestInit.world s1) (trace s))) as Hw. unfold wp in Hw.
  destruct (m_bind (New cfg) _ _) as [[r s']|]; [|done]. destruct Hw as (tr & Ht' & HP). cbn in Ht'. rewrite Ht in Ht'. by rewrite Ht'.
Qed.

(** C27: the guest listens where the host connects.  Started by the kernel with the
    arguments after the two dashes of the command line that the shim built, vminitd
    does not give up on its flags; whatever the system, the plug-ins and the
    signals do, it listens for calls only on the context ID and the RPC port of
    this VM and lets the streaming plug-in listen only on its stream port; and if
    it ended without an error, it did listen on both. *)
Theorem vm_listens fuel l (w : W) q opts :
  0 < Qemu.guestCID (Qemu.config q) < 2 ^ 32 → network_no_space (Qemu.so_NetworkConfig opts) →
  Forall (λ a, a ≠ "" ∧ no_space a = true ∧ parse_arg a = NotFlag) (Qemu.InitArgs opts) → SetLevel "info" = None →
  let cid := Qemu.guestCID (Qemu.config q) in
  ∃ pre argv, Fields (Qemu.buildKernelCommandLine q opts +:+ GuestSupervisor.newline) = pre ++ "--" :: argv ∧ "--" ∉ pre ∧
    match main fuel argv l w with
    | Fatal _ => False
    | Recovered _ => True
    | Running evs => ∀ c p, (Listening c p ∈ evs → c = cid ∧ p = Qemu.DefaultRPCPort) ∧
        ∀ u, VsockSet u c p ∈ evs → c = cid ∧ p = Qemu.DefaultStreamPort
    | PoweredOff evs e =>
        (∀ c p, (Listening c p ∈ evs → c = cid ∧ p = Qemu.DefaultRPCPort) ∧
          ∀ u, VsockSet u c p ∈ evs → c = cid ∧ p = Qemu.DefaultStreamPort) ∧
        (e = None → Listening cid Qemu.DefaultRPCPort ∈ evs ∧
          ∀ reg, reg ∈ Graph → HasConfig reg = true → TakesVsock reg = true → IsStreaming reg = true →
            VsockSet (URI reg) cid Qemu.DefaultStreamPort ∈ evs)
    end.
Proof.
  intros Hcid Hnet Hargs Hlevel cid. destruct (vm_argv q opts) as (pre & argv & Hw & Hp & Hf); [unfold max_int64; lia|done|done|].
  exists pre, argv. split; [done|]. split; [done|]. unfold main. rewrite Hf. cbn [configFile String.eqb cfg Debug]. rewrite Hlevel.
  set (c := mkService _ _ _ _ _ _).
  assert (wrapu32 (VSockContextID c) = cid) as Hcw by (apply Z.mod_small; lia). pose proof (run_logged fuel c l (mkSt w []) eq_refl) as Hr.
  assert (∀ evs, Forall (allowed c) evs → ∀ c' p, (Listening c' p ∈ evs → c' = cid ∧ p = Qemu.DefaultRPCPort) ∧
        ∀ u, VsockSet u c' p ∈ evs → c' = cid ∧ p = Qemu.DefaultStreamPort) as Hall.
  { intros evs He c' p. rewrite Forall_forall in He. split; [intros Hin|intros u Hin]; specialize (He _ Hin); destruct He as [? He].
    - by rewrite Hcw in *.
    - destruct He. by rewrite Hcw in *. }
  unfold wpp in Hr. destruct (run fuel c l _) as [[[e|] s']|]; [|destruct Hr as [Ha _]; by apply Hall|done]. destruct Hr as [Ha Hn].
  split; [by apply Hall|]. intros ->. destruct (Hn eq_refl) as [HL HV]. unfold vsock_event in HV.
  rewrite Hcw in *. split; [exact HL|]. intros reg Hin ???. apply HV; [done|]. split; [apply not_elem_of_nil|done].
Qed.

End listening.

(** ** Events are forwarded in their order *)

Section stream.
Import VMInit.
Context {E : Type} (send : nat → E → option error).

Definition events_of (l : list (received E)) : list E := omap (λ x, match x with Event o => o | _ => None end) l.

(** The handler sends the events it gets, in their order and each once, until
    something ends it; the nil event, which it skips, does not. *)
Theorem Stream_forwards l r out :
  Stream send [] l = (r, out) →
  match r with
  | None => out = events_of l
  | Some e => ∃ pre x post, l = pre ++ x :: post ∧ out = events_of pre ∧ x ≠ Event None ∧
      (∀ ev, x = Event (Some ev) → e = send (length out) ev ∧ is_Some e)
  end.
Proof.
  assert (∀ l sent, Stream send sent l = (r, out) →
    match r with
    | None => out = sent ++ events_of l
    | Some e => ∃ pre x post, l = pre ++ x :: post ∧ out = sent ++ events_of pre ∧ x ≠ Event None ∧
        (∀ ev, x = Event (Some ev) → e = send (length out) ev ∧ is_Some e)
    end) as Hgen; [|exact (Hgen l [])].
  clear l. induction l as [|x l IH]; intros sent; cbn [Stream].
  { intros [= <- <-]. by rewrite app_nil_r. }
  destruct x as [[ev|]| | | |]; try (intros [= <- <-]; eexists [], _, l; by rewrite app_nil_r).
  - destruct (send (length sent) ev) as [e|] eqn:Es.
    + intros [= <- <-]. exists [], (Event (Some ev)), l. rewrite app_nil_r. split_and!; [done..|]. intros ev' [= <-]. by rewrite Es.
    + intros Hs%IH. destruct r as [e|]; [|by rewrite Hs, <- app_assoc]. destruct Hs as (pre & x & post & -> & -> & Hx).
      exists (Event (Some ev) :: pre), x, post. by rewrite <- app_assoc in *.
  - intros Hs%IH. destruct r as [e|]; [|done]. destruct Hs as (pre & x & post & -> & -> & Hx). by exists (Event None :: pre), x, post.
Qed.

End stream.

(** ** A guest from boot to power-off *)

Module VMInitDemo.
Import GuestOS VMConfig VMInit DevicesDemo BootDemo.

#[local] Instance boot_fine : GuestInit.BootOS guest := boot_of (λ _, false).
#[local] Instance order_listed : MapOrder := listed.

(** The streaming plug-in takes an address, the task service registers itself. *)
Definition plugins : list Registration :=
  [mkReg "io.spinbox.streaming.v1.vsock" true true true; mkReg "io.containerd.ttrpc.v1.task" false false false].
#[local] Instance demo_runtime : Runtime guest := {|
  Listen _ _ w := (None, w); NewServer w := (None, w); Graph := plugins; Marshal _ := Ok "{}"; Unmarshal _ _ w := (None, w);
  SetVsock _ _ _ w := w; Init _ w := w; Add _ w := (None, w);
  GetInstance u w := (Ok (String.eqb u "io.containerd.ttrpc.v1.task"), w); IsSkipPlugin _ := false;
  RegisterTTRPC _ w := (None, w); UnmarshalConfig _ c := Ok c; SetLevel _ := None; Reap w := (None, w) |}.

Definition happenings : list happening := [Signal SIGCHLD; Signal SIGTERM; ShutdownDone None].

Lemma vm_listens_witness :
  ∃ pre argv, Fields BootDemo.cmdline = pre ++ "--" :: argv ∧
    match main 100 argv happenings (mkGuest 0 ∅) with Fatal _ => False | _ => True end.
Proof.
  destruct (vm_listens 100 happenings (mkGuest 0 ∅) BootDemo.q BootDemo.opts) as (pre & argv & Hw & _ & Hm).
  - vm_compute. split; reflexivity.
  - vm_compute. reflexivity.
  - apply (Forall_singleton _ "spin.metadata_addr=169.254.169.254:80"). split; [discriminate|]. split; reflexivity.
  - reflexivity.
  - exists pre, argv. split; [exact Hw|]. destruct (main 100 argv happenings (mkGuest 0 ∅)); [exact Hm|exact I|exact I|exact I].
Defined.

(** From the flags to the power-off after a SIGTERM. *)
Example guest_run :
  main 100 ["-vsock-cid=7"; "-debug"] happenings (mkGuest 0 ∅) =
  PoweredOff [Listening 7 1025; OnShutdown "listener"; OnShutdown "server"; VsockSet "io.spinbox.streaming.v1.vsock" 7 1026;
    Loaded "io.spinbox.streaming.v1.vsock"; Loaded "io.containerd.ttrpc.v1.task"; Registered "io.containerd.ttrpc.v1.task";
    Reaped; ShutdownRequested] None.
Proof. vm_compute. reflexivity. Qed.

(** A flag that is not known ends PID 1 before the deferred power-off. *)
Example bad_flag_is_fatal : main 100 ["-vsock-port=7"] happenings (mkGuest 0 ∅) =
  Fatal (ErrWrap "failed to parse flags" (ErrNew "flag provided but not defined: -vsock-port")).
Proof. vm_compute. reflexivity. Qed.

End VMInitDemo.
