(* ===== verification/Streams.v ===== *)
(** * Streams between the shim and the guest

    Models [StartStream] of internal/host/vm/qemu/streaming.go and the streaming
    service of the guest, internal/guest/vminit/streaming/plugin.go, as one system
    of goroutines: any number of calls of [StartStream] on the host, the accept
    loop [Run], any number of goroutines that [Get] a stream and close it, and
    [Shutdown].  A label names a step of one goroutine (and what the network
    answers); [exec] takes it.  The mutex of the service is explicit. *)

From S2P Require Import Prelude.

Module Streams.

(** ** Stream identifiers on the wire *)

(** [binary.BigEndian.PutUint32] and [Uint32]. *)
Definition PutUint32 (z : Z) : list Z :=
  [z / 2 ^ 24 mod 256; z / 2 ^ 16 mod 256; z / 2 ^ 8 mod 256; z mod 256].
Definition Uint32 (b : list Z) : Z := foldl (λ acc x, acc * 256 + x) 0 b.

(** ** The system *)

(** A connection: the bytes under way in both directions and whether each side
    has it open.  [c_sid] is the identifier of the call that dialed it. *)
Record Conn := mkConn
  { c_sid : Z; to_guest : list Z; to_host : list Z; host_open : bool; guest_open : bool }.

(** A call of [StartStream]: before an attempt, with an identifier, connected,
    waiting for the acknowledgement, and its results. *)
Inductive host_pc :=
  | HTry | HSid (sid : Z) | HWrite (sid c : Z) | HAck (sid c : Z) | HDone (sid c : Z) | HFailed.

(** [Run]: accepting, reading the identifier, waiting for the mutex, holding it,
    acknowledging, and returned. *)
Inductive run_pc :=
  | RAccept | RRead (c : Z) | RGot (c : Z) (b : list Z) | RHold (c : Z) (b : list Z) | RAck (c : Z) (b : list Z) | REnd.

(** [streamConn.Close]: waiting for the mutex, holding it, closing the
    connection. *)
Inductive close_pc := CWant (sid c : Z) | CHold (sid c : Z) | CClose (c : Z).

(** [Shutdown]: not called, holding the mutex, in the [Close] of a stream waiting
    for the mutex, and returned. *)
Inductive shutdown_pc := SIdle | SHold | SWant (sid c : Z) | SDone.

Inductive owner := ORun | OClose (k : nat) | OShutdown.

Record sys := mkSys
  { streamC : Z; attempts : Z; hosts : gmap nat host_pc;
    conns : gmap Z Conn; backlog : list Z; listening : bool;
    mu : option owner; streams : gmap Z Z;
    run : run_pc; closers : gmap nat close_pc; shutdown : shutdown_pc }.

Definition init : sys := mkSys 0 0 ∅ ∅ [] true None ∅ RAccept ∅ SIdle.

Definition set_host (h : nat) (p : host_pc) (s : sys) : sys :=
  mkSys (streamC s) (attempts s) (<[h := p]> (hosts s)) (conns s) (backlog s) (listening s) (mu s) (streams s) (run s) (closers s) (shutdown s).
Definition set_conn (c : Z) (x : Conn) (s : sys) : sys :=
  mkSys (streamC s) (attempts s) (hosts s) (<[c := x]> (conns s)) (backlog s) (listening s) (mu s) (streams s) (run s) (closers s) (shutdown s).
Definition set_backlog (l : list Z) (s : sys) : sys :=
  mkSys (streamC s) (attempts s) (hosts s) (conns s) l (listening s) (mu s) (streams s) (run s) (closers s) (shutdown s).
Definition set_listening (b : bool) (s : sys) : sys :=
  mkSys (streamC s) (attempts s) (hosts s) (conns s) (backlog s) b (mu s) (streams s) (run s) (closers s) (shutdown s).
Definition set_mu (o : option owner) (s : sys) : sys :=
  mkSys (streamC s) (attempts s) (hosts s) (conns s) (backlog s) (listening s) o (streams s) (run s) (closers s) (shutdown s).
Definition set_streams (m : gmap Z Z) (s : sys) : sys :=
  mkSys (streamC s) (attempts s) (hosts s) (conns s) (backlog s) (listening s) (mu s) m (run s) (closers s) (shutdown s).
Definition set_run (p : run_pc) (s : sys) : sys :=
  mkSys (streamC s) (attempts s) (hosts s) (conns s) (backlog s) (listening s) (mu s) (streams s) p (closers s) (shutdown s).
Definition set_closers (m : gmap nat close_pc) (s : sys) : sys :=
  mkSys (streamC s) (attempts s) (hosts s) (conns s) (backlog s) (listening s) (mu s) (streams s) (run s) m (shutdown s).
Definition set_shutdown (p : shutdown_pc) (s : sys) : sys :=
  mkSys (streamC s) (attempts s) (hosts s) (conns s) (backlog s) (listening s) (mu s) (streams s) (run s) (closers s) p.

Definition send_guest (b : list Z) (x : Conn) : Conn := mkConn (c_sid x) (to_guest x ++ b) (to_host x) (host_open x) (guest_open x).
Definition send_host (b : list Z) (x : Conn) : Conn := mkConn (c_sid x) (to_guest x) (to_host x ++ b) (host_open x) (guest_open x).
Definition recv_guest (n : nat) (x : Conn) : Conn := mkConn (c_sid x) (drop n (to_guest x)) (to_host x) (host_open x) (guest_open x).
Definition recv_host (n : nat) (x : Conn) : Conn := mkConn (c_sid x) (to_guest x) (drop n (to_host x)) (host_open x) (guest_open x).
Definition close_host (x : Conn) : Conn := mkConn (c_sid x) (to_guest x) (to_host x) false (guest_open x).
Definition close_guest (x : Conn) : Conn := mkConn (c_sid x) (to_guest x) (to_host x) (host_open x) false.

Definition on_conn (c : Z) (f : Conn → Conn) (s : sys) : sys :=
  mkSys (streamC s) (attempts s) (hosts s) (alter f c (conns s)) (backlog s) (listening s) (mu s) (streams s) (run s) (closers s) (shutdown s).

(** ** Steps *)

Inductive label :=
  (* the host: call h *)
  | LCall (h : nat) (running : bool) | LNewSid (h : nat) | LCtxDone (h : nat) | LTimeout (h : nat)
  | LDial (h : nat) (ok : bool) | LWrite (h : nat) (n : nat) | LAck (h : nat) | LAckFails (h : nat)
  (* the accept loop *)
  | GAccept | GAcceptFails | GRead (n : nat) | GReadFails | GLock | GRegister | GAck (ok : bool)
  (* goroutine k gets stream sid in order to close it *)
  | CGet (k : nat) (sid : Z) | CLock (k : nat) | CDelete (k : nat) | CCloseConn (k : nat)
  | SLock | SNext (sid : Z) | SRelock.

(** A call of [StartStream]. *)
Definition host_exec (l : label) (s : sys) : option sys :=
  match l with
  | LCall h running =>
      match hosts s !! h with None => Some (set_host h (if running then HTry else HFailed) s) | Some _ => None end
  | LNewSid h =>
      match hosts s !! h with
      | Some HTry =>
          let sid := wrapu32 (streamC s + 1) in
          let s1 := mkSys sid (attempts s + 1) (hosts s) (conns s) (backlog s) (listening s) (mu s) (streams s)
                      (run s) (closers s) (shutdown s) in
          Some (set_host h (if sid =? 0 then HFailed else HSid sid) s1)
      | _ => None
      end
  | LTimeout h => match hosts s !! h with Some HTry => Some (set_host h HFailed s) | _ => None end
  | LCtxDone h => match hosts s !! h with Some (HSid _) => Some (set_host h HFailed s) | _ => None end
  | LDial h ok =>
      match hosts s !! h with
      | Some (HSid sid) =>
          if ok then
            if listening s then
              let c := fresh (dom (conns s)) in
              Some (set_backlog (backlog s ++ [c]) (set_conn c (mkConn sid [] [] true true) (set_host h (HWrite sid c) s)))
            else None
          else Some (set_host h HTry s)
      | _ => None
      end
  | LWrite h n =>
      match hosts s !! h with
      | Some (HWrite sid c) =>
          if Nat.leb 4 n then Some (set_host h (HAck sid c) (on_conn c (send_guest (PutUint32 sid)) s))
          else Some (set_host h HFailed (on_conn c (close_host ∘ send_guest (take n (PutUint32 sid))) s))
      | _ => None
      end
  | LAck h =>
      match hosts s !! h with
      | Some (HAck sid c) =>
          match conns s !! c with
          | Some x =>
              if Nat.leb 4 (length (to_host x)) then
                if Uint32 (take 4 (to_host x)) =? sid
                then Some (set_host h (HDone sid c) (on_conn c (recv_host 4) s))
                else Some (set_host h HFailed (on_conn c (close_host ∘ recv_host 4) s))
              else None
          | None => None
          end
      | _ => None
      end
  | LAckFails h =>
      match hosts s !! h with
      | Some (HAck sid c) => Some (set_host h HFailed (on_conn c close_host s))
      | _ => None
      end
  | _ => None
  end.

(** [Run].  A read delivers some of the bytes that have arrived, at most four;
    the rest of the array stays zero. *)
Definition run_exec (l : label) (s : sys) : option sys :=
  match l, run s with
  | GAccept, RAccept => match backlog s with c :: l => Some (set_run (RRead c) (set_backlog l s)) | [] => None end
  | GAcceptFails, RAccept => Some (set_run REnd s)
  | GRead n, RRead c =>
      match conns s !! c with
      | Some x =>
          if Nat.leb 1 n && Nat.leb n (Nat.min 4 (length (to_guest x))) then
            let b := take n (to_guest x) ++ replicate (4 - n) 0 in
            Some (set_run (RGot c b) (on_conn c (recv_guest n) s))
          else None
      | None => None
      end
  | GReadFails, RRead c => Some (set_run RAccept (on_conn c close_guest s))
  | GLock, RGot c b => match mu s with None => Some (set_mu (Some ORun) (set_run (RHold c b) s)) | Some _ => None end
  | GRegister, RHold c b =>
      match streams s !! Uint32 b with
      | Some _ => Some (set_run RAccept (on_conn c close_guest (set_mu None s)))
      | None => Some (set_run (RAck c b) (set_mu None (set_streams (<[Uint32 b := c]> (streams s)) s)))
      end
  | GAck ok, RAck c b =>
      if ok then Some (set_run RAccept (on_conn c (send_host b) s))
      else Some (set_run RAccept (on_conn c close_guest s))
  | _, _ => None
  end.

(** [Get]. *)
Definition Get (sid : Z) (s : sys) : option Z := streams s !! sid.

(** A goroutine that gets a stream and calls [streamConn.Close] on it. *)
Definition close_exec (l : label) (s : sys) : option sys :=
  match l with
  | CGet k sid =>
      match mu s, closers s !! k, Get sid s with
      | None, None, Some c => Some (set_closers (<[k := CWant sid c]> (closers s)) s)
      | _, _, _ => None
      end
  | CLock k =>
      match mu s, closers s !! k with
      | None, Some (CWant sid c) => Some (set_mu (Some (OClose k)) (set_closers (<[k := CHold sid c]> (closers s)) s))
      | _, _ => None
      end
  | CDelete k =>
      match closers s !! k with
      | Some (CHold sid c) =>
          Some (set_mu None (set_streams (delete sid (streams s)) (set_closers (<[k := CClose c]> (closers s)) s)))
      | _ => None
      end
  | CCloseConn k =>
      match closers s !! k with
      | Some (CClose c) => Some (on_conn c close_guest (set_closers (delete k (closers s)) s))
      | _ => None
      end
  | _ => None
  end.

(** [Shutdown], which holds the mutex while it closes the streams. *)
Definition shutdown_exec (l : label) (s : sys) : option sys :=
  match l, shutdown s with
  | SLock, SIdle => match mu s with None => Some (set_mu (Some OShutdown) (set_shutdown SHold s)) | Some _ => None end
  | SNext sid, SHold =>
      if bool_decide (streams s = ∅) then Some (set_mu None (set_listening false (set_shutdown SDone s)))
      else match streams s !! sid with Some c => Some (set_shutdown (SWant sid c) s) | None => None end
  | SRelock, SWant sid c =>
      match mu s with
      | None => Some (on_conn c close_guest (set_streams (delete sid (streams s)) (set_shutdown SHold s)))
      | Some _ => None
      end
  | _, _ => None
  end.

Definition exec (l : label) (s : sys) : option sys :=
  match host_exec l s with
  | Some s' => Some s'
  | None => match run_exec l s with
            | Some s' => Some s'
            | None => match close_exec l s with
                      | Some s' => Some s'
                      | None => shutdown_exec l s
                      end
            end
  end.

Definition step (s s' : sys) : Prop := ∃ l, exec l s = Some s'.

(** What the network may do: a write or read of four bytes is never cut. *)
Definition whole (l : label) : Prop :=
  match l with GRead n => n = 4%nat | LWrite _ n => n = 4%nat ∨ n = 0%nat | _ => True end.
Definition whole_step (s s' : sys) : Prop := ∃ l, whole l ∧ exec l s = Some s'.
Definition reachable : sys → Prop := rtc whole_step init.

End Streams.

(** ** Identifiers and connections *)

Section streams.
Import Streams.

Lemma Uint32_PutUint32 z : 0 ≤ z < 2 ^ 32 → Uint32 (PutUint32 z) = z.
Proof.
  intros Hz. unfold Uint32, PutUint32. cbn [foldl].
  pose proof (Z.div_mod z (2 ^ 8)). pose proof (Z.div_mod (z / 2 ^ 8) (2 ^ 8)). pose proof (Z.div_mod (z / 2 ^ 16) (2 ^ 8)).
  assert (z / 2 ^ 24 < 256) by (apply Z.div_lt_upper_bound; lia). assert (0 ≤ z / 2 ^ 24) by (apply Z.div_pos; lia).
  replace (z / 2 ^ 16) with (z / 2 ^ 8 / 2 ^ 8) in * by (by rewrite Z.div_div by lia).
  replace (z / 2 ^ 24) with (z / 2 ^ 8 / 2 ^ 8 / 2 ^ 8) in * by (by rewrite !Z.div_div by lia).
  rewrite (Z.mod_small (z / 2 ^ 8 / 2 ^ 8 / 2 ^ 8)) by lia. change 256 with (2 ^ 8) in *. lia.
Qed.

Lemma exec_cases l s s' :
  exec l s = Some s' → host_exec l s = Some s' ∨ run_exec l s = Some s' ∨ close_exec l s = Some s' ∨ shutdown_exec l s = Some s'.
Proof.
  unfold exec. destruct (host_exec l s); [auto|]. destruct (run_exec l s); [auto|]. destruct (close_exec l s); auto.
Qed.

(** The goroutines keep their promises in terms of [at_ c], the identifier that
    connection [c] was dialed for. *)
Definition sid_of (cs : gmap Z Conn) (c : Z) : option Z := c_sid <$> cs !! c.

(** A change of a connection that keeps its identifier and does not open it
    again. *)
Class Keeps (f : Conn → Conn) := keeps x : c_sid (f x) = c_sid x ∧ (guest_open x = false → guest_open (f x) = false).
#[local] Instance Keeps_compose f g : Keeps f → Keeps g → Keeps (f ∘ g).
Proof. intros Hf Hg x. simpl. destruct (Hf (g x)), (Hg x). split; [congruence|auto]. Qed.
#[local] Hint Extern 1 (Keeps _) => (intros ?; split; simpl; auto) : typeclass_instances.

Lemma sid_of_alter cs c f c' `{!Keeps f} : sid_of (alter f c cs) c' = sid_of cs c'.
Proof.
  unfold sid_of. destruct (decide (c' = c)) as [->|]; [|by rewrite lookup_alter_ne].
  rewrite lookup_alter_eq. destruct (cs !! c) as [x|]; simpl; [by destruct (keeps (f := f) x) as [-> _]|done].
Qed.

Lemma sid_of_insert cs c x c' : sid_of (<[c := x]> cs) c' = if decide (c' = c) then Some (c_sid x) else sid_of cs c'.
Proof. unfold sid_of. destruct (decide (c' = c)) as [->|]; [by rewrite lookup_insert_eq|by rewrite lookup_insert_ne]. Qed.

(** *** The host *)

Definition pc_sid (p : host_pc) : option Z :=
  match p with HSid sid | HWrite sid _ | HAck sid _ | HDone sid _ => Some sid | _ => None end.
Definition pc_conn (p : host_pc) : option (Z * Z) :=
  match p with HWrite sid c | HAck sid c | HDone sid c => Some (sid, c) | _ => None end.

(** Identifiers belong to one call and one connection. *)
Record ids_ok (n : Z) (hs : gmap nat host_pc) (at_ : Z → option Z) : Prop := {
  ids_host : ∀ h p sid, hs !! h = Some p → pc_sid p = Some sid → 1 ≤ sid ≤ n;
  ids_call : ∀ h p h' p' sid, hs !! h = Some p → pc_sid p = Some sid → hs !! h' = Some p' → pc_sid p' = Some sid → h' = h;
  ids_link : ∀ h p sid c, hs !! h = Some p → pc_conn p = Some (sid, c) → at_ c = Some sid;
  ids_fresh : ∀ h sid c, hs !! h = Some (HSid sid) → at_ c ≠ Some sid;
  ids_uniq : ∀ c c' sid, at_ c = Some sid → at_ c' = Some sid → c = c';
  ids_range : ∀ c sid, at_ c = Some sid → 1 ≤ sid ≤ n }.

Lemma ids_ext n hs at_ at' : (∀ c, at' c = at_ c) → ids_ok n hs at_ → ids_ok n hs at'.
Proof.
  intros He [H0 H1 H2 H3 H4 H5]. split; [done|done|..].
  - intros. rewrite He. eauto.
  - intros. rewrite He. eauto.
  - intros c c' sid. rewrite !He. apply H4.
  - intros c sid. rewrite He. apply H5.
Qed.

(** A call without an identifier, and one that moves on with the same. *)
Lemma ids_plain n hs at_ h p : ids_ok n hs at_ → pc_sid p = None → ids_ok n (<[h := p]> hs) at_.
Proof.
  intros [H0 H1 H2 H3 H4 H5] Hp. split; [| | | |done|done].
  - intros h1 p1 sid [[<- <-]|[_ Hl]]%lookup_insert_Some Hs; [congruence|eauto].
  - intros h1 p1 h2 p2 sid [[<- <-]|[_ Hl]]%lookup_insert_Some Hs [[<- <-]|[_ Hl2]]%lookup_insert_Some Hs2; [congruence..|eauto].
  - intros h1 p1 sid c [[<- <-]|[_ Hl]]%lookup_insert_Some Hc; [by destruct p|eauto].
  - intros h1 sid c [[<- ->]|[_ Hl]]%lookup_insert_Some; [done|eauto].
Qed.

Lemma ids_move n hs at_ h p p' sid c :
  ids_ok n hs at_ → hs !! h = Some p → pc_sid p = Some sid → pc_conn p' = Some (sid, c) → at_ c = Some sid →
  ids_ok n (<[h := p']> hs) at_.
Proof.
  intros [H0 H1 H2 H3 H4 H5] Hh Hp Hp' Hat.
  assert (pc_sid p' = Some sid) as Hs' by (destruct p'; simplify_eq/=; done).
  assert (∀ h1 p1 sid1, <[h := p']> hs !! h1 = Some p1 → pc_sid p1 = Some sid1 →
            ∃ p0, hs !! h1 = Some p0 ∧ pc_sid p0 = Some sid1) as Hback.
  { intros h1 p1 sid1 [[<- <-]|[_ Hl]]%lookup_insert_Some Hs1; [exists p; split; [done|congruence]|by exists p1]. }
  split; [| | | |done|done].
  - intros h1 p1 sid1 Hl Hs1. destruct (Hback _ _ _ Hl Hs1) as (?&?&?). eauto.
  - intros h1 p1 h2 p2 sid1 Hl Hs1 Hl2 Hs2. destruct (Hback _ _ _ Hl Hs1) as (?&?&?), (Hback _ _ _ Hl2 Hs2) as (?&?&?). eauto.
  - intros h1 p1 sid1 c1 [[<- <-]|[_ Hl]]%lookup_insert_Some Hc; [congruence|eauto].
  - intros h1 sid1 c1 [[<- E]|[_ Hl]]%lookup_insert_Some; [by subst|eauto].
Qed.

(** A new identifier. *)
Lemma ids_new n hs at_ h : ids_ok n hs at_ → 0 ≤ n → ids_ok (n + 1) (<[h := HSid (n + 1)]> hs) at_.
Proof.
  intros [H0 H1 H2 H3 H4 H5] Hn. split; [| | | |done|].
  - intros h1 p1 sid [[<- <-]|[Hne Hl]]%lookup_insert_Some Hs; simplify_eq/=; [lia|]. specialize (H0 _ _ _ Hl Hs). lia.
  - intros h1 p1 h2 p2 sid [[<- <-]|[_ Hl]]%lookup_insert_Some Hs [[<- <-]|[_ Hl2]]%lookup_insert_Some Hs2; simplify_eq/=; [done| | |eauto].
    + specialize (H0 _ _ _ Hl2 Hs2). lia.
    + specialize (H0 _ _ _ Hl Hs). lia.
  - intros h1 p1 sid c [[<- <-]|[_ Hl]]%lookup_insert_Some Hc; [done|eauto].
  - intros h1 sid c [[<- [= <-]]|[_ Hl]]%lookup_insert_Some; [|eauto]. intros Hc%H5. lia.
  - intros c sid Hc%H5. lia.
Qed.

(** A call that takes over an identifier no other call has. *)
Lemma ids_give n hs at_ h sid c :
  ids_ok n hs at_ → (∀ h' p', hs !! h' = Some p' → pc_sid p' ≠ Some sid) → at_ c = Some sid →
  ids_ok n (<[h := HWrite sid c]> hs) at_.
Proof.
  intros [H0 H1 H2 H3 H4 H5] Hno Hat. split; [| | | |done|done].
  - intros h1 p1 sid1 [[<- <-]|[_ Hl]]%lookup_insert_Some Hs; simplify_eq/=; [by eapply H5|by eapply H0].
  - intros h1 p1 h2 p2 sid1 [[<- <-]|[_ Hl]]%lookup_insert_Some Hs [[<- <-]|[_ Hl2]]%lookup_insert_Some Hs2; simplify_eq/=;
      [done| | |eauto]; exfalso; eapply Hno; eauto.
  - intros h1 p1 sid1 c1 [[<- <-]|[_ Hl]]%lookup_insert_Some Hc; simplify_eq/=; eauto.
  - intros h1 sid1 c1 [[<- ?]|[_ Hl]]%lookup_insert_Some; [done|eauto].
Qed.

(** A new connection. *)
Lemma ids_dial n hs at_ at' h sid c :
  ids_ok n hs at_ → hs !! h = Some (HSid sid) → at_ c = None → (∀ c', at' c' = if decide (c' = c) then Some sid else at_ c') →
  ids_ok n (<[h := HWrite sid c]> hs) at'.
Proof.
  intros Hok Hh Hc Ho.
  assert (ids_ok n (<[h := HFailed]> hs) at') as Hok'.
  { destruct (ids_plain n hs at_ h HFailed Hok eq_refl) as [H0 H1 H2 H3 H4 H5]. split; [done|done|..].
    - intros h1 p1 sid1 c1 Hl Hpc. rewrite Ho. case_decide as E; [|eauto]. subst. rewrite (H2 _ _ _ _ Hl Hpc) in Hc. done.
    - intros h1 sid1 c1 Hl. rewrite Ho. case_decide; [|eauto]. intros [= ->].
      apply lookup_insert_Some in Hl as [[_ ?]|[Hne Hl]]; [done|]. by apply Hne, (ids_call _ _ _ Hok h1 (HSid sid1) h (HSid sid1) sid1).
    - intros c1 c2 sid1. rewrite !Ho. pose proof (ids_fresh _ _ _ Hok h sid) as Hf.
      repeat case_decide; [by subst|intros [= <-] E; by destruct (Hf c2 Hh)|intros E [= <-]; by destruct (Hf c1 Hh)|apply H4].
    - intros c1 sid1. rewrite Ho. case_decide; [|apply H5]. intros [= <-]. by eapply (ids_host _ _ _ Hok). }
  rewrite <- (insert_insert_eq hs h (HWrite sid c) HFailed). apply ids_give; [done| |by rewrite Ho, decide_True].
  intros h1 p1 [[<- <-]|[Hne Hl]]%lookup_insert_Some; [done|]. intros Hs. by apply Hne, (ids_call _ _ _ Hok h1 p1 h (HSid sid) sid).
Qed.

Lemma pc_conn_sid p sid c : pc_conn p = Some (sid, c) → pc_sid p = Some sid.
Proof. destruct p; simpl; congruence. Qed.

(** A connection belongs to one call. *)
Lemma ids_conn n hs at_ h h' p p' sid sid' c :
  ids_ok n hs at_ → hs !! h = Some p → pc_conn p = Some (sid, c) → hs !! h' = Some p' → pc_conn p' = Some (sid', c) → h' = h.
Proof.
  intros Hok Hh Hp Hh' Hp'. pose proof (ids_link _ _ _ Hok _ _ _ _ Hh Hp). pose proof (ids_link _ _ _ Hok _ _ _ _ Hh' Hp').
  simplify_eq. eapply (ids_call _ _ _ Hok h p h' p'); eauto using pc_conn_sid.
Qed.

(** *** The invariant *)

(** Fewer than 2^32 identifiers have been drawn. *)
Definition small (s : sys) : Prop := attempts s < 2 ^ 32.

(** What the guest refers to. *)
Definition run_ref (at_ : Z → option Z) (r : run_pc) : Prop :=
  match r with RGot c b | RHold c b | RAck c b => at_ c = Some (Uint32 b) | _ => True end.
Definition close_ref (at_ : Z → option Z) (p : close_pc) : Prop :=
  match p with CWant sid c | CHold sid c => at_ c = Some sid | CClose c => is_Some (at_ c) end.
Definition shut_ref (at_ : Z → option Z) (p : shutdown_pc) : Prop :=
  match p with SWant sid c => at_ c = Some sid | _ => True end.

(** The guest has registered the connection, and if it no longer is then a
    goroutine of the guest is closing it or has closed it. *)
Definition settled (s : sys) (c : Z) : Prop :=
  (∃ sid, streams s !! sid = Some c) ∨ (∃ k, closers s !! k = Some (CClose c)) ∨
  (∃ x, conns s !! c = Some x ∧ guest_open x = false).

Record Inv (s : sys) : Prop := {
  inv_count : streamC s = attempts s ∧ 0 ≤ attempts s;
  inv_ids : ids_ok (streamC s) (hosts s) (sid_of (conns s));
  inv_streams : ∀ sid c, streams s !! sid = Some c → sid_of (conns s) c = Some sid;
  inv_run : run_ref (sid_of (conns s)) (run s);
  inv_close : ∀ k p, closers s !! k = Some p → close_ref (sid_of (conns s)) p;
  inv_shut : shut_ref (sid_of (conns s)) (shutdown s);
  inv_wire : ∀ c x, conns s !! c = Some x → to_guest x = [] ∨ to_guest x = PutUint32 (c_sid x);
  inv_quiet : ∀ h sid c x, hosts s !! h = Some (HWrite sid c) → conns s !! c = Some x → to_guest x = [];
  inv_acked : ∀ c x, conns s !! c = Some x → to_host x ≠ [] → settled s c;
  inv_acking : ∀ c b, run s = RAck c b → settled s c;
  inv_done : ∀ h sid c, hosts s !! h = Some (HDone sid c) → settled s c }.

Ltac exec_cases He :=
  unfold host_exec, run_exec, close_exec, shutdown_exec in He;
  repeat (case_match; try done); simplify_eq.

Lemma attempts_mono l s s' : exec l s = Some s' → attempts s ≤ attempts s'.
Proof. intros [He|[He|[He|He]]]%exec_cases; exec_cases He; simpl; lia. Qed.

(** What a step leaves alone. *)
Lemma host_frame l s s' : host_exec l s = Some s' →
  streams s' = streams s ∧ run s' = run s ∧ closers s' = closers s ∧ shutdown s' = shutdown s ∧ mu s' = mu s.
Proof. intros He. exec_cases He; done. Qed.

Lemma guest_frame l s s' : run_exec l s = Some s' ∨ close_exec l s = Some s' ∨ shutdown_exec l s = Some s' →
  streamC s' = streamC s ∧ attempts s' = attempts s ∧ hosts s' = hosts s ∧ ∀ c, sid_of (conns s') c = sid_of (conns s) c.
Proof.
  intros [He|[He|He]]; exec_cases He; repeat split; try done; intros c'; simpl; try done; by rewrite sid_of_alter.
Qed.

Lemma fresh_conn s : conns s !! fresh (dom (conns s)) = None.
Proof. apply not_elem_of_dom, is_fresh. Qed.

(** No step forgets a connection or opens it again. *)
Definition grows (cs cs' : gmap Z Conn) : Prop :=
  ∀ c x, cs !! c = Some x → ∃ x', cs' !! c = Some x' ∧ c_sid x' = c_sid x ∧ (guest_open x = false → guest_open x' = false).

Lemma grows_alter cs c f `{!Keeps f} : grows cs (alter f c cs).
Proof.
  intros c' x Hc. destruct (decide (c' = c)) as [->|]; [|rewrite lookup_alter_ne by done; by exists x].
  rewrite lookup_alter_eq, Hc. simpl. destruct (keeps (f := f) x). by exists (f x).
Qed.

Lemma step_grows l s s' : exec l s = Some s' → grows (conns s) (conns s').
Proof.
  intros [He|[He|[He|He]]]%exec_cases; exec_cases He; simpl; try (by apply grows_alter, _); intros c' x' Hc; try by exists x'.
  exists x'. split; [|done]. rewrite lookup_insert_ne; [done|]. intros <-. by rewrite fresh_conn in Hc.
Qed.

Lemma grows_sid cs cs' c sid : grows cs cs' → sid_of cs c = Some sid → sid_of cs' c = Some sid.
Proof. unfold sid_of. intros Hg (x & Hx & ->)%fmap_Some. destruct (Hg _ _ Hx) as (x' & -> & Hs & _). simpl. by rewrite Hs. Qed.

Lemma host_ids l s s' : host_exec l s = Some s' → small s' → Inv s → ids_ok (streamC s') (hosts s') (sid_of (conns s')).
Proof.
  intros He Hs HI. pose proof (inv_ids _ HI) as Hok. pose proof (inv_count _ HI) as [Hc H0]. unfold small in Hs.
  exec_cases He; simpl in *;
    try (eapply ids_ext; [intros; by apply sid_of_alter|]);
    try (apply ids_plain; [done|by repeat case_match]);
    try (eapply ids_move; [done..|]; eapply (ids_link _ _ _ Hok); [done|done]).
  all: try (eapply ids_dial; [done|done|unfold sid_of; by rewrite fresh_conn|intros; apply sid_of_insert]).
  all: rewrite wrapu32_id in * by lia; first [lia|apply ids_new; [done|lia]].
Qed.

(** *** Steps keep the invariant *)

Lemma refs_grow s s' : Inv s → grows (conns s) (conns s') →
  streams s' = streams s → run s' = run s → closers s' = closers s → shutdown s' = shutdown s →
  (∀ sid c, streams s' !! sid = Some c → sid_of (conns s') c = Some sid) ∧ run_ref (sid_of (conns s')) (run s') ∧
  (∀ k p, closers s' !! k = Some p → close_ref (sid_of (conns s')) p) ∧ shut_ref (sid_of (conns s')) (shutdown s').
Proof.
  intros HI Hg -> -> -> ->. pose proof (λ c sid, grows_sid _ _ c sid Hg) as Hm. split_and!.
  - intros sid c Hc%(inv_streams _ HI). auto.
  - pose proof (inv_run _ HI) as Hr. destruct (run s); simpl in *; auto.
  - intros k p Hp%(inv_close _ HI). destruct p; simpl in *; auto. destruct Hp as [? Hp]. eauto.
  - pose proof (inv_shut _ HI) as Hr. destruct (shutdown s); simpl in *; auto.
Qed.

Lemma settled_grow s s' c : grows (conns s) (conns s') → streams s' = streams s → closers s' = closers s →
  settled s c → settled s' c.
Proof.
  intros Hg Hs Hc [H|[H|(x & Hx & Ho)]]; [left; by rewrite Hs|right; left; by rewrite Hc|].
  destruct (Hg _ _ Hx) as (x' & Hx' & _ & Hop). right. right. exists x'. auto.
Qed.

Lemma lookup_alter_inv {A} (f : A → A) (m : gmap Z A) c c' y :
  alter f c m !! c' = Some y → (∃ x, m !! c' = Some x ∧ y = f x ∧ c' = c) ∨ m !! c' = Some y.
Proof. intros [(<- & x & Hx & ->)|[_ H]]%lookup_alter_Some; [left; eauto|by right]. Qed.

Lemma host_wire l s s' : host_exec l s = Some s' → whole l → Inv s →
  ∀ c x, conns s' !! c = Some x → to_guest x = [] ∨ to_guest x = PutUint32 (c_sid x).
Proof.
  intros He Hw HI c x Hx. pose proof (inv_wire _ HI) as Hwi. exec_cases He; simpl in *; eauto;
    try (apply lookup_alter_inv in Hx as [(x0 & Hx0 & -> & ->)|Hx]; [|by eauto]; simpl; try by eauto).
  - apply lookup_insert_Some in Hx as [[_ <-]|[_ Hx]]; [by left|eauto].
  - match goal with H : hosts s !! _ = Some (HWrite _ _) |- _ =>
      rewrite (inv_quiet _ HI _ _ _ _ H Hx0); pose proof (ids_link _ _ _ (inv_ids _ HI) _ _ _ _ H eq_refl) as Hl end.
    unfold sid_of in Hl. rewrite Hx0 in Hl. injection Hl as ->. by right.
  - destruct Hw as [->| ->]; [done|]. rewrite app_nil_r. eauto.
Qed.

Lemma host_quiet l s s' : host_exec l s = Some s' → Inv s →
  ∀ h sid c x, hosts s' !! h = Some (HWrite sid c) → conns s' !! c = Some x → to_guest x = [].
Proof.
  intros He HI h1 sid1 c1 x1 Hh Hx. pose proof (inv_quiet _ HI) as Hq. exec_cases He; simpl in *;
    try (apply lookup_insert_Some in Hh as [[_ ?]|[Hne Hh]]; [by repeat case_match|]); eauto;
    try (apply lookup_alter_inv in Hx as [(x0 & Hx0 & -> & ->)|Hx]; [|by eauto]; simpl; try by eauto).
  2,3: match goal with HI : Inv _, Hne : ?h ≠ ?h1, H : _ !! ?h = Some (HWrite _ _), Hh : _ !! ?h1 = Some (HWrite _ _) |- _ =>
         by destruct Hne; eapply (ids_conn _ _ _ _ _ _ _ _ _ _ (inv_ids _ HI) Hh eq_refl H eq_refl) end.
  apply lookup_insert_Some in Hx as [[<- <-]|[Hc Hx]]; [done|].
  apply lookup_insert_Some in Hh as [[_ ?]|[_ Hh]]; [congruence|eauto].
Qed.

Lemma host_settles l s s' : host_exec l s = Some s' → Inv s →
  (∀ c x, conns s' !! c = Some x → to_host x ≠ [] → settled s c) ∧
  (∀ h sid c, hosts s' !! h = Some (HDone sid c) → settled s c).
Proof.
  intros He HI. pose proof (inv_acked _ HI) as Ha. pose proof (inv_done _ HI) as Hd. split.
  - intros c1 x1 Hx Hb. exec_cases He; simpl in *; eauto;
    try (apply lookup_alter_inv in Hx as [(x0 & Hx0 & -> & ->)|Hx]; [|by eauto]; simpl; try by eauto).
    + apply lookup_insert_Some in Hx as [[<- <-]|[_ Hx]]; [done|eauto].
    + apply (Ha _ x0); [done|]. intros E. simpl in Hb. by rewrite E in Hb.
    + apply (Ha _ x0); [done|]. intros E. simpl in Hb. by rewrite E in Hb.
  - intros h1 sid1 c1 Hh. exec_cases He; simpl in *;
    try (apply lookup_insert_Some in Hh as [[_ ?]|[Hne Hh]]; [by repeat case_match|]); eauto.
    apply lookup_insert_Some in Hh as [[_ [= <- <-]]|[_ Hh]]; [|eauto]. eapply Ha; [done|].
    intros E. rewrite E in *. done.
Qed.

Lemma host_Inv l s s' : host_exec l s = Some s' → whole l → small s' → Inv s → Inv s'.
Proof.
  intros He Hw Hs HI. pose proof (host_frame _ _ _ He) as (Hst & Hr & Hcl & Hsh & _).
  assert (exec l s = Some s') as Hg%step_grows by (unfold exec; by rewrite He).
  destruct (refs_grow s s' HI Hg Hst Hr Hcl Hsh) as (H1 & H2 & H3 & H4). destruct (host_settles _ _ _ He HI) as [Ha Hd].
  split; [|by eapply host_ids|done|done|done|done|by eapply host_wire|by eapply host_quiet|..].
  - destruct (inv_count _ HI). unfold small in Hs. exec_cases He; simpl in *; try done. all: rewrite wrapu32_id by lia; lia.
  - intros c x Hx Hn. eapply settled_grow; eauto.
  - intros c b. rewrite Hr. intros Hk%(inv_acking _ HI). eapply settled_grow; eauto.
  - intros h sid c Hh. eapply settled_grow; eauto.
Qed.

Lemma closed_now cs c : is_Some (sid_of cs c) → ∃ x, alter close_guest c cs !! c = Some x ∧ guest_open x = false.
Proof.
  unfold sid_of. rewrite fmap_is_Some. intros [x Hx]. exists (close_guest x). by rewrite lookup_alter_eq, Hx.
Qed.

(** A step of the guest keeps what is settled. *)
Lemma guest_settled l s s' c : run_exec l s = Some s' ∨ close_exec l s = Some s' ∨ shutdown_exec l s = Some s' →
  Inv s → settled s c → settled s' c.
Proof.
  intros He HI Hc.
  assert (grows (conns s) (conns s')) as Hg.
  { destruct He as [He|[He|He]]; exec_cases He; simpl; try (by apply grows_alter, _); intros c' x' Hc'; by exists x'. }
  destruct Hc as [(sid & Hc)|[(k & Hc)|(x & Hx & Ho)]];
    [| |right; right; destruct (Hg _ _ Hx) as (x' & Hx' & _ & Hop); exists x'; by auto].
  - pose proof (ids_uniq _ _ _ (inv_ids _ HI) c) as Hu. pose proof (inv_streams _ HI _ _ Hc) as Hat.
    destruct He as [He|[He|He]]; exec_cases He; simpl; try (left; by exists sid).
    + left. exists sid. simpl. rewrite lookup_insert_ne; [done|congruence].
    + match goal with H : closers s !! ?k = Some (CHold ?sid0 ?c1) |- _ => pose proof (inv_close _ HI _ _ H) as Hk; rename k into k0, sid0 into sid' end.
      destruct (decide (sid' = sid)) as [->|]; [|left; exists sid; simpl; by rewrite lookup_delete_ne].
      right. left. exists k0. simpl. rewrite lookup_insert_eq. by rewrite (Hu _ _ Hat Hk).
    + pose proof (inv_shut _ HI) as Hk.
      match goal with H : shutdown s = SWant ?sid0 ?c1 |- _ => rewrite H in Hk; rename sid0 into sid' end. simpl in Hk.
      destruct (decide (sid' = sid)) as [->|]; [|left; exists sid; simpl; by rewrite lookup_delete_ne].
      rewrite <- (Hu _ _ Hat Hk). right. right. by apply closed_now.
  - pose proof (inv_close _ HI _ _ Hc) as Hat.
    destruct He as [He|[He|He]]; exec_cases He; simpl; try (right; left; by exists k).
    1-3: right; left; exists k; simpl; rewrite lookup_insert_ne; [done|congruence].
    match goal with H : closers s !! ?k1 = Some (CClose ?c1) |- _ => rename k1 into k0, c1 into c'; rename H into Hk0 end.
    destruct (decide (k0 = k)) as [->|]; [|right; left; exists k; simpl; by rewrite lookup_delete_ne].
    replace c' with c in * by congruence. right. right. by apply closed_now.
Qed.

Lemma guest_wire l s s' : run_exec l s = Some s' ∨ close_exec l s = Some s' ∨ shutdown_exec l s = Some s' → whole l →
  (∀ c x', conns s' !! c = Some x' → ∃ x, conns s !! c = Some x ∧ c_sid x' = c_sid x ∧
     (to_guest x' = to_guest x ∨ to_guest x' = drop 4 (to_guest x)) ∧
     (to_host x' = to_host x ∨ ∃ b, run s = RAck c b)).
Proof.
  intros He Hw c1 x1 Hx. destruct He as [He|[He|He]]; exec_cases He; simpl in *; eauto 7;
    (apply lookup_alter_inv in Hx as [(x0 & Hx0 & -> & ->)|Hx]; [|by eauto 7]; exists x0; simpl; subst; eauto 7).
Qed.

(** A whole read yields the identifier of the connection. *)
Lemma got_sid s c x : Inv s → small s → conns s !! c = Some x → to_guest x ≠ [] →
  sid_of (conns s) c = Some (Uint32 (take 4 (to_guest x) ++ [])).
Proof.
  intros HI Hsm Hx Hne. assert (sid_of (conns s) c = Some (c_sid x)) as Hat by (unfold sid_of; by rewrite Hx).
  destruct (inv_wire _ HI _ _ Hx) as [?|Hw]; [done|]. rewrite Hat, Hw. f_equal. rewrite app_nil_r.
  pose proof (ids_range _ _ _ (inv_ids _ HI) _ _ Hat). destruct (inv_count _ HI). unfold small in Hsm.
  symmetry. apply (Uint32_PutUint32 (c_sid x)). lia.
Qed.

Lemma guest_refs l s s' : run_exec l s = Some s' ∨ close_exec l s = Some s' ∨ shutdown_exec l s = Some s' → whole l → Inv s → small s →
  (∀ sid c, streams s' !! sid = Some c → sid_of (conns s) c = Some sid) ∧ run_ref (sid_of (conns s)) (run s') ∧
  (∀ k p, closers s' !! k = Some p → close_ref (sid_of (conns s)) p) ∧ shut_ref (sid_of (conns s)) (shutdown s').
Proof.
  intros He Hw HI Hsm. pose proof (inv_streams _ HI) as H1. pose proof (inv_run _ HI) as H2. pose proof (inv_close _ HI) as H3.
  pose proof (inv_shut _ HI) as H4.
  destruct He as [He|[He|He]]; exec_cases He; simpl in *; split_and!; try done.
  - match goal with H : _ && _ = true |- _ => apply andb_prop in H as [_ H%Nat.leb_le]; rename H into Hl end.
    subst. apply got_sid; [done..|]. intros E. rewrite E in Hl. simpl in Hl. lia.
  - intros sid c1 [[<- <-]|[_ Hl]]%lookup_insert_Some; eauto.
  - intros k1 p [[_ <-]|[_ Hl]]%lookup_insert_Some; simpl; eauto.
  - intros k1 p [[_ <-]|[_ Hl]]%lookup_insert_Some; simpl; [|eauto].
    match goal with H : closers s !! _ = Some (CWant _ _) |- _ => by apply H3 in H end.
  - intros sid1 c1 [_ Hl]%lookup_delete_Some. eauto.
  - intros k1 p [[_ <-]|[_ Hl]]%lookup_insert_Some; simpl; [|eauto].
    match goal with H : closers s !! _ = Some (CHold _ _) |- _ => apply H3 in H; simpl in H; eauto end.
  - intros k1 p [_ Hl]%lookup_delete_Some. eauto.
  - eauto.
  - intros sid1 c1 [_ Hl]%lookup_delete_Some. eauto.
Qed.

Lemma run_settles l s s' c b : run_exec l s = Some s' ∨ close_exec l s = Some s' ∨ shutdown_exec l s = Some s' →
  run s' = RAck c b → run s = RAck c b ∨ settled s' c.
Proof.
  intros He Hr. destruct He as [He|[He|He]]; exec_cases He; simpl in *; eauto; try congruence.
  right. left. simplify_eq. exists (Uint32 b). simpl. by rewrite lookup_insert_eq.
Qed.

Lemma guest_Inv l s s' : run_exec l s = Some s' ∨ close_exec l s = Some s' ∨ shutdown_exec l s = Some s' →
  whole l → small s → Inv s → Inv s'.
Proof.
  intros He Hw Hsm HI. pose proof (guest_frame _ _ _ He) as (Hc & Ha & Hh & Hat).
  pose proof (guest_wire _ _ _ He Hw) as Hwi. pose proof (λ c, guest_settled _ _ _ c He HI) as Hse.
  destruct (guest_refs _ _ _ He Hw HI Hsm) as (H1 & H2 & H3 & H4). split; rewrite ?Hc, ?Ha, ?Hh.
  - apply (inv_count _ HI).
  - eapply ids_ext; [exact Hat|apply (inv_ids _ HI)].
  - intros. rewrite Hat. eauto.
  - destruct (run s'); simpl in *; rewrite ?Hat; done.
  - intros k p Hp%H3. destruct p; simpl in *; by rewrite Hat.
  - destruct (shutdown s'); simpl in *; rewrite ?Hat; done.
  - intros c x' (x & Hx & Hsd & Hg & _)%Hwi. rewrite Hsd.
    destruct (inv_wire _ HI _ _ Hx) as [E|E], Hg as [-> | ->]; rewrite E; auto.
  - intros h sid c x' Hp (x & Hx & Hsd & Hg & _)%Hwi. pose proof (inv_quiet _ HI _ _ _ _ Hp Hx) as E.
    destruct Hg as [-> | ->]; by rewrite E.
  - intros c x' (x & Hx & _ & _ & Hb)%Hwi Hn. destruct Hb as [Hb|[b Hb]]; apply Hse; [|by eapply (inv_acking _ HI)].
    eapply (inv_acked _ HI); [done|congruence].
  - intros c b Hr. destruct (run_settles _ _ _ _ _ He Hr) as [Hr0|?]; [|done]. by eapply Hse, (inv_acking _ HI).
  - intros h sid c Hp. by eapply Hse, (inv_done _ HI).
Qed.

Lemma step_Inv l s s' : exec l s = Some s' → whole l → small s' → Inv s → Inv s'.
Proof.
  intros He Hw Hs HI. pose proof (attempts_mono _ _ _ He). unfold small in *.
  apply exec_cases in He as [He|He]; [by eapply host_Inv|]. eapply guest_Inv; try done. unfold small. lia.
Qed.

Lemma init_Inv : Inv init.
Proof. by split. Qed.

Lemma streams_Inv s : reachable s → small s → Inv s.
Proof.
  revert s. apply (rtc_ind_r (λ s, small s → Inv s)); [intros _; apply init_Inv|]. intros s s' _ [l [Hw He]] IH Hs.
  eapply step_Inv; [done..|]. apply IH. pose proof (attempts_mono _ _ _ He). unfold small in *. lia.
Qed.

(** C22: The rendezvous of [StartStream] and the guest's streaming service.  When a
    call of [StartStream] has returned an identifier and a connection, with any
    number of other calls, closing goroutines and a [Shutdown] interleaved and
    fewer than 2^32 attempts made, the only connection the guest's [Get] can
    return for the identifier is the other end of that very connection; [Get] does
    return it unless a goroutine of the guest is closing it or has closed it; and
    no other call has got the identifier or the connection. *)
Theorem stream_rendezvous s h sid c :
  reachable s → small s → hosts s !! h = Some (HDone sid c) →
  (∀ c', Get sid s = Some c' → c' = c) ∧
  (Get sid s = Some c ∨ (∃ k, closers s !! k = Some (CClose c)) ∨ (∃ x, conns s !! c = Some x ∧ guest_open x = false)) ∧
  (∀ h' sid' c', hosts s !! h' = Some (HDone sid' c') → h' ≠ h → sid' ≠ sid ∧ c' ≠ c).
Proof.
  intros Hr Hs Hh. pose proof (streams_Inv _ Hr Hs) as HI. pose proof (inv_ids _ HI) as Hok. unfold Get.
  pose proof (ids_link _ _ _ Hok _ _ _ _ Hh eq_refl) as Hat. split_and!.
  - intros c' Hc%(inv_streams _ HI). by eapply (ids_uniq _ _ _ Hok).
  - destruct (inv_done _ HI _ _ _ Hh) as [[sid' Hc]|?]; [left|by right].
    pose proof (inv_streams _ HI _ _ Hc). by replace sid with sid' by congruence.
  - intros h' sid' c' Hh' Hne. split; intros ->; apply Hne.
    + by eapply (ids_call _ _ _ Hok h _ h' _ sid).
    + by eapply (ids_conn _ _ _ h h').
Qed.

(** *** The mutex *)

(** A goroutine in its critical section owns the mutex. *)
Definition in_shutdown (p : shutdown_pc) : Prop := match p with SHold | SWant _ _ => True | _ => False end.
Record Mutex (s : sys) : Prop := {
  mx_run : ∀ c b, run s = RHold c b → mu s = Some ORun;
  mx_close : ∀ k sid c, closers s !! k = Some (CHold sid c) → mu s = Some (OClose k);
  mx_shut : in_shutdown (shutdown s) → mu s = Some OShutdown }.

Lemma step_Mutex l s s' : exec l s = Some s' → Mutex s → Mutex s'.
Proof.
  intros He [H1 H2 H3]. apply exec_cases in He as [He|He].
  - pose proof (host_frame _ _ _ He) as (_ & Hr & Hc & Hs & Hm). split; rewrite ?Hr, ?Hc, ?Hs, ?Hm; done.
  - destruct He as [He|[He|He]]; exec_cases He; split; simpl in *; try done;
      repeat match goal with
      | H : run s = _ |- _ => rewrite H in *; clear H
      | H : shutdown s = _ |- _ => rewrite H in *; clear H
      | H : mu s = _ |- _ => rewrite H in *; clear H
      | Hk : closers s !! ?k = Some (CHold _ _) |- _ => apply H2 in Hk
      end;
      try naive_solver.
    1-3: intros k1 sid1 c1 [[<- E]|[Hne Hl]]%lookup_insert_Some; [by simplify_eq|]; apply H2 in Hl; congruence.
    intros k1 sid1 c1 [_ Hl]%lookup_delete_Some. eauto.
Qed.

Lemma steps_Mutex s s' : rtc step s s' → Mutex s → Mutex s'.
Proof. intros H. induction H as [|s1 s2 s3 [l He] _ IH]; [done|]. intros Hm. by eapply IH, step_Mutex. Qed.

(** [Shutdown] has the mutex and a stream is open. *)
Definition stuck (m : gmap Z Z) (b : bool) (s : sys) : Prop :=
  Mutex s ∧ in_shutdown (shutdown s) ∧ streams s = m ∧ listening s = b.

Lemma step_stuck l m b s s' : m ≠ ∅ → exec l s = Some s' → stuck m b s → stuck m b s'.
Proof.
  intros Hm He (Hx & Hs & Hst & Hb). pose proof (mx_shut _ Hx Hs) as Hmu. split; [by eapply step_Mutex|].
  apply exec_cases in He as [He|He].
  - pose proof (host_frame _ _ _ He) as (-> & _ & _ & -> & _). split_and!; [done..|]. exec_cases He; done.
  - pose proof (mx_run _ Hx) as H1. pose proof (mx_close _ Hx) as H2.
    destruct He as [He|[He|He]]; exec_cases He; simpl in *; try (split_and!; done); try naive_solver.
    by destruct Hm; eapply bool_decide_eq_true.
Qed.

(** C23: [Shutdown] of the guest's streaming service never returns when a stream is
    open.  It locks the mutex and calls [streamConn.Close], which locks the same
    mutex: from then on, whatever the other goroutines do, [Shutdown] does not
    return, the mutex stays locked, so that the accept loop can register no stream,
    nobody can [Get] or close one, and the table and the listener are left as they
    are. *)
Theorem shutdown_deadlocks s s' sid c :
  rtc step init s → exec SLock s = Some s' → streams s !! sid = Some c →
  ∀ t, rtc step s' t →
    shutdown t ≠ SDone ∧ mu t = Some OShutdown ∧ streams t = streams s ∧ listening t = listening s ∧
    exec GLock t = None ∧ exec SRelock t = None ∧
    ∀ k sid', exec (CGet k sid') t = None ∧ exec (CLock k) t = None.
Proof.
  intros Hr He Hc t Ht.
  assert (Mutex s) as Hm by (eapply steps_Mutex; [done|by split]).
  assert (stuck (streams s) (listening s) s') as Hs'.
  { split; [by eapply step_Mutex|]. apply exec_cases in He as [He|[He|[He|He]]]; exec_cases He; done. }
  assert (streams s ≠ ∅) as Hne by (intros E; by rewrite E, lookup_empty in Hc).
  assert (stuck (streams s) (listening s) t) as (Hx & Hsh & Hst & Hl).
  { clear He. induction Ht as [|s1 s2 s3 [l He] _ IH]; [done|]. by eapply IH, step_stuck. }
  pose proof (mx_shut _ Hx Hsh) as Hmu. split_and!; [by intros E; rewrite E in Hsh|done..| | |intros k sid'; split];
    unfold exec; simpl; rewrite ?Hmu; by repeat case_match.
Qed.

End streams.

(** ** Runs *)

Module StreamsDemo.
Import Streams.

Fixpoint run_labels (ls : list label) (s : sys) : option sys :=
  match ls with [] => Some s | l :: ls => match exec l s with Some s' => run_labels ls s' | None => None end end.

Definition whole_b (l : label) : bool :=
  match l with GRead n => Nat.eqb n 4 | LWrite _ n => Nat.eqb n 4 || Nat.eqb n 0 | _ => true end.

Lemma whole_b_sound l : whole_b l = true → whole l.
Proof. destruct l; simpl; try done; intros H; [apply orb_prop in H as [H|H]; apply Nat.eqb_eq in H; auto|by apply Nat.eqb_eq in H]. Qed.

Lemma run_labels_whole ls s s' : run_labels ls s = Some s' → forallb whole_b ls = true → rtc whole_step s s'.
Proof.
  revert s. induction ls as [|l ls IH]; intros s; simpl; [intros [= ->]; by constructor|].
  destruct (exec l s) as [s1|] eqn:E; [|done]. intros Hr [Hw Hws]%andb_prop. eapply rtc_l; [|by eapply IH].
  exists l. split; [by apply whole_b_sound|done].
Qed.

Lemma run_labels_steps ls s s' : run_labels ls s = Some s' → rtc step s s'.
Proof.
  revert s. induction ls as [|l ls IH]; intros s; simpl; [intros [= ->]; by constructor|].
  destruct (exec l s) as [s1|] eqn:E; [|done]. intros Hr. eapply rtc_l; [by exists l|by eapply IH].
Qed.

(** Two calls, whose connections the accept loop serves one after the other. *)
Definition two_calls : list label :=
  [LCall 0 true; LCall 1 true; LNewSid 0; LNewSid 1; LDial 1 true; LDial 0 true; LWrite 0 4; LWrite 1 4;
   GAccept; GRead 4; GLock; GRegister; GAck true; GAccept; GRead 4; GLock; GRegister; LAck 1; GAck true; LAck 0].
Definition after_two : sys := default init (run_labels two_calls init).

Lemma after_two_runs : run_labels two_calls init = Some after_two.
Proof. vm_compute. reflexivity. Qed.

Lemma stream_rendezvous_witness :
  hosts after_two !! 0%nat = Some (HDone 1 1) ∧ hosts after_two !! 1%nat = Some (HDone 2 0) ∧ Get 1 after_two = Some 1 ∧
  (∀ c', Get 1 after_two = Some c' → c' = 1).
Proof.
  split; [vm_compute; reflexivity|]. split; [vm_compute; reflexivity|]. split; [vm_compute; reflexivity|].
  apply (stream_rendezvous after_two 0 1 1).
  - apply (run_labels_whole two_calls); [apply after_two_runs|vm_compute; reflexivity].
  - vm_compute. reflexivity.
  - vm_compute. reflexivity.
Defined.

Lemma shutdown_deadlocks_witness :
  ∃ s', exec SLock after_two = Some s' ∧ ∀ t, rtc step s' t → shutdown t ≠ SDone.
Proof.
  exists (set_mu (Some OShutdown) (set_shutdown SHold after_two)). split; [vm_compute; reflexivity|]. intros t Ht.
  apply (shutdown_deadlocks after_two (set_mu (Some OShutdown) (set_shutdown SHold after_two)) 1 1);
    [apply (run_labels_steps two_calls), after_two_runs|vm_compute; reflexivity|vm_compute; reflexivity|exact Ht].
Defined.

(** A read that delivers three of the four bytes registers the connection as
    stream 0; the call fails on the acknowledgement, and the entry stays. *)
Example short_read_misroutes :
  (λ s, (hosts s !! 0%nat, Get 0 s, Get 1 s)) <$>
    run_labels [LCall 0 true; LNewSid 0; LDial 0 true; LWrite 0 4; GAccept; GRead 3; GLock; GRegister; GAck true; LAck 0] init =
  Some (Some HFailed, Some 0, None).
Proof. vm_compute. reflexivity. Qed.

(** When the acknowledgement cannot be written the accept loop closes the
    connection and leaves it in the table. *)
Example failed_ack_stays :
  (λ s, (Get 1 s, guest_open <$> conns s !! 0)) <$>
    run_labels [LCall 0 true; LNewSid 0; LDial 0 true; LWrite 0 4; GAccept; GRead 4; GLock; GRegister; LAckFails 0; GAck false] init =
  Some (Some 0, Some false).
Proof. vm_compute. reflexivity. Qed.

End StreamsDemo.
