(* ===== verification/GuestCopy.v ===== *)
(** * Copying the output of a process of the guest

    Models [copyPipes] of internal/guest/vminit/process/io.go with the goroutines
    it starts: the destinations that are opened for stdout and stderr
    ([openPipeOutput]), the copies ([startPipeCopy], [startPipeStdin]), the file
    that two outputs share ([countingWriteCloser]) and the wait group that the
    exit of the process waits for.  The function itself, the goroutines, the
    process and the peers of the streams take their steps in any order; bytes
    carry the copy they came through. *)

From S2P Require Import Prelude GoStrings MountUtil.

Module GuestCopy.
Import MountUtil (fmt_q).

(** ** Files *)

(** An end of a pipe, a stream, a FIFO or a file: what the other side has written
    and what of it has not been read, whether the other side has closed, what was
    written to it (with the copy that wrote it), and whether it is open. *)
Record ep := mkEp
  { e_written : list Z; e_in : list Z; e_eof : bool; e_out : list (Z * Z); e_open : bool }.
Definition ep0 : ep := mkEp [] [] false [] true.

Definition ep_write (b : list Z) (e : ep) : ep := mkEp (e_written e ++ b) (e_in e ++ b) (e_eof e) (e_out e) (e_open e).
Definition ep_eof (e : ep) : ep := mkEp (e_written e) (e_in e) true (e_out e) (e_open e).
Definition ep_take (n : nat) (e : ep) : ep := mkEp (e_written e) (drop n (e_in e)) (e_eof e) (e_out e) (e_open e).
Definition ep_put (i : Z) (b : list Z) (e : ep) : ep := mkEp (e_written e) (e_in e) (e_eof e) (e_out e ++ (pair i <$> b)) (e_open e).
Definition ep_close (e : ep) : ep := mkEp (e_written e) (e_in e) (e_eof e) (e_out e) false.

(** ** The state *)

(** What a goroutine closes: a file, or the [countingWriteCloser]. *)
Inductive writer := WHandle (h : Z) | WCount (h : Z).
Definition w_file (w : writer) : Z := match w with WHandle h | WCount h => h end.

(** A copy: where it reads and writes; after the copy, what is left to close. *)
Inductive gpc := GCopy | GAfter (l : list writer).
Record go := mkGo { g_src : Z; g_dst : writer; g_rest : list writer; g_pc : gpc }.

Record pipeOutput := mkOutput { name : string; index : Z }.

(** [copyPipes]: the outputs still to open, stdin, and its results. *)
Inductive mpc := MOut (l : list pipeOutput) | MIn | MDone (c : option Z) | MErr (e : error).

(** The files 0, 1 and 2 are the ends of the process's stdin, stdout and stderr
    that [rio] holds.  [same] is the count of [sameFile]. *)
Record st := mkSt
  { eps : gmap Z ep; nexth : Z; gos : gmap Z go; wg : Z; same : option (Z * Z);
    broken : gset Z; main : mpc }.

(** The arguments of [copyPipes]; [streams] holds the files of the streams. *)
Record args := mkArgs { a_stdin : string; a_stdout : string; a_stderr : string; a_streams : Z → option Z }.

Definition on_ep (h : Z) (f : ep → ep) (s : st) : st :=
  mkSt (alter f h (eps s)) (nexth s) (gos s) (wg s) (same s) (broken s) (main s).
Definition set_go (i : Z) (g : go) (s : st) : st :=
  mkSt (eps s) (nexth s) (<[i := g]> (gos s)) (wg s) (same s) (broken s) (main s).
Definition set_main (p : mpc) (s : st) : st :=
  mkSt (eps s) (nexth s) (gos s) (wg s) (same s) (broken s) p.
Definition set_same (c : option (Z * Z)) (s : st) : st :=
  mkSt (eps s) (nexth s) (gos s) (wg s) c (broken s) (main s).
Definition add_wg (n : Z) (s : st) : st :=
  mkSt (eps s) (nexth s) (gos s) (wg s + n) (same s) (broken s) (main s).
Definition set_broken (i : Z) (s : st) : st :=
  mkSt (eps s) (nexth s) (gos s) (wg s) (same s) ({[i]} ∪ broken s) (main s).
(** A new open file. *)
Definition open_ep (s : st) : st :=
  mkSt (<[nexth s := ep0]> (eps s)) (nexth s + 1) (gos s) (wg s) (same s) (broken s) (main s).

(** ** Opening a destination *)

(** What the file system answers. *)
Record answers := mkAnswers
  { isFifo : result bool; openW : option error; openR : option error; openF : option error }.

Definition openPipeOutput (a : args) (ans : answers) (out : pipeOutput) (s : st) : result (writer * option Z) * st :=
  match a_streams a (index out) with
  | Some h => (Ok (WHandle h, None), s)
  | None =>
      match isFifo ans with
      | Err e => (Err e, s)
      | Ok true =>
          match openW ans with
          | Some e => (Err (ErrWrap ("containerd-shim: opening w/o fifo " +:+ fmt_q (name out) +:+ " failed") e), s)
          | None =>
              let fw := nexth s in
              let s1 := open_ep s in
              match openR ans with
              | Some e => (Err (ErrWrap ("containerd-shim: opening r/o fifo " +:+ fmt_q (name out) +:+ " failed") e), s1)
              | None => (Ok (WHandle fw, Some (nexth s1)), open_ep s1)
              end
          end
      | Ok false =>
          match same s with
          | Some (h, n) => (Ok (WCount h, None), set_same (Some (h, n + 1)) s)
          | None =>
              match openF ans with
              | Some e => (Err (ErrWrap ("containerd-shim: opening file " +:+ fmt_q (name out) +:+ " failed") e), s)
              | None =>
                  let fw := nexth s in
                  let s1 := open_ep s in
                  if String.eqb (a_stdout a) (a_stderr a) then (Ok (WCount fw, None), set_same (Some (fw, 1)) s1)
                  else (Ok (WHandle fw, None), s1)
              end
          end
      end
  end.

(** [startPipeCopy]: the goroutine closes the writer and then the reader. *)
Definition startPipeCopy (out : pipeOutput) (w : writer) (rc : option Z) (s : st) : st :=
  set_go (index out) (mkGo (index out) w (w :: match rc with Some r => [WHandle r] | None => [] end) GCopy) (add_wg 1 s).

(** [startPipeStdin]: the goroutine closes the process's stdin and the source. *)
Definition startPipeStdin (a : args) (ans : answers) (s : st) : st :=
  if String.eqb (a_stdin a) "" then set_main (MDone None) s
  else
    let start c s := set_main (MDone (Some c)) (set_go 0 (mkGo c (WHandle 0) [WHandle 0; WHandle c] GCopy) s) in
    match a_streams a 0 with
    | Some h => start h s
    | None =>
        match openR ans with
        | Some e => set_main (MErr (ErrWrap ("containerd-shim: opening " +:+ a_stdin a +:+ " failed") e)) s
        | None => start (nexth s) (open_ep s)
        end
    end.

(** A step of [copyPipes]. *)
Definition copyPipes_step (a : args) (ans : answers) (s : st) : option st :=
  match main s with
  | MOut (out :: l) =>
      if String.eqb (name out) "" then Some (set_main (MOut l) s)
      else
        match openPipeOutput a ans out s with
        | (Err e, s1) => Some (set_main (MErr e) s1)
        | (Ok (w, rc), s1) => Some (set_main (MOut l) (startPipeCopy out w rc s1))
        end
  | MOut [] => Some (set_main MIn s)
  | MIn => Some (startPipeStdin a ans s)
  | _ => None
  end.

(** ** The goroutines *)

(** The end of a copy; outputs are counted in [wg]. *)
Definition end_copy (i : Z) (g : go) (s : st) : st :=
  let s1 := set_go i (mkGo (g_src g) (g_dst g) (g_rest g) (GAfter (g_rest g))) s in
  if i =? 0 then s1 else add_wg (-1) s1.

(** [countingWriteCloser.Close] and the [Close] of a file. *)
Definition close_writer (w : writer) (s : st) : st :=
  match w with
  | WHandle h => on_ep h ep_close s
  | WCount h =>
      match same s with
      | Some (h', n) => let s1 := set_same (Some (h', n - 1)) s in if 0 <? n - 1 then s1 else on_ep h ep_close s1
      | None => s
      end
  end.

Inductive label :=
  (* [copyPipes], with the answers of the file system *)
  | LMain (ans : answers)
  (* the other side of a file writes, or closes *)
  | LWrite (h : Z) (b : list Z) | LEof (h : Z)
  (* copy i moves n bytes, sees the end, fails after reading n bytes, closes *)
  | LMove (i : Z) (n : nat) | LEnd (i : Z) | LBreak (i : Z) (n : nat) | LClose (i : Z).

Definition copy_step (l : label) (s : st) : option st :=
  match l with
  | LMove i n =>
      match gos s !! i with
      | Some (mkGo src dst rest GCopy) =>
          match eps s !! src, eps s !! w_file dst with
          | Some e, Some d =>
              if Nat.leb 1 n && Nat.leb n (length (e_in e)) then
                if e_open d then Some (on_ep (w_file dst) (ep_put i (take n (e_in e))) (on_ep src (ep_take n) s))
                else Some (end_copy i (mkGo src dst rest GCopy) (on_ep src (ep_take n) s))
              else None
          | _, _ => None
          end
      | _ => None
      end
  | LEnd i =>
      match gos s !! i with
      | Some (mkGo src dst rest GCopy) =>
          match eps s !! src with
          | Some e => if e_eof e && bool_decide (e_in e = []) then Some (end_copy i (mkGo src dst rest GCopy) s) else None
          | None => None
          end
      | _ => None
      end
  | LBreak i n =>
      match gos s !! i with
      | Some (mkGo src dst rest GCopy) => Some (set_broken i (end_copy i (mkGo src dst rest GCopy) (on_ep src (ep_take n) s)))
      | _ => None
      end
  | LClose i =>
      match gos s !! i with
      | Some (mkGo src dst rest (GAfter (w :: l))) => Some (close_writer w (set_go i (mkGo src dst rest (GAfter l)) s))
      | _ => None
      end
  | _ => None
  end.

Definition env_step (l : label) (s : st) : option st :=
  match l with
  | LWrite h b => match eps s !! h with Some e => if e_eof e then None else Some (on_ep h (ep_write b) s) | None => None end
  | LEof h => match eps s !! h with Some _ => Some (on_ep h ep_eof s) | None => None end
  | _ => None
  end.

Definition exec (a : args) (l : label) (s : st) : option st :=
  match l with
  | LMain ans => copyPipes_step a ans s
  | LWrite _ _ | LEof _ => env_step l s
  | _ => copy_step l s
  end.

(** The pipes of the process and the streams are open, nothing was copied. *)
Definition init (a : args) (streams : gset Z) (n : Z) : st :=
  mkSt (gset_to_gmap ep0 ({[0; 1; 2]} ∪ streams)) n ∅ 0 None ∅ (MOut [mkOutput (a_stdout a) 1; mkOutput (a_stderr a) 2]).

End GuestCopy.

(** ** What the goroutines own *)

Section copy.
Import GuestCopy.

Definition is_count (w : writer) : bool := match w with WCount _ => true | WHandle _ => false end.
(** What a goroutine has still to close. *)
Definition left_ (g : go) : list writer := match g_pc g with GCopy => g_rest g | GAfter l => l end.
Definition copying (s : st) (i : Z) : bool := match gos s !! i with Some (mkGo _ _ _ GCopy) => true | _ => false end.
Definition counted (s : st) (i : Z) : bool := match gos s !! i with Some g => existsb is_count (left_ g) | None => false end.
Definition opened (s : st) (h : Z) : Prop := ∃ e, eps s !! h = Some e ∧ e_open e = true.

Lemma Z_b2z_bound b : 0 ≤ Z.b2z b ≤ 1.
Proof. destruct b; simpl; lia. Qed.

(** Goroutine [i] closes files of its own, and those are no end of the process's
    output. *)
Record go_ok (s : st) (i : Z) (g : go) : Prop := {
  go_index : i = 0 ∨ i = 1 ∨ i = 2;
  go_src : if i =? 0 then WHandle (g_src g) ∈ g_rest g else g_src g = i;
  go_dst : g_dst g ∈ g_rest g;
  go_left : ∃ l, g_rest g = l ++ left_ g;
  go_files : ∀ w, w ∈ g_rest g → w_file w ≠ 1 ∧ w_file w ≠ 2 ∧ (w_file w = 0 → i = 0) ∧ (is_count w = true → i ≠ 0);
  go_nodup : NoDup (w_file <$> g_rest g);
  go_open : ∀ w, w ∈ left_ g → opened s (w_file w);
  go_exist : ∀ w, w ∈ g_rest g → is_Some (eps s !! w_file w) }.

Record Core (s : st) : Prop := {
  c_next : 3 ≤ nexth s ∧ ∀ h, is_Some (eps s !! h) → h < nexth s;
  c_rio : is_Some (eps s !! 1) ∧ is_Some (eps s !! 2) ∧ is_Some (eps s !! 0);
  c_go : ∀ i g, gos s !! i = Some g → go_ok s i g;
  c_pair : ∀ i j gi gj w w', gos s !! i = Some gi → gos s !! j = Some gj → i ≠ j → w ∈ g_rest gi → w' ∈ g_rest gj →
    w_file w = w_file w' → is_count w = true ∧ is_count w' = true;
  c_count : match same s with
    | None => ∀ i g w, gos s !! i = Some g → w ∈ g_rest g → is_count w = false
    | Some (h, n) => is_Some (eps s !! h) ∧ 3 ≤ h ∧ n = Z.b2z (counted s 1) + Z.b2z (counted s 2) ∧
        (∀ i g w, gos s !! i = Some g → w ∈ g_rest g → w_file w = h ↔ is_count w = true)
    end;
  c_wg : wg s = Z.b2z (copying s 1) + Z.b2z (copying s 2) }.

Lemma eps_on_ep h f s h' : eps (on_ep h f s) !! h' = (if decide (h' = h) then f else id) <$> eps s !! h'.
Proof.
  simpl. destruct (decide (h' = h)) as [->|]; [by rewrite lookup_alter_eq|]. rewrite lookup_alter_ne by done. by destruct (eps s !! h').
Qed.

(** A change of a file that keeps it open. *)
Definition keeps_open (f : ep → ep) : Prop := ∀ e, e_open (f e) = e_open e.

Lemma opened_on_ep h f s h' : keeps_open f → opened (on_ep h f s) h' ↔ opened s h'.
Proof.
  intros Hf. unfold opened. setoid_rewrite eps_on_ep. split.
  - intros (e & (e0 & He & ->)%fmap_Some & Ho). exists e0. split; [done|]. case_decide; simpl in Ho; [by rewrite Hf in Ho|done].
  - intros (e & He & Ho). rewrite He. eexists. split; [done|]. case_decide; simpl; [by rewrite Hf|done].
Qed.

Lemma is_Some_on_ep h f s h' : is_Some (eps (on_ep h f s) !! h') ↔ is_Some (eps s !! h').
Proof. rewrite eps_on_ep. apply fmap_is_Some. Qed.

(** The same files exist, and none that is still to be closed was closed. *)
Lemma Core_eps s s' :
  gos s' = gos s → same s' = same s → wg s' = wg s → nexth s' = nexth s →
  (∀ h, is_Some (eps s' !! h) ↔ is_Some (eps s !! h)) →
  (∀ i g w, gos s !! i = Some g → w ∈ left_ g → opened s (w_file w) → opened s' (w_file w)) →
  Core s → Core s'.
Proof.
  intros Hg Hsa Hw Hn He Ho [H1 H2 H3 H4 H5 H6]. unfold counted, copying in *. split; unfold counted, copying; rewrite ?Hg, ?Hsa, ?Hw, ?Hn.
  - split; [apply H1|]. intros h ?%He. by apply H1.
  - by rewrite !He.
  - intros i g Hi. destruct (H3 _ _ Hi) as [A1 A2 A3 A4 A5 A6 A7 A8]. split; try done; [eauto|].
    intros w ?%A8. by apply He.
  - done.
  - destruct (same s) as [[h n]|]; [|done]. by rewrite He.
  - done.
Qed.

Lemma Core_on_ep h f s : keeps_open f → Core s → Core (on_ep h f s).
Proof. intros Hf. apply Core_eps; try done; [apply is_Some_on_ep|]. intros. by apply opened_on_ep. Qed.

Lemma Core_open_ep s : Core s → Core (open_ep s).
Proof.
  intros HC. pose proof (c_next _ HC) as [Hn Hlt]. assert (∀ h, is_Some (eps s !! h) → h ≠ nexth s) as Hne by (intros h ?%Hlt; lia).
  pose proof HC as [H1 H2 H3 H4 H5 H6]. split; simpl; [|..].
  - split; [lia|]. intros h [e [[<- _]|[_ He]]%lookup_insert_Some]; [lia|]. pose proof (Hlt h (ex_intro _ _ He)). lia.
  - rewrite !lookup_insert_is_Some'. tauto.
  - intros i g Hi. destruct (H3 _ _ Hi) as [A1 A2 A3 A4 A5 A6 A7 A8]. split; try done; simpl.
    + intros w Hw. destruct (A7 w Hw) as (e & He & Ho). exists e. split; [|done]. simpl. rewrite lookup_insert_ne; [done|].
      intros E. by eapply Hne; [exists e|].
    + intros w ?%A8. rewrite lookup_insert_is_Some'. by right.
  - done.
  - destruct (same s) as [[h n]|]; [|done]. rewrite lookup_insert_is_Some'. tauto.
  - done.
Qed.
(** Another goroutine, with the count that goes with it. *)
Lemma counted_start s i g j : counted (set_go i g s) j = if decide (i = j) then existsb is_count (left_ g) else counted s j.
Proof. unfold counted. simpl. destruct (decide (i = j)) as [->|]; [by rewrite lookup_insert_eq|by rewrite lookup_insert_ne]. Qed.
Lemma copying_start s i g j :
  copying (set_go i g s) j = if decide (i = j) then match g_pc g with GCopy => true | _ => false end else copying s j.
Proof.
  unfold copying. simpl. destruct (decide (i = j)) as [->|]; [rewrite lookup_insert_eq; by destruct g as [??? []]|by rewrite lookup_insert_ne].
Qed.

Definition start_ok (s : st) (g : go) (sm : option (Z * Z)) : Prop :=
  match sm with
  | None => same s = None ∧ (∀ w, w ∈ g_rest g → is_count w = false)
  | Some (h, n) =>
      n = match same s with Some (_, m) => m | None => 0 end + Z.b2z (existsb is_count (g_rest g)) ∧
      (∀ w, w ∈ g_rest g → w_file w = h ↔ is_count w = true) ∧
      match same s with
      | Some (h0, _) => h0 = h
      | None => 3 ≤ h ∧ is_Some (eps s !! h) ∧ ∀ j gj w, gos s !! j = Some gj → w ∈ g_rest gj → w_file w ≠ h
      end
  end.

Lemma not_counted s : Core s → same s = None → ∀ j, counted s j = false.
Proof.
  intros HC Hs j. pose proof (c_count _ HC) as Hc. rewrite Hs in Hc. unfold counted. destruct (gos s !! j) as [g|] eqn:Ej; [|done].
  destruct (existsb is_count (left_ g)) eqn:E; [|done]. apply existsb_exists in E as (w & Hw%list_elem_of_In & Hcw).
  destruct (go_left _ _ _ (c_go _ HC _ _ Ej)) as [l Hl]. rewrite <- Hcw. eapply Hc; [done|]. rewrite Hl. apply elem_of_app. by right.
Qed.

Lemma Core_start s i g sm :
  Core s → gos s !! i = None → g_pc g = GCopy → go_ok s i g → start_ok s g sm →
  (∀ j gj w w', gos s !! j = Some gj → w ∈ g_rest g → w' ∈ g_rest gj → w_file w = w_file w' → is_count w = true ∧ is_count w' = true) →
  Core (mkSt (eps s) (nexth s) (<[i := g]> (gos s)) (wg s + if i =? 0 then 0 else 1) sm (broken s) (main s)).
Proof.
  intros HC Hi Hpc Hok Hst Hp. pose proof HC as [H1 H2 H3 H4 H5 H6].
  assert (∀ j, counted s j = true → j ≠ i) as Hci by (intros j Hj ->; unfold counted in Hj; by rewrite Hi in Hj).
  assert (copying s i = false ∧ counted s i = false) as [Hco Hcn] by (unfold copying, counted; by rewrite Hi).
  assert (left_ g = g_rest g) as Hl by (unfold left_; by rewrite Hpc).
  pose proof (go_index _ _ _ Hok) as Hix.
  split; simpl; [done|done|..].
  - intros j gj [[<- <-]|[_ Hj]]%lookup_insert_Some; [destruct Hok; by split|]. destruct (H3 _ _ Hj). by split.
  - intros j k gj gk w w' [[<- <-]|[_ Hj]]%lookup_insert_Some [[<- <-]|[_ Hk]]%lookup_insert_Some Hne Hw Hw' E; [done| | |eauto].
    + eauto.
    + destruct (Hp j gj w' w); auto.
  - unfold start_ok in Hst. destruct sm as [[h n]|].
    + destruct Hst as (-> & Hw & Hsame).
      change (counted _ 1) with (counted (set_go i g s) 1). change (counted _ 2) with (counted (set_go i g s) 2).
      rewrite !counted_start, Hl.
      assert (match same s with Some (_, m) => m | None => 0 end = Z.b2z (counted s 1) + Z.b2z (counted s 2)) as Hm.
      { destruct (same s) as [[h0 m]|] eqn:Es; [by destruct H5 as (_ & _ & -> & _)|]. by rewrite !(not_counted s HC Es). }
      rewrite Hm. split_and!.
      * destruct (same s) as [[h0 m]|]; [subst; apply H5|apply Hsame].
      * destruct (same s) as [[h0 m]|]; [subst; apply H5|apply Hsame].
      * destruct (existsb is_count (g_rest g)) eqn:Ee.
        -- assert (i ≠ 0) by (apply existsb_exists in Ee as (w & Hww%list_elem_of_In & Hc); by apply (go_files _ _ _ Hok w Hww)).
           destruct Hix as [->|[->| ->]]; [done|..]; rewrite Hcn; simpl; lia.
        -- destruct Hix as [->|[->| ->]]; simpl; rewrite ?Hcn; simpl; lia.
      * intros j gj w [[<- <-]|[_ Hj]]%lookup_insert_Some Hww; [by apply Hw|].
        destruct (same s) as [[h0 m]|]; [subst; by eapply H5|]. destruct Hsame as (_ & _ & Hno). split; [intros E; by destruct (Hno _ _ _ Hj Hww)|].
        rewrite (H5 _ _ _ Hj Hww). done.
    + destruct Hst as [Hs Hw]. rewrite Hs in H5. intros j gj w [[<- <-]|[_ Hj]]%lookup_insert_Some Hww; eauto.
  - change (copying _ 1) with (copying (set_go i g s) 1). change (copying _ 2) with (copying (set_go i g s) 2).
    rewrite !copying_start, Hpc, H6. destruct Hix as [->|[->| ->]]; simpl; rewrite ?Hco; simpl; lia.
Qed.
(** A goroutine that goes on: what it owns is the same, less is left to close. *)
Lemma Core_pc s s' i g pc :
  Core s → gos s !! i = Some g → (let g' := mkGo (g_src g) (g_dst g) (g_rest g) pc in
  gos s' = <[i := g']> (gos s) → nexth s' = nexth s → (∀ h, is_Some (eps s' !! h) ↔ is_Some (eps s !! h)) →
  (∃ l, left_ g = l ++ left_ g') →
  (∀ j gj w, gos s' !! j = Some gj → w ∈ left_ gj → opened s (w_file w) → opened s' (w_file w)) →
  match same s, same s' with
  | Some (h, _), Some (h', n') => h' = h ∧ n' = Z.b2z (counted s' 1) + Z.b2z (counted s' 2)
  | None, None => True
  | _, _ => False
  end →
  wg s' = Z.b2z (copying s' 1) + Z.b2z (copying s' 2) → Core s').
Proof.
  intros HC Hi g' Hg Hn He [l0 Hl] Ho Hsm Hw. pose proof HC as [H1 H2 H3 H4 H5 H6].
  assert (∀ j gj, gos s' !! j = Some gj → ∃ gj0, gos s !! j = Some gj0 ∧ g_rest gj0 = g_rest gj ∧ g_src gj0 = g_src gj ∧
            g_dst gj0 = g_dst gj ∧ ∃ l, left_ gj0 = l ++ left_ gj) as Hback.
  { intros j gj. rewrite Hg. intros [[<- <-]|[_ Hj]]%lookup_insert_Some; [exists g; split_and!; eauto|exists gj; split_and!; try done; by exists []]. }
  split; [| | | | |done].
  - rewrite Hn. split; [apply H1|]. intros h ?%He. by apply H1.
  - by rewrite !He.
  - intros j gj Hj. destruct (Hback _ _ Hj) as (g0 & Hj0 & Er & Es & Ed & l1 & El). destruct (H3 _ _ Hj0) as [A1 A2 A3 [l2 A4] A5 A6 A7 A8].
    rewrite Er, ?Es, ?Ed in *. split; try done.
    + exists (l2 ++ l1). by rewrite <- app_assoc, <- El.
    + intros w Hlw. eapply Ho; [done..|]. apply A7. rewrite El. apply elem_of_app. by right.
    + intros w ?%A8. by apply He.
  - intros j k gj gk w w' Hj Hk Hne Hw1 Hw2. destruct (Hback _ _ Hj) as (g0 & Hj0 & Er & _), (Hback _ _ Hk) as (g1 & Hk0 & Er1 & _).
    eapply H4; [exact Hj0|exact Hk0|done|by rewrite Er|by rewrite Er1].
  - destruct (same s) as [[h n]|], (same s') as [[h' n']|]; try done.
    + destruct Hsm as [-> ->], H5 as (A & B & _ & C). rewrite He. split_and!; try done.
      intros j gj w Hj Hw1. destruct (Hback _ _ Hj) as (g0 & Hj0 & Er & _). eapply C; [done|by rewrite Er].
    + intros j gj w Hj Hw1. destruct (Hback _ _ Hj) as (g0 & Hj0 & Er & _). eapply H5; [done|by rewrite Er].
Qed.

Lemma Core_end s i g : Core s → gos s !! i = Some g → g_pc g = GCopy → Core (end_copy i g s).
Proof.
  intros HC Hi Hpc. pose proof (go_index _ _ _ (c_go _ HC _ _ Hi)) as Hix. destruct g as [src dst rest pc]. simpl in Hpc. subst pc.
  assert (∀ j, counted (end_copy i (mkGo src dst rest GCopy) s) j = counted s j) as Hcn.
  { intros j. unfold end_copy. transitivity (counted (set_go i (mkGo src dst rest (GAfter rest)) s) j); [by case_match|].
    rewrite counted_start. case_decide as E; [|done]. subst j. unfold counted. by rewrite Hi. }
  eapply (Core_pc _ _ i _ (GAfter rest)); [done|done|..]; simpl.
  - unfold end_copy. by case_match.
  - unfold end_copy. by case_match.
  - intros h. unfold end_copy. by case_match.
  - by exists [].
  - intros j gj w _ _. unfold end_copy. by case_match.
  - pose proof (c_count _ HC) as Hc. rewrite !Hcn. unfold end_copy. destruct (i =? 0); simpl; destruct (same s) as [[h n]|]; try done; split; try done; apply Hc.
  - pose proof (c_wg _ HC) as Hw.
    assert (copying s i = true) as Hco by (unfold copying; by rewrite Hi).
    assert (∀ j, copying (end_copy i (mkGo src dst rest GCopy) s) j = if decide (i = j) then false else copying s j) as Hcp.
    { intros j. transitivity (copying (set_go i (mkGo src dst rest (GAfter rest)) s) j); [unfold end_copy; by case_match|]. by rewrite copying_start. }
    rewrite !Hcp. unfold end_copy. destruct Hix as [->|[->| ->]]; simpl; rewrite ?Hco in Hw; simpl in Hw; lia.
Qed.
Lemma elem_left s i g w : Core s → gos s !! i = Some g → w ∈ left_ g → w ∈ g_rest g.
Proof. intros HC Hi Hw. destruct (go_left _ _ _ (c_go _ HC _ _ Hi)) as [l ->]. apply elem_of_app. by right. Qed.

(** What is left to close after the first file is other files. *)
Lemma left_other s i g w l w' : Core s → gos s !! i = Some g → left_ g = w :: l → w' ∈ l → w_file w' ≠ w_file w.
Proof.
  intros HC Hi El Hw' E. destruct (c_go _ HC _ _ Hi) as [_ _ _ [l0 Hl] _ Hnd _ _]. rewrite Hl, El, fmap_app, fmap_cons in Hnd.
  apply NoDup_app in Hnd as (_ & _ & [Hn _]%NoDup_cons). apply Hn. rewrite <- E. by apply list_elem_of_fmap_2.
Qed.

Lemma counted_in s i g w : gos s !! i = Some g → w ∈ left_ g → is_count w = true → counted s i = true.
Proof. intros Hi Hw Hc. unfold counted. rewrite Hi. apply existsb_exists. exists w. by rewrite <- list_elem_of_In. Qed.

Lemma opened_close h s h' : h' ≠ h → opened s h' → opened (on_ep h ep_close s) h'.
Proof. intros Hne (e & He & Ho). exists e. rewrite eps_on_ep, decide_False by done. by rewrite He. Qed.

Lemma Core_close_handle s i src dst rest h l :
  Core s → gos s !! i = Some (mkGo src dst rest (GAfter (WHandle h :: l))) →
  Core (on_ep h ep_close (set_go i (mkGo src dst rest (GAfter l)) s)).
Proof.
  intros HC Hi. pose proof (λ w', left_other _ _ _ _ _ w' HC Hi eq_refl) as Hlo.
  eapply (Core_pc _ _ i _ (GAfter l)); [done|done|..]; simpl; [done|done| |by exists [WHandle h]| | |].
  - intros h'. apply (is_Some_on_ep h ep_close s h').
  - intros j gj w [[<- <-]|[Hne Hj]]%lookup_insert_Some Hw Ho; (apply (opened_close h s); [|done]).
    + by apply Hlo.
    + intros E. destruct (c_pair _ HC i j _ _ (WHandle h) w Hi Hj Hne); [|by eapply elem_left|done|done].
      eapply (elem_left _ _ _ _ HC Hi). by left.
  - pose proof (c_count _ HC) as Hc. destruct (same s) as [[h0 n]|]; [|done]. split; [done|]. destruct Hc as (_ & _ & -> & _).
    assert (∀ j, counted (on_ep h ep_close (set_go i (mkGo src dst rest (GAfter l)) s)) j = counted s j) as Hcn; [|by rewrite !Hcn].
    intros j. change (counted (set_go i (mkGo src dst rest (GAfter l)) s) j = counted s j). rewrite counted_start. case_decide as E; [|done].
    subst j. unfold counted. by rewrite Hi.
  - assert (∀ j, copying (set_go i (mkGo src dst rest (GAfter l)) s) j = copying s j) as Hcp.
    { intros j. rewrite copying_start. case_decide as E; [|done]. subst j. unfold copying. by rewrite Hi. }
    change (wg s = Z.b2z (copying (set_go i (mkGo src dst rest (GAfter l)) s) 1) + Z.b2z (copying (set_go i (mkGo src dst rest (GAfter l)) s) 2)).
    rewrite !Hcp. apply (c_wg _ HC).
Qed.

Lemma Core_close_count s i src dst rest h l :
  Core s → gos s !! i = Some (mkGo src dst rest (GAfter (WCount h :: l))) →
  Core (close_writer (WCount h) (set_go i (mkGo src dst rest (GAfter l)) s)).
Proof.
  intros HC Hi. pose proof (λ w', left_other _ _ _ _ _ w' HC Hi eq_refl) as Hlo.
  assert (WCount h ∈ rest) as Hrest by (eapply (elem_left _ _ _ _ HC Hi); by left).
  pose proof (go_files _ _ _ (c_go _ HC _ _ Hi) (WCount h) Hrest) as (_ & _ & _ & Hi0).
  pose proof (go_index _ _ _ (c_go _ HC _ _ Hi)) as Hix.
  pose proof (c_count _ HC) as Hc. set (s1 := set_go i (mkGo src dst rest (GAfter l)) s).
  destruct (same s) as [[h0 n]|] eqn:Es; [|by specialize (Hc _ _ _ Hi Hrest)].
  destruct Hc as (Hh0 & Hh3 & Hn & Hf). assert (h0 = h) as -> by (symmetry; by apply (Hf _ _ (WCount h) Hi Hrest)).
  assert (∀ j, counted s1 j = if decide (i = j) then false else counted s j) as Hcn.
  { intros j. unfold s1. rewrite counted_start. case_decide as E; [|done]. subst j. unfold left_. simpl.
    destruct (existsb is_count l) eqn:Ee; [|done]. apply existsb_exists in Ee as (w & Hw%list_elem_of_In & Hcw). destruct (Hlo w Hw).
    apply (Hf _ _ w Hi); [|done]. eapply (elem_left _ _ _ _ HC Hi). by right. }
  assert (counted s i = true) as Hci by (eapply (counted_in _ _ _ _ Hi); [by left|done]).
  assert (n - 1 = Z.b2z (counted s1 1) + Z.b2z (counted s1 2)) as Hn1.
  { rewrite !Hcn, Hn. destruct Hix as [->|[->| ->]]; [by destruct Hi0|..]; rewrite Hci; simpl; lia. }
  assert (∀ j, copying s1 j = copying s j) as Hcp.
  { intros j. unfold s1. rewrite copying_start. case_decide as E; [|done]. subst j. unfold copying. by rewrite Hi. }
  unfold close_writer. change (same s1) with (same s). rewrite Es. cbv zeta.
  eapply (Core_pc _ _ i _ (GAfter l)); [done|done|..]; [by case_match|by case_match| |by exists [WCount h]| | |].
  - intros h'. case_match; [done|]. apply (is_Some_on_ep h ep_close s h').
  - intros j gj w Hj Hw Ho. destruct (Z.ltb_spec 0 (n - 1)) as [?|Hle]; [done|]. apply (opened_close h s); [|done]. intros E.
    simpl in Hj. apply lookup_insert_Some in Hj as [[<- <-]|[Hne Hj]]; [by destruct (Hlo w Hw)|].
    assert (is_count w = true) as Hcw by (apply (Hf _ _ w Hj); [by eapply elem_left|done]).
    pose proof (counted_in _ _ _ _ Hj Hw Hcw) as Hcj. pose proof (go_files _ _ _ (c_go _ HC _ _ Hj) w (elem_left _ _ _ _ HC Hj Hw)) as (_ & _ & _ & Hj0).
    rewrite !Hcn in Hn1. destruct (go_index _ _ _ (c_go _ HC _ _ Hj)) as [->|[->| ->]]; [by destruct Hj0|..];
      rewrite Hcj in Hn1; repeat case_decide; subst; simpl in Hn1; try done; pose proof (Z_b2z_bound (counted s 1)); pose proof (Z_b2z_bound (counted s 2)); lia.
  - rewrite Es. destruct (0 <? n - 1); simpl; (split; [done|exact Hn1]).
  - pose proof (c_wg _ HC) as Hw. rewrite <- !Hcp in Hw. by destruct (0 <? n - 1).
Qed.
Lemma Core_main p s : Core s → Core (set_main p s).
Proof. intros [H1 H2 H3 H4 H5 H6]. split; try done. intros i g Hi. destruct (H3 _ _ Hi). by split. Qed.

(** A goroutine for files that nobody owns. *)
Definition unowned (s : st) (h : Z) : Prop :=
  opened s h ∧ h ≠ 1 ∧ h ≠ 2 ∧ (∀ j g w, gos s !! j = Some g → w ∈ g_rest g → w_file w ≠ h) ∧
  match same s with Some (h0, _) => h ≠ h0 | None => True end.

Lemma Core_start_handles s i src dst hs :
  Core s → gos s !! i = None → (i = 0 ∨ i = 1 ∨ i = 2) → (if i =? 0 then src ∈ hs else src = i) →
  dst ∈ hs → NoDup hs → (∀ h, h ∈ hs → unowned s h ∧ (h = 0 → i = 0)) →
  Core (mkSt (eps s) (nexth s) (<[i := mkGo src (WHandle dst) (WHandle <$> hs) GCopy]> (gos s)) (wg s + if i =? 0 then 0 else 1)
          (same s) (broken s) (main s)).
Proof.
  intros HC Hi Hix Hsrc Hd Hnd Hhs.
  assert (∀ w, w ∈ WHandle <$> hs → ∃ h, w = WHandle h ∧ h ∈ hs) as Hw by (intros w (h & -> & Hh)%list_elem_of_fmap; by exists h).
  apply Core_start; try done.
  - split; simpl; try done.
    + destruct (i =? 0); [by apply list_elem_of_fmap_2|done].
    + by apply list_elem_of_fmap_2.
    + by exists [].
    + intros w (h & -> & Hh)%Hw. destruct (Hhs h Hh) as [(_ & ? & ? & _) ?]. by split_and!.
    + rewrite <- list_fmap_compose. by rewrite list_fmap_id.
    + intros w (h & -> & Hh)%Hw. by apply Hhs.
    + intros w (h & -> & Hh)%Hw. destruct (Hhs h Hh) as [((e & He & _) & _) _]. by exists e.
  - unfold start_ok. simpl. destruct (same s) as [[h0 n]|] eqn:Es.
    + split_and!; [|intros w (h & -> & Hh)%Hw|done].
      * assert (existsb is_count (WHandle <$> hs) = false) as ->; [|simpl; lia]. clear. induction hs; [done|]. done.
      * destruct (Hhs h Hh) as [(_ & _ & _ & _ & Hne) _]. rewrite Es in Hne. by split.
    + split; [done|]. by intros w (h & -> & Hh)%Hw.
  - intros j gj w w' Hj (h & -> & Hh)%Hw Hw' E. destruct (Hhs h Hh) as [(_ & _ & _ & Hno & _) _]. by destruct (Hno _ _ _ Hj Hw').
Qed.

(** A file that was just opened. *)
Lemma fresh_unowned s : Core s → unowned (open_ep s) (nexth s).
Proof.
  intros HC. pose proof (c_next _ HC) as [H3 Hlt]. assert (eps s !! nexth s = None) as Hno.
  { destruct (eps s !! nexth s) eqn:E; [|done]. pose proof (Hlt _ (ex_intro _ _ E)). lia. }
  split_and!; [|lia|lia| |].
  - exists ep0. split; [|done]. simpl. by rewrite lookup_insert_eq.
  - simpl. intros j g w Hj Hw E. destruct (go_exist _ _ _ (c_go _ HC _ _ Hj) w Hw) as [e He]. congruence.
  - simpl. pose proof (c_count _ HC) as Hc. destruct (same s) as [[h n]|]; [|done]. destruct Hc as ([e He] & _). congruence.
Qed.

(** Opening a file changes nothing for the others. *)
Lemma unowned_open_ep s h : Core s → unowned s h → unowned (open_ep s) h.
Proof.
  intros HC ((e & He & Ho) & H1 & H2 & Hno & Hs). split_and!; try done. exists e. split; [|done]. simpl.
  rewrite lookup_insert_ne; [done|]. pose proof (proj2 (c_next _ HC) h (ex_intro _ _ He)). lia.
Qed.

Lemma unowned_rio0 s : Core s → gos s !! 0 = None → opened s 0 → unowned s 0.
Proof.
  intros HC H0 Ho. split_and!; [done..| |].
  - intros j g w Hj Hw E. destruct (go_files _ _ _ (c_go _ HC _ _ Hj) w Hw) as (_ & _ & Hz & _). specialize (Hz E). congruence.
  - pose proof (c_count _ HC) as Hc. destruct (same s) as [[h n]|]; [|done]. destruct Hc as (_ & ? & _). lia.
Qed.

End copy.

(** ** The steps of copyPipes *)

Section pipes.
Import GuestCopy.
Context (a : args) (strs : gset Z) (n0 : Z).

(** The streams are different files, none of them of the process's own. *)
Record args_ok : Prop := {
  a_member : ∀ i h, a_streams a i = Some h → h ∈ strs;
  a_range : 3 ≤ n0 ∧ ∀ h, h ∈ strs → 3 ≤ h < n0;
  a_inj : ∀ i j h, a_streams a i = Some h → a_streams a j = Some h → i = j }.
Context (Ha : args_ok).

Definition o1 : pipeOutput := mkOutput (a_stdout a) 1.
Definition o2 : pipeOutput := mkOutput (a_stderr a) 2.
Definition started (s : st) (o : pipeOutput) : Prop := name o = "" ∨ is_Some (gos s !! index o).

Record Todo (s : st) : Prop := {
  t_main : match main s with
    | MOut l => gos s !! 0 = None ∧
        ((l = [o1; o2] ∧ gos s !! 1 = None ∧ gos s !! 2 = None) ∨ (l = [o2] ∧ started s o1 ∧ gos s !! 2 = None) ∨
         (l = [] ∧ started s o1 ∧ started s o2))
    | MIn => gos s !! 0 = None ∧ started s o1 ∧ started s o2
    | MDone _ => started s o1 ∧ started s o2
    | MErr _ => True
    end;
  t_rio : gos s !! 0 = None → opened s 0;
  t_same : match same s with Some (h, _) => n0 ≤ h ∧ (∀ l, main s = MOut l → opened s h) | None => True end;
  t_next : n0 ≤ nexth s;
  t_streams : ∀ i h, a_streams a i = Some h → gos s !! i = None → unowned s h }.

(** What the start of an output leaves alone. *)
Lemma unowned_start s o w rc h :
  unowned s h → h ≠ w_file w → (∀ r, rc = Some r → h ≠ r) → unowned (startPipeCopy o w rc s) h.
Proof.
  intros (H1 & H2 & H3 & H4 & H5) Hw Hr. split_and!; try done. simpl.
  intros j g w' [[<- <-]|[_ Hj]]%lookup_insert_Some Hw'; [|eauto]. simpl in Hw'.
  apply elem_of_cons in Hw' as [->|Hw']; [done|]. destruct rc as [r|]; [|by apply elem_of_nil in Hw'].
  apply list_elem_of_singleton in Hw' as ->. intros E. by eapply Hr.
Qed.

Lemma Core_start_output s o w rc hs :
  Core s → (o = o1 ∨ o = o2) → gos s !! index o = None →
  w :: (match rc with Some r => [WHandle r] | None => [] end) = WHandle <$> hs → NoDup hs → (∀ h, h ∈ hs → unowned s h ∧ h ≠ 0) →
  Core (startPipeCopy o w rc s).
Proof.
  intros HC Ho Hi Hhs Hnd Hu. destruct hs as [|h hs]; [done|]. injection Hhs as -> Hrest.
  pose proof (Core_start_handles s (index o) (index o) h (h :: hs) HC Hi) as HS. unfold startPipeCopy. rewrite Hrest.
  assert ((index o =? 0) = false) as E0 by (destruct Ho as [-> | ->]; done). rewrite E0 in HS.
  apply HS; [destruct Ho as [-> | ->]; auto|done|by left|done|]. intros h' Hh'. split; [by apply Hu|]. by destruct (Hu h' Hh') as [_ ?].
Qed.

Definition opened_output (o : pipeOutput) (s s' : st) (w : writer) (rc : option Z) : Prop :=
  Core (startPipeCopy o w rc s') ∧ main s' = main s ∧ gos s' = gos s ∧
  (∀ h, opened s h → opened s' h) ∧ nexth s ≤ nexth s' ∧
  (∀ h, unowned s h → h < n0 → a_streams a (index o) ≠ Some h → unowned (startPipeCopy o w rc s') h) ∧
  (match same s' with Some (h, _) => n0 ≤ h ∧ opened s' h | None => True end).

Lemma opened_open_ep s h : Core s → opened s h → opened (open_ep s) h.
Proof.
  intros HC (e & He & Ho). exists e. split; [|done]. simpl. rewrite lookup_insert_ne; [done|].
  pose proof (proj2 (c_next _ HC) h (ex_intro _ _ He)). lia.
Qed.

(** A file that two outputs share. *)
Lemma Core_start_shared s o h n :
  Core s → (o = o1 ∨ o = o2) → gos s !! index o = None → opened s h → h ≠ 0 → h ≠ 1 → h ≠ 2 →
  start_ok s (mkGo (index o) (WCount h) [WCount h] GCopy) (Some (h, n)) →
  (∀ j gj w', gos s !! j = Some gj → w' ∈ g_rest gj → w_file w' = h → is_count w' = true) →
  Core (startPipeCopy o (WCount h) None (set_same (Some (h, n)) s)).
Proof.
  intros HC Ho Hi Hop Hh0 Hh1 Hh2 Hst Hp.
  assert ((index o =? 0) = false ∧ (index o = 0 ∨ index o = 1 ∨ index o = 2)) as [E0 Hix] by (destruct Ho as [-> | ->]; auto).
  pose proof (Core_start s (index o) (mkGo (index o) (WCount h) [WCount h] GCopy) (Some (h, n)) HC Hi eq_refl) as HS.
  rewrite E0 in HS. apply HS; [|done|].
  - split; simpl; rewrite ?E0; try done; [by left|by exists []|intros w ->%list_elem_of_singleton|by apply NoDup_singleton|intros w ->%list_elem_of_singleton..];
      simpl; [|done|destruct Hop as (e & He & _); by exists e].
    split_and!; try done. intros _ E. by rewrite E in E0.
  - intros j gj w w' Hj ->%list_elem_of_singleton Hw' E. split; [done|]. by eapply Hp.
Qed.

Lemma open_output ans o s :
  Core s → Todo s → (o = o1 ∨ o = o2) → gos s !! index o = None → (∃ l, main s = MOut l) →
  match openPipeOutput a ans o s with
  | (Err _, s') => Core s' ∧ gos s' = gos s ∧ main s' = main s
  | (Ok (w, rc), s') => opened_output o s s' w rc
  end.
Proof.
  intros HC [_ _ Hsm Hn Hstr] Ho Hi [l0 Hop]. pose proof (proj1 (a_range Ha)) as Hn3. unfold openPipeOutput.
  assert (match same s with Some (h, _) => n0 ≤ h ∧ opened s h | None => True end) as Hsm'.
  { destruct (same s) as [[h n]|]; [|done]. destruct Hsm. eauto. }
  destruct (a_streams a (index o)) as [h|] eqn:Eh.
  { pose proof (Hstr _ _ Eh Hi) as Hu. pose proof (proj2 (a_range Ha) h (a_member Ha _ _ Eh)).
    split_and!; try done; [|intros h' Hu' _ Hne; by apply unowned_start; [|simpl; congruence|]].
    apply (Core_start_output s o _ None [h]); try done; [apply NoDup_singleton|].
    intros h' ->%list_elem_of_singleton. split; [done|lia]. }
  pose proof (Core_open_ep _ HC) as HC1. pose proof (fresh_unowned _ HC) as Hu1.
  destruct (isFifo ans) as [[]|e]; [| |by split_and!].
  - destruct (openW ans) as [e|]; [by split_and!|]. destruct (openR ans) as [e|]; [by split_and!|].
    split_and!; try done; simpl; [|intros h Hh; by apply opened_open_ep, opened_open_ep|lia|intros h Hu Hlt _; apply unowned_start|].
    + apply (Core_start_output _ o _ _ [nexth s; nexth s + 1]); try done; [by apply Core_open_ep| |].
      * apply NoDup_cons. split; [intros ?%list_elem_of_singleton; lia|apply NoDup_singleton].
      * intros h [->|Hh]%elem_of_cons; [split; [by apply unowned_open_ep|lia]|].
        apply list_elem_of_singleton in Hh as ->. split; [by apply (fresh_unowned (open_ep s))|lia].
    + by apply unowned_open_ep, unowned_open_ep.
    + simpl. lia.
    + intros r [= <-]. lia.
    + simpl in *. destruct (same s) as [[h n]|]; [|done]. destruct Hsm' as [? Hoh]. split; [done|]. by apply opened_open_ep, opened_open_ep.
  - destruct (same s) as [[h n]|] eqn:Es.
    + pose proof (c_count _ HC) as Hc. rewrite Es in Hc. destruct Hc as (_ & _ & _ & Hc). destruct Hsm' as [Hh Hoh].
      split_and!; try done; simpl; [|intros h' Hu Hlt _].
      * apply Core_start_shared; try done; try lia; [|intros j gj w' Hj Hw' E; by apply (Hc _ _ _ Hj Hw')].
        unfold start_ok. rewrite Es. split_and!; [done| |done]. intros w ->%list_elem_of_singleton. done.
      * apply unowned_start; [|simpl; lia|done]. destruct Hu as (A1 & A2 & A3 & A4 & _). split_and!; try done. simpl. lia.
    + destruct (openF ans) as [e|]; [by split_and!|].
      assert (∀ j gj w, gos s !! j = Some gj → w ∈ g_rest gj → w_file w ≠ nexth s) as Hno by (apply Hu1).
      destruct (String.eqb (a_stdout a) (a_stderr a)); split_and!; try done; simpl;
        [|intros h Hh; by apply opened_open_ep|lia|intros h Hu Hlt _; apply unowned_start; [|simpl; lia|done]|split; [lia|apply Hu1]
        | |intros h Hh; by apply opened_open_ep|lia|intros h Hu Hlt _; apply unowned_start; [by apply unowned_open_ep|simpl; lia|done]|by rewrite Es].
      * apply Core_start_shared; try done; try lia; [apply Hu1| |intros j gj w' Hj Hw' E; by destruct (Hno _ _ _ Hj Hw')].
        unfold start_ok. simpl. rewrite Es. split_and!; [done|intros w ->%list_elem_of_singleton; done|lia| |done].
        rewrite lookup_insert_eq. by eexists.
      * destruct (unowned_open_ep _ _ HC Hu) as (A1 & A2 & A3 & A4 & _). split_and!; try done. simpl. lia.
      * apply (Core_start_output _ o _ None [nexth s]); try done; [apply NoDup_singleton|].
        intros h' ->%list_elem_of_singleton. split; [done|lia].
Qed.
(** Steps that start nothing. *)
Lemma Todo_frame s s' :
  Core s → Todo s → main s' = main s → nexth s' = nexth s → (∀ i, g_rest <$> gos s' !! i = g_rest <$> gos s !! i) →
  fst <$> same s' = fst <$> same s → (∀ h, unowned s h → opened s' h) →
  (∀ l h n, main s = MOut l → same s = Some (h, n) → opened s h → opened s' h) → Todo s'.
Proof.
  intros HC [H1 H2 H3 H4 H5] Hm Hn Hg Hs Hu Hsm.
  assert (∀ i, gos s' !! i = None ↔ gos s !! i = None) as HN.
  { intros i. specialize (Hg i). destruct (gos s' !! i), (gos s !! i); done. }
  assert (∀ o, started s' o ↔ started s o) as HS.
  { intros o. unfold started. rewrite <- !not_eq_None_Some. by rewrite HN. }
  assert (∀ j g, gos s' !! j = Some g → ∃ g0, gos s !! j = Some g0 ∧ g_rest g0 = g_rest g) as HR.
  { intros j g Hj. specialize (Hg j). rewrite Hj in Hg. symmetry in Hg. apply fmap_Some in Hg as (g0 & ? & ?). by exists g0. }
  split; rewrite ?Hm, ?Hn; [| | |done|].
  - destruct (main s); rewrite ?HN, ?HS; done.
  - rewrite HN. intros H0. apply Hu, unowned_rio0; auto.
  - destruct (same s) as [[h n]|], (same s') as [[h' n']|]; simplify_eq/=; try done. destruct H3 as [? H3]. split; [done|].
    intros l Hl. eapply Hsm; eauto.
  - intros i h Hi. rewrite HN. intros Hi0. pose proof (H5 i h Hi Hi0) as Hh. pose proof Hh as (A1 & A2 & A3 & A4 & A5). split_and!; auto.
    + intros j g w Hj Hw. destruct (HR _ _ Hj) as (g0 & Hj0 & Er). eapply A4; [done|by rewrite Er].
    + by destruct (same s) as [[h0 n]|], (same s') as [[h' n']|]; simplify_eq/=.
Qed.

(** [patient]: while [copyPipes] still opens outputs no copy closes the file that
    two outputs share. *)
Definition patient (s : st) (l : label) : Prop :=
  match l with LClose _ => same s = None ∨ ∀ l', main s ≠ MOut l' | _ => True end.

Lemma unowned_not_owned s i g w h : gos s !! i = Some g → w ∈ g_rest g → unowned s h → h ≠ w_file w.
Proof. intros Hi Hw (_ & _ & _ & Hno & _) E. by eapply Hno. Qed.

Lemma opened_closed_writer s1 w h : h ≠ w_file w → opened s1 h → opened (close_writer w s1) h.
Proof.
  intros Hne Ho. destruct w as [h'|h']; simpl in *; [by apply opened_close|]. destruct (same s1) as [[h0 n]|]; [|done].
  case_match; [done|]. by apply opened_close.
Qed.

Lemma rest_same s i g pc j :
  gos s !! i = Some g → g_rest <$> (<[i := mkGo (g_src g) (g_dst g) (g_rest g) pc]> (gos s)) !! j = g_rest <$> gos s !! j.
Proof. intros Hi. destruct (decide (i = j)) as [->|]; [by rewrite lookup_insert_eq, Hi|by rewrite lookup_insert_ne]. Qed.

Lemma end_copy_frame s i g j : gos s !! i = Some g → g_rest <$> gos (end_copy i g s) !! j = g_rest <$> gos s !! j.
Proof. intros Hi. unfold end_copy. case_match; apply rest_same; done. Qed.

Definition Base (s : st) : Prop := Core s ∧ Todo s.

Lemma Base_on_ep h f s : keeps_open f → Base s → Base (on_ep h f s).
Proof.
  intros Hf [HC HT]. split; [by apply Core_on_ep|]. apply (Todo_frame s); try done.
  - intros h' (Hh' & _). by apply opened_on_ep.
  - intros. by apply opened_on_ep.
Qed.

Lemma Base_end s i g : gos s !! i = Some g → g_pc g = GCopy → Base s → Base (end_copy i g s).
Proof.
  intros Hi Hpc [HC HT]. split; [by apply Core_end|].
  apply (Todo_frame s); try done; try (unfold end_copy; by case_match); [intros; by apply end_copy_frame|].
  intros h' (Hh' & _). unfold end_copy. by case_match.
Qed.

Lemma Base_close s i src dst rest w l :
  gos s !! i = Some (mkGo src dst rest (GAfter (w :: l))) → patient s (LClose i) → Base s →
  Base (close_writer w (set_go i (mkGo src dst rest (GAfter l)) s)).
Proof.
  intros Hi Hp [HC HT].
  assert (w ∈ rest) as Hw by (eapply (elem_left _ _ _ _ HC Hi); by left).
  split; [destruct w; [by apply Core_close_handle|by apply Core_close_count]|].
  assert (∀ h, h ≠ w_file w → opened s h → opened (close_writer w (set_go i (mkGo src dst rest (GAfter l)) s)) h) as Hop.
  { intros h Hne Ho. by apply opened_closed_writer. }
  apply (Todo_frame s); try done.
  - destruct w; simpl; [done|]. destruct (same s) as [[h0 n]|]; [|done]. by case_match.
  - destruct w; simpl; [done|]. destruct (same s) as [[h0 n]|]; [|done]. by case_match.
  - intros j. transitivity (g_rest <$> (<[i := mkGo src dst rest (GAfter l)]> (gos s)) !! j); [|by apply (rest_same s i _ (GAfter l) j Hi)].
    destruct w; simpl; [done|]. destruct (same s) as [[h0 n]|]; [|done]. by case_match.
  - destruct w; simpl; [done|]. destruct (same s) as [[h0 n]|] eqn:Es; simpl; [by case_match|by rewrite Es].
  - intros h Hu. apply Hop; [|apply Hu]. by eapply (unowned_not_owned _ _ _ _ _ Hi).
  - intros l' h n Hm Hs. destruct Hp as [Hp|Hp]; [congruence|by destruct (Hp l')].
Qed.

Lemma started_mono s s' o : (∀ i, is_Some (gos s !! i) → is_Some (gos s' !! i)) → started s o → started s' o.
Proof. intros H [?|?]; [by left|right; auto]. Qed.

(** The steps of [copyPipes] itself. *)
Lemma Base_output ans o l s s1 w rc :
  Base s → main s = MOut (o :: l) → (o = o1 ∨ o = o2) → gos s !! index o = None →
  openPipeOutput a ans o s = (Ok (w, rc), s1) → Base (set_main (MOut l) (startPipeCopy o w rc s1)).
Proof.
  intros [HC HT] Hm Ho Hi He. pose proof (open_output ans o s HC HT Ho Hi (ex_intro _ _ Hm)) as H. rewrite He in H.
  destruct H as (HC1 & Hm1 & Hg1 & Hop & Hn & Hu & Hsm). destruct HT as [H1 H2 H3 H4 H5]. rewrite Hm in H1.
  split; [by apply Core_main|]. destruct H1 as [H0 H1].
  assert (index o ≠ 0) as Hio by (by destruct Ho as [-> | ->]).
  split; simpl; rewrite ?Hg1.
  - split; [by rewrite lookup_insert_ne|].
    assert (∀ i, is_Some (gos s !! i) → is_Some (gos (set_main (MOut l) (startPipeCopy o w rc s1)) !! i)) as Hsome.
    { intros i Hs. simpl. rewrite Hg1, lookup_insert_is_Some'. by right. }
    assert (started (set_main (MOut l) (startPipeCopy o w rc s1)) o) as Hso.
    { right. simpl. rewrite lookup_insert_eq. by eexists. }
    destruct H1 as [([= -> ->] & G1 & G2)|[([= -> ->] & S1 & G2)|(? & _)]]; [| |done].
    + right. left. split_and!; try done. by rewrite lookup_insert_ne.
    + right. right. split_and!; [done|by eapply started_mono|done].
  - intros _. apply Hop, H2. done.
  - destruct (same s1) as [[h n]|]; [|done]. destruct Hsm. by split.
  - lia.
  - intros i h Hh Hin. apply lookup_insert_None in Hin as [Hin Hne].
    apply (Hu h); [by eapply H5|by apply (a_range Ha), (a_member Ha i)|]. intros E. apply Hne. by eapply (a_inj Ha).
Qed.
Lemma Base_open_ep s : Base s → Base (open_ep s).
Proof.
  intros [HC HT]. split; [by apply Core_open_ep|]. pose proof HT as [H1 H2 H3 H4 H5]. split; simpl; [done| | |lia|].
  - intros. apply opened_open_ep; auto.
  - destruct (same s) as [[h n]|]; [|done]. destruct H3 as [? H3]. split; [done|]. intros. apply opened_open_ep; eauto.
  - intros i h Hi Hg. apply unowned_open_ep; eauto.
Qed.

Lemma open_error ans o s e s' : openPipeOutput a ans o s = (Err e, s') → s' = s ∨ s' = open_ep s.
Proof. unfold openPipeOutput. repeat case_match; intros; simplify_eq; auto. Qed.

(** A state of [copyPipes] that goes with the goroutines there are. *)
Lemma Base_main p s : Base s →
  match p with
  | MOut l => ∃ l', main s = MOut l' ∧ gos s !! 0 = None ∧ ((l = [o2] ∧ started s o1 ∧ gos s !! 2 = None) ∨ (l = [] ∧ started s o1 ∧ started s o2))
  | MIn => gos s !! 0 = None ∧ started s o1 ∧ started s o2
  | MDone _ => started s o1 ∧ started s o2
  | MErr _ => True
  end → Base (set_main p s).
Proof.
  intros [HC [H1 H2 H3 H4 H5]] Hp. split; [by apply Core_main|]. split; simpl; try done.
  - destruct p; try done. destruct Hp as (l' & _ & H0 & Hl). split; [done|]. by right.
  - destruct (same s) as [[h n]|]; [|done]. destruct H3 as [? H3]. split; [done|]. intros l ->. destruct Hp as (l' & Hl' & _). eauto.
Qed.

(** [startPipeStdin]: a goroutine for the process's stdin. *)
Lemma Base_stdin s c :
  Base s → main s = MIn → unowned s c → c ≠ 0 → (∀ i, a_streams a i = Some c → i = 0) → (n0 ≤ c ∨ a_streams a 0 = Some c) →
  Base (set_main (MDone (Some c)) (set_go 0 (mkGo c (WHandle 0) [WHandle 0; WHandle c] GCopy) s)).
Proof.
  intros [HC HT] Hm Hu Hc Hstr Hcn. pose proof HT as [H1 H2 H3 H4 H5]. rewrite Hm in H1. destruct H1 as (H0 & S1 & S2).
  pose proof (unowned_rio0 s HC H0 (H2 H0)) as Hu0. split.
  - apply Core_main. pose proof (Core_start_handles s 0 c 0 [0; c] HC H0) as HS. simpl in HS. rewrite Z.add_0_r in HS. apply HS; clear HS; try auto.
    + right. by left.
    + by left.
    + apply NoDup_cons. split; [by intros ?%list_elem_of_singleton|apply NoDup_singleton].
    + intros h [->|Hh]%elem_of_cons; [done|]. apply list_elem_of_singleton in Hh as ->. split; [done|]. by intros.
  - assert (∀ i, is_Some (gos s !! i) → is_Some (<[0 := mkGo c (WHandle 0) [WHandle 0; WHandle c] GCopy]> (gos s) !! i)) as Hsome.
    { intros i. rewrite lookup_insert_is_Some'. by right. }
    split; simpl; [split; by eapply started_mono|by rewrite lookup_insert_eq| |done|].
    + destruct (same s) as [[h n]|]; [|done]. split; [apply H3|done].
    + intros i h Hi [Hg Hne]%lookup_insert_None. pose proof (H5 _ _ Hi Hg) as (A1 & A2 & A3 & A4 & A5). split_and!; try done. simpl.
      assert (3 ≤ h) by (apply (a_range Ha), (a_member Ha i), Hi).
      intros j g w [[<- <-]|[_ Hj]]%lookup_insert_Some Hw; [|eauto]. simpl in Hw.
      apply elem_of_cons in Hw as [->|Hw]; [simpl; lia|]. apply list_elem_of_singleton in Hw as ->. simpl. intros ->. by apply Hne, eq_sym, Hstr.
Qed.

Lemma Base_main_step ans s s' : copyPipes_step a ans s = Some s' → Base s → Base s'.
Proof.
  unfold copyPipes_step. intros He HB. pose proof HB as [HC HT]. pose proof (t_main _ HT) as Hmain.
  destruct (main s) as [[|o l]| | |] eqn:Em; simplify_eq.
  - destruct Hmain as [H0 [(? & _)|[(? & _)|(_ & ? & ?)]]]; try done. by apply Base_main.
  - destruct Hmain as [H0 Hl].
    assert ((o = o1 ∨ o = o2) ∧ gos s !! index o = None) as [Ho Hi].
    { destruct Hl as [([= -> ->] & ? & ?)|[([= -> ->] & ? & ?)|(? & _)]]; auto; done. }
    destruct (String.eqb_spec (name o) "") as [En|En]; simplify_eq.
    + apply Base_main; [done|]. exists (o :: l). split_and!; try done.
      destruct Hl as [([= -> ->] & ? & ?)|[([= -> ->] & ? & ?)|(? & _)]]; [left|right|done]; split_and!; try done; by left.
    + destruct (openPipeOutput a ans o s) as [[[w rc]|e] s1] eqn:Eo; simplify_eq.
      * by eapply Base_output.
      * apply Base_main; [|done]. destruct (open_error _ _ _ _ _ Eo) as [-> | ->]; [done|by apply Base_open_ep].
  - destruct Hmain as (H0 & S1 & S2). unfold startPipeStdin. destruct (String.eqb (a_stdin a) ""); [by apply Base_main|].
    destruct (a_streams a 0) as [h|] eqn:Eh.
    + assert (3 ≤ h) by (apply (a_range Ha), (a_member Ha 0), Eh).
      apply Base_stdin; [done|done|by eapply (t_streams _ HT)|lia|intros i Hi; by eapply (a_inj Ha)|by right].
    + destruct (openR ans) as [e|]; [by apply Base_main|]. pose proof (t_next _ HT). pose proof (proj1 (a_range Ha)).
      apply Base_stdin; [by apply Base_open_ep|done|by apply fresh_unowned|lia| |by left].
      intros i Hi. pose proof (proj2 (a_range Ha) _ (a_member Ha _ _ Hi)). lia.
Qed.

Lemma Base_step l s s' : exec a l s = Some s' → patient s l → Base s → Base s'.
Proof.
  intros He Hp HB. destruct l as [ans|h b|h|i n|i|i n|i]; simpl in He; [by eapply Base_main_step|repeat (case_match; try done); simplify_eq..].
  - by apply Base_on_ep.
  - by apply Base_on_ep.
  - apply Base_on_ep; [done|]. by apply Base_on_ep.
  - apply Base_end; [done..|]. by apply Base_on_ep.
  - by apply Base_end.
  - assert (∀ s0, Base s0 → Base (set_broken i s0)) as Hbr.
    { intros s0 [[H1 H2 H3 H4 H5 H6] [T1 T2 T3 T4 T5]]. split; [|by split]. split; try done. intros j g Hj. destruct (H3 _ _ Hj). by split. }
    apply Hbr, Base_end; [done..|]. by apply Base_on_ep.
  - by apply Base_close.
Qed.
(** ** The bytes *)

(** The bytes that came through copy [i]. *)
Definition from (i : Z) (l : list (Z * Z)) : list Z := omap (λ p, if decide (p.1 = i) then Some p.2 else None) l.

Lemma from_put i j l b : from i (l ++ (pair j <$> b)) = from i l ++ (if decide (j = i) then b else []).
Proof.
  unfold from. rewrite omap_app. f_equal. induction b as [|x b IH]; [by case_decide|]. rewrite fmap_cons. cbn.
  case_decide; [f_equal; by rewrite IH|by rewrite IH].
Qed.

(** What the process wrote is with the destination, or still in the pipe. *)
Record Data (s : st) : Prop := {
  d_new : ∀ i, i = 1 ∨ i = 2 → gos s !! i = None →
    (∀ h e, eps s !! h = Some e → from i (e_out e) = []) ∧ (∀ e, eps s !! i = Some e → e_in e = e_written e);
  d_run : ∀ i g e d, i ≠ 0 → gos s !! i = Some g → i ∉ broken s → eps s !! i = Some e → eps s !! w_file (g_dst g) = Some d →
    from i (e_out d) ++ e_in e = e_written e;
  d_end : ∀ i g e, i ≠ 0 → gos s !! i = Some g → i ∉ broken s → g_pc g ≠ GCopy → eps s !! i = Some e → e_in e = [] ∧ e_eof e = true }.

Lemma Data_on_ep h f b s :
  (∀ e, eps s !! h = Some e → e_out (f e) = e_out e ∧
     (h = 1 ∨ h = 2 → h ∉ broken s ∨ gos s !! h = None → e_in (f e) = e_in e ++ b ∧ e_written (f e) = e_written e ++ b ∧
        (e_eof e = true → b = [] ∧ e_eof (f e) = true))) →
  Core s → Data s → Data (on_ep h f s).
Proof.
  intros Hf HC [D1 D2 D3].
  assert (∀ h' e', eps (on_ep h f s) !! h' = Some e' → ∃ e, eps s !! h' = Some e ∧ e_out e' = e_out e ∧
     (h' = 1 ∨ h' = 2 → h' ∉ broken s ∨ gos s !! h' = None → ∃ b', e_in e' = e_in e ++ b' ∧ e_written e' = e_written e ++ b' ∧ (e_eof e = true → b' = [] ∧ e_eof e' = true))) as Hb.
  { intros h' e'. rewrite eps_on_ep. intros (e & He & ->)%fmap_Some. exists e. split; [done|]. case_decide as E; [subst|simpl; split; [done|]].
    - destruct (Hf e He) as [? H2]. split; [done|]. eauto.
    - intros _ _. exists []. rewrite !app_nil_r. done. }
  assert (∀ i g, i ≠ 0 → gos s !! i = Some g → i = 1 ∨ i = 2) as Hix.
  { intros i g Hi0 Hi. destruct (go_index _ _ _ (c_go _ HC _ _ Hi)) as [?|?]; done. }
  split.
  - intros i Hi Hg. destruct (D1 i Hi Hg) as [Ha1 Ha2]. split.
    + intros h' e' (e & He & Ho & _)%Hb. rewrite Ho. eauto.
    + intros e' (e & He & _ & Hc)%Hb. destruct (Hc Hi (or_intror Hg)) as (b' & -> & -> & _). by rewrite (Ha2 e He).
  - intros i g e' d' Hi0 Hg Hbr (e & He & _ & Hc)%Hb (d & Hd & Ho & _)%Hb. destruct (Hc (Hix _ _ Hi0 Hg) (or_introl Hbr)) as (b' & -> & -> & _).
    rewrite Ho, app_assoc. f_equal. eauto.
  - intros i g e' Hi0 Hg Hbr Hpc (e & He & _ & Hc)%Hb. destruct (Hc (Hix _ _ Hi0 Hg) (or_introl Hbr)) as (b' & -> & _ & Heof).
    destruct (D3 _ _ _ Hi0 Hg Hbr Hpc He) as [-> E]. destruct (Heof E) as [-> ->]. done.
Qed.

(** The end of a copy, and what comes after. *)
Lemma Data_pc s s' i g pc :
  gos s !! i = Some g → eps s' = eps s → gos s' = <[i := mkGo (g_src g) (g_dst g) (g_rest g) pc]> (gos s) →
  (∀ j, j ∉ broken s' → j ∉ broken s) →
  (i ≠ 0 → i ∉ broken s' → pc ≠ GCopy → g_pc g = GCopy → ∀ e, eps s !! i = Some e → e_in e = [] ∧ e_eof e = true) →
  Data s → Data s'.
Proof.
  intros Hi He Hg Hb Hend [D1 D2 D3]. split; rewrite ?He, ?Hg.
  - intros j Hj [Hn _]%lookup_insert_None. by apply D1.
  - intros j gj e d Hj0 [[<- <-]|[_ Hj]]%lookup_insert_Some Hbr; simpl; eauto.
  - intros j gj e Hj0 [[<- <-]|[_ Hj]]%lookup_insert_Some Hbr Hpc Hej; simpl in *; [|by eapply D3; eauto].
    destruct (g_pc g) eqn:E; [by apply Hend|]. eapply D3; eauto. by rewrite E.
Qed.

Lemma Data_open_ep s : Core s → Data s → Data (open_ep s).
Proof.
  intros HC [D1 D2 D3]. pose proof (c_next _ HC) as [H3 Hlt].
  assert (∀ i, i = 1 ∨ i = 2 → nexth s ≠ i) as Hne by (intros i [-> | ->]; lia).
  assert (∀ i g, i ≠ 0 → gos s !! i = Some g → i = 1 ∨ i = 2) as Hix.
  { intros i g Hi0 Hi. destruct (go_index _ _ _ (c_go _ HC _ _ Hi)) as [?|?]; done. }
  split; simpl.
  - intros i Hi Hg. destruct (D1 i Hi Hg) as [A1 A2]. rewrite lookup_insert_ne by auto. split; [|done].
    intros h e [[_ <-]|[_ He]]%lookup_insert_Some; [done|eauto].
  - intros i g e d Hi0 Hg Hbr. rewrite lookup_insert_ne by eauto. intros He [[En _]|[_ Hd]]%lookup_insert_Some; [|eauto].
    pose proof (c_go _ HC _ _ Hg) as Hok. pose proof (Hlt _ (go_exist _ _ _ Hok _ (go_dst _ _ _ Hok))). lia.
  - intros i g e Hi0 Hg Hbr Hpc. rewrite lookup_insert_ne by eauto. eauto.
Qed.

Lemma Data_start s s' i g :
  gos s !! i = None → g_pc g = GCopy → i = 0 ∨ i = 1 ∨ i = 2 → eps s' = eps s → gos s' = <[i := g]> (gos s) → broken s' = broken s →
  Data s → Data s'.
Proof.
  intros Hi Hpc Hix He Hg Hb [D1 D2 D3]. split; rewrite ?He, ?Hg, ?Hb.
  - intros j Hj [Hn _]%lookup_insert_None. by apply D1.
  - intros j gj e d Hj0 [[<- <-]|[_ Hj]]%lookup_insert_Some Hbr Hej Hd; [|eauto].
    destruct (D1 i) as [A1 A2]; [by destruct Hix|done|]. by rewrite (A1 _ _ Hd), (A2 _ Hej).
  - intros j gj e Hj0 [[<- <-]|[_ Hj]]%lookup_insert_Some Hbr Hp; [done|eauto].
Qed.
(** A copy that moves bytes. *)
Lemma Data_move s i src dst rest n e :
  Core s → gos s !! i = Some (mkGo src dst rest GCopy) → eps s !! src = Some e → (n ≤ length (e_in e))%nat → Data s →
  Data (on_ep (w_file dst) (ep_put i (take n (e_in e))) (on_ep src (ep_take n) s)).
Proof.
  intros HC Hi He Hn [D1 D2 D3]. pose proof (c_go _ HC _ _ Hi) as Hok.
  pose proof (go_files _ _ _ Hok _ (go_dst _ _ _ Hok)) as (Hd1 & Hd2 & _). simpl in Hd1, Hd2.
  assert (∀ j, j = 1 ∨ j = 2 → j ≠ i → src ≠ j) as Hsrc.
  { intros j Hj Hji E. pose proof (go_src _ _ _ Hok) as Hs. simpl in Hs. destruct (Z.eqb_spec i 0); [|by subst].
    destruct (go_files _ _ _ Hok _ Hs) as (? & ? & _). simpl in *. by destruct Hj; subst. }
  set (s' := on_ep (w_file dst) _ _).
  assert (∀ j x', j = 1 ∨ j = 2 → eps s' !! j = Some x' → ∃ x, eps s !! j = Some x ∧ e_written x' = e_written x ∧ e_eof x' = e_eof x ∧
            e_in x' = if decide (j = src) then drop n (e_in x) else e_in x) as Hin.
  { intros j x' Hj. unfold s'. rewrite !eps_on_ep. intros (x & (x0 & Hx & ->)%fmap_Some & ->)%fmap_Some. exists x0. split; [done|].
    rewrite (decide_False (P := j = w_file dst)) by (destruct Hj; congruence). by case_decide. }
  assert (∀ j h x', eps s' !! h = Some x' → ∃ x, eps s !! h = Some x ∧
            from j (e_out x') = from j (e_out x) ++ (if decide (i = j ∧ h = w_file dst) then take n (e_in e) else [])) as Hout.
  { intros j h x'. unfold s'. rewrite !eps_on_ep. intros (x & (x0 & Hx & ->)%fmap_Some & ->)%fmap_Some. exists x0. split; [done|].
    destruct (decide (h = w_file dst)) as [E|E]; simpl.
    - rewrite from_put. replace (e_out ((if decide (h = src) then ep_take n else id) x0)) with (e_out x0) by (by case_decide).
      f_equal. destruct (decide (i = j)); [by rewrite decide_True|by rewrite decide_False by (by intros [? _])].
    - rewrite (decide_False (P := i = j ∧ h = w_file dst)) by (by intros [_ ?]). rewrite app_nil_r. by case_decide. }
  split.
  - intros j Hj Hg. destruct (D1 j Hj Hg) as [A1 A2]. assert (j ≠ i) as Hji by (intros ->; change (gos s !! i = None) in Hg; congruence). split.
    + intros h x' (x & Hx & ->)%(Hout j). rewrite decide_False by (intros [? _]; congruence). by rewrite (A1 _ _ Hx).
    + intros x' (x & Hx & -> & _ & ->)%Hin; [|done]. rewrite decide_False by (intros ->; by eapply Hsrc). by apply A2.
  - intros j g x' d' Hj0 Hg Hbr Hx' Hd'. change (gos s !! j = Some g) in Hg. change (j ∉ broken s) in Hbr.
    assert (j = 1 ∨ j = 2) as Hj by (destruct (go_index _ _ _ (c_go _ HC _ _ Hg)) as [?|?]; done).
    destruct (Hin j x' Hj Hx') as (x & Hx & -> & _ & ->), (Hout j _ _ Hd') as (d & Hd & ->).
    pose proof (D2 _ _ _ _ Hj0 Hg Hbr Hx Hd) as Hc. destruct (decide (j = i)) as [->|Hji].
    + rewrite Hi in Hg. simplify_eq. simpl in *. rewrite decide_True by done.
      assert (src = i) as ->. { pose proof (go_src _ _ _ Hok) as Hs. simpl in Hs. by destruct (Z.eqb_spec i 0). }
      rewrite decide_True by done. simplify_eq. by rewrite <- app_assoc, take_drop.
    + rewrite decide_False by (intros [? _]; congruence). rewrite app_nil_r, decide_False; [done|]. intros ->. by eapply Hsrc.
  - intros j g x' Hj0 Hg Hbr Hpc Hx'. change (gos s !! j = Some g) in Hg. change (j ∉ broken s) in Hbr.
    assert (j ≠ i) as Hji by (intros ->; rewrite Hi in Hg; by simplify_eq).
    assert (j = 1 ∨ j = 2) as Hj by (destruct (go_index _ _ _ (c_go _ HC _ _ Hg)) as [?|?]; done).
    destruct (Hin j x' Hj Hx') as (x & Hx & _ & -> & ->). rewrite decide_False by (intros ->; by eapply Hsrc). by eapply D3.
Qed.

Lemma Data_main_step ans s s' : copyPipes_step a ans s = Some s' → Base s → Data s → Data s'.
Proof.
  assert (∀ p s0, Data s0 → Data (set_main p s0)) as Hmain by (intros p s0 [D1 D2 D3]; by split).
  unfold copyPipes_step. intros He [HC HT] HD. pose proof (t_main _ HT) as Hm.
  destruct (main s) as [[|o l]| | |] eqn:Em; simplify_eq; [by apply Hmain| |].
  - assert ((o = o1 ∨ o = o2) ∧ gos s !! index o = None) as [Ho Hi].
    { destruct Hm as [_ [([= -> ->] & ? & ?)|[([= -> ->] & ? & ?)|(? & _)]]]; auto; done. }
    destruct (String.eqb (name o) ""); simplify_eq; [by apply Hmain|].
    destruct (openPipeOutput a ans o s) as [[[w rc]|e] s1] eqn:Eo; simplify_eq; apply Hmain.
    + eapply (Data_start s1); [| | |reflexivity|reflexivity|reflexivity|].
      * assert (gos s1 = gos s) as ->; [|done]. unfold openPipeOutput in Eo. repeat case_match; simplify_eq; done.
      * done.
      * destruct Ho as [-> | ->]; simpl; auto.
      * unfold openPipeOutput in Eo. repeat case_match; simplify_eq; auto using Data_open_ep, Core_open_ep; try by destruct HD; split.
        by destruct (Data_open_ep _ HC HD); split.
    + destruct (open_error _ _ _ _ _ Eo) as [-> | ->]; [done|by apply Data_open_ep].
  - destruct Hm as (H0 & _). unfold startPipeStdin. repeat case_match; try (by apply Hmain); apply Hmain.
    + eapply (Data_start s); [| | |reflexivity|reflexivity|reflexivity|]; auto.
    + eapply (Data_start (open_ep s)); [| | |reflexivity|reflexivity|reflexivity|]; auto. by apply Data_open_ep.
Qed.

Lemma Data_end s i g (b : bool) :
  gos s !! i = Some g → g_pc g = GCopy →
  (i ≠ 0 → b = false → ∀ e, eps s !! i = Some e → e_in e = [] ∧ e_eof e = true) → Data s →
  Data (if b then set_broken i (end_copy i g s) else end_copy i g s).
Proof.
  intros Hi Hpc Hend HD. eapply (Data_pc s _ i g (GAfter (g_rest g))); [done| | | | |done].
  - unfold end_copy. by destruct b; case_match.
  - unfold end_copy. by destruct b; case_match.
  - unfold end_copy. destruct b; case_match; simpl; set_solver.
  - intros Hi0 Hbr _ _. destruct b; [|by apply Hend]. clear Hend. unfold end_copy in Hbr.
    case_match; simpl in Hbr; set_solver.
Qed.

Lemma Data_break s i src dst rest n :
  Core s → gos s !! i = Some (mkGo src dst rest GCopy) → Data s →
  Data (set_broken i (end_copy i (mkGo src dst rest GCopy) (on_ep src (ep_take n) s))).
Proof.
  intros HC Hi HD. assert (Data (set_broken i s)) as HB.
  { destruct HD as [D1 D2 D3]. split; simpl; [done|..].
    - intros j g e d Hj0 Hj [_ Hb]%not_elem_of_union. by apply D2.
    - intros j g e Hj0 Hj [_ Hb]%not_elem_of_union. by apply (D3 j g e). }
  assert (Core (set_broken i s)) as HCb by (destruct HC as [H1 H2 H3 H4 H5 H6]; split; try done; intros j g Hj; destruct (H3 _ _ Hj); by split).
  pose proof (c_go _ HC _ _ Hi) as Hok. pose proof (go_src _ _ _ Hok) as Hsrc. simpl in Hsrc.
  assert (Data (on_ep src (ep_take n) (set_broken i s))) as HD1.
  { apply (Data_on_ep _ _ []); [|done..]. intros e He. split; [done|]. intros H12 Hb. exfalso.
    destruct (Z.eqb_spec i 0); [destruct (go_files _ _ _ Hok _ Hsrc) as (? & ? & _); simpl in *; by destruct H12; subst|]. subst src.
    destruct Hb as [Hb|Hb]; [simpl in Hb; set_solver|]. simpl in Hb. congruence. }
  eapply (Data_pc (on_ep src (ep_take n) (set_broken i s)) _ i (mkGo src dst rest GCopy) (GAfter rest)); [done| | | | |exact HD1]; simpl;
    try (unfold end_copy; by case_match).
  intros _ Hb. exfalso. unfold end_copy in Hb. case_match; simpl in Hb; set_solver.
Qed.

Lemma Data_close s i src dst rest w l :
  Core s → gos s !! i = Some (mkGo src dst rest (GAfter (w :: l))) → Data s →
  Data (close_writer w (set_go i (mkGo src dst rest (GAfter l)) s)).
Proof.
  intros HC Hi HD.
  assert (∀ s1, Data s1 → gos s1 = gos s → broken s1 = broken s → eps (close_writer w (set_go i (mkGo src dst rest (GAfter l)) s)) = eps s1 →
    Data (close_writer w (set_go i (mkGo src dst rest (GAfter l)) s))) as Hgo.
  { intros s1 HD1 Hg Hb He. eapply (Data_pc s1 _ i _ (GAfter l)); [by rewrite Hg|done| | |done|done]; [|intros j];
      rewrite ?Hg, ?Hb; destruct w; simpl; try done; destruct (same s) as [[h0 n]|]; try done; by case_match. }
  assert (Data (on_ep (w_file w) ep_close s)) as HDc.
  { apply (Data_on_ep _ _ []); [|done..]. intros e' _. split; [done|]. simpl. by rewrite !app_nil_r. }
  destruct w as [h|h]; simpl in *; [by apply (Hgo _ HDc)|]. destruct (same s) as [[h0 n]|] eqn:Es; [|by apply (Hgo _ HD)].
  case_match; [by apply (Hgo _ HD)|by apply (Hgo _ HDc)].
Qed.

Lemma Data_step l s s' : exec a l s = Some s' → Base s → Data s → Data s'.
Proof.
  intros He HB HD. pose proof HB as [HC _].
  destruct l as [ans|h b|h|i n|i|i n|i]; simpl in He; [by eapply Data_main_step|repeat (case_match; try done); simplify_eq..].
  - apply (Data_on_ep h _ b); [|done..]. intros e' He'. split; [done|]. simpl. intros _ _. split_and!; try done. congruence.
  - apply (Data_on_ep h _ []); [|done..]. intros e' He'. split; [done|]. simpl. by rewrite !app_nil_r.
  - eapply Data_move; try done. match goal with H : _ && _ = true |- _ => by apply andb_prop in H as [_ H%Nat.leb_le] end.
  - exfalso. match goal with Hg : gos s !! i = Some (mkGo _ ?w _ _), Hw : eps s !! w_file ?w = Some ?d |- _ =>
      pose proof (c_go _ HC _ _ Hg) as Hok; destruct (go_open _ _ _ Hok w (go_dst _ _ _ Hok)) as (d0 & Hd0 & Ho) end. congruence.
  - apply (Data_end _ _ _ false); [done|done| |done]. intros Hi0 _ e' He'.
    match goal with Hg : gos s !! i = Some _, H : _ && _ = true |- _ =>
      apply andb_prop in H as [Heof Hnil%bool_decide_eq_true]; pose proof (go_src _ _ _ (c_go _ HC _ _ Hg)) as Hsrc end.
    simpl in Hsrc. destruct (Z.eqb_spec i 0); [done|]. subst. by simplify_eq.
  - by apply Data_break.
  - by apply Data_close.
Qed.
(** ** The files *)

(** Files that [copyPipes] opened, and the streams of the outputs it has started. *)
Definition in_use (s : st) (h : Z) : Prop := n0 ≤ h ∨ ∃ i, a_streams a i = Some h ∧ is_Some (gos s !! i).
Definition to_close (s : st) (h : Z) : Prop := ∃ i g w, gos s !! i = Some g ∧ w ∈ left_ g ∧ w_file w = h.

(** Some goroutine closes every file in use, unless opening them failed. *)
Definition Held (s : st) : Prop := ∀ h, opened s h → in_use s h → (∃ e, main s = MErr e) ∨ to_close s h.

Lemma Held_frame s s' :
  main s' = main s → (∀ i, gos s' !! i = None ↔ gos s !! i = None) → (∀ h, opened s' h → opened s h) →
  (∀ h, opened s' h → to_close s h → to_close s' h) → Held s → Held s'.
Proof.
  intros Hm Hg Ho Hc HH h Hoh Hu. rewrite Hm. destruct (HH h (Ho h Hoh)) as [?|?]; [|by left|right; auto].
  destruct Hu as [?|(i & Hi & Hs)]; [by left|]. right. exists i. split; [done|]. apply not_eq_None_Some. rewrite <- Hg. by apply not_eq_None_Some.
Qed.

Lemma None_insert (m : gmap Z go) i g g' j : m !! i = Some g → <[i := g']> m !! j = None ↔ m !! j = None.
Proof. intros Hi. rewrite lookup_insert_None. split; [by intros [? _]|]. intros Hj. split; [done|]. intros ->. congruence. Qed.

Lemma Held_end s i g : gos s !! i = Some g → g_pc g = GCopy → Held s → Held (end_copy i g s).
Proof.
  intros Hi Hpc. apply Held_frame; try (unfold end_copy; by case_match).
  - intros j. unfold end_copy. case_match; by eapply None_insert.
  - intros h _ (j & gj & w & Hj & Hw & Hh). unfold to_close, end_copy. destruct (decide (j = i)) as [->|Hne].
    + exists i, (mkGo (g_src g) (g_dst g) (g_rest g) (GAfter (g_rest g))), w. rewrite Hi in Hj. simplify_eq. unfold left_ in Hw. rewrite Hpc in Hw.
      case_match; simpl; by rewrite lookup_insert_eq.
    + exists j, gj, w. case_match; simpl; by rewrite lookup_insert_ne.
Qed.

Lemma gos_close w s1 : gos (close_writer w s1) = gos s1 ∧ main (close_writer w s1) = main s1.
Proof. destruct w; simpl; [done|]. destruct (same s1) as [[h0 n]|]; [|done]. by case_match. Qed.

Lemma opened_close_inv w s1 h : opened (close_writer w s1) h → opened s1 h.
Proof.
  assert (∀ h0 s2, opened (on_ep h0 ep_close s2) h → opened s2 h) as Hc.
  { intros h0 s2 (e & He & Ho). rewrite eps_on_ep in He. apply fmap_Some in He as (e0 & He & ->). exists e0. split; [done|]. by case_decide. }
  destruct w as [hw|hw]; simpl; [apply Hc|]. destruct (same s1) as [[h0 n]|]; [|done]. case_match; [done|]. intros Ho%Hc. done.
Qed.

(** A file that stays open after a [Close] is shared with the other output. *)
Lemma still_open s i src dst rest w l :
  Core s → gos s !! i = Some (mkGo src dst rest (GAfter (w :: l))) →
  opened (close_writer w (set_go i (mkGo src dst rest (GAfter l)) s)) (w_file w) →
  ∃ j g w', j ≠ i ∧ gos s !! j = Some g ∧ w' ∈ left_ g ∧ w_file w' = w_file w.
Proof.
  intros HC Hi Ho. assert (∀ h s2, ¬ opened (on_ep h ep_close s2) h) as Hnc.
  { intros h s2 (e & He & Hoe). rewrite eps_on_ep, decide_True in He by done. apply fmap_Some in He as (e0 & _ & ->). done. }
  destruct w as [h|h]; simpl in Ho; [by apply Hnc in Ho|].
  assert (WCount h ∈ rest) as Hrest by (eapply (elem_left _ _ _ _ HC Hi); by left).
  pose proof (c_count _ HC) as Hc. destruct (same s) as [[h0 n]|] eqn:Es; [|by specialize (Hc _ _ _ Hi Hrest)].
  destruct Hc as (_ & _ & Hn & Hf). destruct (Z.ltb_spec 0 (n - 1)) as [Hlt|]; [|by apply Hnc in Ho].
  destruct (go_files _ _ _ (c_go _ HC _ _ Hi) _ Hrest) as (_ & _ & _ & Hi0).
  assert (∃ j, j ≠ i ∧ counted s j = true) as (j & Hji & Hcj).
  { destruct (go_index _ _ _ (c_go _ HC _ _ Hi)) as [->|[->| ->]]; [by destruct Hi0|exists 2|exists 1]; (split; [done|]);
      destruct (counted s 1), (counted s 2); simpl in *; try done; lia. }
  unfold counted in Hcj. destruct (gos s !! j) as [g|] eqn:Ej; [|done]. apply existsb_exists in Hcj as (w' & Hw'%list_elem_of_In & Hcw).
  exists j, g, w'. split_and!; try done. transitivity h0; [by apply (Hf _ _ _ Ej (elem_left _ _ _ _ HC Ej Hw'))|].
  symmetry. by apply (Hf _ _ _ Hi Hrest).
Qed.

Lemma Held_close s i src dst rest w l :
  Core s → gos s !! i = Some (mkGo src dst rest (GAfter (w :: l))) → Held s →
  Held (close_writer w (set_go i (mkGo src dst rest (GAfter l)) s)).
Proof.
  intros HC Hi. set (s1 := set_go i (mkGo src dst rest (GAfter l)) s). destruct (gos_close w s1) as [Hg Hm]. apply Held_frame; [done| | |].
  - intros j. rewrite Hg. by eapply None_insert.
  - intros h Ho%opened_close_inv. done.
  - intros h Ho (j & g & w' & Hj & Hw' & Hh).
    assert (∀ j0 g0 w0, j0 ≠ i → gos s !! j0 = Some g0 → w0 ∈ left_ g0 → w_file w0 = h → to_close (close_writer w s1) h) as Hoth.
    { intros j0 g0 w0 Hne Hj0 Hw0 Hh0. exists j0, g0, w0. rewrite Hg. split_and!; try done. unfold s1. simpl. by rewrite lookup_insert_ne. }
    destruct (decide (j = i)) as [->|Hne]; [|by eapply Hoth]. rewrite Hi in Hj. simplify_eq. unfold left_ in Hw'. simpl in Hw'.
    apply elem_of_cons in Hw' as [->|Hw'].
    + destruct (still_open _ _ _ _ _ _ _ HC Hi Ho) as (j & g & w' & Hne & Hj & Hw' & Hh). by eapply Hoth.
    + exists i, (mkGo src dst rest (GAfter l)), w'. rewrite Hg. split_and!; try done. unfold s1. simpl. by rewrite lookup_insert_eq.
Qed.

(** ** Runs *)

Inductive reachable : st → Prop :=
  | reach_init : reachable (init a strs n0)
  | reach_step s l s' : reachable s → patient s l → exec a l s = Some s' → reachable s'.

Lemma Held_start s s' i g :
  gos s !! i = None → g_pc g = GCopy → gos s' = <[i := g]> (gos s) → (∀ l, main s ≠ MErr l) →
  (∀ h, opened s' h → n0 ≤ h → opened s h ∨ h ∈ w_file <$> g_rest g) → (∀ h, opened s' h → h < n0 → opened s h) →
  (∀ h, a_streams a i = Some h → h ∈ w_file <$> g_rest g) → Held s → Held s'.
Proof.
  intros Hi Hpc Hg Hm Hn Hs Hst HH h Ho Hu. right.
  assert (h ∈ w_file <$> g_rest g ∨ to_close s h) as [Hh|(j & gj & w & Hj & Hw & Hh)].
  { assert (opened s h → in_use s h → to_close s h) as Hold by (intros ? ?; destruct (HH h) as [[l Hl]|?]; try done; by destruct (Hm l)).
    destruct Hu as [Hu|(j & Hj & Hsj)].
    - destruct (Hn h Ho Hu); [right; apply Hold; [done|by left]|by left].
    - destruct (decide (j = i)) as [->|Hne]; [left; auto|right]. pose proof (proj2 (a_range Ha) _ (a_member Ha _ _ Hj)).
      apply Hold; [apply Hs; [done|lia]|]. right. exists j. split; [done|]. by rewrite Hg, lookup_insert_ne in Hsj. }
  - apply list_elem_of_fmap in Hh as (w & -> & Hw). exists i, g, w. rewrite Hg, lookup_insert_eq. unfold left_. by rewrite Hpc.
  - exists j, gj, w. split_and!; try done. rewrite Hg, lookup_insert_ne; [done|congruence].
Qed.

Lemma Held_main p s : Held s → (∀ e, main s = MErr e → ∃ e', p = MErr e') → Held (set_main p s).
Proof.
  intros HH Hp h Ho Hu. destruct (HH h Ho) as [[e He]|?]; [|left|by right].
  - destruct Hu as [?|?]; [by left|by right].
  - simpl. eauto.
Qed.

Lemma opened_open_inv s h : opened (open_ep s) h → opened s h ∨ h = nexth s.
Proof. intros (e & He & Ho). simpl in He. apply lookup_insert_Some in He as [[<- _]|[_ He]]; [by right|left; by exists e]. Qed.

Lemma Held_error e s : Held (set_main (MErr e) s).
Proof. intros h _ _. left. by exists e. Qed.

Lemma Held_output ans o w rc s s1 :
  Base s → (∀ l, main s ≠ MErr l) → (o = o1 ∨ o = o2) → gos s !! index o = None → openPipeOutput a ans o s = (Ok (w, rc), s1) → Held s →
  Held (startPipeCopy o w rc s1).
Proof.
  intros [HC HT] Hm Ho Hi He HH. assert (gos s1 = gos s) as Hg by (unfold openPipeOutput in He; repeat case_match; simplify_eq; done).
  assert (∀ h, opened s1 h → opened s h ∨ h ∈ w_file <$> w :: (match rc with Some r => [WHandle r] | None => [] end)) as Hop.
  { unfold openPipeOutput in He. intros h Hh. repeat case_match; simplify_eq; try (by left);
      repeat match goal with
      | H : opened (open_ep _) _ |- _ => apply opened_open_inv in H as [H| ->]
      | H : opened (set_same _ _) _ |- _ => change (opened (open_ep s) h) in H
      end; try (by left); right; simpl; rewrite ?elem_of_cons; auto. }
  pose proof (t_next _ HT) as Hnx.
  eapply (Held_start s _ (index o)); [done| |by simpl; rewrite Hg|done| | | |done]; [done|..]; simpl.
  - intros h Hh _. by apply Hop.
  - intros h Hh Hlt. assert (∀ s0, n0 ≤ nexth s0 → opened (open_ep s0) h → opened s0 h) as Hlow.
    { intros s0 Hs0 [?| ->]%opened_open_inv; [done|lia]. }
    change (opened s1 h) in Hh. unfold openPipeOutput in He. repeat case_match; simplify_eq; try done; try by apply Hlow.
    apply Hlow; [done|]. apply Hlow; [simpl; lia|done].
  - intros h Hh. unfold openPipeOutput in He. rewrite Hh in He. simplify_eq. simpl. by left.
Qed.

Lemma Held_stdin s c :
  Base s → main s = MIn → n0 ≤ c ∨ a_streams a 0 = Some c → (∀ h, a_streams a 0 = Some h → h = c) → ∀ s1,
  (∀ h, opened s1 h → opened s h ∨ h = c) → gos s1 = gos s → Held s →
  Held (set_main (MDone (Some c)) (set_go 0 (mkGo c (WHandle 0) [WHandle 0; WHandle c] GCopy) s1)).
Proof.
  intros [HC HT] Hm Hc Hs s1 Ho Hg HH. pose proof (t_main _ HT) as Ht. rewrite Hm in Ht. destruct Ht as (H0 & _).
  eapply (Held_start s _ 0); [done| |by simpl; rewrite Hg|by rewrite Hm| | | |done]; [done|..]; simpl.
  - intros h [?| ->]%Ho _; [by left|right]. apply elem_of_cons. right. by left.
  - intros h Hh Hlt. destruct (Ho h Hh) as [?| ->]; [done|]. destruct Hc as [?|Hc]; [lia|].
    apply (t_streams _ HT 0 c Hc H0).
  - intros h ->%Hs. apply elem_of_cons. right. by left.
Qed.

Lemma Held_main_step ans s s' : copyPipes_step a ans s = Some s' → Base s → Held s → Held s'.
Proof.
  unfold copyPipes_step. intros He HB HH. pose proof HB as [HC HT]. pose proof (t_main _ HT) as Hm.
  destruct (main s) as [[|o l]| | |] eqn:Em; simplify_eq; [by apply Held_main; [|congruence]| |].
  - assert ((o = o1 ∨ o = o2) ∧ gos s !! index o = None) as [Ho Hi].
    { destruct Hm as [_ [([= -> ->] & ? & ?)|[([= -> ->] & ? & ?)|(? & _)]]]; auto; done. }
    destruct (String.eqb (name o) ""); simplify_eq; [by apply Held_main; [|congruence]|].
    destruct (openPipeOutput a ans o s) as [[[w rc]|e] s1] eqn:Eo; simplify_eq; [|apply Held_error].
    assert (main s1 = main s) as Hm1 by (unfold openPipeOutput in Eo; repeat case_match; simplify_eq; done).
    apply Held_main; [|simpl; congruence]. eapply Held_output; [done| |done..]. intros l0. congruence.
  - destruct Hm as (H0 & _). unfold startPipeStdin. destruct (String.eqb (a_stdin a) ""); [by apply Held_main; [|congruence]|].
    pose proof (t_next _ HT). destruct (a_streams a 0) as [h|] eqn:Eh.
    + apply (Held_stdin s h); try done; [by right|congruence|by left].
    + destruct (openR ans) as [e|]; [apply Held_error|]. apply (Held_stdin s (nexth s)); try done; [by left|congruence|apply opened_open_inv].
Qed.

Lemma Held_step l s s' : exec a l s = Some s' → Base s → Held s → Held s'.
Proof.
  intros He HB HH. pose proof HB as [HC HT].
  assert (∀ h f s0, keeps_open f → Held s0 → Held (on_ep h f s0)) as Hon.
  { intros h f s0 Hf. apply Held_frame; try done. intros h0. by rewrite opened_on_ep. }
  destruct l as [ans|h b|h|i n|i|i n|i]; simpl in He; [|repeat (case_match; try done); simplify_eq..].
  - by eapply Held_main_step.
  - by apply Hon.
  - by apply Hon.
  - apply Hon; [done|]. by apply Hon.
  - apply Held_end; [done..|]. by apply Hon.
  - by apply Held_end.
  - match goal with |- Held (set_broken i ?s0) => apply (Held_frame s0); [done..|] end. apply Held_end; [done..|]. by apply Hon.
  - by apply Held_close.
Qed.

Lemma init_lookup h e : eps (init a strs n0) !! h = Some e → (h = 0 ∨ h = 1 ∨ h = 2 ∨ h ∈ strs) ∧ e = ep0.
Proof. simpl. rewrite lookup_gset_to_gmap_Some. set_solver. Qed.
Lemma init_is_Some h : h = 0 ∨ h = 1 ∨ h = 2 ∨ h ∈ strs → eps (init a strs n0) !! h = Some ep0.
Proof. intros Hh. simpl. apply lookup_gset_to_gmap_Some. split; [set_solver|done]. Qed.

Lemma init_Base : Base (init a strs n0).
Proof.
  pose proof (a_range Ha) as [H3 Hs]. split; split; try done.
  - split; [done|]. intros h [e (Hh & _)%init_lookup]. destruct Hh as [->|[->|[->|Hh]]]; try (simpl; lia). by apply Hs.
  - split_and!; eexists; apply init_is_Some; auto.
  - simpl. auto.
  - intros _. exists ep0. split; [|done]. apply init_is_Some. auto.
  - intros i h Hi _. pose proof (a_member Ha _ _ Hi) as Hm. pose proof (Hs h Hm). split_and!; try done; try lia.
    exists ep0. split; [|done]. apply init_is_Some. auto.
Qed.

Lemma init_Data : Data (init a strs n0).
Proof. split; try done. intros i _ _. split; [intros h e [_ ->]%init_lookup; done|intros e [_ ->]%init_lookup; done]. Qed.

Lemma init_Held : Held (init a strs n0).
Proof.
  intros h (e & [Hh _]%init_lookup & _) [Hu|(i & _ & [g Hg])]; [|done]. exfalso. pose proof (a_range Ha) as [H3 Hs].
  destruct Hh as [->|[->|[->|Hh%Hs]]]; lia.
Qed.

Lemma copy_invariant s : reachable s → Base s ∧ Data s ∧ Held s.
Proof.
  induction 1 as [|s l s' _ (HB & HD & HH) Hp He]; [split_and!; [apply init_Base|apply init_Data|apply init_Held]|].
  split_and!; [by eapply Base_step|by eapply Data_step|by eapply Held_step].
Qed.

(** The file that output [o] is copied to. *)
Definition destination (s : st) (o : pipeOutput) : option ep := gos s !! index o ≫= λ g, eps s !! w_file (g_dst g).

Lemma ended s o g : Core s → wg s = 0 → o = o1 ∨ o = o2 → gos s !! index o = Some g → g_pc g ≠ GCopy.
Proof.
  intros HC Hw Ho Hg E. assert (copying s (index o) = true) as Hc by (unfold copying; rewrite Hg; destruct g as [??? []]; done).
  pose proof (c_wg _ HC) as Hwg. pose proof (Z_b2z_bound (copying s 1)). pose proof (Z_b2z_bound (copying s 2)).
  destruct Ho as [-> | ->]; simpl in Hc; rewrite Hc in Hwg; simpl in Hwg; lia.
Qed.

End pipes.

(** ** Concrete runs *)

Module CopyDemo.
Import GuestCopy.

Fixpoint run_labels (a : args) (ls : list label) (s : st) : option st :=
  match ls with [] => Some s | l :: ls => match exec a l s with Some s' => run_labels a ls s' | None => None end end.

(** A run in which nothing is closed before [copyPipes] has returned. *)
Definition no_close (l : label) : bool := match l with LClose _ => false | _ => true end.

Lemma run_no_close a strs n ls s s' :
  reachable a strs n s → forallb no_close ls = true → run_labels a ls s = Some s' → reachable a strs n s'.
Proof.
  revert s. induction ls as [|l ls IH]; intros s Hr; simpl; [by intros _ [= <-]|]. intros [Hl Hls]%andb_prop.
  destruct (exec a l s) as [s1|] eqn:E; [|done]. apply IH; [|done]. eapply reach_step; [done| |done]. by destruct l.
Qed.

Definition ok : answers := mkAnswers (Ok false) None None None.
Definition fifo : answers := mkAnswers (Ok true) None None None.

(** Stdout and stderr on streams of their own. *)
Definition two : args := mkArgs "" "stream://1" "stream://2" (λ i, if i =? 1 then Some 3 else if i =? 2 then Some 4 else None).
Definition two_run : list label :=
  [LWrite 1 [104; 105]; LMain ok; LMove 1 1; LMain ok; LWrite 2 [33]; LEof 1; LMove 1 1; LEnd 1; LMain ok; LMove 2 1; LMain ok; LEof 2; LEnd 2].
Definition two_end : st := default (init two {[3; 4]} 5) (run_labels two two_run (init two {[3; 4]} 5)).

Lemma two_ok : args_ok two {[3; 4]} 5.
Proof.
  split.
  - intros i h. simpl. repeat case_match; intros; simplify_eq; set_solver.
  - split; [lia|]. set_unfold. lia.
  - intros i j h. simpl. destruct (Z.eqb_spec i 1), (Z.eqb_spec j 1), (Z.eqb_spec i 2), (Z.eqb_spec j 2); intros; simplify_eq; lia.
Qed.

Lemma two_reached : reachable two {[3; 4]} 5 two_end.
Proof. apply (run_no_close two {[3; 4]} 5 two_run (init two {[3; 4]} 5)); [constructor|reflexivity|vm_compute; reflexivity]. Qed.


(** One stream for both outputs, as the shim sends it when the paths of stdout and
    stderr are equal. *)
Definition shared : args := mkArgs "" "stream://1" "stream://1" (λ i, if (i =? 1) || (i =? 2) then Some 3 else None).


(** A file for both outputs: the copy of stdout may see the end of a process that
    has exited, and close the file, before the count is raised for stderr. *)
Definition file : args := mkArgs "" "/log" "/log" (λ _, None).
Example short_exec_loses_stderr :
  ∃ s, run_labels file
         [LWrite 2 [104; 105]; LEof 1; LEof 2; LMain ok; LEnd 1; LClose 1; LMain ok; LMain ok; LMain ok; LMove 2 2]
         (init file ∅ 3) = Some s ∧
    main s = MDone None ∧ wg s = 0 ∧ broken s = ∅ ∧
    e_written <$> eps s !! 2 = Some [104; 105] ∧ (from 2 ∘ e_out) <$> eps s !! 3 = Some [].
Proof. eexists. split; [vm_compute; reflexivity|]. by vm_compute. Qed.

(** When the reading end of a FIFO cannot be opened its writing end stays open. *)
Example fifo_writer_leaks :
  (λ s, (e_open <$> eps s !! 3, elements (dom (gos s)))) <$>
    run_labels file [LMain (mkAnswers (Ok true) None (Some (ErrNew "ENXIO")) None)] (init file ∅ 3) =
  Some (Some true, []).
Proof. vm_compute. reflexivity. Qed.

End CopyDemo.
