(* ===== verification/GuestIO.v ===== *)
(** * Files and processes behind the I/O of a guest process

    Models what internal/guest/vminit/process/io.go opens and closes before any
    byte is copied: [createIO] with its schemes, the streams of a process
    ([getStreams] of utils.go), the logging binary ([NewBinaryIO] and the methods of
    [binaryIO]) and [processIO.Close]; and the consoles of
    internal/guest/vminit/runc/platform.go ([CopyConsole]).  The state knows which
    files are open, which processes run, and which files each goroutine that was
    started will close.  System calls, the OCI runtime's pipes and the stream
    manager are an interface ([Env]) whose every call may fail. *)

From Stdlib Require Import Ascii.
From S2P Require Import Prelude GoStrings ShimIO.

Module GuestIO.
#[local] Open Scope m_scope.
Import ShimIO (Stdio, mkStdio, Stdin, Stdout, Stderr, Terminal, IsNull, streams, mkStreams, s_in, s_out, s_err).

(** ** The system *)

Class Env (W : Type) := {
  url_Parse : string → result (string * string);       (* the scheme and the path *)
  NamespaceRequired : result string;
  sm_Get : Z → W → option Z * W;                        (* the open file of a stream *)
  NewPipeIO : bool * bool * bool → W → option error * W;
  NewNullIO : W → option error * W;
  os_MkdirAll : string → W → option error * W;
  os_OpenFile : string → W → option error * W;
  OpenFifo : string → bool → W → option error * W;
  os_Pipe : W → option error * W;
  cmd_Start : string → W → option error * W;
  read_ready : W → option error * W;                    (* the end of the pipe is no error *)
  close_file : Z → W → option error * W;
  proc_Signal : Z → W → option error * W;
  proc_Kill : Z → W → option error * W;
  proc_Wait : Z → W → option (option error) * W;        (* nothing within the timeout *)
  epoller_Add : W → option error * W }.

(** The open files, the running processes, and for each goroutine the files it
    closes when its copy ends. *)
Record st (W : Type) := mkSt { world : W; next : Z; live : gset Z; procs : gset Z; spawned : list (gset Z) }.
Arguments mkSt {W}. Arguments world {W}. Arguments next {W}. Arguments live {W}. Arguments procs {W}. Arguments spawned {W}.

Section io.
Context {W : Type} `{!Env W}.
Notation ST := (st W).

Definition call {A} (f : W → A * W) : M ST A := λ s,
  let '(a, w) := f (world s) in Return (a, mkSt w (next s) (live s) (procs s) (spawned s)).
Definition open_h : M ST Z := λ s,
  Return (next s, mkSt (world s) (next s + 1) ({[next s]} ∪ live s) (procs s) (spawned s)).
Definition start_p : M ST Z := λ s,
  Return (next s, mkSt (world s) (next s + 1) (live s) ({[next s]} ∪ procs s) (spawned s)).
Definition drop_h (h : Z) : M ST () := m_modify (λ s, mkSt (world s) (next s) (live s ∖ {[h]}) (procs s) (spawned s)).
Definition drop_p (p : Z) : M ST () := m_modify (λ s, mkSt (world s) (next s) (live s) (procs s ∖ {[p]}) (spawned s)).
Definition go_copy (hs : gset Z) : M ST () := m_modify (λ s, mkSt (world s) (next s) (live s) (procs s) (spawned s ++ [hs])).

(** A file is released whatever [Close] reports. *)
Definition close_h (h : Z) : M ST (option error) := e ← call (close_file h); drop_h h ≫= λ _, m_ret e.
Definition kill (p : Z) : M ST (option error) :=
  e ← call (proc_Kill p); match e with None => drop_p p ≫= λ _, m_ret None | Some _ => m_ret e end.

Definition opening (f : W → option error * W) : M ST (result Z) :=
  e ← call f; match e with Some e => m_ret (Err e) | None => h ← open_h; m_ret (Ok h) end.

(** [errors.Join]. *)
Definition errors_Join (es : list (option error)) : option error :=
  match omap id es with
  | [] => None
  | l => Some (ErrNew (strings_Join (error_text <$> l) (String (ascii_of_N 10) EmptyString)))
  end.
Fixpoint close_each (l : list (M ST (option error))) : M ST (list (option error)) :=
  match l with [] => m_ret [] | m :: l => e ← m; es ← close_each l; m_ret (e :: es) end.

(** ** Pipes and the logging binary *)

Record pipe := mkPipe { p_r : Z; p_w : Z }.

Definition newPipe : M ST (result pipe) :=
  e ← call os_Pipe;
  match e with Some e => m_ret (Err e) | None => r ← open_h; w ← open_h; m_ret (Ok (mkPipe r w)) end.

Definition wrap_opt (msg : string) (e : option error) : option error := ErrWrap msg <$> e.

Definition pipe_Close (p : pipe) : M ST (option error) :=
  e1 ← close_h (p_w p); e2 ← close_h (p_r p);
  m_ret (errors_Join [wrap_opt "pipe: failed to close write pipe" e1; wrap_opt "pipe: failed to close read pipe" e2]).

Record binaryIO := mkBinaryIO { b_cmd : option Z; b_out : option pipe; b_err : option pipe }.

(** The deferred function of [NewBinaryIO]. *)
Definition binary_fail (e : error) (closers : list (M ST (option error))) : M ST (result binaryIO) :=
  es ← close_each closers;
  m_ret (Err (match errors_Join (Some e :: es) with Some e' => e' | None => e end)).

(** The part after the pipes: start, close our end, wait for a byte. *)
Definition binary_start (path : string) (out serr ready : pipe) : M ST (result binaryIO) :=
  let closers := [pipe_Close out; pipe_Close serr; close_h (p_r ready); close_h (p_w ready)] in
  e ← call (cmd_Start path);
  match e with
  | Some e => binary_fail (ErrWrap "failed to start binary process" e) closers
  | None =>
      p ← start_p;
      let closers := closers ++ [kill p] in
      e ← close_h (p_w ready);
      match e with
      | Some e => binary_fail (ErrWrap "failed to close write pipe after start" e) closers
      | None =>
          e ← call read_ready;
          match e with
          | Some e => binary_fail (ErrWrap "failed to read from logging binary" e) closers
          | None => m_ret (Ok (mkBinaryIO (Some p) (Some out) (Some serr)))
          end
      end
  end.

Definition NewBinaryIO (path : string) : M ST (result binaryIO) :=
  match NamespaceRequired with
  | Err e => m_ret (Err e)
  | Ok _ =>
      out ← newPipe;
      match out with
      | Err e => binary_fail (ErrWrap "failed to create stdout pipes" e) []
      | Ok out =>
          serr ← newPipe;
          match serr with
          | Err e => binary_fail (ErrWrap "failed to create stderr pipes" e) [pipe_Close out]
          | Ok serr =>
              ready ← newPipe;
              match ready with
              | Err e => binary_fail e [pipe_Close out; pipe_Close serr]
              | Ok ready => binary_start path out serr ready
              end
          end
      end
  end.

Definition binary_cancel (b : binaryIO) : M ST (option error) :=
  match b_cmd b with
  | None => m_ret None
  | Some p =>
      e ← call (proc_Signal p);
      match e with
      | Some e =>
          k ← kill p;
          m_ret (errors_Join [Some (ErrWrap "failed to send SIGTERM" e); wrap_opt "failed to kill process after faulty SIGTERM" k])
      | None =>
          r ← call (proc_Wait p);
          match r with
          | Some e => drop_p p ≫= λ _, m_ret e
          | None => k ← kill p; m_ret (wrap_opt "failed to kill shim logger process" k)
          end
      end
  end.

Definition pipe_opt_Close (o : option pipe) : M ST (option error) :=
  match o with Some p => pipe_Close p | None => m_ret None end.

Definition binary_Close (b : binaryIO) : M ST (option error) :=
  e1 ← pipe_opt_Close (b_out b); e2 ← pipe_opt_Close (b_err b); e3 ← binary_cancel b;
  m_ret (errors_Join [e1; e2; e3]).

Definition binary_CloseAfterStart (b : binaryIO) : M ST (option error) :=
  let close_r o := match o with Some p => close_h (p_r p) | None => m_ret None end in
  e1 ← close_r (b_out b); e2 ← close_r (b_err b); m_ret (errors_Join [e1; e2]).

(** ** processIO *)

(** [runc.IO]: what the OCI runtime's library made is closed as one. *)
Inductive rio := NullIO (h : Z) | PipeIO (h : Z) | BinaryIO (b : binaryIO).
Definition rio_Close (i : rio) : M ST (option error) :=
  match i with NullIO h | PipeIO h => close_h h | BinaryIO b => binary_Close b end.

Record processIO := mkProcessIO { p_io : option rio; p_copy : bool; p_stdio : Stdio; p_streams : streams }.

Definition close_stream (o : option Z) : M ST () :=
  match o with Some h => close_h h ≫= λ _, m_ret tt | None => m_ret tt end.

Definition processIO_Close (p : processIO) : M ST (option error) :=
  match p_io p with
  | Some i => rio_Close i
  | None =>
      close_stream (s_in (p_streams p)) ≫= λ _,
      close_stream (s_out (p_streams p)) ≫= λ _,
      (if bool_decide (s_err (p_streams p) = s_out (p_streams p)) then m_ret tt else close_stream (s_err (p_streams p))) ≫= λ _,
      m_ret None
  end.

Definition getStream (uri : string) : M ST (result Z) :=
  if negb (HasPrefix uri "stream://") then m_ret (Err (ErrWrap "not a stream" (ErrSentinel ErrInvalidArgument)))
  else
    match ParseUint (str_drop 9 uri) 10 32 with
    | None => m_ret (Err (ErrNew ("invalid stream id " +:+ uri)))
    | Some sid =>
        c ← call (sm_Get sid);
        m_ret (match c with Some h => Ok h | None => Err (ErrWrap ("unable to get stream " +:+ fmt_d sid) (ErrSentinel ErrNotFound)) end)
    end.

Definition stream_if (uri : string) : M ST (result (option Z)) :=
  if String.eqb uri "" then m_ret (Ok None)
  else r ← getStream uri; m_ret (match r with Ok h => Ok (Some h) | Err e => Err e end).

Definition getStreams (sio : Stdio) : M ST (result streams) :=
  i ← stream_if (Stdin sio);
  match i with
  | Err e => m_ret (Err (ErrWrap "failed to get stdin stream" e))
  | Ok i =>
      o ← stream_if (Stdout sio);
      match o with
      | Err e => close_stream i ≫= λ _, m_ret (Err (ErrWrap "failed to get stdout stream" e))
      | Ok o =>
          r ← stream_if (Stderr sio);
          match r with
          | Err e => close_stream i ≫= λ _, close_stream o ≫= λ _, m_ret (Err (ErrWrap "failed to get stderr stream" e))
          | Ok r => m_ret (Ok (mkStreams i o r))
          end
      end
  end.

Definition no_streams : streams := mkStreams None None None.

(** [withConditionalIO]. *)
Definition withConditionalIO (sio : Stdio) : bool * bool * bool :=
  (negb (String.eqb (Stdin sio) ""), negb (String.eqb (Stdout sio) ""), negb (String.eqb (Stderr sio) "")).

Definition new_pipe_io (sio : Stdio) (k : rio → processIO) : M ST (result processIO) :=
  r ← opening (NewPipeIO (withConditionalIO sio));
  m_ret (match r with Ok h => Ok (k (PipeIO h)) | Err e => Err e end).

Definition createStreamIO (sio : Stdio) : M ST (result processIO) :=
  r ← getStreams sio;
  match r with
  | Err e => m_ret (Err e)
  | Ok ss => new_pipe_io sio (λ i, mkProcessIO (Some i) true sio ss)
  end.

Definition createFifoIO (sio : Stdio) : M ST (result processIO) :=
  new_pipe_io sio (λ i, mkProcessIO (Some i) true sio no_streams).

Definition createBinaryIO (sio : Stdio) (path : string) : M ST (result processIO) :=
  r ← NewBinaryIO path;
  m_ret (match r with Ok b => Ok (mkProcessIO (Some (BinaryIO b)) false sio no_streams) | Err e => Err e end).

Definition createFileIO (sio : Stdio) (path : string) : M ST (result processIO) :=
  e ← call (os_MkdirAll (filepath_Dir path));
  match e with
  | Some e => m_ret (Err e)
  | None =>
      f ← opening (os_OpenFile path);
      match f with
      | Err e => m_ret (Err e)
      | Ok h =>
          e ← close_h h;
          match e with
          | Some e => m_ret (Err e)
          | None => new_pipe_io sio (λ i, mkProcessIO (Some i) true (mkStdio (Stdin sio) path path (Terminal sio)) no_streams)
          end
      end
  end.

Definition createIO (sio : Stdio) : M ST (result processIO) :=
  if IsNull sio then
    r ← opening NewNullIO;
    m_ret (match r with Ok h => Ok (mkProcessIO (Some (NullIO h)) false sio no_streams) | Err e => Err e end)
  else
    match url_Parse (Stdout sio) with
    | Err e => m_ret (Err (ErrWrap "unable to parse stdout uri" e))
    | Ok (scheme, path) =>
        let scheme := if String.eqb scheme "" then "fifo" else scheme in
        if String.eqb scheme "stream" then createStreamIO sio
        else if String.eqb scheme "fifo" then createFifoIO sio
        else if String.eqb scheme "binary" then createBinaryIO sio path
        else if String.eqb scheme "file" then createFileIO sio path
        else m_ret (Err (ErrWrap ("unsupported STDIO scheme " +:+ scheme) (ErrSentinel ErrNotImplemented)))
    end.

(** ** Consoles *)

(** [setupStdinCopy]: the goroutine closes what it copies from. *)
Definition setupStdinCopy (stdin : string) : M ST (result (option Z)) :=
  if String.eqb stdin "" then m_ret (Ok None)
  else
    i ← match CutPrefix stdin "stream://" with
        | Some rest =>
            match ParseUint rest 10 32 with
            | None => m_ret (Err (ErrNew ("strconv.ParseUint: parsing " +:+ rest)))
            | Some sid => c ← call (sm_Get sid); m_ret (match c with Some h => Ok h | None => Err (ErrSentinel ErrNotFound) end)
            end
        | None => opening (OpenFifo stdin false)
        end;
    match i with
    | Err e => m_ret (Err e)
    | Ok h => go_copy {[h]} ≫= λ _, m_ret (Ok (Some h))
    end.

Definition copyToStream (stdout : string) : M ST (option error) :=
  match ParseUint (TrimPrefix stdout "stream://") 10 32 with
  | None => m_ret (Some (ErrNew ("strconv.ParseUint: parsing " +:+ TrimPrefix stdout "stream://")))
  | Some sid =>
      c ← call (sm_Get sid);
      match c with
      | None => m_ret (Some (ErrSentinel ErrNotFound))
      | Some h => go_copy {[h]} ≫= λ _, m_ret None
      end
  end.

Definition CloseFiles (l : list Z) : M ST () := m_for (λ h, close_h h ≫= λ _, m_ret tt) l.

(** The defer of [copyToBinary]. *)
Definition console_fail (e : error) (l : list Z) : M ST (option error) := CloseFiles l ≫= λ _, m_ret (Some e).

Definition console_start (path : string) (out serr ready : pipe) : M ST (option error) :=
  let files := [p_r out; p_r serr; p_r ready] in
  go_copy {[p_w out]} ≫= λ _,
  e ← call (cmd_Start path);
  match e with
  | Some e => console_fail (ErrWrap "failed to start logging binary process" e) files
  | None =>
      start_p ≫= λ _,
      e ← close_h (p_w ready);
      match e with
      | Some e => console_fail (ErrWrap "failed to close write pipe after start" e) files
      | None =>
          e ← call read_ready;
          match e with
          | Some e => console_fail (ErrWrap "failed to read from logging binary" e) files
          | None => m_ret None
          end
      end
  end.

Definition copyToBinary (path : string) : M ST (option error) :=
  match NamespaceRequired with
  | Err e => m_ret (Some e)
  | Ok _ =>
      out ← newPipe;
      match out with
      | Err e => console_fail (ErrWrap "failed to create stdout pipes" e) []
      | Ok out =>
          serr ← newPipe;
          match serr with
          | Err e => console_fail (ErrWrap "failed to create stderr pipes" e) [p_r out]
          | Ok serr =>
              ready ← newPipe;
              match ready with
              | Err e => console_fail e [p_r out; p_r serr]
              | Ok ready => console_start path out serr ready
              end
          end
      end
  end.

Definition copyToFifo (stdout : string) : M ST (option error) :=
  w ← opening (OpenFifo stdout true);
  match w with
  | Err e => m_ret (Some e)
  | Ok outw =>
      r ← opening (OpenFifo stdout false);
      match r with
      | Err e => m_ret (Some e)
      | Ok outr => go_copy {[outw; outr]} ≫= λ _, m_ret None
      end
  end.

(** [CopyConsole]: the closer of the console's stdin, if it has one. *)
Definition CopyConsole (stdin stdout : string) : M ST (result (option Z)) :=
  e ← call epoller_Add;
  match e with
  | Some e => m_ret (Err e)
  | None =>
      c ← setupStdinCopy stdin;
      match c with
      | Err e => m_ret (Err e)
      | Ok c =>
          match url_Parse stdout with
          | Err e => m_ret (Err (ErrWrap "unable to parse stdout uri" e))
          | Ok (scheme, path) =>
              e ← (if String.eqb scheme "stream" then copyToStream stdout
                   else if String.eqb scheme "binary" then copyToBinary path
                   else copyToFifo stdout);
              m_ret (match e with Some e => Err e | None => Ok c end)
          end
      end
  end.

End io.
End GuestIO.

(** ** Accounting *)

Section accounting.
Import GuestIO.
Import ShimIO (Stdio, mkStdio, Stdin, Stdout, Stderr, Terminal, IsNull, streams, mkStreams, s_in, s_out, s_err).
Context {W : Type} `{!Env W}.
Implicit Types (s : st W).
#[local] Open Scope m_scope.

(** Handles and processes are numbered in the order they appear. *)
Definition fresh_st s : Prop := ∀ x, x ∈ live s ∪ procs s → x < next s.

(** Since [s0] the files [H] were opened, the processes [P] and the goroutines [G]
    started, and all others are as they were. *)
Record acct s0 (H P : gset Z) (G : list (gset Z)) s : Prop := mkAcct {
  ac_live : live s = live s0 ∪ H;
  ac_procs : procs s = procs s0 ∪ P;
  ac_spawned : spawned s = spawned s0 ++ G;
  ac_new : ∀ x, x ∈ H ∪ P → next s0 ≤ x < next s;
  ac_next : next s0 ≤ next s;
  ac_fresh : fresh_st s0 }.

Lemma acct_refl s : fresh_st s → acct s ∅ ∅ [] s.
Proof. intros Hf. split; [set_solver|set_solver|by rewrite app_nil_r|set_solver|lia|done]. Qed.

Lemma acct_eq s0 H H' P P' G s : acct s0 H P G s → H' = H → P' = P → acct s0 H' P' G s.
Proof. by intros ? -> ->. Qed.

(** A rule per operation. *)
Lemma wp_io_call {A} (f : W → A * W) (Q : A → st W → Prop) s0 H P G s :
  acct s0 H P G s → (∀ w s', acct s0 H P G s' → Q (f w).1 s') → wp (call f) Q s.
Proof.
  intros [A1 A2 A3 A4 A5 A6] HQ. unfold wp, call. specialize (HQ (world s)). destruct (f (world s)) as [a w]. apply HQ. by split.
Qed.

Lemma wp_open_h (Q : Z → st W → Prop) s0 H P G s :
  acct s0 H P G s → (∀ h s', next s0 ≤ h → h ∉ H → h ∉ P → acct s0 ({[h]} ∪ H) P G s' → Q h s') → wp open_h Q s.
Proof.
  intros [A1 A2 A3 A4 A5 A6] HQ. unfold wp, open_h. assert (next s ∉ H ∪ P) by (intros Hx%A4; lia).
  apply HQ; [done|set_solver|set_solver|].
  split; simpl; [set_solver|done|done| |lia|done]. intros x Hx. assert (x = next s ∨ x ∈ H ∪ P) as [->|Hx'] by set_solver; [lia|].
  specialize (A4 x Hx'). lia.
Qed.

Lemma wp_start_p (Q : Z → st W → Prop) s0 H P G s :
  acct s0 H P G s → (∀ p s', next s0 ≤ p → p ∉ P → acct s0 H ({[p]} ∪ P) G s' → Q p s') → wp start_p Q s.
Proof.
  intros [A1 A2 A3 A4 A5 A6] HQ. unfold wp, start_p. assert (next s ∉ H ∪ P) by (intros Hx%A4; lia).
  apply HQ; [done|set_solver|].
  split; simpl; [done|set_solver|done| |lia|done]. intros x Hx. assert (x = next s ∨ x ∈ H ∪ P) as [->|Hx'] by set_solver; [lia|].
  specialize (A4 x Hx'). lia.
Qed.

Lemma not_live s0 h : fresh_st s0 → next s0 ≤ h → h ∉ live s0 ∧ h ∉ procs s0.
Proof. intros Hf Hh. assert (h ∉ live s0 ∪ procs s0) by (intros Hx%Hf; lia). set_solver. Qed.

Lemma wp_close_new h (Q : option error → st W → Prop) s0 H P G s :
  acct s0 H P G s → next s0 ≤ h → (∀ e s', acct s0 (H ∖ {[h]}) P G s' → Q e s') → wp (close_h h) Q s.
Proof.
  intros HA Hh HQ. unfold close_h. apply wp_bind. eapply wp_io_call; [done|]. intros w s1 [A1 A2 A3 A4 A5 A6].
  apply wp_bind, wp_modify, wp_ret, HQ. destruct (not_live s0 h A6 Hh). split; simpl; try done; [set_solver|].
  intros x Hx. apply A4. set_solver.
Qed.

Lemma wp_pipe (Q : result pipe → st W → Prop) s0 H P G s :
  acct s0 H P G s → (∀ e s', acct s0 H P G s' → Q (Err e) s') →
  (∀ r w s', next s0 ≤ r → next s0 ≤ w → r ∉ H → w ∉ H → r ≠ w → acct s0 ({[w; r]} ∪ H) P G s' → Q (Ok (mkPipe r w)) s') →
  wp newPipe Q s.
Proof.
  intros HA HE HO. unfold newPipe. apply wp_bind. eapply wp_io_call; [done|]. intros w s1 HA1. destruct (os_Pipe w).1 as [e|]; [by apply wp_ret, HE|].
  apply wp_bind. eapply wp_open_h; [done|]. intros r s2 Hr HrH _ HA2. apply wp_bind. eapply wp_open_h; [done|]. intros w' s3 Hw HwH _ HA3.
  apply wp_ret, HO; try done; [set_solver..|]. eapply acct_eq; [done|set_solver|done].
Qed.

Lemma wp_pipe_Close p (Q : option error → st W → Prop) s0 H P G s :
  acct s0 H P G s → next s0 ≤ p_r p → next s0 ≤ p_w p → (∀ e s', acct s0 (H ∖ {[p_w p; p_r p]}) P G s' → Q e s') → wp (pipe_Close p) Q s.
Proof.
  intros HA Hr Hw HQ. unfold pipe_Close. apply wp_bind. eapply wp_close_new; [done..|]. intros e1 s1 HA1.
  apply wp_bind. eapply wp_close_new; [done..|]. intros e2 s2 HA2. apply wp_ret, HQ. eapply acct_eq; [done|set_solver|done].
Qed.

(** Killing a child with SIGKILL succeeds. *)
Definition kills : Prop := ∀ p (w : W), (proc_Kill p w).1 = None.

Lemma wp_kill p (Q : option error → st W → Prop) s0 H P G s :
  kills → acct s0 H P G s → next s0 ≤ p → (∀ e s', acct s0 H (P ∖ {[p]}) G s' → Q e s') → wp (kill p) Q s.
Proof.
  intros Hk HA Hp HQ. unfold kill. apply wp_bind. eapply wp_io_call; [done|]. intros w s1 [A1 A2 A3 A4 A5 A6]. rewrite Hk.
  apply wp_bind, wp_modify, wp_ret, HQ. destruct (not_live s0 p A6 Hp). split; simpl; try done; [set_solver|].
  intros x Hx. apply A4. set_solver.
Qed.
(** *** The logging binary *)

(** A function that closes the files [c.1] and ends the processes [c.2]. *)
Definition closer s0 (c : gset Z * gset Z) (m : M (st W) (option error)) : Prop :=
  ∀ H P G s, acct s0 H P G s → wp m (λ _ s', acct s0 (H ∖ c.1) (P ∖ c.2) G s') s.

Lemma closer_h s0 h : next s0 ≤ h → closer s0 ({[h]}, ∅) (close_h h).
Proof.
  intros Hh H P G s HA. eapply wp_close_new; [done..|]. intros e s' HA'. eapply acct_eq; [done|done|]. simpl. set_solver.
Qed.
Lemma closer_pipe s0 p : next s0 ≤ p_r p → next s0 ≤ p_w p → closer s0 ({[p_w p; p_r p]}, ∅) (pipe_Close p).
Proof.
  intros Hr Hw H P G s HA. eapply wp_pipe_Close; [done..|]. intros e s' HA'. eapply acct_eq; [done|done|]. simpl. set_solver.
Qed.
Lemma closer_kill s0 p : kills → next s0 ≤ p → closer s0 (∅, {[p]}) (kill p).
Proof.
  intros Hk Hp H P G s HA. eapply wp_kill; [done..|]. intros e s' HA'. eapply acct_eq; [done| |done]. simpl. set_solver.
Qed.

Lemma wp_close_each s0 cs ms H P G s :
  Forall2 (closer s0) cs ms → acct s0 H P G s →
  wp (close_each ms) (λ _ s', acct s0 (H ∖ ⋃ (fst <$> cs)) (P ∖ ⋃ (snd <$> cs)) G s') s.
Proof.
  intros Hc. revert H P s. induction Hc as [|c m cs ms Hm _ IH]; intros H P s HA; cbn [close_each].
  - apply wp_ret. eapply acct_eq; [done|simpl; set_solver..].
  - apply wp_bind. eapply wp_mono; [by apply Hm|]. intros e s1 HA1. apply wp_bind. eapply wp_mono; [eapply IH; exact HA1|].
    intros es s2 HA2. apply wp_ret. eapply acct_eq; [exact HA2|simpl; set_solver..].
Qed.

(** A failure closes everything that was opened. *)
Lemma wp_binary_fail s0 cs ms e H P G s (Q : result binaryIO → st W → Prop) :
  Forall2 (closer s0) cs ms → acct s0 H P G s → H ⊆ ⋃ (fst <$> cs) → P ⊆ ⋃ (snd <$> cs) →
  (∀ e s', acct s0 ∅ ∅ G s' → Q (Err e) s') → wp (binary_fail e ms) Q s.
Proof.
  intros Hc HA HH HP HQ. unfold binary_fail. apply wp_bind. eapply wp_mono; [by eapply wp_close_each|].
  intros es s' HA'. apply wp_ret, HQ. eapply acct_eq; [exact HA'|set_solver..].
Qed.

(** The files of a running logging binary, and the end of the pipe it has
    announced itself on. *)
Definition binary_held (b : binaryIO) (H P : gset Z) (n : Z) : Prop :=
  ∃ p out serr r, b = mkBinaryIO (Some p) (Some out) (Some serr) ∧ H = {[r; p_r out; p_w out; p_r serr; p_w serr]} ∧ P = {[p]} ∧
    n ≤ p ∧ n ≤ r ∧ n ≤ p_r out ∧ n ≤ p_w out ∧ n ≤ p_r serr ∧ n ≤ p_w serr ∧ r ∉ ({[p_r out; p_w out; p_r serr; p_w serr]} : gset Z).

#[local] Hint Resolve closer_h closer_pipe closer_kill : core.

Ltac closers := cbn [app]; repeat first [apply Forall2_nil_2 | apply Forall2_cons_2; [eauto|]].

Lemma wp_NewBinaryIO path G s0 s (Q : result binaryIO → st W → Prop) :
  kills → acct s0 ∅ ∅ G s → (∀ e s', acct s0 ∅ ∅ G s' → Q (Err e) s') →
  (∀ b H P s', binary_held b H P (next s0) → acct s0 H P G s' → Q (Ok b) s') → wp (NewBinaryIO path) Q s.
Proof.
  intros Hk HA HE HO. unfold NewBinaryIO. destruct NamespaceRequired; [|by apply wp_ret, HE].
  apply wp_bind. eapply wp_pipe; [done|intros e s1 HA1; by eapply (wp_binary_fail _ []); [constructor|done|done|done|]|].
  intros r1 w1 s1 Hr1 Hw1 _ _ _ HA1. apply wp_bind.
  eapply wp_pipe; [done|intros e s2 HA2; eapply (wp_binary_fail _ [_]); [by repeat constructor; apply closer_pipe|done|simpl; set_solver|simpl; set_solver|done]|].
  intros r2 w2 s2 Hr2 Hw2 _ _ _ HA2. apply wp_bind.
  eapply wp_pipe; [done|intros e s3 HA3; eapply (wp_binary_fail _ [_; _]); [by repeat constructor; apply closer_pipe|done|simpl; set_solver|simpl; set_solver|done]|].
  intros r w s3 Hr Hw Hrf Hwf Hrw HA3. unfold binary_start. apply wp_bind. eapply wp_io_call; [done|]. intros x s4 HA4.
  destruct (cmd_Start path x).1 as [e|].
  { eapply (wp_binary_fail _ [_; _; _; _]); [closers|done|simpl; set_solver|simpl; set_solver|done]. }
  apply wp_bind. eapply wp_start_p; [done|]. intros p s5 Hp _ HA5. apply wp_bind. eapply wp_close_new; [done|done|]. intros e s6 HA6.
  destruct e as [e|].
  { eapply (wp_binary_fail _ [_; _; _; _; _]); [closers|done|simpl; set_solver|simpl; set_solver|done]. }
  apply wp_bind. eapply wp_io_call; [done|]. intros y s7 HA7. destruct (read_ready y).1 as [e|].
  { eapply (wp_binary_fail _ [_; _; _; _; _]); [closers|done|simpl; set_solver|simpl; set_solver|done]. }
  apply wp_ret. eapply HO; [|exact HA7]. exists p, (mkPipe r1 w1), (mkPipe r2 w2), r. simpl in *. split_and!; try done; set_solver.
Qed.
Lemma wp_cancel_binary p b H G s0 s (Q : option error → st W → Prop) :
  kills → b_cmd b = Some p → next s0 ≤ p → acct s0 H {[p]} G s → (∀ e s', acct s0 H ∅ G s' → Q e s') → wp (binary_cancel b) Q s.
Proof.
  intros Hk Hb Hp HA HQ. assert (∀ e s', acct s0 H ({[p]} ∖ {[p]}) G s' → Q e s') as HQ'.
  { intros e s' HA'. apply HQ. eapply acct_eq; [done|done|set_solver]. }
  unfold binary_cancel. rewrite Hb. apply wp_bind. eapply wp_io_call; [done|]. intros w s1 HA1. destruct (proc_Signal p w).1 as [e|].
  { apply wp_bind. eapply wp_kill; [done..|]. intros e' s2 HA2. by apply wp_ret, HQ'. }
  apply wp_bind. eapply wp_io_call; [done|]. intros w2 s2 HA2. destruct (proc_Wait p w2).1 as [e|].
  - apply wp_bind, wp_modify, wp_ret, HQ. destruct HA2 as [A1 A2 A3 A4 A5 A6]. destruct (not_live s0 p A6 Hp).
    split; simpl; try done; [set_solver|]. intros x Hx. apply A4. set_solver.
  - apply wp_bind. eapply wp_kill; [done..|]. intros e' s3 HA3. by apply wp_ret, HQ'.
Qed.

(** The read end that [NewBinaryIO] keeps open is not among what [Close] closes. *)
Lemma wp_binary_Close b H P G s0 s (Q : option error → st W → Prop) :
  kills → binary_held b H P (next s0) → acct s0 H P G s →
  (∀ e r s', next s0 ≤ r → acct s0 {[r]} ∅ G s' → Q e s') → wp (binary_Close b) Q s.
Proof.
  intros Hk (p & out & serr & r & -> & -> & -> & Hp & Hr & H1 & H2 & H3 & H4 & Hrn) HA HQ. unfold binary_Close. cbn [b_out b_err pipe_opt_Close].
  apply wp_bind. eapply wp_pipe_Close; [done..|]. intros e1 s1 HA1. apply wp_bind. eapply wp_pipe_Close; [done..|]. intros e2 s2 HA2.
  apply wp_bind. eapply wp_cancel_binary; [done|done|done|exact HA2|]. intros e3 s3 HA3. apply wp_ret, (HQ _ r); [done|].
  eapply acct_eq; [done|set_solver|done].
Qed.

(** *** createIO *)

(** Nothing was opened or started; streams may have been closed. *)
Definition shrunk s0 s : Prop := live s ⊆ live s0 ∧ procs s = procs s0.

Lemma acct_shrunk s0 G s : acct s0 ∅ ∅ G s → shrunk s0 s.
Proof. intros [A1 A2 _ _ _ _]. split; set_solver. Qed.

Lemma wp_close_stream o s0 s (Q : () → st W → Prop) : shrunk s0 s → (∀ s', shrunk s0 s' → Q tt s') → wp (close_stream o) Q s.
Proof.
  intros Hs HQ. destruct o as [h|]; [|by apply wp_ret, HQ]. unfold close_stream, close_h. apply wp_bind, wp_bind.
  unfold wp at 1, call. destruct (close_file h (world s)) as [e w]. apply wp_bind, wp_modify, wp_ret, wp_ret, HQ.
  destruct Hs as [H1 H2]. split; simpl; [set_solver|done].
Qed.

Lemma wp_stream_if uri s0 G s (Q : result (option Z) → st W → Prop) :
  acct s0 ∅ ∅ G s → (∀ r s', acct s0 ∅ ∅ G s' → Q r s') → wp (stream_if uri) Q s.
Proof.
  intros HA HQ. unfold stream_if. destruct (String.eqb uri ""); [by apply wp_ret, HQ|]. apply wp_bind. unfold getStream.
  destruct (negb _); [by apply wp_ret, wp_ret, HQ|]. destruct (ParseUint _ _ _) as [sid|]; [|by apply wp_ret, wp_ret, HQ].
  apply wp_bind. eapply wp_io_call; [done|]. intros w s' HA'. by apply wp_ret, wp_ret, HQ.
Qed.

Lemma wp_getStreams sio s0 G s (Q : result streams → st W → Prop) :
  acct s0 ∅ ∅ G s → (∀ e s', shrunk s0 s' → Q (Err e) s') → (∀ ss s', acct s0 ∅ ∅ G s' → Q (Ok ss) s') → wp (getStreams sio) Q s.
Proof.
  intros HA HE HO. unfold getStreams. apply wp_bind. eapply wp_stream_if; [done|]. intros i s1 HA1.
  destruct i as [i|e]; [|by eapply wp_ret, HE, acct_shrunk].
  apply wp_bind. eapply wp_stream_if; [done|]. intros o s2 HA2.
  destruct o as [o|e]; [|apply wp_bind; eapply wp_close_stream; [by eapply acct_shrunk|]; intros s3 Hs; by apply wp_ret, HE].
  apply wp_bind. eapply wp_stream_if; [done|]. intros r s3 HA3. destruct r as [r|e]; [by apply wp_ret, HO|].
  apply wp_bind. eapply wp_close_stream; [by eapply acct_shrunk|]. intros s4 Hs4.
  apply wp_bind. eapply wp_close_stream; [done|]. intros s5 Hs5. by apply wp_ret, HE.
Qed.

Lemma wp_opening f s0 H P G s (Q : result Z → st W → Prop) :
  acct s0 H P G s → (∀ e s', acct s0 H P G s' → Q (Err e) s') →
  (∀ h s', next s0 ≤ h → h ∉ H → acct s0 ({[h]} ∪ H) P G s' → Q (Ok h) s') → wp (opening f) Q s.
Proof.
  intros HA HE HO. unfold opening. apply wp_bind. eapply wp_io_call; [done|]. intros w s1 HA1. destruct (f w).1 as [e|]; [by apply wp_ret, HE|].
  apply wp_bind. eapply wp_open_h; [done|]. intros h s2 Hh Hn _ HA2. by apply wp_ret, HO.
Qed.

(** The files and processes of a [runc.IO]. *)
Definition io_held (i : rio) (H P : gset Z) (n : Z) : Prop :=
  match i with NullIO h | PipeIO h => H = {[h]} ∧ P = ∅ ∧ n ≤ h | BinaryIO b => binary_held b H P n end.
Definition made s0 (p : processIO) s : Prop := ∃ i H P, p_io p = Some i ∧ io_held i H P (next s0) ∧ acct s0 H P [] s.

Definition accounted s0 (r : result processIO) s : Prop :=
  match r with Err _ => shrunk s0 s | Ok p => made s0 p s end.

Lemma wp_new_pipe_io sio k s0 s (Q : result processIO → st W → Prop) :
  (∀ i, p_io (k i) = Some i) → acct s0 ∅ ∅ [] s → (∀ r s', accounted s0 r s' → Q r s') → wp (new_pipe_io sio k) Q s.
Proof.
  intros Hk HA HQ. unfold new_pipe_io. apply wp_bind. eapply wp_opening; [done| |].
  - intros e s' HA'. apply wp_ret, HQ. simpl. by eapply acct_shrunk.
  - intros h s' Hh _ HA'. apply wp_ret, HQ. exists (PipeIO h), ({[h]} ∪ ∅), ∅. split_and!; [done|simpl; split_and!; [set_solver|done|done]|done].
Qed.

Lemma wp_createIO sio s0 s (Q : result processIO → st W → Prop) :
  kills → acct s0 ∅ ∅ [] s → (∀ r s', accounted s0 r s' → Q r s') → wp (createIO sio) Q s.
Proof.
  intros Hk HA HQ. assert (∀ e s', acct s0 ∅ ∅ [] s' → Q (Err e) s') as HE by (intros e s' HA'; apply HQ; by eapply acct_shrunk).
  unfold createIO. destruct (IsNull sio).
  { apply wp_bind. eapply wp_opening; [done|intros e s' HA'; by apply wp_ret, HE|]. intros h s' Hh _ HA'. apply wp_ret, HQ.
    exists (NullIO h), ({[h]} ∪ ∅), ∅. split_and!; [done|simpl; split_and!; [set_solver|done|done]|done]. }
  destruct (url_Parse (Stdout sio)) as [[scheme path]|e]; [|by apply wp_ret, HE]. cbv zeta.
  generalize (if String.eqb scheme "" then "fifo" else scheme). intros sch. destruct (String.eqb sch "stream");
    [|destruct (String.eqb sch "fifo"); [|destruct (String.eqb sch "binary"); [|destruct (String.eqb sch "file"); [|by apply wp_ret, HE]]]].
  - unfold createStreamIO. apply wp_bind. eapply wp_getStreams; [done|intros e s' Hs; by apply wp_ret, HQ|]. intros ss s' HA'.
    by eapply wp_new_pipe_io.
  - unfold createFifoIO. by eapply wp_new_pipe_io.
  - unfold createBinaryIO. apply wp_bind. eapply wp_NewBinaryIO; [done|done|intros e s' HA'; by apply wp_ret, HE|].
    intros b H' P s' Hb HA'. apply wp_ret, HQ. by exists (BinaryIO b), H', P.
  - unfold createFileIO. apply wp_bind. eapply wp_io_call; [done|]. intros w s1 HA1. destruct (os_MkdirAll _ w).1; [by apply wp_ret, HE|].
    apply wp_bind. eapply wp_opening; [done|intros e s' HA'; by apply wp_ret, HE|]. intros h s2 Hh _ HA2.
    apply wp_bind. eapply wp_close_new; [done..|]. intros e s3 HA3.
    assert (acct s0 ∅ ∅ [] s3) as HA3' by (eapply acct_eq; [exact HA3|set_solver|done]).
    destruct e as [e|]; [by apply wp_ret, HE|]. by eapply wp_new_pipe_io.
Qed.
(** C26: the files of a process's I/O, whatever system calls fail.  When [createIO]
    fails, no file it opened is open and no process it started runs.  When it
    succeeds, closing its result at once ends every process and closes every file
    it opened, with two exceptions, which are what the code leaves to the garbage
    collector and to the copies: for a logging binary one file stays open, the read
    end of the pipe on which the binary said that it was ready; and the streams of
    the process stay open, since [Close] does not reach them once there is a
    [runc.IO]. *)
Theorem createIO_accounted sio s :
  fresh_st s → kills →
  ∃ r s', createIO sio s = Return (r, s') ∧
    match r with
    | Err _ => live s' ⊆ live s ∧ procs s' = procs s
    | Ok p => ∃ e s2, processIO_Close p s' = Return (e, s2) ∧ procs s2 = procs s ∧
        match p_io p with
        | Some (BinaryIO _) => ∃ r, r ∉ live s ∧ live s2 = {[r]} ∪ live s
        | _ => live s2 = live s
        end
    end.
Proof.
  intros Hf Hk. apply wp_Return. eapply wp_createIO; [done|by apply acct_refl|]. intros [p|e] s'; [|done].
  intros (i & H & P & Hi & Hh & HA). apply wp_Return. unfold processIO_Close. rewrite Hi. destruct i as [h|h|b]; simpl in *.
  1,2: destruct Hh as (-> & -> & Hn); eapply wp_close_new; [done..|]; intros e s2 [A1 A2 _ _ _ _]; split; set_solver.
  eapply wp_binary_Close; [done..|]. intros e r s2 Hr [A1 A2 _ _ _ _]. split; [set_solver|]. exists r.
  split; [by apply (not_live s r Hf)|]. rewrite A1. set_solver.
Qed.
(** *** Consoles *)

Lemma wp_go hs s0 H P G s (Q : () → st W → Prop) :
  acct s0 H P G s → (∀ s', acct s0 H P (G ++ [hs]) s' → Q tt s') → wp (go_copy hs) Q s.
Proof.
  intros [A1 A2 A3 A4 A5 A6] HQ. apply wp_modify, HQ. split; try done. simpl. by rewrite A3, app_assoc.
Qed.

(** Every file opened is closed by a goroutine, but for those of [L]. *)
Definition owned_but (L H : gset Z) (G : list (gset Z)) : Prop := H ⊆ ⋃ G ∪ L ∧ L ⊆ H.

Definition console_spec s0 (L : gset Z → Prop) s : Prop := ∃ H P G l, acct s0 H P G s ∧ L l ∧ owned_but l H G.

Lemma wp_setupStdinCopy stdin s0 s (Q : result (option Z) → st W → Prop) :
  acct s0 ∅ ∅ [] s → (∀ e s', Q (Err e) s') → (∀ c H G s', acct s0 H ∅ G s' → H ⊆ ⋃ G → Q (Ok c) s') → wp (setupStdinCopy stdin) Q s.
Proof.
  intros HA HE HO. unfold setupStdinCopy. destruct (String.eqb stdin ""); [apply wp_ret; by eapply HO|]. apply wp_bind.
  destruct (CutPrefix stdin "stream://") as [rest|].
  - destruct (ParseUint rest 10 32) as [sid|]; [|by apply wp_ret, wp_ret, HE]. apply wp_bind. eapply wp_io_call; [done|]. intros w s1 HA1.
    apply wp_ret. destruct (sm_Get sid w).1 as [h|]; [|by apply wp_ret, HE].
    apply wp_bind. eapply wp_go; [done|]. intros s2 HA2. apply wp_ret. eapply HO; [done|set_solver].
  - eapply wp_opening; [done|intros e s1 _; by apply wp_ret, HE|]. intros h s1 Hh _ HA1. apply wp_bind. eapply wp_go; [done|].
    intros s2 HA2. apply wp_ret. eapply HO; [done|]. simpl. set_solver.
Qed.

Lemma wp_CloseFiles_any l (Q : () → st W → Prop) s : (∀ s', Q tt s') → wp (CloseFiles l) Q s.
Proof.
  intros HQ. unfold CloseFiles. revert s. induction l as [|h l IH]; intros s; cbn [m_for]; [by apply wp_ret|].
  apply wp_bind, wp_bind, wp_bind. unfold wp at 1, call. destruct (close_file h (world s)). by apply wp_bind, wp_modify, wp_ret, wp_ret, IH.
Qed.

Lemma wp_console_fail e l (Q : option error → st W → Prop) s : (∀ e s', Q (Some e) s') → wp (console_fail e l) Q s.
Proof. intros HQ. unfold console_fail. apply wp_bind, wp_CloseFiles_any. intros s'. by apply wp_ret. Qed.

Lemma wp_copyToBinary path s0 H G s (Q : option error → st W → Prop) :
  acct s0 H ∅ G s → H ⊆ ⋃ G → (∀ e s', Q (Some e) s') →
  (∀ s', console_spec s0 (λ l, size l = 4%nat) s' → Q None s') → wp (copyToBinary path) Q s.
Proof.
  intros HA HH HE HO. unfold copyToBinary. destruct NamespaceRequired; [|by apply wp_ret].
  apply wp_bind. eapply wp_pipe; [done|intros; by apply wp_console_fail|]. intros r1 w1 s1 _ _ N1 N2 N3 HA1.
  apply wp_bind. eapply wp_pipe; [done|intros; by apply wp_console_fail|]. intros r2 w2 s2 _ _ N4 N5 N6 HA2.
  apply wp_bind. eapply wp_pipe; [done|intros; by apply wp_console_fail|]. intros r3 w3 s3 _ Hw3 N7 N8 N9 HA3.
  unfold console_start. apply wp_bind. eapply wp_go; [done|]. intros s4 HA4. apply wp_bind. eapply wp_io_call; [done|]. intros x s5 HA5.
  destruct (cmd_Start path x).1; [by apply wp_console_fail|]. apply wp_bind. eapply wp_start_p; [done|]. intros p s6 _ _ HA6.
  apply wp_bind. eapply wp_close_new; [done|done|]. intros [e|] s7 HA7; [by apply wp_console_fail|].
  apply wp_bind. eapply wp_io_call; [done|]. intros y s8 HA8. destruct (read_ready y).1; [by apply wp_console_fail|].
  apply wp_ret, HO. simpl in *. eexists _, _, _, {[r1; r2; w2; r3]}. split; [exact HA8|]. split.
  - rewrite !size_union by set_solver. by rewrite !size_singleton.
  - split; [rewrite union_list_app|]; simpl; set_solver.
Qed.

Lemma wp_copyToFifo stdout s0 H G s (Q : option error → st W → Prop) :
  acct s0 H ∅ G s → H ⊆ ⋃ G → (∀ e s', Q (Some e) s') → (∀ s', console_spec s0 (λ l, l = ∅) s' → Q None s') → wp (copyToFifo stdout) Q s.
Proof.
  intros HA HH HE HO. unfold copyToFifo. apply wp_bind. eapply wp_opening; [done|intros; by apply wp_ret|]. intros w s1 _ _ HA1.
  apply wp_bind. eapply wp_opening; [done|intros; by apply wp_ret|]. intros r s2 _ _ HA2. apply wp_bind. eapply wp_go; [done|]. intros s3 HA3.
  apply wp_ret, HO. eexists _, _, _, ∅. split; [exact HA3|]. split; [done|]. split; [rewrite union_list_app; simpl|]; set_solver.
Qed.

Lemma wp_copyToStream stdout s0 H G s (Q : option error → st W → Prop) :
  acct s0 H ∅ G s → H ⊆ ⋃ G → (∀ e s', Q (Some e) s') → (∀ s', console_spec s0 (λ l, l = ∅) s' → Q None s') → wp (copyToStream stdout) Q s.
Proof.
  intros HA HH HE HO. unfold copyToStream. destruct (ParseUint _ _ _) as [sid|]; [|by apply wp_ret]. apply wp_bind.
  eapply wp_io_call; [done|]. intros w s1 HA1. destruct (sm_Get sid w).1 as [h|]; [|by apply wp_ret]. apply wp_bind. eapply wp_go; [done|].
  intros s2 HA2. apply wp_ret, HO. eexists _, _, _, ∅. split; [exact HA2|]. split; [done|]. split; [rewrite union_list_app; simpl|]; set_solver.
Qed.

(** The files of a console: when [CopyConsole] succeeds, every file it opened is
    closed by a goroutine it started, except, for a logging binary, exactly four
    ends of pipes that nothing closes. *)
Theorem console_files_owned stdin stdout s c s' :
  fresh_st s → CopyConsole stdin stdout s = Return (Ok c, s') →
  ∃ scheme path, url_Parse stdout = Ok (scheme, path) ∧
    console_spec s (λ l, if String.eqb scheme "binary" then size l = 4%nat else l = ∅) s'.
Proof.
  intros Hf. cut (wp (CopyConsole stdin stdout) (λ r s', ∀ c, r = Ok c → ∃ scheme path, url_Parse stdout = Ok (scheme, path) ∧
    console_spec s (λ l, if String.eqb scheme "binary" then size l = 4%nat else l = ∅) s') s).
  { intros (r & s1 & E & HC)%wp_Return E2. rewrite E in E2. simplify_eq. by eapply HC. }
  unfold CopyConsole. apply wp_bind. eapply wp_io_call; [by apply acct_refl|]. intros w s1 HA1. destruct (epoller_Add w).1; [by apply wp_ret|].
  apply wp_bind. eapply wp_setupStdinCopy; [done|intros; by apply wp_ret|]. intros c0 H G s2 HA2 HH.
  destruct (url_Parse stdout) as [[scheme path]|e]; [|by apply wp_ret]. apply wp_bind.
  destruct (String.eqb_spec scheme "stream") as [->|]; [eapply wp_copyToStream|destruct (String.eqb scheme "binary") eqn:Eb; [eapply wp_copyToBinary|eapply wp_copyToFifo]];
    try done; try (intros; by apply wp_ret); intros s3 HS; apply wp_ret; intros ? _; eexists _, _; (split; [reflexivity|]).
  - exact HS.
  - rewrite Eb. exact HS.
  - rewrite Eb. exact HS.
Qed.
End accounting.

(** ** Concrete processes *)

Module GuestIODemo.
Import GuestIO.
Import ShimIO (Stdio, mkStdio, Stdin, Stdout, Stderr, streams, s_in, s_out, s_err).

(** A system where every call succeeds, but for the pipes if the world says so;
    streams are files 1, 2 and 3. *)
#[local] Instance demo : Env bool := {|
  url_Parse p := match CutPrefix p "binary://" with
                 | Some path => Ok ("binary", path)
                 | None => match CutPrefix p "file://" with
                           | Some path => Ok ("file", path)
                           | None => if HasPrefix p "stream://" then Ok ("stream", "") else Ok ("", p)
                           end
                 end;
  NamespaceRequired := Ok "default";
  sm_Get sid w := (Some sid, w);
  NewPipeIO _ w := (if (w : bool) then Some (ErrNew "EMFILE") else None, w);
  NewNullIO w := (None, w);
  os_MkdirAll _ w := (None, w);
  os_OpenFile _ w := (None, w);
  OpenFifo _ _ w := (None, w);
  os_Pipe w := (None, w);
  cmd_Start _ w := (None, w);
  read_ready w := (None, w);
  close_file _ w := (None, w);
  proc_Signal _ w := (None, w);
  proc_Kill _ w := (None, w);
  proc_Wait _ w := (Some None, w);
  epoller_Add w := (None, w) |}.

Definition start (full : bool) : st bool := mkSt full 4 {[1; 2; 3]} ∅ [].

Lemma createIO_accounted_witness :
  fresh_st (start false) ∧ kills (W := bool) ∧
  ∃ r s', createIO (mkStdio "" "binary:///bin/log" "" false) (start false) = Return (r, s') ∧
    match r with
    | Err _ => live s' ⊆ live (start false) ∧ procs s' = procs (start false)
    | Ok p => ∃ e s2, processIO_Close p s' = Return (e, s2) ∧ procs s2 = procs (start false) ∧
        match p_io p with
        | Some (BinaryIO _) => ∃ r, r ∉ live (start false) ∧ live s2 = {[r]} ∪ live (start false)
        | _ => live s2 = live (start false)
        end
    end.
Proof.
  assert (fresh_st (start false)) as Hf by (intros x; simpl; set_unfold; lia).
  assert (kills (W := bool)) as Hk by done. split; [exact Hf|]. split; [exact Hk|].
  exact (createIO_accounted (mkStdio "" "binary:///bin/log" "" false) (start false) Hf Hk).
Defined.

(** A logging binary leaves a file open; the streams of a process are closed
    neither by [Close] nor when its pipes cannot be made, although a stream that
    cannot be found closes those before it. *)
Example binary_keeps_ready_end :
  (match createIO (mkStdio "" "binary:///bin/log" "" false) (start false) with
   | Return (Ok p, s) => match processIO_Close p s with Return (_, s2) => Some (elements (live s2 ∖ {[1; 2; 3]}), elements (procs s2)) | _ => None end
   | _ => None
   end) = Some ([8], []).
Proof. vm_compute. reflexivity. Qed.

Example streams_left_open :
  (match createIO (mkStdio "stream://1" "stream://2" "stream://3" false) (start true) with
   | Return (Err e, s) => bool_decide (live s = {[1; 2; 3]})
   | _ => false
   end) = true.
Proof. vm_compute. reflexivity. Qed.

(** With a file as stdout and no stderr, the process gets no pipe for stderr but the
    copy is told to make one. *)
Example file_without_stderr :
  let sio := mkStdio "" "file:///log" "" false in
  (withConditionalIO sio,
   match createIO sio (start false) with Return (Ok p, _) => Some (Stderr (p_stdio p)) | _ => None end) =
  ((false, true, false), Some "/log").
Proof. vm_compute. reflexivity. Qed.

End GuestIODemo.
