(* ===== verification/GuestRuntime.v ===== *)
(** * The OCI runtime of the guest

    Models what surrounds the calls of the OCI runtime in
    internal/guest/vminit/runc/container.go (which runtime is used, the options file
    of a container), internal/guest/vminit/process/utils.go (the last error in the
    runtime's log) and internal/guest/vminit/task/exec.go (the processes of a
    container). *)

From S2P Require Import Prelude GoStrings.
From Stdlib Require Import Ascii.

Module GuestRuntime.
#[local] Open Scope m_scope.

(** ** Which runtime *)

Definition defaultRuntimePath : string := "/sbin/crun".
Definition candidates : list string :=
  ["/sbin/crun"; "/usr/bin/crun"; "/usr/local/bin/crun"; "/sbin/runc"; "/usr/bin/runc"].

(** The state is the result of [runtimePathOnce]; [getenv] and [exists_] are what
    the environment and the file system answer at the time of the call. *)
Definition getRuntimePath (getenv : string → string) (exists_ : string → bool) : M (option string) string :=
  r ← m_get id;
  match r with
  | Some path => m_ret path
  | None =>
      let path :=
        if negb (String.eqb (getenv "SPINBOX_OCI_RUNTIME") "") then getenv "SPINBOX_OCI_RUNTIME"
        else match List.find exists_ candidates with Some p => p | None => defaultRuntimePath end in
      m_modify (λ _, Some path) ≫= λ _, m_ret path
  end.

(** ** Options *)

Definition optionsFilename : string := "options.json".

(** Files by their path, each of which may be unreadable. *)
Record files := mkFiles { contents : gmap string string; unreadable : gset string; readonly : gset string }.

Section options.
Context {Options : Type} (empty_options : Options).
Context (Marshal : Options → result string) (Unmarshal : string → result Options).

Definition ReadOptions (path : string) : M files (result Options) :=
  let filePath := filepath_Join [path; optionsFilename] in
  fs ← m_get id;
  match contents fs !! filePath with
  | None => m_ret (Ok empty_options)
  | Some data => m_ret (if bool_decide (filePath ∈ unreadable fs) then Err (ErrNew "permission denied") else Unmarshal data)
  end.

Definition WriteOptions (path : string) (opts : Options) : M files (option error) :=
  match Marshal opts with
  | Err e => m_ret (Some e)
  | Ok data =>
      let filePath := filepath_Join [path; optionsFilename] in
      fs ← m_get id;
      if bool_decide (filePath ∈ readonly fs) then m_ret (Some (ErrNew "permission denied"))
      else m_modify (λ fs, mkFiles (<[filePath := data]> (contents fs)) (unreadable fs) (readonly fs)) ≫= λ _, m_ret None
  end.

End options.

(** ** The runtime's log *)

(** An entry of the log as JSON has it, with fields that may be missing, and how the
    log ends. *)
Record entry := mkEntry { e_level : option string; e_msg : option string }.
Inductive log_end := EOF | Broken (e : error).

(** The loop of [getLastRuntimeError]: decoding keeps the fields of the entry before
    that the next one does not have. *)
Fixpoint scan (level msg errMsg : string) (l : list entry) (fin : log_end) : result string :=
  let keep level msg := if String.eqb level "error" then TrimSpace msg else errMsg in
  match l with
  | [] => match fin with EOF => Ok (keep level msg) | Broken e => Err e end
  | x :: l' =>
      let level := default level (e_level x) in
      let msg := default msg (e_msg x) in
      scan level msg (keep level msg) l' fin
  end.

(** The path of the log and what opening and decoding it gave. *)
Definition getLastRuntimeError (log : string) (file : result (list entry * log_end)) : result string :=
  if String.eqb log "" then Ok ""
  else match file with Err e => Err e | Ok (l, fin) => scan "" "" "" l fin end.

(** ** Processes *)

Record ProcessInfo := mkInfo { i_Pid : Z; i_ExecID : option string }.

(** [Pids]: the processes that the runtime lists, with the IDs of those that were
    started by an exec; [execs] in the order in which the map was iterated. *)
Definition getContainerPids (ps : result (list Z)) : result (list Z) :=
  match ps with Err e => Err e | Ok l => Ok (wrapu32 <$> l) end.
Definition Pids (ps : result (list Z)) (execs : list (string * Z)) : result (list ProcessInfo) :=
  match getContainerPids ps with
  | Err e => Err e
  | Ok pids => Ok ((λ pid, mkInfo pid (fst <$> List.find (λ x, snd x =? pid) execs)) <$> pids)
  end.

End GuestRuntime.

(** ** Properties *)

Section runtime.
Import GuestRuntime.

(** The runtime is chosen once: whatever the environment and the file system say
    later, it is the one of the first call, which is the one that the environment
    names, else the first of the candidates that exists, else the default. *)
Theorem runtime_chosen_once getenv ex getenv' ex' :
  ∃ path, getRuntimePath getenv ex None = Return (path, Some path) ∧
    getRuntimePath getenv' ex' (Some path) = Return (path, Some path) ∧
    (getenv "SPINBOX_OCI_RUNTIME" ≠ "" → path = getenv "SPINBOX_OCI_RUNTIME") ∧
    (getenv "SPINBOX_OCI_RUNTIME" = "" →
      (ex path = true ∧ ∃ pre post, candidates = pre ++ path :: post ∧ Forall (λ p, ex p = false) pre) ∨
      (path = defaultRuntimePath ∧ Forall (λ p, ex p = false) candidates)).
Proof.
  exists (if negb (String.eqb (getenv "SPINBOX_OCI_RUNTIME") "") then getenv "SPINBOX_OCI_RUNTIME"
          else match List.find ex candidates with Some p => p | None => defaultRuntimePath end).
  split; [reflexivity|]. split; [reflexivity|]. split.
  - intros Hne. by destruct (String.eqb_spec (getenv "SPINBOX_OCI_RUNTIME") "").
  - intros ->. cbn [String.eqb negb].
    assert (∀ l, match List.find ex l with
      | Some p => ex p = true ∧ ∃ pre post, l = pre ++ p :: post ∧ Forall (λ p, ex p = false) pre
      | None => Forall (λ p, ex p = false) l end) as Hfind.
    { induction l as [|p l IH]; cbn; [constructor|]. destruct (ex p) eqn:Ep; [by split; [|exists [], l]|].
      destruct (List.find ex l) as [p'|]; [|by constructor]. destruct IH as (? & pre & post & -> & ?).
      split; [done|]. exists (p :: pre), post. split; [done|]. by constructor. }
    specialize (Hfind candidates). destruct (List.find ex candidates); auto.
Qed.

(** What was written is read back, and without a file the options are empty. *)
Theorem options_roundtrip {Options} empty_options (Marshal : Options → result string) Unmarshal path opts fs fs' :
  (∀ o data, Marshal o = Ok data → Unmarshal data = Ok o) →
  filepath_Join [path; optionsFilename] ∉ unreadable fs →
  WriteOptions Marshal path opts fs = Return (None, fs') →
  ReadOptions empty_options Unmarshal path fs' = Return (Ok opts, fs').
Proof.
  intros Hlaw Hr. unfold WriteOptions, ReadOptions, m_bind, m_get, m_ret, m_modify. destruct (Marshal opts) as [data|] eqn:Em; [|done].
  case_bool_decide; [done|]. intros [= <-]. cbn. rewrite lookup_insert_eq, bool_decide_eq_false_2 by done. by rewrite (Hlaw _ _ Em).
Qed.

(** The levels and messages after every entry. *)
Fixpoint effective (level msg : string) (l : list entry) : list (string * string) :=
  match l with
  | [] => []
  | x :: l' => let lv := default level (e_level x) in let ms := default msg (e_msg x) in (lv, ms) :: effective lv ms l'
  end.

Lemma scan_last level msg errMsg l :
  (level = "error" → errMsg = TrimSpace msg) →
  scan level msg errMsg l EOF =
  Ok (match last (List.filter (λ x, String.eqb (fst x) "error") (effective level msg l)) with
      | Some x => TrimSpace (snd x) | None => errMsg end).
Proof.
  revert level msg errMsg. induction l as [|x l IH]; intros level msg errMsg He; cbn [scan effective List.filter].
  - destruct (String.eqb_spec level "error") as [->|]; [by rewrite He|done].
  - set (lv := default level (e_level x)). set (ms := default msg (e_msg x)). rewrite IH.
    + cbn [fst]. destruct (String.eqb lv "error"); [|done].
      rewrite last_cons. by destruct (last _).
    + intros ->. done.
Qed.

(** The error that is reported is the trimmed message of the last entry whose level
    is error; a log without such an entry gives no message, a broken one an error. *)
Theorem last_runtime_error log l fin :
  log ≠ "" →
  getLastRuntimeError log (Ok (l, fin)) =
  match fin with
  | Broken e => Err e
  | EOF => Ok (match last (List.filter (λ x, String.eqb (fst x) "error") (effective "" "" l)) with
               | Some x => TrimSpace (snd x) | None => "" end)
  end.
Proof.
  intros Hl. unfold getLastRuntimeError. rewrite (proj2 (String.eqb_neq _ _) Hl). destruct fin as [|e]; [by apply scan_last|].
  generalize (""%string) at 1 as lv. generalize (""%string) at 1 as ms. generalize (""%string) at 1 as em.
  induction l as [|x l IH]; intros; [done|]. cbn [scan]. apply IH.
Qed.

(** Every process the runtime lists is reported, in that order, and marked with the
    ID of an exec exactly if an exec has this process ID. *)
Theorem Pids_complete l execs :
  Forall (λ p, 0 ≤ p < 2 ^ 32) l →
  ∃ infos, Pids (Ok l) execs = Ok infos ∧ i_Pid <$> infos = l ∧
    Forall (λ i, match i_ExecID i with
                 | Some id => (id, i_Pid i) ∈ execs
                 | None => ∀ id, (id, i_Pid i) ∉ execs end) infos.
Proof.
  intros Hl. eexists. split; [reflexivity|]. assert (wrapu32 <$> l = l) as Hw.
  { induction Hl as [|p l Hp _ IH]; [done|]. cbn. rewrite IH. f_equal. by apply Z.mod_small. }
  rewrite Hw. split.
  - rewrite <- list_fmap_compose. apply list_fmap_id.
  - apply Forall_fmap, Forall_forall. intros pid _. cbn. destruct (List.find _ execs) as [[id p]|] eqn:E; cbn.
    + apply find_some in E as [Hin Hp]. cbn in Hp. apply Z.eqb_eq in Hp as ->. by apply list_elem_of_In.
    + intros id Hin%list_elem_of_In. pose proof (find_none _ _ E _ Hin) as Hn. cbn in Hn. by rewrite Z.eqb_refl in Hn.
Qed.

(** An entry without a level counts with the level of the entry before. *)
Example level_inherited :
  getLastRuntimeError "log.json" (Ok ([mkEntry (Some "error") (Some "no such file "); mkEntry None (Some "retrying")], EOF)) = Ok "retrying".
Proof. vm_compute. reflexivity. Qed.

End runtime.
